(** * Crop-and-resize CPU kernels

    Source: tensorflow/core/kernels/crop_and_resize_op.cc.

    A shallow embedding of the six CPU functors of the file

      - [functor::CropAndResize<CPUDevice, T>]              (lines 320-422)
      - [functor::CropAndResize3D<CPUDevice, T>]            (lines 429-567)
      - [functor::CropAndResizeBackpropImage<CPUDevice, T>]   (lines 750-824)
      - [functor::CropAndResizeBackpropImage3D<CPUDevice, T>] (lines 831-930)
      - [functor::CropAndResizeBackpropBoxes<CPUDevice, T>]   (lines 1107-1213)
      - [functor::CropAndResizeBackpropBoxes3D<CPUDevice, T>] (lines 1220-1367)

    and the properties of them that the specification states.

    Modelling decisions.

    - Numbers.  The kernels are templates over the element type [T] and
      compute in [float].  The embedding is generic in both: [FloatOps F]
      lists the operations the kernels apply to working-precision values
      (one operation per C++ operator, conversion or libm call) and
      [ElemOps T F] the casts between [T] and the working precision.  Every
      theorem that does not mention [Q] holds for any interpretation of
      these operations, rounding ones included.  Two instances are
      given: exact rational arithmetic ([Q], values compared with [==]),
      for the theorems that need arithmetic laws, and IEEE 754 single
      precision ([Binary32], with its infinities and its NaN), the type
      [float] of the kernels, on which the kernels are run where rounding,
      overflow or NaN decide what they do.  Nothing is assumed of the
      arithmetic: what memory safety needs of it is a property of the
      coordinates of the store at hand ([boxes_indexable2],
      [boxes_indexable3]) and a hypothesis wherever it is used.  The model
      has one working precision: the places where C++ promotes a product
      to [double] because of the literal [0.5] are computed in [F].
    - Integers ([int], [int32]) are [Z]; all integer arithmetic of the
      kernels is on tensor extents and loop counters.
    - Tensors (Eigen [TensorMap]s) are a list of extents and a function
      from index tuples to elements.  An access whose index tuple is out
      of the extents is undefined behaviour in C++; here it makes the
      kernel return [None].
    - The tensors a kernel is handed form the [Store]; a kernel is a
      computation in a state-and-failure monad over the store, with the
      scalar parameters as function arguments.
    - Loops are [for_range lo hi body]; [continue] is [ret tt] in the
      branch that ends the iteration.

    The development then covers the rest of the CPU path of the file:
    [ParseAndCheckBoxSizes] and [ParseAndCheckBoxSizes3D] (lines
    53-105), [RunIfBoxIndexIsValid<CPUDevice>] (lines 116-132) and the
    method [ComputeAsync] of the six op classes (lines 149-220,
    239-311, 580-654, 668-744, 945-1015 and 1029-1101), which validate
    the inputs, allocate the output and run the functors.  An op is a
    function from the context it is given to the context it leaves, in
    continuation-passing style as the [OP_REQUIRES] macros have it;
    [None] is undefined behaviour or a fatal error. *)

From Stdlib Require Import ZArith QArith Qround Qfield List Bool Lia Lqa.
From Stdlib Require Import SpecFloat.
From Stdlib Require String.
Import ListNotations String.StringSyntax.

Set Implicit Arguments.

Local Open Scope Z_scope.

(* ================================================================== *)
(** * Numbers *)

(** The operations applied to [float] values by the kernels. *)
Class FloatOps (F : Type) : Type := {
  fadd : F -> F -> F;        (* a + b *)
  fsub : F -> F -> F;        (* a - b *)
  fmul : F -> F -> F;        (* a * b *)
  fdiv : F -> F -> F;        (* a / b *)
  flt : F -> F -> bool;      (* a < b *)
  of_int : Z -> F;           (* the conversion int -> float *)
  fhalf : F;                 (* the literal 0.5 *)
  floorf : F -> Z;           (* const int i = floorf(x) *)
  ceilf : F -> Z             (* const int i = ceilf(x) *)
}.

(** The operations on the element type [T] of the image tensors. *)
Class ElemOps (T F : Type) : Type := {
  to_float : T -> F;         (* static_cast<float>(t) *)
  of_float : F -> T;         (* static_cast<T>(x) *)
  tzero : T;                 (* the value written by setZero *)
  tadd : T -> T -> T         (* the sum computed by += on T *)
}.

Declare Scope float_scope.
Delimit Scope float_scope with fl.
Infix "+^" := fadd (at level 50, left associativity) : float_scope.
Infix "-^" := fsub (at level 50, left associativity) : float_scope.
Infix "*^" := fmul (at level 40, left associativity) : float_scope.
Infix "/^" := fdiv (at level 40, left associativity) : float_scope.

(* ================================================================== *)
(** * Tensors *)

Record Tensor (A : Type) : Type := mkTensor {
  dims : list Z;             (* the extents, outermost first *)
  elt : list Z -> A          (* the element at an index tuple *)
}.

(** [t.dimension(k)] *)
Definition dimension {A} (t : Tensor A) (k : nat) : Z := nth k (dims t) 0.

(** An index tuple is in range when it has one index per extent, each in
    [0, extent). *)
Fixpoint in_range (ds ix : list Z) : bool :=
  match ds, ix with
  | [], [] => true
  | n :: ds', i :: ix' => (0 <=? i) && (i <? n) && in_range ds' ix'
  | _, _ => false
  end.

Fixpoint idx_eqb (i j : list Z) : bool :=
  match i, j with
  | [], [] => true
  | a :: i', b :: j' => (a =? b) && idx_eqb i' j'
  | _, _ => false
  end.

(** The tensor after [t(ix) = v]. *)
Definition tupdate {A} (t : Tensor A) (ix : list Z) (v : A) : Tensor A :=
  {| dims := dims t;
     elt := fun j => if idx_eqb j ix then v else elt t j |}.

(** The tensor after [t.setZero()]. *)
Definition tfill {A} (t : Tensor A) (v : A) : Tensor A :=
  {| dims := dims t; elt := fun _ => v |}.

(** Row-major position of an index tuple, to build tensors from and read
    them back as flat lists. *)
Fixpoint flat_index (ds ix : list Z) (acc : Z) : Z :=
  match ds, ix with
  | n :: ds', i :: ix' => flat_index ds' ix' (acc * n + i)
  | _, _ => acc
  end.

Definition tensor_of_list {A} (ds : list Z) (default : A) (l : list A)
  : Tensor A :=
  {| dims := ds;
     elt := fun ix => nth (Z.to_nat (flat_index ds ix 0)) l default |}.

Fixpoint all_indices (ds : list Z) : list (list Z) :=
  match ds with
  | [] => [[]]
  | n :: ds' =>
      flat_map (fun i => map (cons (Z.of_nat i)) (all_indices ds'))
               (seq 0 (Z.to_nat n))
  end.

Definition tensor_values {A} (t : Tensor A) : list A :=
  map (elt t) (all_indices (dims t)).

(* ================================================================== *)
(** * The store and the kernel monad *)

Section Kernels.

Context {F T : Type} {FO : FloatOps F} {EO : ElemOps T F}.

Local Open Scope float_scope.

(** The tensors handed to the kernels, under the names of the C++
    parameters.  [image], [boxes], [box_index] and [grads] are
    [ConstTensor]s; [crops], [grads_image] and [grads_boxes] are the
    output tensors of the forward, image-gradient and box-gradient
    kernels. *)
Record Store : Type := mkStore {
  image : Tensor T;
  boxes : Tensor F;
  box_index : Tensor Z;
  grads : Tensor F;
  crops : Tensor F;
  grads_image : Tensor T;
  grads_boxes : Tensor F
}.

Definition set_crops (s : Store) (t : Tensor F) : Store :=
  {| image := image s; boxes := boxes s; box_index := box_index s;
     grads := grads s; crops := t; grads_image := grads_image s;
     grads_boxes := grads_boxes s |}.

Definition set_grads_image (s : Store) (t : Tensor T) : Store :=
  {| image := image s; boxes := boxes s; box_index := box_index s;
     grads := grads s; crops := crops s; grads_image := t;
     grads_boxes := grads_boxes s |}.

Definition set_grads_boxes (s : Store) (t : Tensor F) : Store :=
  {| image := image s; boxes := boxes s; box_index := box_index s;
     grads := grads s; crops := crops s; grads_image := grads_image s;
     grads_boxes := t |}.

(** A kernel computation: from a store to a result and a store, or
    [None] after an access out of the extents of a tensor. *)
Definition M (A : Type) : Type := Store -> option (A * Store).

Definition ret {A} (a : A) : M A := fun s => Some (a, s).

Definition bind {A B} (m : M A) (k : A -> M B) : M B :=
  fun s => match m s with
           | Some (a, s') => k a s'
           | None => None
           end.

Notation "x <- m ;; k" := (bind m (fun x => k))
  (at level 61, m at next level, right associativity).
Notation "m ;;; k" := (bind m (fun _ => k))
  (at level 61, right associativity).

(** [t.dimension(k)] of a tensor of the store. *)
Definition get_dim {A} (sel : Store -> Tensor A) (k : nat) : M Z :=
  fun s => Some (dimension (sel s) k, s).

(** The read [t(ix)] of a tensor of the store. *)
Definition read {A} (sel : Store -> Tensor A) (ix : list Z) : M A :=
  fun s => if in_range (dims (sel s)) ix
           then Some (elt (sel s) ix, s) else None.

(** [crops(ix) = v] *)
Definition write_crops (ix : list Z) (v : F) : M unit :=
  fun s => if in_range (dims (crops s)) ix
           then Some (tt, set_crops s (tupdate (crops s) ix v)) else None.

(** [grads_image(ix) += v] *)
Definition add_grads_image (ix : list Z) (v : T) : M unit :=
  fun s => if in_range (dims (grads_image s)) ix
           then Some (tt, set_grads_image s
                     (tupdate (grads_image s) ix
                              (tadd (elt (grads_image s) ix) v)))
           else None.

(** [grads_boxes(ix) += v] *)
Definition add_grads_boxes (ix : list Z) (v : F) : M unit :=
  fun s => if in_range (dims (grads_boxes s)) ix
           then Some (tt, set_grads_boxes s
                     (tupdate (grads_boxes s) ix
                              (elt (grads_boxes s) ix +^ v)))
           else None.

(** [grads_image.setZero()] and [grads_boxes.setZero()] *)
Definition setZero_grads_image : M unit :=
  fun s => Some (tt, set_grads_image s (tfill (grads_image s) tzero)).

Definition setZero_grads_boxes : M unit :=
  fun s => Some (tt, set_grads_boxes s (tfill (grads_boxes s) (of_int 0))).

(** [for (int i = lo; i < hi; ++i) body(i)] *)
Fixpoint for_loop (n : nat) (i : Z) (body : Z -> M unit) : M unit :=
  match n with
  | O => ret tt
  | S n' => body i ;;; for_loop n' (i + 1) body
  end.

Definition for_range (lo hi : Z) (body : Z -> M unit) : M unit :=
  for_loop (Z.to_nat (hi - lo)) lo body.

(** Modelled from the spec: [FastBoundsCheck] of
    tensorflow/core/kernels/bounds_check.h, which is not part of the
    sources at hand.  The specification (sections 2 and 7) gives its
    meaning: the index lies in [0, limit). *)
Definition FastBoundsCheck (index limit : Z) : bool :=
  (0 <=? index) && (index <? limit).

(** Modelled from the spec: [Shard] of tensorflow/core/util/work_sharder.h,
    which is not part of the sources at hand.  The specification
    (sections 2 and 5) describes it as splitting [0, total) into
    contiguous ranges, each handed to [work]; the model runs the ranges
    one after the other, which is [work 0 total] (see [for_range_split]
    below).  The cost estimate only sizes the ranges and is left out. *)
Definition Shard (total : Z) (work : Z -> Z -> M unit) : M unit :=
  work 0 total.

(* ================================================================== *)
(** * Coordinate mapping

    The source repeats these expressions in every kernel; they are
    named here once. *)

(** [in < 0 || in > ext - 1] (lines 361, 377, 476, 494, 510, 789, 800,
    877, 888, 899, 1153, 1164, 1274, 1285, 1296) *)
Definition out_of_image (in_c : F) (ext : Z) : bool :=
  flt in_c (of_int 0) || flt (of_int (ext - 1)) in_c.

(** [(crop > 1) ? (p2 - p1) * (ext - 1) / (crop - 1) : 0]
    (lines 349-355, 462-470, 778-783, 863-871) *)
Definition axis_scale (p1 p2 : F) (ext crop : Z) : F :=
  if 1 <? crop
  then (p2 -^ p1) *^ of_int (ext - 1) /^ of_int (crop - 1)
  else of_int 0.

(** [(crop > 1) ? static_cast<float>(ext - 1) / (crop - 1) : 0]
    (lines 1136-1143, 1253-1264) *)
Definition axis_ratio (ext crop : Z) : F :=
  if 1 <? crop then of_int (ext - 1) /^ of_int (crop - 1) else of_int 0.

(** [(crop > 1) ? (p2 - p1) * ratio : 0] (lines 1145-1147, 1266-1268) *)
Definition ratio_scale (p1 p2 ratio : F) (crop : Z) : F :=
  if 1 <? crop then (p2 -^ p1) *^ ratio else of_int 0.

(** [(crop > 1) ? p1 * (ext - 1) + i * scale : 0.5 * (p1 + p2) * (ext - 1)]
    (lines 358-360, 374-376, 473-475, 491-493, 507-509, 786-788, 797-799,
    874-876, 885-887, 896-898, 1150-1152, 1161-1163, 1271-1273, 1282-1284,
    1293-1295) *)
Definition in_coord (p1 p2 : F) (ext crop : Z) (scale : F) (i : Z) : F :=
  if 1 <? crop
  then p1 *^ of_int (ext - 1) +^ of_int i *^ scale
  else fhalf *^ (p1 +^ p2) *^ of_int (ext - 1).

(* ================================================================== *)
(** * Forward kernel, 2D: [functor::CropAndResize<CPUDevice, T>] *)

Section CropAndResize2D.

(* The locals captured by the lambda [CropAndResizePerBox]. *)
Variables (batch_size image_height image_width : Z).
Variables (crop_height crop_width depth : Z).
Variable extrapolation_value : F.

(** Body of the loop over [d], lines 387-400. *)
Definition CropAndResize_channel (b b_in y x : Z)
    (top_y_index bottom_y_index : Z) (y_lerp : F)
    (left_x_index right_x_index : Z) (x_lerp : F) (d : Z) : M unit :=
  tl <- read image [b_in; top_y_index; left_x_index; d] ;;
  tr <- read image [b_in; top_y_index; right_x_index; d] ;;
  bl <- read image [b_in; bottom_y_index; left_x_index; d] ;;
  br <- read image [b_in; bottom_y_index; right_x_index; d] ;;
  let top_left := to_float tl in
  let top_right := to_float tr in
  let bottom_left := to_float bl in
  let bottom_right := to_float br in
  let top := top_left +^ (top_right -^ top_left) *^ x_lerp in
  let bottom := bottom_left +^ (bottom_right -^ bottom_left) *^ x_lerp in
  write_crops [b; y; x; d] (top +^ (bottom -^ top) *^ y_lerp).

(** Body of the loop over [x], lines 373-401. *)
Definition CropAndResize_col (b b_in : Z) (x1 x2 width_scale : F) (y : Z)
    (top_y_index bottom_y_index : Z) (y_lerp : F) (x : Z) : M unit :=
  let in_x := in_coord x1 x2 image_width crop_width width_scale x in
  if out_of_image in_x image_width then
    for_range 0 depth (fun d => write_crops [b; y; x; d] extrapolation_value)
  else
    let left_x_index := floorf in_x in
    let right_x_index := ceilf in_x in
    let x_lerp := in_x -^ of_int left_x_index in
    for_range 0 depth
      (CropAndResize_channel b b_in y x top_y_index bottom_y_index y_lerp
         left_x_index right_x_index x_lerp).

(** Body of the loop over [y], lines 357-402. *)
Definition CropAndResize_row (b b_in : Z)
    (y1 x1 y2 x2 height_scale width_scale : F) (y : Z) : M unit :=
  let in_y := in_coord y1 y2 image_height crop_height height_scale y in
  if out_of_image in_y image_height then
    for_range 0 crop_width (fun x =>
      for_range 0 depth (fun d =>
        write_crops [b; y; x; d] extrapolation_value))
  else
    let top_y_index := floorf in_y in
    let bottom_y_index := ceilf in_y in
    let y_lerp := in_y -^ of_int top_y_index in
    for_range 0 crop_width
      (CropAndResize_col b b_in x1 x2 width_scale y
         top_y_index bottom_y_index y_lerp).

(** Body of the loop over [b], lines 338-403. *)
Definition CropAndResize_box (b : Z) : M unit :=
  y1 <- read boxes [b; 0] ;;
  x1 <- read boxes [b; 1] ;;
  y2 <- read boxes [b; 2] ;;
  x2 <- read boxes [b; 3] ;;
  b_in <- read box_index [b] ;;
  if negb (FastBoundsCheck b_in batch_size) then ret tt
  else
    let height_scale := axis_scale y1 y2 image_height crop_height in
    let width_scale := axis_scale x1 x2 image_width crop_width in
    for_range 0 crop_height
      (CropAndResize_row b b_in y1 x1 y2 x2 height_scale width_scale).

(** The lambda [CropAndResizePerBox], lines 337-404. *)
Definition CropAndResizePerBox (start_box limit_box : Z) : M unit :=
  for_range start_box limit_box CropAndResize_box.

End CropAndResize2D.

(** [operator()], lines 321-421. *)
Definition CropAndResize (extrapolation_value : F) : M unit :=
  batch_size <- get_dim image 0 ;;
  image_height <- get_dim image 1 ;;
  image_width <- get_dim image 2 ;;
  num_boxes <- get_dim crops 0 ;;
  crop_height <- get_dim crops 1 ;;
  crop_width <- get_dim crops 2 ;;
  depth <- get_dim crops 3 ;;
  Shard num_boxes
    (CropAndResizePerBox batch_size image_height image_width
       crop_height crop_width depth extrapolation_value).

(* ================================================================== *)
(** * Forward kernel, 3D: [functor::CropAndResize3D<CPUDevice, T>] *)

Section CropAndResize3D.

Variables (batch_size image_height image_width image_depth : Z).
Variables (crop_height crop_width crop_depth depth : Z).
Variable extrapolation_value : F.

(** Body of the loop over [d], lines 520-536.  Line 533 subtracts
    [bottom_left_front] where the pattern of the other three blends has
    [bottom_left_back]; the embedding follows the source. *)
Definition CropAndResize3D_channel (b b_in y x z : Z)
    (top_y_index bottom_y_index : Z) (y_lerp : F)
    (left_x_index right_x_index : Z) (x_lerp : F)
    (front_z_index back_z_index : Z) (z_lerp : F) (d : Z) : M unit :=
  tlf <- read image [b_in; top_y_index; left_x_index; front_z_index; d] ;;
  trf <- read image [b_in; top_y_index; right_x_index; front_z_index; d] ;;
  blf <- read image [b_in; bottom_y_index; left_x_index; front_z_index; d] ;;
  brf <- read image [b_in; bottom_y_index; right_x_index; front_z_index; d] ;;
  tlb <- read image [b_in; top_y_index; left_x_index; back_z_index; d] ;;
  trb <- read image [b_in; top_y_index; right_x_index; back_z_index; d] ;;
  blb <- read image [b_in; bottom_y_index; left_x_index; back_z_index; d] ;;
  brb <- read image [b_in; bottom_y_index; right_x_index; back_z_index; d] ;;
  let top_left_front := to_float tlf in
  let top_right_front := to_float trf in
  let bottom_left_front := to_float blf in
  let bottom_right_front := to_float brf in
  let top_left_back := to_float tlb in
  let top_right_back := to_float trb in
  let bottom_left_back := to_float blb in
  let bottom_right_back := to_float brb in
  let top_front :=
    top_left_front +^ (top_right_front -^ top_left_front) *^ x_lerp in
  let bottom_front :=
    bottom_left_front
    +^ (bottom_right_front -^ bottom_left_front) *^ x_lerp in
  let front := top_front +^ (bottom_front -^ top_front) *^ y_lerp in
  let top_back :=
    top_left_back +^ (top_right_back -^ top_left_back) *^ x_lerp in
  let bottom_back :=
    bottom_left_back
    +^ (bottom_right_back -^ bottom_left_front) *^ x_lerp in
  let back := top_back +^ (bottom_back -^ top_back) *^ y_lerp in
  write_crops [b; y; x; z; d] (front +^ (back -^ front) *^ z_lerp).

(** Body of the loop over [z], lines 506-537.  Line 517 computes
    [back_z_index] as [ceilf(in_x)]; the embedding follows the source. *)
Definition CropAndResize3D_slice (b b_in : Z) (z1 z2 depth_scale : F)
    (y : Z) (top_y_index bottom_y_index : Z) (y_lerp : F)
    (x : Z) (in_x : F) (left_x_index right_x_index : Z) (x_lerp : F)
    (z : Z) : M unit :=
  let in_z := in_coord z1 z2 image_depth crop_depth depth_scale z in
  if out_of_image in_z image_depth then
    for_range 0 depth (fun d =>
      write_crops [b; y; x; z; d] extrapolation_value)
  else
    let front_z_index := floorf in_z in
    let back_z_index := ceilf in_x in
    let z_lerp := in_z -^ of_int front_z_index in
    for_range 0 depth
      (CropAndResize3D_channel b b_in y x z top_y_index bottom_y_index y_lerp
         left_x_index right_x_index x_lerp
         front_z_index back_z_index z_lerp).

(** Body of the loop over [x], lines 490-538. *)
Definition CropAndResize3D_col (b b_in : Z)
    (x1 z1 x2 z2 width_scale depth_scale : F)
    (y : Z) (top_y_index bottom_y_index : Z) (y_lerp : F) (x : Z) : M unit :=
  let in_x := in_coord x1 x2 image_width crop_width width_scale x in
  if out_of_image in_x image_width then
    for_range 0 crop_depth (fun z =>
      for_range 0 depth (fun d =>
        write_crops [b; y; x; z; d] extrapolation_value))
  else
    let left_x_index := floorf in_x in
    let right_x_index := ceilf in_x in
    let x_lerp := in_x -^ of_int left_x_index in
    for_range 0 crop_depth
      (CropAndResize3D_slice b b_in z1 z2 depth_scale
         y top_y_index bottom_y_index y_lerp
         x in_x left_x_index right_x_index x_lerp).

(** Body of the loop over [y], lines 472-539. *)
Definition CropAndResize3D_row (b b_in : Z)
    (y1 x1 z1 y2 x2 z2 height_scale width_scale depth_scale : F)
    (y : Z) : M unit :=
  let in_y := in_coord y1 y2 image_height crop_height height_scale y in
  if out_of_image in_y image_height then
    for_range 0 crop_width (fun x =>
      for_range 0 crop_depth (fun z =>
        for_range 0 depth (fun d =>
          write_crops [b; y; x; z; d] extrapolation_value)))
  else
    let top_y_index := floorf in_y in
    let bottom_y_index := ceilf in_y in
    let y_lerp := in_y -^ of_int top_y_index in
    for_range 0 crop_width
      (CropAndResize3D_col b b_in x1 z1 x2 z2 width_scale depth_scale
         y top_y_index bottom_y_index y_lerp).

(** Body of the loop over [b], lines 449-540. *)
Definition CropAndResize3D_box (b : Z) : M unit :=
  y1 <- read boxes [b; 0] ;;
  x1 <- read boxes [b; 1] ;;
  z1 <- read boxes [b; 2] ;;
  y2 <- read boxes [b; 3] ;;
  x2 <- read boxes [b; 4] ;;
  z2 <- read boxes [b; 5] ;;
  b_in <- read box_index [b] ;;
  if negb (FastBoundsCheck b_in batch_size) then ret tt
  else
    let height_scale := axis_scale y1 y2 image_height crop_height in
    let width_scale := axis_scale x1 x2 image_width crop_width in
    let depth_scale := axis_scale z1 z2 image_depth crop_depth in
    for_range 0 crop_height
      (CropAndResize3D_row b b_in y1 x1 z1 y2 x2 z2
         height_scale width_scale depth_scale).

(** The lambda [CropAndResizePerBox3D], lines 448-541. *)
Definition CropAndResizePerBox3D (start_box limit_box : Z) : M unit :=
  for_range start_box limit_box CropAndResize3D_box.

End CropAndResize3D.

(** [operator()], lines 430-565. *)
Definition CropAndResize3D (extrapolation_value : F) : M unit :=
  batch_size <- get_dim image 0 ;;
  image_height <- get_dim image 1 ;;
  image_width <- get_dim image 2 ;;
  image_depth <- get_dim image 3 ;;
  num_boxes <- get_dim crops 0 ;;
  crop_height <- get_dim crops 1 ;;
  crop_width <- get_dim crops 2 ;;
  crop_depth <- get_dim crops 3 ;;
  depth <- get_dim crops 4 ;;
  Shard num_boxes
    (CropAndResizePerBox3D batch_size image_height image_width image_depth
       crop_height crop_width crop_depth depth extrapolation_value).

(* ================================================================== *)
(** * Image-gradient kernel, 2D:
      [functor::CropAndResizeBackpropImage<CPUDevice, T>] *)

Section CropAndResizeBackpropImage2D.

Variables (batch_size image_height image_width : Z).
Variables (crop_height crop_width depth : Z).

(** Body of the loop over [d], lines 807-818. *)
Definition BackpropImage_channel (b b_in y x : Z)
    (top_y_index bottom_y_index : Z) (y_lerp : F)
    (left_x_index right_x_index : Z) (x_lerp : F) (d : Z) : M unit :=
  g <- read grads [b; y; x; d] ;;
  let dtop := (of_int 1 -^ y_lerp) *^ g in
  add_grads_image [b_in; top_y_index; left_x_index; d]
    (of_float ((of_int 1 -^ x_lerp) *^ dtop)) ;;;
  add_grads_image [b_in; top_y_index; right_x_index; d]
    (of_float (x_lerp *^ dtop)) ;;;
  g' <- read grads [b; y; x; d] ;;
  let dbottom := y_lerp *^ g' in
  add_grads_image [b_in; bottom_y_index; left_x_index; d]
    (of_float ((of_int 1 -^ x_lerp) *^ dbottom)) ;;;
  add_grads_image [b_in; bottom_y_index; right_x_index; d]
    (of_float (x_lerp *^ dbottom)).

(** Body of the loop over [x], lines 796-819. *)
Definition BackpropImage_col (b b_in : Z) (x1 x2 width_scale : F) (y : Z)
    (top_y_index bottom_y_index : Z) (y_lerp : F) (x : Z) : M unit :=
  let in_x := in_coord x1 x2 image_width crop_width width_scale x in
  if out_of_image in_x image_width then ret tt
  else
    let left_x_index := floorf in_x in
    let right_x_index := ceilf in_x in
    let x_lerp := in_x -^ of_int left_x_index in
    for_range 0 depth
      (BackpropImage_channel b b_in y x top_y_index bottom_y_index y_lerp
         left_x_index right_x_index x_lerp).

(** Body of the loop over [y], lines 785-820. *)
Definition BackpropImage_row (b b_in : Z)
    (y1 x1 y2 x2 height_scale width_scale : F) (y : Z) : M unit :=
  let in_y := in_coord y1 y2 image_height crop_height height_scale y in
  if out_of_image in_y image_height then ret tt
  else
    let top_y_index := floorf in_y in
    let bottom_y_index := ceilf in_y in
    let y_lerp := in_y -^ of_int top_y_index in
    for_range 0 crop_width
      (BackpropImage_col b b_in x1 x2 width_scale y
         top_y_index bottom_y_index y_lerp).

(** Body of the loop over [b], lines 767-821. *)
Definition BackpropImage_box (b : Z) : M unit :=
  y1 <- read boxes [b; 0] ;;
  x1 <- read boxes [b; 1] ;;
  y2 <- read boxes [b; 2] ;;
  x2 <- read boxes [b; 3] ;;
  b_in <- read box_index [b] ;;
  if negb (FastBoundsCheck b_in batch_size) then ret tt
  else
    let height_scale := axis_scale y1 y2 image_height crop_height in
    let width_scale := axis_scale x1 x2 image_width crop_width in
    for_range 0 crop_height
      (BackpropImage_row b b_in y1 x1 y2 x2 height_scale width_scale).

End CropAndResizeBackpropImage2D.

(** [operator()], lines 751-823. *)
Definition CropAndResizeBackpropImage : M unit :=
  batch_size <- get_dim grads_image 0 ;;
  image_height <- get_dim grads_image 1 ;;
  image_width <- get_dim grads_image 2 ;;
  num_boxes <- get_dim grads 0 ;;
  crop_height <- get_dim grads 1 ;;
  crop_width <- get_dim grads 2 ;;
  depth <- get_dim grads 3 ;;
  setZero_grads_image ;;;
  for_range 0 num_boxes
    (BackpropImage_box batch_size image_height image_width
       crop_height crop_width depth).

(* ================================================================== *)
(** * Image-gradient kernel, 3D:
      [functor::CropAndResizeBackpropImage3D<CPUDevice, T>] *)

Section CropAndResizeBackpropImage3D.

Variables (batch_size image_height image_width image_depth : Z).
Variables (crop_height crop_width crop_depth depth : Z).

(** Body of the loop over [d], lines 906-923. *)
Definition BackpropImage3D_channel (b b_in y x z : Z)
    (top_y_index bottom_y_index : Z) (y_lerp : F)
    (left_x_index right_x_index : Z) (x_lerp : F)
    (front_z_index back_z_index : Z) (z_lerp : F) (d : Z) : M unit :=
  g <- read grads [b; y; x; z; d] ;;
  let dback := z_lerp *^ g in
  g' <- read grads [b; y; x; z; d] ;;
  let dfront := (of_int 1 -^ z_lerp) *^ g' in
  let dbottom_back := y_lerp *^ dback in
  let dtop_back := (of_int 1 -^ y_lerp) *^ dback in
  let dtop_front := (of_int 1 -^ y_lerp) *^ dfront in
  let dbottom_front := y_lerp *^ dfront in
  add_grads_image [b_in; top_y_index; left_x_index; front_z_index; d]
    (of_float ((of_int 1 -^ x_lerp) *^ dtop_front)) ;;;
  add_grads_image [b_in; top_y_index; right_x_index; front_z_index; d]
    (of_float (x_lerp *^ dtop_front)) ;;;
  add_grads_image [b_in; bottom_y_index; left_x_index; front_z_index; d]
    (of_float ((of_int 1 -^ x_lerp) *^ dbottom_front)) ;;;
  add_grads_image [b_in; bottom_y_index; right_x_index; front_z_index; d]
    (of_float (x_lerp *^ dbottom_front)) ;;;
  add_grads_image [b_in; top_y_index; left_x_index; back_z_index; d]
    (of_float ((of_int 1 -^ x_lerp) *^ dtop_back)) ;;;
  add_grads_image [b_in; top_y_index; right_x_index; back_z_index; d]
    (of_float (x_lerp *^ dtop_back)) ;;;
  add_grads_image [b_in; bottom_y_index; left_x_index; back_z_index; d]
    (of_float ((of_int 1 -^ x_lerp) *^ dbottom_back)) ;;;
  add_grads_image [b_in; bottom_y_index; right_x_index; back_z_index; d]
    (of_float (x_lerp *^ dbottom_back)).

(** Body of the loop over [z], lines 895-924.  Lines 902-903 compute
    both [front_z_index] and [back_z_index] from [in_x]; the embedding
    follows the source. *)
Definition BackpropImage3D_slice (b b_in : Z) (z1 z2 depth_scale : F)
    (y : Z) (top_y_index bottom_y_index : Z) (y_lerp : F)
    (x : Z) (in_x : F) (left_x_index right_x_index : Z) (x_lerp : F)
    (z : Z) : M unit :=
  let in_z := in_coord z1 z2 image_depth crop_depth depth_scale z in
  if out_of_image in_z image_depth then ret tt
  else
    let front_z_index := floorf in_x in
    let back_z_index := ceilf in_x in
    let z_lerp := in_z -^ of_int front_z_index in
    for_range 0 depth
      (BackpropImage3D_channel b b_in y x z top_y_index bottom_y_index y_lerp
         left_x_index right_x_index x_lerp
         front_z_index back_z_index z_lerp).

(** Body of the loop over [x], lines 884-925. *)
Definition BackpropImage3D_col (b b_in : Z)
    (x1 z1 x2 z2 width_scale depth_scale : F)
    (y : Z) (top_y_index bottom_y_index : Z) (y_lerp : F) (x : Z) : M unit :=
  let in_x := in_coord x1 x2 image_width crop_width width_scale x in
  if out_of_image in_x image_width then ret tt
  else
    let left_x_index := floorf in_x in
    let right_x_index := ceilf in_x in
    let x_lerp := in_x -^ of_int left_x_index in
    for_range 0 crop_depth
      (BackpropImage3D_slice b b_in z1 z2 depth_scale
         y top_y_index bottom_y_index y_lerp
         x in_x left_x_index right_x_index x_lerp).

(** Body of the loop over [y], lines 873-926. *)
Definition BackpropImage3D_row (b b_in : Z)
    (y1 x1 z1 y2 x2 z2 height_scale width_scale depth_scale : F)
    (y : Z) : M unit :=
  let in_y := in_coord y1 y2 image_height crop_height height_scale y in
  if out_of_image in_y image_height then ret tt
  else
    let top_y_index := floorf in_y in
    let bottom_y_index := ceilf in_y in
    let y_lerp := in_y -^ of_int top_y_index in
    for_range 0 crop_width
      (BackpropImage3D_col b b_in x1 z1 x2 z2 width_scale depth_scale
         y top_y_index bottom_y_index y_lerp).

(** Body of the loop over [b], lines 850-927. *)
Definition BackpropImage3D_box (b : Z) : M unit :=
  y1 <- read boxes [b; 0] ;;
  x1 <- read boxes [b; 1] ;;
  z1 <- read boxes [b; 2] ;;
  y2 <- read boxes [b; 3] ;;
  x2 <- read boxes [b; 4] ;;
  z2 <- read boxes [b; 5] ;;
  b_in <- read box_index [b] ;;
  if negb (FastBoundsCheck b_in batch_size) then ret tt
  else
    let height_scale := axis_scale y1 y2 image_height crop_height in
    let width_scale := axis_scale x1 x2 image_width crop_width in
    let depth_scale := axis_scale z1 z2 image_depth crop_depth in
    for_range 0 crop_height
      (BackpropImage3D_row b b_in y1 x1 z1 y2 x2 z2
         height_scale width_scale depth_scale).

End CropAndResizeBackpropImage3D.

(** [operator()], lines 832-929. *)
Definition CropAndResizeBackpropImage3D : M unit :=
  batch_size <- get_dim grads_image 0 ;;
  image_height <- get_dim grads_image 1 ;;
  image_width <- get_dim grads_image 2 ;;
  image_depth <- get_dim grads_image 3 ;;
  num_boxes <- get_dim grads 0 ;;
  crop_height <- get_dim grads 1 ;;
  crop_width <- get_dim grads 2 ;;
  crop_depth <- get_dim grads 3 ;;
  depth <- get_dim grads 4 ;;
  setZero_grads_image ;;;
  for_range 0 num_boxes
    (BackpropImage3D_box batch_size image_height image_width image_depth
       crop_height crop_width crop_depth depth).

(* ================================================================== *)
(** * Box-gradient kernel, 2D:
      [functor::CropAndResizeBackpropBoxes<CPUDevice, T>] *)

Section CropAndResizeBackpropBoxes2D.

Variables (batch_size image_height image_width : Z).
Variables (crop_height crop_width depth : Z).

(** Body of the loop over [d], lines 1171-1207. *)
Definition BackpropBoxes_channel (b b_in : Z) (height_ratio width_ratio : F)
    (y x : Z) (top_y_index bottom_y_index : Z) (y_lerp : F)
    (left_x_index right_x_index : Z) (x_lerp : F) (d : Z) : M unit :=
  tl <- read image [b_in; top_y_index; left_x_index; d] ;;
  tr <- read image [b_in; top_y_index; right_x_index; d] ;;
  bl <- read image [b_in; bottom_y_index; left_x_index; d] ;;
  br <- read image [b_in; bottom_y_index; right_x_index; d] ;;
  let top_left := to_float tl in
  let top_right := to_float tr in
  let bottom_left := to_float bl in
  let bottom_right := to_float br in
  (* Compute the image gradient. *)
  let image_grad_y := (of_int 1 -^ x_lerp) *^ (bottom_left -^ top_left)
                      +^ x_lerp *^ (bottom_right -^ top_right) in
  let image_grad_x := (of_int 1 -^ y_lerp) *^ (top_right -^ top_left)
                      +^ y_lerp *^ (bottom_right -^ bottom_left) in
  (* Modulate the image gradient with the incoming gradient. *)
  top_grad <- read grads [b; y; x; d] ;;
  let image_grad_y := image_grad_y *^ top_grad in
  let image_grad_x := image_grad_x *^ top_grad in
  (* dy1, dy2 *)
  (if 1 <? crop_height then
     add_grads_boxes [b; 0]
       (image_grad_y
        *^ (of_int (image_height - 1) -^ of_int y *^ height_ratio)) ;;;
     add_grads_boxes [b; 2] (image_grad_y *^ (of_int y *^ height_ratio))
   else
     add_grads_boxes [b; 0]
       (image_grad_y *^ fhalf *^ of_int (image_height - 1)) ;;;
     add_grads_boxes [b; 2]
       (image_grad_y *^ fhalf *^ of_int (image_height - 1))) ;;;
  (* dx1, dx2 *)
  (if 1 <? crop_width then
     add_grads_boxes [b; 1]
       (image_grad_x
        *^ (of_int (image_width - 1) -^ of_int x *^ width_ratio)) ;;;
     add_grads_boxes [b; 3] (image_grad_x *^ (of_int x *^ width_ratio))
   else
     add_grads_boxes [b; 1]
       (image_grad_x *^ fhalf *^ of_int (image_width - 1)) ;;;
     add_grads_boxes [b; 3]
       (image_grad_x *^ fhalf *^ of_int (image_width - 1))).

(** Body of the loop over [x], lines 1160-1208. *)
Definition BackpropBoxes_col (b b_in : Z) (height_ratio width_ratio : F)
    (x1 x2 width_scale : F) (y : Z)
    (top_y_index bottom_y_index : Z) (y_lerp : F) (x : Z) : M unit :=
  let in_x := in_coord x1 x2 image_width crop_width width_scale x in
  if out_of_image in_x image_width then ret tt
  else
    let left_x_index := floorf in_x in
    let right_x_index := ceilf in_x in
    let x_lerp := in_x -^ of_int left_x_index in
    for_range 0 depth
      (BackpropBoxes_channel b b_in height_ratio width_ratio y x
         top_y_index bottom_y_index y_lerp
         left_x_index right_x_index x_lerp).

(** Body of the loop over [y], lines 1149-1209. *)
Definition BackpropBoxes_row (b b_in : Z) (height_ratio width_ratio : F)
    (y1 x1 y2 x2 height_scale width_scale : F) (y : Z) : M unit :=
  let in_y := in_coord y1 y2 image_height crop_height height_scale y in
  if out_of_image in_y image_height then ret tt
  else
    let top_y_index := floorf in_y in
    let bottom_y_index := ceilf in_y in
    let y_lerp := in_y -^ of_int top_y_index in
    for_range 0 crop_width
      (BackpropBoxes_col b b_in height_ratio width_ratio x1 x2 width_scale y
         top_y_index bottom_y_index y_lerp).

(** Body of the loop over [b], lines 1125-1210. *)
Definition BackpropBoxes_box (b : Z) : M unit :=
  y1 <- read boxes [b; 0] ;;
  x1 <- read boxes [b; 1] ;;
  y2 <- read boxes [b; 2] ;;
  x2 <- read boxes [b; 3] ;;
  b_in <- read box_index [b] ;;
  if negb (FastBoundsCheck b_in batch_size) then ret tt
  else
    let height_ratio := axis_ratio image_height crop_height in
    let width_ratio := axis_ratio image_width crop_width in
    let height_scale := ratio_scale y1 y2 height_ratio crop_height in
    let width_scale := ratio_scale x1 x2 width_ratio crop_width in
    for_range 0 crop_height
      (BackpropBoxes_row b b_in height_ratio width_ratio
         y1 x1 y2 x2 height_scale width_scale).

End CropAndResizeBackpropBoxes2D.

(** [operator()], lines 1108-1212. *)
Definition CropAndResizeBackpropBoxes : M unit :=
  batch_size <- get_dim image 0 ;;
  image_height <- get_dim image 1 ;;
  image_width <- get_dim image 2 ;;
  num_boxes <- get_dim grads 0 ;;
  crop_height <- get_dim grads 1 ;;
  crop_width <- get_dim grads 2 ;;
  depth <- get_dim grads 3 ;;
  setZero_grads_boxes ;;;
  for_range 0 num_boxes
    (BackpropBoxes_box batch_size image_height image_width
       crop_height crop_width depth).

(* ================================================================== *)
(** * Box-gradient kernel, 3D:
      [functor::CropAndResizeBackpropBoxes3D<CPUDevice, T>] *)

Section CropAndResizeBackpropBoxes3D.

Variables (batch_size image_height image_width image_depth : Z).
Variables (crop_height crop_width crop_depth depth : Z).

(** Body of the loop over [d], lines 1303-1360. *)
Definition BackpropBoxes3D_channel (b b_in : Z)
    (height_ratio width_ratio depth_ratio : F) (y x z : Z)
    (top_y_index bottom_y_index : Z) (y_lerp : F)
    (left_x_index right_x_index : Z) (x_lerp : F)
    (front_z_index back_z_index : Z) (z_lerp : F) (d : Z) : M unit :=
  tlf <- read image [b_in; top_y_index; left_x_index; front_z_index; d] ;;
  trf <- read image [b_in; top_y_index; right_x_index; front_z_index; d] ;;
  blf <- read image [b_in; bottom_y_index; left_x_index; front_z_index; d] ;;
  brf <- read image [b_in; bottom_y_index; right_x_index; front_z_index; d] ;;
  tlb <- read image [b_in; top_y_index; left_x_index; back_z_index; d] ;;
  trb <- read image [b_in; top_y_index; right_x_index; back_z_index; d] ;;
  blb <- read image [b_in; bottom_y_index; left_x_index; back_z_index; d] ;;
  brb <- read image [b_in; bottom_y_index; right_x_index; back_z_index; d] ;;
  let top_left_front := to_float tlf in
  let top_right_front := to_float trf in
  let bottom_left_front := to_float blf in
  let bottom_right_front := to_float brf in
  let top_left_back := to_float tlb in
  let top_right_back := to_float trb in
  let bottom_left_back := to_float blb in
  let bottom_right_back := to_float brb in
  (* Compute the image gradient *)
  let image_grad_y :=
    (of_int 1 -^ z_lerp)
    *^ ((of_int 1 -^ x_lerp) *^ (bottom_left_front -^ top_left_front)
        +^ x_lerp *^ (bottom_right_front -^ top_right_front))
    +^ z_lerp
       *^ ((of_int 1 -^ x_lerp) *^ (bottom_left_back -^ top_left_back)
           +^ x_lerp *^ (bottom_right_back -^ top_right_back)) in
  let image_grad_x :=
    (of_int 1 -^ z_lerp)
    *^ ((of_int 1 -^ y_lerp) *^ (top_right_front -^ top_left_front)
        +^ y_lerp *^ (bottom_right_front -^ bottom_left_front))
    +^ z_lerp
       *^ ((of_int 1 -^ y_lerp) *^ (top_right_back -^ top_left_back)
           +^ y_lerp *^ (bottom_right_back -^ bottom_left_back)) in
  let image_grad_z :=
    (of_int 1 -^ y_lerp)
    *^ ((of_int 1 -^ x_lerp) *^ (top_left_back -^ top_left_front)
        +^ x_lerp *^ (top_right_back -^ top_right_front))
    +^ y_lerp
       *^ ((of_int 1 -^ x_lerp) *^ (bottom_left_back -^ bottom_left_front)
           +^ x_lerp *^ (bottom_right_back -^ bottom_right_front)) in
  (* Modulate the image gradient with the incoming gradient. *)
  top_grad <- read grads [b; y; x; z; d] ;;
  let image_grad_y := image_grad_y *^ top_grad in
  let image_grad_x := image_grad_x *^ top_grad in
  let image_grad_z := image_grad_z *^ top_grad in
  (* dy1, dy2 *)
  (if 1 <? crop_height then
     add_grads_boxes [b; 0]
       (image_grad_y
        *^ (of_int (image_height - 1) -^ of_int y *^ height_ratio)) ;;;
     add_grads_boxes [b; 3] (image_grad_y *^ (of_int y *^ height_ratio))
   else
     add_grads_boxes [b; 0]
       (image_grad_y *^ fhalf *^ of_int (image_height - 1)) ;;;
     add_grads_boxes [b; 3]
       (image_grad_y *^ fhalf *^ of_int (image_height - 1))) ;;;
  (* dx1, dx2 *)
  (if 1 <? crop_width then
     add_grads_boxes [b; 1]
       (image_grad_x
        *^ (of_int (image_width - 1) -^ of_int x *^ width_ratio)) ;;;
     add_grads_boxes [b; 4] (image_grad_x *^ (of_int x *^ width_ratio))
   else
     add_grads_boxes [b; 1]
       (image_grad_x *^ fhalf *^ of_int (image_width - 1)) ;;;
     add_grads_boxes [b; 4]
       (image_grad_x *^ fhalf *^ of_int (image_width - 1))) ;;;
  (* dz1, dz2 *)
  (if 1 <? crop_depth then
     add_grads_boxes [b; 2]
       (image_grad_z
        *^ (of_int (image_depth - 1) -^ of_int z *^ depth_ratio)) ;;;
     add_grads_boxes [b; 5] (image_grad_z *^ (of_int z *^ depth_ratio))
   else
     add_grads_boxes [b; 2]
       (image_grad_z *^ fhalf *^ of_int (image_depth - 1)) ;;;
     add_grads_boxes [b; 5]
       (image_grad_z *^ fhalf *^ of_int (image_depth - 1))).

(** Body of the loop over [z], lines 1292-1361. *)
Definition BackpropBoxes3D_slice (b b_in : Z)
    (height_ratio width_ratio depth_ratio : F) (z1 z2 depth_scale : F)
    (y : Z) (top_y_index bottom_y_index : Z) (y_lerp : F)
    (x : Z) (left_x_index right_x_index : Z) (x_lerp : F)
    (z : Z) : M unit :=
  let in_z := in_coord z1 z2 image_depth crop_depth depth_scale z in
  if out_of_image in_z image_depth then ret tt
  else
    let front_z_index := floorf in_z in
    let back_z_index := ceilf in_z in
    let z_lerp := in_z -^ of_int front_z_index in
    for_range 0 depth
      (BackpropBoxes3D_channel b b_in height_ratio width_ratio depth_ratio
         y x z top_y_index bottom_y_index y_lerp
         left_x_index right_x_index x_lerp
         front_z_index back_z_index z_lerp).

(** Body of the loop over [x], lines 1281-1362. *)
Definition BackpropBoxes3D_col (b b_in : Z)
    (height_ratio width_ratio depth_ratio : F)
    (x1 z1 x2 z2 width_scale depth_scale : F)
    (y : Z) (top_y_index bottom_y_index : Z) (y_lerp : F) (x : Z) : M unit :=
  let in_x := in_coord x1 x2 image_width crop_width width_scale x in
  if out_of_image in_x image_width then ret tt
  else
    let left_x_index := floorf in_x in
    let right_x_index := ceilf in_x in
    let x_lerp := in_x -^ of_int left_x_index in
    for_range 0 crop_depth
      (BackpropBoxes3D_slice b b_in height_ratio width_ratio depth_ratio
         z1 z2 depth_scale y top_y_index bottom_y_index y_lerp
         x left_x_index right_x_index x_lerp).

(** Body of the loop over [y], lines 1270-1363. *)
Definition BackpropBoxes3D_row (b b_in : Z)
    (height_ratio width_ratio depth_ratio : F)
    (y1 x1 z1 y2 x2 z2 height_scale width_scale depth_scale : F)
    (y : Z) : M unit :=
  let in_y := in_coord y1 y2 image_height crop_height height_scale y in
  if out_of_image in_y image_height then ret tt
  else
    let top_y_index := floorf in_y in
    let bottom_y_index := ceilf in_y in
    let y_lerp := in_y -^ of_int top_y_index in
    for_range 0 crop_width
      (BackpropBoxes3D_col b b_in height_ratio width_ratio depth_ratio
         x1 z1 x2 z2 width_scale depth_scale
         y top_y_index bottom_y_index y_lerp).

(** Body of the loop over [b], lines 1240-1364. *)
Definition BackpropBoxes3D_box (b : Z) : M unit :=
  y1 <- read boxes [b; 0] ;;
  x1 <- read boxes [b; 1] ;;
  z1 <- read boxes [b; 2] ;;
  y2 <- read boxes [b; 3] ;;
  x2 <- read boxes [b; 4] ;;
  z2 <- read boxes [b; 5] ;;
  b_in <- read box_index [b] ;;
  if negb (FastBoundsCheck b_in batch_size) then ret tt
  else
    let height_ratio := axis_ratio image_height crop_height in
    let width_ratio := axis_ratio image_width crop_width in
    let depth_ratio := axis_ratio image_depth crop_depth in
    let height_scale := ratio_scale y1 y2 height_ratio crop_height in
    let width_scale := ratio_scale x1 x2 width_ratio crop_width in
    let depth_scale := ratio_scale z1 z2 depth_ratio crop_depth in
    for_range 0 crop_height
      (BackpropBoxes3D_row b b_in height_ratio width_ratio depth_ratio
         y1 x1 z1 y2 x2 z2 height_scale width_scale depth_scale).

End CropAndResizeBackpropBoxes3D.

(** [operator()], lines 1221-1366. *)
Definition CropAndResizeBackpropBoxes3D : M unit :=
  batch_size <- get_dim image 0 ;;
  image_height <- get_dim image 1 ;;
  image_width <- get_dim image 2 ;;
  image_depth <- get_dim image 3 ;;
  num_boxes <- get_dim grads 0 ;;
  crop_height <- get_dim grads 1 ;;
  crop_width <- get_dim grads 2 ;;
  crop_depth <- get_dim grads 3 ;;
  depth <- get_dim grads 4 ;;
  setZero_grads_boxes ;;;
  for_range 0 num_boxes
    (BackpropBoxes3D_box batch_size image_height image_width image_depth
       crop_height crop_width crop_depth depth).

End Kernels.

Arguments Store : clear implicits.
Arguments M : clear implicits.

(* ================================================================== *)
(** * Specification-side definitions *)

Section Specification.

Context {F T : Type} {FO : FloatOps F} {EO : ElemOps T F}.

Local Open Scope float_scope.

(** ** Interpolation as the specification words it (section 4.2) *)

(** The blend [result = a + (b - a) * lerp]. *)
Definition lerp (a b t : F) : F := a +^ (b -^ a) *^ t.

(** Bilinear interpolation at the fractional position [(in_y, in_x)]:
    floor and ceiling of each coordinate give the corner indices of its
    own axis, the blend runs along x, then along y. *)
Definition bilinear (img : Tensor T) (b_in : Z) (in_y in_x : F) (d : Z) : F :=
  let top_y_index := floorf in_y in
  let bottom_y_index := ceilf in_y in
  let y_lerp := in_y -^ of_int top_y_index in
  let left_x_index := floorf in_x in
  let right_x_index := ceilf in_x in
  let x_lerp := in_x -^ of_int left_x_index in
  let at_ y x := to_float (elt img [b_in; y; x; d]) in
  let top :=
    lerp (at_ top_y_index left_x_index) (at_ top_y_index right_x_index)
         x_lerp in
  let bottom :=
    lerp (at_ bottom_y_index left_x_index) (at_ bottom_y_index right_x_index)
         x_lerp in
  lerp top bottom y_lerp.

(** Trilinear interpolation at [(in_y, in_x, in_z)]: the same with a
    third axis, blended along x, then y, then z. *)
Definition trilinear (img : Tensor T) (b_in : Z) (in_y in_x in_z : F) (d : Z)
  : F :=
  let top_y_index := floorf in_y in
  let bottom_y_index := ceilf in_y in
  let y_lerp := in_y -^ of_int top_y_index in
  let left_x_index := floorf in_x in
  let right_x_index := ceilf in_x in
  let x_lerp := in_x -^ of_int left_x_index in
  let front_z_index := floorf in_z in
  let back_z_index := ceilf in_z in
  let z_lerp := in_z -^ of_int front_z_index in
  let at_ y x z := to_float (elt img [b_in; y; x; z; d]) in
  let plane z :=
    lerp (lerp (at_ top_y_index left_x_index z)
               (at_ top_y_index right_x_index z) x_lerp)
         (lerp (at_ bottom_y_index left_x_index z)
               (at_ bottom_y_index right_x_index z) x_lerp)
         y_lerp in
  lerp (plane front_z_index) (plane back_z_index) z_lerp.

(** ** What the forward kernels leave in a cell, as a function of the
       store they start from *)

(** Lines 339-399 for one cell [(b, y, x, d)]. *)
Definition crop_cell (s : Store F T) (extrapolation_value : F)
    (batch_size image_height image_width crop_height crop_width : Z)
    (b y x d : Z) : F :=
  let y1 := elt (boxes s) [b; 0] in
  let x1 := elt (boxes s) [b; 1] in
  let y2 := elt (boxes s) [b; 2] in
  let x2 := elt (boxes s) [b; 3] in
  let b_in := elt (box_index s) [b] in
  if negb (FastBoundsCheck b_in batch_size) then elt (crops s) [b; y; x; d]
  else
    let in_y := in_coord y1 y2 image_height crop_height
                  (axis_scale y1 y2 image_height crop_height) y in
    let in_x := in_coord x1 x2 image_width crop_width
                  (axis_scale x1 x2 image_width crop_width) x in
    if out_of_image in_y image_height then extrapolation_value
    else if out_of_image in_x image_width then extrapolation_value
    else bilinear (image s) b_in in_y in_x d.

(** Lines 516-535 for one channel: the value the 3D kernel stores for an
    in-bounds position, with [back_z_index] and [bottom_back] as the
    source computes them. *)
Definition CropAndResize3D_sample (img : Tensor T) (b_in : Z)
    (in_y in_x in_z : F) (d : Z) : F :=
  let top_y_index := floorf in_y in
  let bottom_y_index := ceilf in_y in
  let y_lerp := in_y -^ of_int top_y_index in
  let left_x_index := floorf in_x in
  let right_x_index := ceilf in_x in
  let x_lerp := in_x -^ of_int left_x_index in
  let front_z_index := floorf in_z in
  let back_z_index := ceilf in_x in
  let z_lerp := in_z -^ of_int front_z_index in
  let at_ y x z := to_float (elt img [b_in; y; x; z; d]) in
  let top_left_front := at_ top_y_index left_x_index front_z_index in
  let top_right_front := at_ top_y_index right_x_index front_z_index in
  let bottom_left_front := at_ bottom_y_index left_x_index front_z_index in
  let bottom_right_front := at_ bottom_y_index right_x_index front_z_index in
  let top_left_back := at_ top_y_index left_x_index back_z_index in
  let top_right_back := at_ top_y_index right_x_index back_z_index in
  let bottom_left_back := at_ bottom_y_index left_x_index back_z_index in
  let bottom_right_back := at_ bottom_y_index right_x_index back_z_index in
  let top_front :=
    top_left_front +^ (top_right_front -^ top_left_front) *^ x_lerp in
  let bottom_front :=
    bottom_left_front
    +^ (bottom_right_front -^ bottom_left_front) *^ x_lerp in
  let front := top_front +^ (bottom_front -^ top_front) *^ y_lerp in
  let top_back :=
    top_left_back +^ (top_right_back -^ top_left_back) *^ x_lerp in
  let bottom_back :=
    bottom_left_back
    +^ (bottom_right_back -^ bottom_left_front) *^ x_lerp in
  let back := top_back +^ (bottom_back -^ top_back) *^ y_lerp in
  front +^ (back -^ front) *^ z_lerp.

(** Lines 450-535 for one cell [(b, y, x, z, d)]. *)
Definition crop_cell3D (s : Store F T) (extrapolation_value : F)
    (batch_size image_height image_width image_depth : Z)
    (crop_height crop_width crop_depth : Z)
    (b y x z d : Z) : F :=
  let y1 := elt (boxes s) [b; 0] in
  let x1 := elt (boxes s) [b; 1] in
  let z1 := elt (boxes s) [b; 2] in
  let y2 := elt (boxes s) [b; 3] in
  let x2 := elt (boxes s) [b; 4] in
  let z2 := elt (boxes s) [b; 5] in
  let b_in := elt (box_index s) [b] in
  if negb (FastBoundsCheck b_in batch_size)
  then elt (crops s) [b; y; x; z; d]
  else
    let in_y := in_coord y1 y2 image_height crop_height
                  (axis_scale y1 y2 image_height crop_height) y in
    let in_x := in_coord x1 x2 image_width crop_width
                  (axis_scale x1 x2 image_width crop_width) x in
    let in_z := in_coord z1 z2 image_depth crop_depth
                  (axis_scale z1 z2 image_depth crop_depth) z in
    if out_of_image in_y image_height then extrapolation_value
    else if out_of_image in_x image_width then extrapolation_value
    else if out_of_image in_z image_depth then extrapolation_value
    else CropAndResize3D_sample (image s) b_in in_y in_x in_z d.

(** ** Shapes the caller guarantees (specification, section 6) *)

Definition shapes2 (s : Store F T) (B H W C N CH CW : Z) : Prop :=
  dims (image s) = [B; H; W; C] /\ dims (boxes s) = [N; 4] /\
  dims (box_index s) = [N] /\ dims (crops s) = [N; CH; CW; C] /\
  0 <= N /\ 0 <= CH /\ 0 <= CW /\ 0 <= C.

Definition shapes3 (s : Store F T) (B H W D C N CH CW CD : Z) : Prop :=
  dims (image s) = [B; H; W; D; C] /\ dims (boxes s) = [N; 6] /\
  dims (box_index s) = [N] /\ dims (crops s) = [N; CH; CW; CD; C] /\
  0 <= N /\ 0 <= CH /\ 0 <= CW /\ 0 <= CD /\ 0 <= C.

(** Every box refers to an image of the batch. *)
Definition box_indices_valid (s : Store F T) (N B : Z) : Prop :=
  forall b, 0 <= b < N -> 0 <= elt (box_index s) [b] < B.

(** ** Program logic for kernel computations *)

(** [wp fail m Q s]: from [s], [m] ends in a result and a store that
    satisfy [Q]; an access out of range is allowed exactly when [fail]
    holds.  [wp False] is total correctness, [wp True] partial. *)
Definition wp {A} (fail : Prop) (m : M F T A)
    (Q : A -> Store F T -> Prop) (s : Store F T) : Prop :=
  match m s with Some (a, s') => Q a s' | None => fail end.

(** Everything but the contents of [crops] is as in [s0]. *)
Definition crops_frame (s0 s : Store F T) : Prop :=
  image s = image s0 /\ boxes s = boxes s0 /\ box_index s = box_index s0 /\
  grads s = grads s0 /\ grads_image s = grads_image s0 /\
  grads_boxes s = grads_boxes s0 /\ dims (crops s) = dims (crops s0).

(** Position [(b', y', x', d')] comes before [(b, y, x, d)] in the order
    in which the loops of the 2D forward kernel visit the cells. *)
Definition before4 (b y x d b' y' x' d' : Z) : Prop :=
  b' < b \/ (b' = b /\ (y' < y \/ (y' = y /\ (x' < x \/ (x' = x /\ d' < d))))).

Definition before5 (b y x z d b' y' x' z' d' : Z) : Prop :=
  b' < b \/
  (b' = b /\ (y' < y \/ (y' = y /\ (x' < x \/
     (x' = x /\ (z' < z \/ (z' = z /\ d' < d))))))).

(** Loop invariant of the 2D forward kernel when the loops stand at
    [(b, y, x, d)]: the cells visited so far hold their final value
    [cell], the others what they held in [s0]. *)
Definition Inv4 (s0 : Store F T) (cell : Z -> Z -> Z -> Z -> F)
    (N CH CW C : Z) (b y x d : Z) (s : Store F T) : Prop :=
  crops_frame s0 s /\
  forall b' y' x' d',
    0 <= b' < N -> 0 <= y' < CH -> 0 <= x' < CW -> 0 <= d' < C ->
    (before4 b y x d b' y' x' d' ->
       elt (crops s) [b'; y'; x'; d'] = cell b' y' x' d') /\
    (~ before4 b y x d b' y' x' d' ->
       elt (crops s) [b'; y'; x'; d'] = elt (crops s0) [b'; y'; x'; d']).

Definition Inv5 (s0 : Store F T) (cell : Z -> Z -> Z -> Z -> Z -> F)
    (N CH CW CD C : Z) (b y x z d : Z) (s : Store F T) : Prop :=
  crops_frame s0 s /\
  forall b' y' x' z' d',
    0 <= b' < N -> 0 <= y' < CH -> 0 <= x' < CW -> 0 <= z' < CD ->
    0 <= d' < C ->
    (before5 b y x z d b' y' x' z' d' ->
       elt (crops s) [b'; y'; x'; z'; d'] = cell b' y' x' z' d') /\
    (~ before5 b y x z d b' y' x' z' d' ->
       elt (crops s) [b'; y'; x'; z'; d']
       = elt (crops s0) [b'; y'; x'; z'; d']).

(** ** Mapped coordinates of a box

    The coordinates of row [y], column [x] (and slice [z]) of box [b] as
    the forward and image-gradient kernels compute them from the store:
    2D boxes are [(y1, x1, y2, x2)], 3D boxes [(y1, x1, z1, y2, x2, z2)]. *)
Definition in_y_of (s : Store F T) (image_height crop_height b y : Z) : F :=
  in_coord (elt (boxes s) [b; 0]) (elt (boxes s) [b; 2])
    image_height crop_height
    (axis_scale (elt (boxes s) [b; 0]) (elt (boxes s) [b; 2])
       image_height crop_height) y.

Definition in_x_of (s : Store F T) (image_width crop_width b x : Z) : F :=
  in_coord (elt (boxes s) [b; 1]) (elt (boxes s) [b; 3])
    image_width crop_width
    (axis_scale (elt (boxes s) [b; 1]) (elt (boxes s) [b; 3])
       image_width crop_width) x.

Definition in_y3_of (s : Store F T) (image_height crop_height b y : Z) : F :=
  in_coord (elt (boxes s) [b; 0]) (elt (boxes s) [b; 3])
    image_height crop_height
    (axis_scale (elt (boxes s) [b; 0]) (elt (boxes s) [b; 3])
       image_height crop_height) y.

Definition in_x3_of (s : Store F T) (image_width crop_width b x : Z) : F :=
  in_coord (elt (boxes s) [b; 1]) (elt (boxes s) [b; 4])
    image_width crop_width
    (axis_scale (elt (boxes s) [b; 1]) (elt (boxes s) [b; 4])
       image_width crop_width) x.

Definition in_z3_of (s : Store F T) (image_depth crop_depth b z : Z) : F :=
  in_coord (elt (boxes s) [b; 2]) (elt (boxes s) [b; 5])
    image_depth crop_depth
    (axis_scale (elt (boxes s) [b; 2]) (elt (boxes s) [b; 5])
       image_depth crop_depth) z.

(** ** Coordinates whose corners index the image

    The kernels use the floor and the ceiling of a coordinate that
    passed the test of [out_of_image] as indices of its axis, without
    looking at them again (lines 369-370, 383-384 and their likes).  In
    exact arithmetic such a coordinate lies in [0, ext - 1] and both are
    indices of the axis.  In [float] that is so for a finite coordinate
    on an axis that is not too long for [float] to count; but a NaN
    passes the test as well, both comparisons being false, and its
    floor is no index.  [indexable c ext] says of the coordinate [c]
    what the kernels take for granted: it is outside the image, or its
    two corners are indices of the axis. *)
Definition indexable (c : F) (ext : Z) : bool :=
  out_of_image c ext ||
  ((0 <=? floorf c) && (floorf c <? ext)
   && (0 <=? ceilf c) && (ceilf c <? ext)).

(** Every grid index [i] in [0, crop) of an axis with endpoints [p1] and
    [p2] is mapped to an indexable coordinate.  [scale] is [axis_scale]
    for the forward and image-gradient kernels and [axis_scale_boxes]
    for the box-gradient kernels. *)
Definition axis_indexable (scale : F -> F -> Z -> Z -> F) (p1 p2 : F)
    (ext crop : Z) : Prop :=
  forall i, 0 <= i < crop ->
    indexable (in_coord p1 p2 ext crop (scale p1 p2 ext crop) i) ext = true.

(** The same for every axis of every box with a valid image index, for
    2D boxes [(y1, x1, y2, x2)] and 3D boxes [(y1, x1, z1, y2, x2, z2)]. *)
Definition boxes_indexable2 (scale : F -> F -> Z -> Z -> F)
    (bx : Tensor F) (bi : Tensor Z) (B H W N CH CW : Z) : Prop :=
  forall b, 0 <= b < N -> 0 <= elt bi [b] < B ->
    axis_indexable scale (elt bx [b; 0]) (elt bx [b; 2]) H CH /\
    axis_indexable scale (elt bx [b; 1]) (elt bx [b; 3]) W CW.

Definition boxes_indexable3 (scale : F -> F -> Z -> Z -> F)
    (bx : Tensor F) (bi : Tensor Z) (B H W D N CH CW CD : Z) : Prop :=
  forall b, 0 <= b < N -> 0 <= elt bi [b] < B ->
    axis_indexable scale (elt bx [b; 0]) (elt bx [b; 3]) H CH /\
    axis_indexable scale (elt bx [b; 1]) (elt bx [b; 4]) W CW /\
    axis_indexable scale (elt bx [b; 2]) (elt bx [b; 5]) D CD.

(** ** Keeping the inputs, holding the same elements *)

(** A computation keeps the input tensors: whenever it returns, the four
    [ConstTensor]s of the store are what they were. *)
Definition inputs_kept {A} (m : M F T A) : Prop :=
  forall s a s', m s = Some (a, s') ->
    image s' = image s /\ boxes s' = boxes s /\
    box_index s' = box_index s /\ grads s' = grads s.

(** Two tensors with the same extents and the same elements. *)
Definition same_tensor {A} (t1 t2 : Tensor A) : Prop :=
  dims t1 = dims t2 /\
  forall ix, in_range (dims t1) ix = true -> elt t1 ix = elt t2 ix.

(** The inputs of the forward kernels: [image], [boxes], [box_index] and
    the extents of [crops] (the crop sizes). *)
Definition agree_forward (s1 s2 : Store F T) : Prop :=
  image s1 = image s2 /\ boxes s1 = boxes s2 /\
  box_index s1 = box_index s2 /\ dims (crops s1) = dims (crops s2).

(** What the image-gradient loops read and update. *)
Definition agree_grad_image (s1 s2 : Store F T) : Prop :=
  grads s1 = grads s2 /\ boxes s1 = boxes s2 /\
  box_index s1 = box_index s2 /\ grads_image s1 = grads_image s2.

(** What the box-gradient loops read and update. *)
Definition agree_grad_boxes (s1 s2 : Store F T) : Prop :=
  grads s1 = grads s2 /\ image s1 = image s2 /\ boxes s1 = boxes s2 /\
  box_index s1 = box_index s2 /\ grads_boxes s1 = grads_boxes s2.

(** [m] respects [R]: from stores related by [R] it stops at an access
    out of range in both, or returns the same result in both, in stores
    related by [R]. *)
Definition respects {A} (R : Store F T -> Store F T -> Prop) (m : M F T A)
  : Prop :=
  forall s1 s2, R s1 s2 ->
    match m s1, m s2 with
    | Some (a1, s1'), Some (a2, s2') => a1 = a2 /\ R s1' s2'
    | None, None => True
    | _, _ => False
    end.

(** ** The cells of the incoming gradient a backward kernel uses *)

(** The scale of an axis as the box-gradient kernels compute it. *)
Definition axis_scale_boxes (p1 p2 : F) (ext crop : Z) : F :=
  ratio_scale p1 p2 (axis_ratio ext crop) crop.

(** Cell [(b, y, x)] of the incoming gradient is used by a 2D backward
    kernel: its box has a valid image index and its mapped coordinate is
    in the image on both axes.  [scale] is [axis_scale] for the
    image-gradient kernel and [axis_scale_boxes] for the box-gradient
    kernel. *)
Definition cell_used2 (scale : F -> F -> Z -> Z -> F)
    (bx : Tensor F) (bi : Tensor Z) (B H W CH CW : Z) (b y x : Z) : Prop :=
  0 <= elt bi [b] < B /\
  out_of_image
    (in_coord (elt bx [b; 0]) (elt bx [b; 2]) H CH
       (scale (elt bx [b; 0]) (elt bx [b; 2]) H CH) y) H = false /\
  out_of_image
    (in_coord (elt bx [b; 1]) (elt bx [b; 3]) W CW
       (scale (elt bx [b; 1]) (elt bx [b; 3]) W CW) x) W = false.

Definition cell_used3 (scale : F -> F -> Z -> Z -> F)
    (bx : Tensor F) (bi : Tensor Z) (B H W D CH CW CD : Z) (b y x z : Z)
  : Prop :=
  0 <= elt bi [b] < B /\
  out_of_image
    (in_coord (elt bx [b; 0]) (elt bx [b; 3]) H CH
       (scale (elt bx [b; 0]) (elt bx [b; 3]) H CH) y) H = false /\
  out_of_image
    (in_coord (elt bx [b; 1]) (elt bx [b; 4]) W CW
       (scale (elt bx [b; 1]) (elt bx [b; 4]) W CW) x) W = false /\
  out_of_image
    (in_coord (elt bx [b; 2]) (elt bx [b; 5]) D CD
       (scale (elt bx [b; 2]) (elt bx [b; 5]) D CD) z) D = false.

(** Two stores hold the same incoming gradient wherever [used] holds. *)
Definition grads_agree_where (used : list Z -> Prop) (s1 s2 : Store F T)
  : Prop :=
  dims (grads s1) = dims (grads s2) /\
  forall ix, used ix -> elt (grads s1) ix = elt (grads s2) ix.

(** What the image-gradient loops depend on, when the incoming gradient
    only matters where [used] holds. *)
Definition agree_grad_image_where (used : list Z -> Prop)
    (bx : Tensor F) (bi : Tensor Z) (s1 s2 : Store F T) : Prop :=
  boxes s1 = bx /\ boxes s2 = bx /\
  box_index s1 = bi /\ box_index s2 = bi /\
  grads_image s1 = grads_image s2 /\ grads_agree_where used s1 s2.

Definition agree_grad_boxes_where (used : list Z -> Prop)
    (img : Tensor T) (bx : Tensor F) (bi : Tensor Z) (s1 s2 : Store F T)
  : Prop :=
  image s1 = img /\ image s2 = img /\
  boxes s1 = bx /\ boxes s2 = bx /\
  box_index s1 = bi /\ box_index s2 = bi /\
  grads_boxes s1 = grads_boxes s2 /\ grads_agree_where used s1 s2.

(** The index tuples of the gradient cells a 2D (3D) backward kernel
    uses. *)
Definition used2 (scale : F -> F -> Z -> Z -> F)
    (bx : Tensor F) (bi : Tensor Z) (B H W CH CW : Z) (ix : list Z) : Prop :=
  exists b y x d, ix = [b; y; x; d] /\
    cell_used2 scale bx bi B H W CH CW b y x.

Definition used3 (scale : F -> F -> Z -> Z -> F)
    (bx : Tensor F) (bi : Tensor Z) (B H W D CH CW CD : Z) (ix : list Z)
  : Prop :=
  exists b y x z d, ix = [b; y; x; z; d] /\
    cell_used3 scale bx bi B H W D CH CW CD b y x z.

(** ** Memory safety of a computation *)

(** [m] is safe under [P]: from a store that satisfies [P] it returns,
    without any access out of range, in a store that satisfies [P]. *)
Definition safe {A} (P : Store F T -> Prop) (m : M F T A) : Prop :=
  forall s, P s -> exists a s', m s = Some (a, s') /\ P s'.

(** [Sh] holds of the store, and its boxes and box indices are [bx] and
    [bi]: what the loops of a kernel keep while they run. *)
Definition pinned (bx : Tensor F) (bi : Tensor Z) (Sh : Store F T -> Prop)
    (s : Store F T) : Prop :=
  Sh s /\ boxes s = bx /\ box_index s = bi.

(** The extents of the tensors of the backward kernels, as the caller
    allocates them (specification, section 6). *)
Definition shapes_grad_image2 (B H W C N CH CW : Z) (s : Store F T) : Prop :=
  dims (grads s) = [N; CH; CW; C] /\ dims (boxes s) = [N; 4] /\
  dims (box_index s) = [N] /\ dims (grads_image s) = [B; H; W; C].

Definition shapes_grad_boxes2 (B H W C N CH CW : Z) (s : Store F T) : Prop :=
  dims (grads s) = [N; CH; CW; C] /\ dims (boxes s) = [N; 4] /\
  dims (box_index s) = [N] /\ dims (image s) = [B; H; W; C] /\
  dims (grads_boxes s) = [N; 4].

Definition shapes_grad_boxes3 (B H W D C N CH CW CD : Z) (s : Store F T)
  : Prop :=
  dims (grads s) = [N; CH; CW; CD; C] /\ dims (boxes s) = [N; 6] /\
  dims (box_index s) = [N] /\ dims (image s) = [B; H; W; D; C] /\
  dims (grads_boxes s) = [N; 6].

(** The tensor after [t(ix) += v] on a tensor of image elements. *)
Definition tadd_elem_at (t : Tensor T) (ix : list Z) (v : T) : Tensor T :=
  tupdate t ix (tadd (elt t ix) v).

(** ** The box-gradient contributions *)

(** Lines 1181-1188: the derivative of the bilinear sample along y and
    along x, times the incoming gradient. *)
Definition image_grad_y2 (tl tr bl br x_lerp top_grad : F) : F :=
  ((of_int 1 -^ x_lerp) *^ (bl -^ tl) +^ x_lerp *^ (br -^ tr)) *^ top_grad.

Definition image_grad_x2 (tl tr bl br y_lerp top_grad : F) : F :=
  ((of_int 1 -^ y_lerp) *^ (tr -^ tl) +^ y_lerp *^ (br -^ bl)) *^ top_grad.

(** Lines 1313-1335: the derivatives of the trilinear sample along y, x
    and z, times the incoming gradient. *)
Definition image_grad_y3 (tlf trf blf brf tlb trb blb brb : F)
    (x_lerp z_lerp top_grad : F) : F :=
  ((of_int 1 -^ z_lerp)
   *^ ((of_int 1 -^ x_lerp) *^ (blf -^ tlf) +^ x_lerp *^ (brf -^ trf))
   +^ z_lerp
      *^ ((of_int 1 -^ x_lerp) *^ (blb -^ tlb) +^ x_lerp *^ (brb -^ trb)))
  *^ top_grad.

Definition image_grad_x3 (tlf trf blf brf tlb trb blb brb : F)
    (y_lerp z_lerp top_grad : F) : F :=
  ((of_int 1 -^ z_lerp)
   *^ ((of_int 1 -^ y_lerp) *^ (trf -^ tlf) +^ y_lerp *^ (brf -^ blf))
   +^ z_lerp
      *^ ((of_int 1 -^ y_lerp) *^ (trb -^ tlb) +^ y_lerp *^ (brb -^ blb)))
  *^ top_grad.

Definition image_grad_z3 (tlf trf blf brf tlb trb blb brb : F)
    (y_lerp x_lerp top_grad : F) : F :=
  ((of_int 1 -^ y_lerp)
   *^ ((of_int 1 -^ x_lerp) *^ (tlb -^ tlf) +^ x_lerp *^ (trb -^ trf))
   +^ y_lerp
      *^ ((of_int 1 -^ x_lerp) *^ (blb -^ blf) +^ x_lerp *^ (brb -^ brf)))
  *^ top_grad.

(** Lines 1190-1206 and 1337-1359: what [+=] adds to the first and to
    the second endpoint of an axis. *)
Definition endpoint1_term (g : F) (ext crop : Z) (ratio : F) (i : Z) : F :=
  if 1 <? crop then g *^ (of_int (ext - 1) -^ of_int i *^ ratio)
  else g *^ fhalf *^ of_int (ext - 1).

Definition endpoint2_term (g : F) (ext crop : Z) (ratio : F) (i : Z) : F :=
  if 1 <? crop then g *^ (of_int i *^ ratio)
  else g *^ fhalf *^ of_int (ext - 1).

(** The tensor after [t(ix) += v]. *)
Definition tadd_at (t : Tensor F) (ix : list Z) (v : F) : Tensor F :=
  tupdate t ix (elt t ix +^ v).

End Specification.

(* ================================================================== *)
(** * Exact arithmetic

    The instance of the numeric interface in which every operation is
    exact: working-precision values and image elements are rationals. *)

Definition Qltb (a b : Q) : bool :=
  match Qcompare a b with Lt => true | _ => false end.

#[export] Instance Q_FloatOps : FloatOps Q := {
  fadd := Qplus; fsub := Qminus; fmul := Qmult; fdiv := Qdiv;
  flt := Qltb;
  of_int := inject_Z; fhalf := (1 # 2)%Q;
  floorf := Qfloor; ceilf := Qceiling
}.

#[export] Instance Q_ElemOps : ElemOps Q Q := {
  to_float := fun t => t; of_float := fun x => x;
  tzero := 0%Q; tadd := Qplus
}.

(** The endpoint gradients as the specification words them (section 4.4,
    step 4), for an axis whose endpoints are the columns [i1] and [i2] of
    the box gradient: from [old] to [new], the first endpoint gains the
    derivative [g] times [ext-1 - i*ratio] and the second [g] times
    [i*ratio], with [ratio = (ext-1)/(crop-1)], when [crop > 1]; both
    gain [g] times [0.5*(ext-1)] when [crop = 1]. *)
Definition endpoint_update (old new : Tensor Q) (i1 i2 : list Z) (g : Q)
    (ext crop i : Z) : Prop :=
  (1 < crop ->
     Qeq (elt new i1)
         (elt old i1
          + g * (inject_Z (ext - 1)
                 - inject_Z i * (inject_Z (ext - 1) / inject_Z (crop - 1))))%Q
     /\
     Qeq (elt new i2)
         (elt old i2
          + g * (inject_Z i * (inject_Z (ext - 1) / inject_Z (crop - 1))))%Q)
  /\
  (crop = 1 ->
     Qeq (elt new i1) (elt old i1 + g * ((1 # 2) * inject_Z (ext - 1)))%Q /\
     Qeq (elt new i2) (elt old i2 + g * ((1 # 2) * inject_Z (ext - 1)))%Q).

(** ** Concrete stores *)

(** The scenario of section 8 of the specification: one 2x2 image
    [[0,1],[2,3]], one box over the full image, crop size 2x2. *)
Definition identity_store : Store Q Q :=
  {| image := tensor_of_list [1; 2; 2; 1] 0%Q [0; 1; 2; 3]%Q;
     boxes := tensor_of_list [1; 4] 0%Q [0; 0; 1; 1]%Q;
     box_index := tensor_of_list [1] 0 [0];
     grads := tensor_of_list [1; 2; 2; 1] 0%Q [1; 1; 1; 1]%Q;
     crops := tensor_of_list [1; 2; 2; 1] 0%Q [9; 9; 9; 9]%Q;
     grads_image := tensor_of_list [1; 2; 2; 1] 0%Q [];
     grads_boxes := tensor_of_list [1; 4] 0%Q [] |}.

(** One 2x2 image and three boxes with crop size 2x2: the full image, a
    box that reaches twice as far as the image, and the full image
    again; [indices] are the image indices of the boxes and [fill] is
    what the output buffers hold before the call. *)
Definition store2 (indices : list Z) (fill : Q) : Store Q Q :=
  {| image := tensor_of_list [1; 2; 2; 1] 0%Q [0; 1; 2; 3]%Q;
     boxes := tensor_of_list [3; 4] 0%Q
                [0; 0; 1; 1;  0; 0; 2; 2;  0; 0; 1; 1]%Q;
     box_index := tensor_of_list [3] 0 indices;
     grads := tensor_of_list [3; 2; 2; 1] 1%Q [];
     crops := tensor_of_list [3; 2; 2; 1] fill [];
     grads_image := tensor_of_list [1; 2; 2; 1] fill [];
     grads_boxes := tensor_of_list [3; 4] fill [] |}.

(** The same in 3D: one 2x2x2 volume, three boxes, crop size 2x2x2. *)
Definition store3 (indices : list Z) (fill : Q) : Store Q Q :=
  {| image := tensor_of_list [1; 2; 2; 2; 1] 0%Q
                [0; 1; 2; 3; 4; 5; 6; 7]%Q;
     boxes := tensor_of_list [3; 6] 0%Q
                [0; 0; 0; 1; 1; 1;  0; 0; 0; 2; 2; 2;  0; 0; 0; 1; 1; 1]%Q;
     box_index := tensor_of_list [3] 0 indices;
     grads := tensor_of_list [3; 2; 2; 2; 1] 1%Q [];
     crops := tensor_of_list [3; 2; 2; 2; 1] fill [];
     grads_image := tensor_of_list [1; 2; 2; 2; 1] fill [];
     grads_boxes := tensor_of_list [3; 6] fill [] |}.

(** A 1x1x2 volume sampled once, half way between its two z-planes. *)
Definition back_index_store : Store Q Q :=
  {| image := tensor_of_list [1; 1; 1; 2; 1] 0%Q [10; 20]%Q;
     boxes := tensor_of_list [1; 6] 0%Q [0; 0; 0; 0; 0; 1]%Q;
     box_index := tensor_of_list [1] 0 [0];
     grads := tensor_of_list [1; 1; 1; 1; 1] 0%Q [1]%Q;
     crops := tensor_of_list [1; 1; 1; 1; 1] 0%Q [0]%Q;
     grads_image := tensor_of_list [1; 1; 1; 2; 1] 0%Q [5; 5]%Q;
     grads_boxes := tensor_of_list [1; 6] 0%Q [] |}.

(** A 2x2x2 volume sampled once at its centre; only the bottom-left-front
    voxel is not zero. *)
Definition bottom_back_store : Store Q Q :=
  {| image := tensor_of_list [1; 2; 2; 2; 1] 0%Q [0; 0; 0; 0; 8; 0; 0; 0]%Q;
     boxes := tensor_of_list [1; 6] 0%Q [0; 0; 0; 1; 1; 1]%Q;
     box_index := tensor_of_list [1] 0 [0];
     grads := tensor_of_list [1; 1; 1; 1; 1] 0%Q [1]%Q;
     crops := tensor_of_list [1; 1; 1; 1; 1] 0%Q [0]%Q;
     grads_image := tensor_of_list [1; 2; 2; 2; 1] 0%Q [];
     grads_boxes := tensor_of_list [1; 6] 0%Q [] |}.

(** A 1x3x1 volume (wider than deep) sampled once at its right end. *)
Definition wide_store : Store Q Q :=
  {| image := tensor_of_list [1; 1; 3; 1; 1] 0%Q [1; 2; 3]%Q;
     boxes := tensor_of_list [1; 6] 0%Q [0; 1; 0; 0; 1; 0]%Q;
     box_index := tensor_of_list [1] 0 [0];
     grads := tensor_of_list [1; 1; 1; 1; 1] 0%Q [1]%Q;
     crops := tensor_of_list [1; 1; 1; 1; 1] 0%Q [0]%Q;
     grads_image := tensor_of_list [1; 1; 3; 1; 1] 0%Q [0; 0; 0]%Q;
     grads_boxes := tensor_of_list [1; 6] 0%Q [] |}.

(* ================================================================== *)
(** * Further specification-side definitions *)

Section FurtherSpecification.

Context {F T : Type} {FO : FloatOps F} {EO : ElemOps T F}.

(** Everything but the contents of [grads_image] is as in [s0]. *)
Definition grads_image_frame (s0 s : Store F T) : Prop :=
  image s = image s0 /\ boxes s = boxes s0 /\ box_index s = box_index s0 /\
  grads s = grads s0 /\ crops s = crops s0 /\
  grads_boxes s = grads_boxes s0 /\
  dims (grads_image s) = dims (grads_image s0).

(** Everything but the contents of [grads_boxes] is as in [s0]. *)
Definition grads_boxes_frame (s0 s : Store F T) : Prop :=
  image s = image s0 /\ boxes s = boxes s0 /\ box_index s = box_index s0 /\
  grads s = grads s0 /\ crops s = crops s0 /\
  grads_image s = grads_image s0 /\
  dims (grads_boxes s) = dims (grads_boxes s0).

(** The extents of the tensors of the 3D image-gradient kernel. *)
Definition shapes_grad_image3 (B H W D C N CH CW CD : Z) (s : Store F T)
  : Prop :=
  dims (grads s) = [N; CH; CW; CD; C] /\ dims (boxes s) = [N; 6] /\
  dims (box_index s) = [N] /\ dims (grads_image s) = [B; H; W; D; C].

(** With box indices [bi], the gradient of image [i] is zero: the
    invariant of the image-gradient loops for an image that no box
    refers to. *)
Definition image_untouched (bi : Tensor Z) (i : Z) (s : Store F T) : Prop :=
  box_index s = bi /\
  forall rest, elt (grads_image s) (i :: rest) = tzero.

(** With boxes [bx] and box indices [bi], the gradient row of box [b]
    is zero: the invariant of the box-gradient loops for a box that has
    no used cell. *)
Definition row_untouched (bx : Tensor F) (bi : Tensor Z) (b : Z)
    (s : Store F T) : Prop :=
  boxes s = bx /\ box_index s = bi /\
  forall rest, elt (grads_boxes s) (b :: rest) = of_int 0.

(** The stores agree but for the rows of [crops] below box [lo]. *)
Definition agree_rows_from (lo : Z) (s1 s2 : Store F T) : Prop :=
  image s1 = image s2 /\ boxes s1 = boxes s2 /\
  box_index s1 = box_index s2 /\ grads s1 = grads s2 /\
  grads_image s1 = grads_image s2 /\ grads_boxes s1 = grads_boxes s2 /\
  dims (crops s1) = dims (crops s2) /\
  forall b rest, lo <= b ->
    elt (crops s1) (b :: rest) = elt (crops s2) (b :: rest).

(** The crops of [s] in which the boxes below [lo] hold the values the
    2D forward kernel leaves in them. *)
Definition crops_done_below (s : Store F T) (e : F) (B H W CH CW lo : Z)
  : Tensor F :=
  {| dims := dims (crops s);
     elt := fun ix =>
       match ix with
       | [b; y; x; d] =>
           if b <? lo then crop_cell s e B H W CH CW b y x d
           else elt (crops s) ix
       | _ => elt (crops s) ix
       end |}.

(** Row [b] of [crops] is as in [s0]. *)
Definition row_kept (s0 : Store F T) (b : Z) (s : Store F T) : Prop :=
  forall rest, elt (crops s) (b :: rest) = elt (crops s0) (b :: rest).

(** Modelled from the spec: a schedule of [Shard] (section 5: the boxes
    are split into ranges that are processed independently, in no
    guaranteed order).  The ranges that [Shard] hands to [work] are run
    one after the other in the order of the list; the list need not be
    sorted, and ranges may overlap. *)
Fixpoint run_shards (work : Z -> Z -> M F T unit) (l : list (Z * Z))
  : M F T unit :=
  match l with
  | [] => ret tt
  | (start, limit) :: l' =>
      bind (work start limit) (fun _ => run_shards work l')
  end.

(** Box [b] lies in one of the ranges of [l]. *)
Definition covered (l : list (Z * Z)) (b : Z) : bool :=
  existsb (fun r => (fst r <=? b) && (b <? snd r)) l.

(** [m] keeps the property [I] of the store, whenever it returns. *)
Definition keeps {A} (I : Store F T -> Prop) (m : M F T A) : Prop :=
  forall s, I s -> wp True m (fun _ => I) s.

End FurtherSpecification.

(* ================================================================== *)
(** * Sums and inner products in exact arithmetic *)

(** The sum of [f k] for [k = lo, ..., lo + n - 1]. *)
Fixpoint Qsum_from (n : nat) (lo : Z) (f : Z -> Q) : Q :=
  match n with
  | O => 0%Q
  | S n' => (f lo + Qsum_from n' (lo + 1) f)%Q
  end.

(** The sum of [f k] for [k = lo, ..., hi - 1]. *)
Definition Qsum (lo hi : Z) (f : Z -> Q) : Q :=
  Qsum_from (Z.to_nat (hi - lo)) lo f.

(** The inner product of two tensors of extents [n0, n1, n2, n3]. *)
Definition dot4 (n0 n1 n2 n3 : Z) (u v : Tensor Q) : Q :=
  Qsum 0 n0 (fun i0 => Qsum 0 n1 (fun i1 => Qsum 0 n2 (fun i2 =>
    Qsum 0 n3 (fun i3 =>
      Qmult (elt u [i0; i1; i2; i3]) (elt v [i0; i1; i2; i3]))))).

(** [m] keeps [Pin] and raises the quantity [phi] of the store by [c],
    whenever it returns. *)
Definition gains (Pin : Store Q Q -> Prop) (phi : Store Q Q -> Q) (c : Q)
    (m : M Q Q unit) : Prop :=
  forall s, Pin s ->
    wp True m (fun _ s' => Pin s' /\ Qeq (phi s') (phi s + c)) s.

(** The tensors the image-gradient loops read are those of [s0], and
    the image gradient has the extents of the image. *)
Definition grad_image_pinned (s0 : Store Q Q) (B H W C : Z) (s : Store Q Q)
  : Prop :=
  boxes s = boxes s0 /\ box_index s = box_index s0 /\ grads s = grads s0 /\
  dims (grads_image s) = [B; H; W; C].

(** The inner product of the image of [s0] with the image gradient. *)
Definition image_pairing (s0 : Store Q Q) (B H W C : Z) (s : Store Q Q) : Q :=
  dot4 B H W C (image s0) (grads_image s).

(** The image is [img] and every entry of the box gradient is 0: the
    invariant of the box-gradient loops on an image without slope. *)
Definition box_gradient_null (img : Tensor Q) (s : Store Q Q) : Prop :=
  image s = img /\ forall ix, Qeq (elt (grads_boxes s) ix) 0%Q.

(** What [t(ix) += v] adds to the entry [ix0] of [t]. *)
Definition hit (ix0 ix : list Z) (v : Q) : Q :=
  if idx_eqb ix0 ix then v else 0%Q.

(** The tensors the box-gradient loops read are those of [s0], and the
    box gradient has [N] rows. *)
Definition grad_boxes_pinned (s0 : Store Q Q) (N : Z) (s : Store Q Q)
  : Prop :=
  image s = image s0 /\ boxes s = boxes s0 /\
  box_index s = box_index s0 /\ grads s = grads s0 /\
  dims (grads_boxes s) = [N; 4].

(** Lines 1125-1207 for one cell and one channel: what cell [(y, x)] of
    box [b] adds in channel [d] to the entry [ix0] of the box gradient.
    A box with an invalid index and a cell that is mapped out of the
    image add nothing. *)
Definition box_gradient_term (s : Store Q Q) (B H W CH CW : Z)
    (ix0 : list Z) (b y x d : Z) : Q :=
  let y1 := elt (boxes s) [b; 0] in
  let x1 := elt (boxes s) [b; 1] in
  let y2 := elt (boxes s) [b; 2] in
  let x2 := elt (boxes s) [b; 3] in
  let b_in := elt (box_index s) [b] in
  if negb (FastBoundsCheck b_in B) then 0%Q
  else
    let height_ratio := axis_ratio H CH in
    let width_ratio := axis_ratio W CW in
    let in_y :=
      in_coord y1 y2 H CH (ratio_scale y1 y2 height_ratio CH) y in
    let in_x :=
      in_coord x1 x2 W CW (ratio_scale x1 x2 width_ratio CW) x in
    if out_of_image in_y H then 0%Q
    else if out_of_image in_x W then 0%Q
    else
      let top_y_index := floorf in_y in
      let bottom_y_index := ceilf in_y in
      let y_lerp := fsub in_y (of_int top_y_index) in
      let left_x_index := floorf in_x in
      let right_x_index := ceilf in_x in
      let x_lerp := fsub in_x (of_int left_x_index) in
      let tl :=
        to_float (elt (image s) [b_in; top_y_index; left_x_index; d]) in
      let tr :=
        to_float (elt (image s) [b_in; top_y_index; right_x_index; d]) in
      let bl :=
        to_float (elt (image s) [b_in; bottom_y_index; left_x_index; d]) in
      let br :=
        to_float (elt (image s) [b_in; bottom_y_index; right_x_index; d]) in
      let g := elt (grads s) [b; y; x; d] in
      let gy := image_grad_y2 tl tr bl br x_lerp g in
      let gx := image_grad_x2 tl tr bl br y_lerp g in
      Qplus
        (Qplus (hit ix0 [b; 0] (endpoint1_term gy H CH height_ratio y))
               (hit ix0 [b; 2] (endpoint2_term gy H CH height_ratio y)))
        (Qplus (hit ix0 [b; 1] (endpoint1_term gx W CW width_ratio x))
               (hit ix0 [b; 3] (endpoint2_term gx W CW width_ratio x))).

(** The store [s] with the coordinate [k] of box [b] moved by [eps]. *)
Definition nudge_box (s : Store Q Q) (b k : Z) (eps : Q) : Store Q Q :=
  {| image := image s; boxes := tadd_at (boxes s) [b; k] eps;
     box_index := box_index s; grads := grads s; crops := crops s;
     grads_image := grads_image s; grads_boxes := grads_boxes s |}.

(** Two coordinates of an axis of extent [ext] have the same corner
    indices and are both in the image or both out of it. *)
Definition same_cell (ext : Z) (c c' : Q) : Prop :=
  Qfloor c = Qfloor c' /\ Qceiling c = Qceiling c' /\
  out_of_image c ext = out_of_image c' ext.

(** The sum of the elements of a tensor of extents [n0, n1, n2, n3]. *)
Definition total4 (n0 n1 n2 n3 : Z) (t : Tensor Q) : Q :=
  Qsum 0 n0 (fun i0 => Qsum 0 n1 (fun i1 => Qsum 0 n2 (fun i2 =>
    Qsum 0 n3 (fun i3 => elt t [i0; i1; i2; i3])))).

(** The store [s] with an image of extents [ds] that holds 1
    everywhere. *)
Definition with_unit_image (s : Store Q Q) (ds : list Z) : Store Q Q :=
  {| image := {| dims := ds; elt := fun _ => 1%Q |};
     boxes := boxes s; box_index := box_index s; grads := grads s;
     crops := crops s; grads_image := grads_image s;
     grads_boxes := grads_boxes s |}.

(** The incoming gradient of a cell that is mapped into the image, and
    0 for a cell that is not. *)
Definition used_grad (s : Store Q Q) (H W CH CW : Z) (b y x d : Z) : Q :=
  if out_of_image (in_y_of s H CH b y) H then 0%Q
  else if out_of_image (in_x_of s W CW b x) W then 0%Q
  else elt (grads s) [b; y; x; d].

(* ================================================================== *)
(** * The op kernels: validation and dispatch

    The classes [CropAndResizeOp], [CropAndResizeOp3D],
    [CropAndResizeGradImageOp], [CropAndResizeGradImageOp3D],
    [CropAndResizeGradBoxesOp] and [CropAndResizeGradBoxesOp3D] check
    the shapes of their inputs, allocate the output and hand the
    tensors to the functors above; [ParseAndCheckBoxSizes],
    [ParseAndCheckBoxSizes3D] and [RunIfBoxIndexIsValid] are their
    helpers.  The specification leaves all of them to the caller
    (sections 1, 6 and 7); they are embedded from the source.  Their
    constructors, which read the attributes, and the GPU
    specialisation of [RunIfBoxIndexIsValid] are left out.

    What the classes use of the framework ([Status], [Tensor],
    [TensorShape], [OpKernelContext] and the [OP_REQUIRES] macros of
    tensorflow/core/framework and tensorflow/core/lib/core) is not part
    of the sources at hand; it is modelled to the extent the file uses
    it, and every such definition says so.  Extents and sizes are taken
    to fit the [int] variables that hold them. *)

Local Open Scope string_scope.

(** Modelled from the spec: [Status] of tensorflow/core/lib/core, which
    is not part of the sources at hand and which the specification
    names only as the caller's concern (section 1).  The model follows
    the uses in the file: a status is a code, [OK] or an error, and a
    message.  The codes are those the file raises and the one of a
    failed allocation. *)
Inductive Code : Type :=
  | OK | INVALID_ARGUMENT | OUT_OF_RANGE | INTERNAL | RESOURCE_EXHAUSTED.

(** An argument of [errors::InvalidArgument] and the like as the file
    passes them: a string literal or the [DebugString] of a shape.  The
    message is kept as the list of the arguments. *)
Inductive MessagePart : Type :=
  | Str (s : String.string)
  | ShapeDebugString (shape : list Z).

Record Status : Type := mkStatus {
  code : Code;
  error_message : list MessagePart
}.

Definition Status_OK : Status := mkStatus OK [].

(** [s.ok()] *)
Definition ok (s : Status) : bool :=
  match code s with OK => true | _ => false end.

Definition InvalidArgument (msg : list MessagePart) : Status :=
  mkStatus INVALID_ARGUMENT msg.
Definition OutOfRange (msg : list MessagePart) : Status :=
  mkStatus OUT_OF_RANGE msg.
Definition Internal (msg : list MessagePart) : Status :=
  mkStatus INTERNAL msg.

(** Modelled from the spec: [t.dims()], [t.dim_size(k)] and
    [t.NumElements()] of [Tensor] (tensorflow/core/framework, not part
    of the sources at hand): the number of the extents, the [k]-th
    extent and the product of the extents, the shape of sections 3 and
    6 of the specification. *)
Definition rank {A} (t : Tensor A) : Z := Z.of_nat (length (dims t)).
Definition dim_size {A} (t : Tensor A) (k : nat) : Z := nth k (dims t) 0.
Definition NumElements {A} (t : Tensor A) : Z := fold_right Z.mul 1 (dims t).

Section BoxSizes.

Context {F : Type}.

(** [ParseAndCheckBoxSizes], lines 53-78.  The out-parameter
    [*num_boxes] is the second component of the result; [num_boxes] is
    what it holds at the call. *)
Definition ParseAndCheckBoxSizes (boxes : Tensor F) (box_index : Tensor Z)
    (num_boxes : Z) : Status * Z :=
  if (NumElements boxes =? 0) && (NumElements box_index =? 0) then
    (Status_OK, 0)
  else if negb (rank boxes =? 2) then
    (InvalidArgument [Str "boxes must be 2-D"; ShapeDebugString (dims boxes)],
     num_boxes)
  else
    let num_boxes := dim_size boxes 0 in
    if negb (dim_size boxes 1 =? 4) then
      (InvalidArgument [Str "boxes must have 4 columns"], num_boxes)
    else if negb (rank box_index =? 1) then
      (InvalidArgument [Str "box_index must be 1-D";
                        ShapeDebugString (dims box_index)], num_boxes)
    else if negb (dim_size box_index 0 =? num_boxes) then
      (InvalidArgument [Str "box_index has incompatible shape"], num_boxes)
    else (Status_OK, num_boxes).

(** [ParseAndCheckBoxSizes3D], lines 80-105. *)
Definition ParseAndCheckBoxSizes3D (boxes : Tensor F) (box_index : Tensor Z)
    (num_boxes : Z) : Status * Z :=
  if (NumElements boxes =? 0) && (NumElements box_index =? 0) then
    (Status_OK, 0)
  else if negb (rank boxes =? 2) then
    (InvalidArgument [Str "boxes must be 2-D"; ShapeDebugString (dims boxes)],
     num_boxes)
  else
    let num_boxes := dim_size boxes 0 in
    if negb (dim_size boxes 1 =? 6) then
      (InvalidArgument [Str "boxes must have 6 columns"], num_boxes)
    else if negb (rank box_index =? 1) then
      (InvalidArgument [Str "box_index must be 1-D";
                        ShapeDebugString (dims box_index)], num_boxes)
    else if negb (dim_size box_index 0 =? num_boxes) then
      (InvalidArgument [Str "box_index has incompatible shape"], num_boxes)
    else (Status_OK, num_boxes).

End BoxSizes.

Section OpKernels.

Context {F T : Type} {FO : FloatOps F} {EO : ElemOps T F}.

(** Modelled from the spec: [OpKernelContext] of
    tensorflow/core/framework, which is not part of the sources at
    hand.  The record holds what an op of the file touches of it: the
    tensors (the inputs under the names the op binds them to, and the
    output it allocates), the [int32] input that holds sizes
    ([crop_size] of the forward ops, [image_size] of the image-gradient
    ops) and the status. *)
Record OpKernelContext : Type := mkContext {
  tensors : Store F T;
  size_input : Tensor Z;
  status : Status
}.

Definition with_tensors (s : Store F T) (context : OpKernelContext)
  : OpKernelContext :=
  {| tensors := s; size_input := size_input context;
     status := status context |}.

(** Modelled from the spec: [context->SetStatus(s)] of the framework,
    which [CtxFailure] calls; the context keeps the first status that
    is not OK. *)
Definition SetStatus (s : Status) (context : OpKernelContext)
  : OpKernelContext :=
  if ok (status context)
  then {| tensors := tensors context; size_input := size_input context;
          status := s |}
  else context.

(** A [std::function<void()>] that acts on the context it has captured;
    it may be empty.  A callback that returns [None] has run into
    undefined behaviour or a fatal error. *)
Definition Callback : Type :=
  option (OpKernelContext -> option OpKernelContext).

(** [f()]; calling an empty [std::function] is an error. *)
Definition call (f : Callback) (context : OpKernelContext)
  : option OpKernelContext :=
  match f with Some g => g context | None => None end.

(** [if (f) f()] *)
Definition call_if_set (f : Callback) (context : OpKernelContext)
  : option OpKernelContext :=
  match f with Some g => g context | None => Some context end.

(** Modelled from the spec: the macro [OP_REQUIRES_ASYNC(context, exp,
    status, callback); rest] of tensorflow/core/framework/op_kernel.h,
    which is not part of the sources at hand: when [exp] is false the
    status is recorded, the callback runs and the function returns. *)
Definition OP_REQUIRES_ASYNC (exp : bool) (st : Status) (callback : Callback)
    (rest : OpKernelContext -> option OpKernelContext)
    (context : OpKernelContext) : option OpKernelContext :=
  if exp then rest context else call callback (SetStatus st context).

(** Modelled from the spec: [OP_REQUIRES_OK_ASYNC(context, status,
    callback); rest] of the same header, the same for a status that is
    not OK. *)
Definition OP_REQUIRES_OK_ASYNC (st : Status) (callback : Callback)
    (rest : OpKernelContext -> option OpKernelContext)
    (context : OpKernelContext) : option OpKernelContext :=
  if ok st then rest context else call callback (SetStatus st context).

(** The loop of lines 120-125 with [n] boxes to go from box [b], then
    [rest].  The read [box_index(b)] is checked against the extent as
    the reads of the kernels are. *)
Fixpoint RunIfBoxIndexIsValid_loop (box_index : Tensor Z) (batch_size : Z)
    (done : Callback) (n : nat) (b : Z)
    (rest : OpKernelContext -> option OpKernelContext)
    (context : OpKernelContext) : option OpKernelContext :=
  match n with
  | O => rest context
  | S n' =>
      if in_range (dims box_index) [b] then
        OP_REQUIRES_ASYNC
          (FastBoundsCheck (elt box_index [b]) batch_size)
          (OutOfRange [Str "box_index has values outside [0, batch_size)"])
          done
          (RunIfBoxIndexIsValid_loop box_index batch_size done n' (b + 1)
             rest)
          context
      else None
  end.

(** [RunIfBoxIndexIsValid<CPUDevice>], lines 116-132. *)
Definition RunIfBoxIndexIsValid (box_index : Tensor Z) (batch_size : Z)
    (compute done : Callback) (context : OpKernelContext)
  : option OpKernelContext :=
  let num_boxes := dimension box_index 0 in
  RunIfBoxIndexIsValid_loop box_index batch_size done
    (Z.to_nat num_boxes) 0
    (fun context =>
       match call_if_set compute context with
       | Some context => call_if_set done context
       | None => None
       end)
    context.

End OpKernels.

Arguments OpKernelContext : clear implicits.
Arguments Callback : clear implicits.

(** Modelled from the spec: [t.tensor<T, NDIMS>()] (and [vec], [NDIMS =
    1]) of [Tensor], not part of the sources at hand: the typed view of
    a tensor by [NDIMS] indices, the dense array view of section 1 of
    the specification; asking for it of a tensor of another rank is a
    fatal error. *)
Definition tensor_view {A} (ndims : Z) (t : Tensor A) : option (Tensor A) :=
  if rank t =? ndims then Some t else None.

(** Modelled from the spec: [TensorShape({...})] of the framework, not
    part of the sources at hand; a negative extent is a fatal error. *)
Definition TensorShape (ds : list Z) : option (list Z) :=
  if forallb (Z.leb 0) ds then Some ds else None.

(** Modelled from the spec: [context->allocate_output] of the
    framework, not part of the sources at hand, by what it does for a
    shape: its status, and when that is OK the buffer it hands out,
    which holds whatever the memory held (the output is allocated by
    the caller before the call, section 3 of the specification). *)
Record Allocator (A : Type) : Type := mkAllocator {
  allocate_status : list Z -> Status;
  uninitialized : list Z -> list Z -> A
}.

Definition allocated {A} (alloc : Allocator A) (shape : list Z) : Tensor A :=
  {| dims := shape; elt := uninitialized alloc shape |}.

(** Rebinding the two other outputs of the store. *)
Definition with_grads_image {F T} (t : Tensor T)
    (context : OpKernelContext F T) : OpKernelContext F T :=
  with_tensors (set_grads_image (tensors context) t) context.

Definition with_grads_boxes {F T} (t : Tensor F)
    (context : OpKernelContext F T) : OpKernelContext F T :=
  with_tensors (set_grads_boxes (tensors context) t) context.

Section OpClasses.

Context {F T : Type} {FO : FloatOps F} {EO : ElemOps T F}.

(** The end of every [compute_callback], [if (!status)
    context->SetStatus(failure)]: the CPU functors return [true] (lines
    420, 563, 822, 928, 1211 and 1365), so the status is left as it
    is. *)
Definition report_launch (status : bool) (failure : Status)
    (context : OpKernelContext F T) : OpKernelContext F T :=
  if negb status then SetStatus failure context else context.

(** The lambda [compute_callback] of [CropAndResizeOp], lines
    203-215. *)
Definition CropAndResizeOp_compute_callback (extrapolation_value_ : F)
    (context : OpKernelContext F T) : option (OpKernelContext F T) :=
  let image_ := image (tensors context) in
  let boxes_ := boxes (tensors context) in
  let box_index_ := box_index (tensors context) in
  let output := crops (tensors context) in
  match tensor_view 4 image_, tensor_view 2 boxes_,
        tensor_view 1 box_index_, tensor_view 4 output with
  | Some _, Some _, Some _, Some _ =>
      match CropAndResize extrapolation_value_ (tensors context) with
      | Some (_, s') =>
          Some (report_launch true
                  (Internal [Str "Failed launch CropAndResizeKernel."])
                  (with_tensors s' context))
      | None => None
      end
  | _, _, _, _ => None
  end.

(** [CropAndResizeOp::ComputeAsync], lines 149-220.  [image], [boxes]
    and [box_index] are the inputs 0, 1 and 2, [crop_size] is input 3;
    the output is the tensor [crops] of the store. *)
Definition CropAndResizeOp_ComputeAsync (extrapolation_value_ : F)
    (alloc : Allocator F) (done : Callback F T)
    (context : OpKernelContext F T) : option (OpKernelContext F T) :=
  let image_ := image (tensors context) in
  let boxes_ := boxes (tensors context) in
  let box_index_ := box_index (tensors context) in
  let crop_size := size_input context in
  OP_REQUIRES_ASYNC (rank image_ =? 4)
    (InvalidArgument [Str "input image must be 4-D";
                      ShapeDebugString (dims image_)]) done
  (fun context =>
  let batch_size := dim_size image_ 0 in
  let image_height := dim_size image_ 1 in
  let image_width := dim_size image_ 2 in
  let depth := dim_size image_ 3 in
  OP_REQUIRES_ASYNC ((0 <? image_height) && (0 <? image_width))
    (InvalidArgument [Str "image dimensions must be positive"]) done
  (fun context =>
  let parsed := ParseAndCheckBoxSizes boxes_ box_index_ 0 in
  let num_boxes := snd parsed in
  OP_REQUIRES_OK_ASYNC (fst parsed) done
  (fun context =>
  OP_REQUIRES_ASYNC (rank crop_size =? 1)
    (InvalidArgument [Str "crop_size must be 1-D";
                      ShapeDebugString (dims crop_size)]) done
  (fun context =>
  OP_REQUIRES_ASYNC (dim_size crop_size 0 =? 2)
    (InvalidArgument [Str "crop_size must have two elements";
                      ShapeDebugString (dims crop_size)]) done
  (fun context =>
  let crop_height := elt crop_size [0] in
  let crop_width := elt crop_size [1] in
  OP_REQUIRES_ASYNC ((0 <? crop_height) && (0 <? crop_width))
    (InvalidArgument [Str "crop dimensions must be positive"]) done
  (fun context =>
  match TensorShape [num_boxes; crop_height; crop_width; depth] with
  | None => None
  | Some shape =>
  OP_REQUIRES_OK_ASYNC (allocate_status alloc shape) done
  (fun context =>
  let context :=
    with_tensors (set_crops (tensors context) (allocated alloc shape))
      context in
  match tensor_view 1 box_index_ with
  | None => None
  | Some box_index_view =>
      RunIfBoxIndexIsValid box_index_view batch_size
        (Some (CropAndResizeOp_compute_callback extrapolation_value_))
        done context
  end) context
  end) context) context) context) context) context) context.

(** The lambda [compute_callback] of [CropAndResizeOp3D], lines
    294-306. *)
Definition CropAndResizeOp3D_compute_callback (extrapolation_value_ : F)
    (context : OpKernelContext F T) : option (OpKernelContext F T) :=
  let image_ := image (tensors context) in
  let boxes_ := boxes (tensors context) in
  let box_index_ := box_index (tensors context) in
  let output := crops (tensors context) in
  match tensor_view 5 image_, tensor_view 2 boxes_,
        tensor_view 1 box_index_, tensor_view 5 output with
  | Some _, Some _, Some _, Some _ =>
      match CropAndResize3D extrapolation_value_ (tensors context) with
      | Some (_, s') =>
          Some (report_launch true
                  (Internal [Str "Failed launch CropAndResize3DKernel."])
                  (with_tensors s' context))
      | None => None
      end
  | _, _, _, _ => None
  end.

(** [CropAndResizeOp3D::ComputeAsync], lines 239-311.  The message of
    the first check says 4-D, as in the source. *)
Definition CropAndResizeOp3D_ComputeAsync (extrapolation_value_ : F)
    (alloc : Allocator F) (done : Callback F T)
    (context : OpKernelContext F T) : option (OpKernelContext F T) :=
  let image_ := image (tensors context) in
  let boxes_ := boxes (tensors context) in
  let box_index_ := box_index (tensors context) in
  let crop_size := size_input context in
  OP_REQUIRES_ASYNC (rank image_ =? 5)
    (InvalidArgument [Str "input image must be 4-D";
                      ShapeDebugString (dims image_)]) done
  (fun context =>
  let batch_size := dim_size image_ 0 in
  let image_height := dim_size image_ 1 in
  let image_width := dim_size image_ 2 in
  let image_depth := dim_size image_ 3 in
  let depth := dim_size image_ 4 in
  OP_REQUIRES_ASYNC
    ((0 <? image_height) && (0 <? image_width) && (0 <? image_depth))
    (InvalidArgument [Str "image dimensions must be positive"]) done
  (fun context =>
  let parsed := ParseAndCheckBoxSizes3D boxes_ box_index_ 0 in
  let num_boxes := snd parsed in
  OP_REQUIRES_OK_ASYNC (fst parsed) done
  (fun context =>
  OP_REQUIRES_ASYNC (rank crop_size =? 1)
    (InvalidArgument [Str "crop_size must be 1-D";
                      ShapeDebugString (dims crop_size)]) done
  (fun context =>
  OP_REQUIRES_ASYNC (dim_size crop_size 0 =? 3)
    (InvalidArgument [Str "crop_size must have three elements";
                      ShapeDebugString (dims crop_size)]) done
  (fun context =>
  let crop_height := elt crop_size [0] in
  let crop_width := elt crop_size [1] in
  let crop_depth := elt crop_size [2] in
  OP_REQUIRES_ASYNC
    ((0 <? crop_height) && (0 <? crop_width) && (0 <? crop_depth))
    (InvalidArgument [Str "crop dimensions must be positive"]) done
  (fun context =>
  match TensorShape
          [num_boxes; crop_height; crop_width; crop_depth; depth] with
  | None => None
  | Some shape =>
  OP_REQUIRES_OK_ASYNC (allocate_status alloc shape) done
  (fun context =>
  let context :=
    with_tensors (set_crops (tensors context) (allocated alloc shape))
      context in
  match tensor_view 1 box_index_ with
  | None => None
  | Some box_index_view =>
      RunIfBoxIndexIsValid box_index_view batch_size
        (Some (CropAndResizeOp3D_compute_callback extrapolation_value_))
        done context
  end) context
  end) context) context) context) context) context) context.

(** The lambda [compute_callback] of [CropAndResizeGradImageOp], lines
    637-649. *)
Definition CropAndResizeGradImageOp_compute_callback
    (context : OpKernelContext F T) : option (OpKernelContext F T) :=
  let grads_ := grads (tensors context) in
  let boxes_ := boxes (tensors context) in
  let box_index_ := box_index (tensors context) in
  let output := grads_image (tensors context) in
  match tensor_view 4 grads_, tensor_view 2 boxes_,
        tensor_view 1 box_index_, tensor_view 4 output with
  | Some _, Some _, Some _, Some _ =>
      match CropAndResizeBackpropImage (tensors context) with
      | Some (_, s') =>
          Some (report_launch true
                  (Internal
                     [Str "Failed launch CropAndResizeBackpropImage kernel."])
                  (with_tensors s' context))
      | None => None
      end
  | _, _, _, _ => None
  end.

(** [CropAndResizeGradImageOp::ComputeAsync], lines 580-654.  [grads],
    [boxes] and [box_index] are the inputs 0, 1 and 2, [image_size] is
    input 3; the output is the tensor [grads_image] of the store. *)
Definition CropAndResizeGradImageOp_ComputeAsync
    (alloc : Allocator T) (done : Callback F T)
    (context : OpKernelContext F T) : option (OpKernelContext F T) :=
  let grads_ := grads (tensors context) in
  let boxes_ := boxes (tensors context) in
  let box_index_ := box_index (tensors context) in
  let image_size := size_input context in
  OP_REQUIRES_ASYNC (rank grads_ =? 4)
    (InvalidArgument [Str "grads image must be 4-D";
                      ShapeDebugString (dims grads_)]) done
  (fun context =>
  let crop_height := dim_size grads_ 1 in
  let crop_width := dim_size grads_ 2 in
  OP_REQUIRES_ASYNC ((0 <? crop_height) && (0 <? crop_width))
    (InvalidArgument [Str "grads dimensions must be positive"]) done
  (fun context =>
  let parsed := ParseAndCheckBoxSizes boxes_ box_index_ 0 in
  let num_boxes := snd parsed in
  OP_REQUIRES_OK_ASYNC (fst parsed) done
  (fun context =>
  OP_REQUIRES_ASYNC (dim_size grads_ 0 =? num_boxes)
    (InvalidArgument [Str "boxes and grads have incompatible shape"]) done
  (fun context =>
  OP_REQUIRES_ASYNC (rank image_size =? 1)
    (InvalidArgument [Str "image_size must be 1-D";
                      ShapeDebugString (dims image_size)]) done
  (fun context =>
  OP_REQUIRES_ASYNC (dim_size image_size 0 =? 4)
    (InvalidArgument [Str "image_size must have 4 elements";
                      ShapeDebugString (dims image_size)]) done
  (fun context =>
  let batch_size := elt image_size [0] in
  let image_height := elt image_size [1] in
  let image_width := elt image_size [2] in
  let depth := elt image_size [3] in
  OP_REQUIRES_ASYNC ((0 <? image_height) && (0 <? image_width))
    (InvalidArgument [Str "image dimensions must be positive"]) done
  (fun context =>
  OP_REQUIRES_ASYNC (dim_size grads_ 3 =? depth)
    (InvalidArgument [Str "image_size and grads are incompatible"]) done
  (fun context =>
  match TensorShape [batch_size; image_height; image_width; depth] with
  | None => None
  | Some shape =>
  OP_REQUIRES_OK_ASYNC (allocate_status alloc shape) done
  (fun context =>
  let context := with_grads_image (allocated alloc shape) context in
  match tensor_view 1 box_index_ with
  | None => None
  | Some box_index_view =>
      RunIfBoxIndexIsValid box_index_view batch_size
        (Some CropAndResizeGradImageOp_compute_callback) done context
  end) context
  end) context) context) context) context) context) context) context)
  context.

(** The lambda [compute_callback] of [CropAndResizeGradImageOp3D],
    lines 727-739. *)
Definition CropAndResizeGradImageOp3D_compute_callback
    (context : OpKernelContext F T) : option (OpKernelContext F T) :=
  let grads_ := grads (tensors context) in
  let boxes_ := boxes (tensors context) in
  let box_index_ := box_index (tensors context) in
  let output := grads_image (tensors context) in
  match tensor_view 5 grads_, tensor_view 2 boxes_,
        tensor_view 1 box_index_, tensor_view 5 output with
  | Some _, Some _, Some _, Some _ =>
      match CropAndResizeBackpropImage3D (tensors context) with
      | Some (_, s') =>
          Some (report_launch true
                  (Internal
                     [Str
                      "Failed launch CropAndResizeBackpropImage3D kernel."])
                  (with_tensors s' context))
      | None => None
      end
  | _, _, _, _ => None
  end.

(** [CropAndResizeGradImageOp3D::ComputeAsync], lines 668-744. *)
Definition CropAndResizeGradImageOp3D_ComputeAsync
    (alloc : Allocator T) (done : Callback F T)
    (context : OpKernelContext F T) : option (OpKernelContext F T) :=
  let grads_ := grads (tensors context) in
  let boxes_ := boxes (tensors context) in
  let box_index_ := box_index (tensors context) in
  let image_size := size_input context in
  OP_REQUIRES_ASYNC (rank grads_ =? 5)
    (InvalidArgument [Str "grads image must be 5-D";
                      ShapeDebugString (dims grads_)]) done
  (fun context =>
  let crop_height := dim_size grads_ 1 in
  let crop_width := dim_size grads_ 2 in
  let crop_depth := dim_size grads_ 3 in
  OP_REQUIRES_ASYNC
    ((0 <? crop_height) && (0 <? crop_width) && (0 <? crop_depth))
    (InvalidArgument [Str "grads dimensions must be positive"]) done
  (fun context =>
  let parsed := ParseAndCheckBoxSizes3D boxes_ box_index_ 0 in
  let num_boxes := snd parsed in
  OP_REQUIRES_OK_ASYNC (fst parsed) done
  (fun context =>
  OP_REQUIRES_ASYNC (dim_size grads_ 0 =? num_boxes)
    (InvalidArgument [Str "boxes and grads have incompatible shape"]) done
  (fun context =>
  OP_REQUIRES_ASYNC (rank image_size =? 1)
    (InvalidArgument [Str "image_size must be 1-D";
                      ShapeDebugString (dims image_size)]) done
  (fun context =>
  OP_REQUIRES_ASYNC (dim_size image_size 0 =? 5)
    (InvalidArgument [Str "image_size must have 5 elements";
                      ShapeDebugString (dims image_size)]) done
  (fun context =>
  let batch_size := elt image_size [0] in
  let image_height := elt image_size [1] in
  let image_width := elt image_size [2] in
  let image_depth := elt image_size [3] in
  let depth := elt image_size [4] in
  OP_REQUIRES_ASYNC
    ((0 <? image_height) && (0 <? image_width) && (0 <? image_depth))
    (InvalidArgument [Str "image dimensions must be positive"]) done
  (fun context =>
  OP_REQUIRES_ASYNC (dim_size grads_ 4 =? depth)
    (InvalidArgument [Str "image_size and grads are incompatible"]) done
  (fun context =>
  match TensorShape
          [batch_size; image_height; image_width; image_depth; depth] with
  | None => None
  | Some shape =>
  OP_REQUIRES_OK_ASYNC (allocate_status alloc shape) done
  (fun context =>
  let context := with_grads_image (allocated alloc shape) context in
  match tensor_view 1 box_index_ with
  | None => None
  | Some box_index_view =>
      RunIfBoxIndexIsValid box_index_view batch_size
        (Some CropAndResizeGradImageOp3D_compute_callback) done context
  end) context
  end) context) context) context) context) context) context) context)
  context.

(** The lambda [compute_callback] of [CropAndResizeGradBoxesOp], lines
    997-1010. *)
Definition CropAndResizeGradBoxesOp_compute_callback
    (context : OpKernelContext F T) : option (OpKernelContext F T) :=
  let grads_ := grads (tensors context) in
  let image_ := image (tensors context) in
  let boxes_ := boxes (tensors context) in
  let box_index_ := box_index (tensors context) in
  let output := grads_boxes (tensors context) in
  match tensor_view 4 grads_, tensor_view 4 image_, tensor_view 2 boxes_,
        tensor_view 1 box_index_, tensor_view 2 output with
  | Some _, Some _, Some _, Some _, Some _ =>
      match CropAndResizeBackpropBoxes (tensors context) with
      | Some (_, s') =>
          Some (report_launch true
                  (Internal
                     [Str "Failed launch CropAndResizeBackpropBoxes kernel."])
                  (with_tensors s' context))
      | None => None
      end
  | _, _, _, _, _ => None
  end.

(** [CropAndResizeGradBoxesOp::ComputeAsync], lines 945-1015.  [grads]
    is input 0, [image] input 1, [boxes] input 2 and [box_index] input
    3; the output is the tensor [grads_boxes] of the store. *)
Definition CropAndResizeGradBoxesOp_ComputeAsync
    (alloc : Allocator F) (done : Callback F T)
    (context : OpKernelContext F T) : option (OpKernelContext F T) :=
  let grads_ := grads (tensors context) in
  let boxes_ := boxes (tensors context) in
  let box_index_ := box_index (tensors context) in
  let image_ := image (tensors context) in
  OP_REQUIRES_ASYNC (rank grads_ =? 4)
    (InvalidArgument [Str "grads image must be 4-D";
                      ShapeDebugString (dims grads_)]) done
  (fun context =>
  let crop_height := dim_size grads_ 1 in
  let crop_width := dim_size grads_ 2 in
  let depth := dim_size grads_ 3 in
  OP_REQUIRES_ASYNC ((0 <? crop_height) && (0 <? crop_width))
    (InvalidArgument [Str "grads dimensions must be positive"]) done
  (fun context =>
  OP_REQUIRES_ASYNC (rank image_ =? 4)
    (InvalidArgument [Str "input image must be 4-D";
                      ShapeDebugString (dims image_)]) done
  (fun context =>
  let batch_size := dim_size image_ 0 in
  let image_height := dim_size image_ 1 in
  let image_width := dim_size image_ 2 in
  OP_REQUIRES_ASYNC ((0 <? image_height) && (0 <? image_width))
    (InvalidArgument [Str "image dimensions must be positive"]) done
  (fun context =>
  OP_REQUIRES_ASYNC (dim_size image_ 3 =? depth)
    (InvalidArgument [Str "image, grads depth differ"]) done
  (fun context =>
  let parsed := ParseAndCheckBoxSizes boxes_ box_index_ 0 in
  let num_boxes := snd parsed in
  OP_REQUIRES_OK_ASYNC (fst parsed) done
  (fun context =>
  OP_REQUIRES_ASYNC (dim_size grads_ 0 =? num_boxes)
    (InvalidArgument [Str "boxes and grads have incompatible shape"]) done
  (fun context =>
  match TensorShape [num_boxes; 4] with
  | None => None
  | Some shape =>
  OP_REQUIRES_OK_ASYNC (allocate_status alloc shape) done
  (fun context =>
  let context := with_grads_boxes (allocated alloc shape) context in
  match tensor_view 1 box_index_ with
  | None => None
  | Some box_index_view =>
      RunIfBoxIndexIsValid box_index_view batch_size
        (Some CropAndResizeGradBoxesOp_compute_callback) done context
  end) context
  end) context) context) context) context) context) context) context.

(** The lambda [compute_callback] of [CropAndResizeGradBoxesOp3D],
    lines 1083-1096; its failure message is that of the 2D op. *)
Definition CropAndResizeGradBoxesOp3D_compute_callback
    (context : OpKernelContext F T) : option (OpKernelContext F T) :=
  let grads_ := grads (tensors context) in
  let image_ := image (tensors context) in
  let boxes_ := boxes (tensors context) in
  let box_index_ := box_index (tensors context) in
  let output := grads_boxes (tensors context) in
  match tensor_view 5 grads_, tensor_view 5 image_, tensor_view 2 boxes_,
        tensor_view 1 box_index_, tensor_view 2 output with
  | Some _, Some _, Some _, Some _, Some _ =>
      match CropAndResizeBackpropBoxes3D (tensors context) with
      | Some (_, s') =>
          Some (report_launch true
                  (Internal
                     [Str "Failed launch CropAndResizeBackpropBoxes kernel."])
                  (with_tensors s' context))
      | None => None
      end
  | _, _, _, _, _ => None
  end.

(** [CropAndResizeGradBoxesOp3D::ComputeAsync], lines 1029-1101.  The
    second check tests [crop_height] twice and [crop_depth] not at all,
    as in the source (line 1049). *)
Definition CropAndResizeGradBoxesOp3D_ComputeAsync
    (alloc : Allocator F) (done : Callback F T)
    (context : OpKernelContext F T) : option (OpKernelContext F T) :=
  let grads_ := grads (tensors context) in
  let boxes_ := boxes (tensors context) in
  let box_index_ := box_index (tensors context) in
  let image_ := image (tensors context) in
  OP_REQUIRES_ASYNC (rank grads_ =? 5)
    (InvalidArgument [Str "grads image must be 5-D";
                      ShapeDebugString (dims grads_)]) done
  (fun context =>
  let crop_height := dim_size grads_ 1 in
  let crop_width := dim_size grads_ 2 in
  let crop_depth := dim_size grads_ 3 in
  let depth := dim_size grads_ 4 in
  OP_REQUIRES_ASYNC
    ((0 <? crop_height) && (0 <? crop_width) && (0 <? crop_height))
    (InvalidArgument [Str "grads dimensions must be positive"]) done
  (fun context =>
  OP_REQUIRES_ASYNC (rank image_ =? 5)
    (InvalidArgument [Str "input image must be 5-D";
                      ShapeDebugString (dims image_)]) done
  (fun context =>
  let batch_size := dim_size image_ 0 in
  let image_height := dim_size image_ 1 in
  let image_width := dim_size image_ 2 in
  let image_depth := dim_size image_ 3 in
  OP_REQUIRES_ASYNC
    ((0 <? image_height) && (0 <? image_width) && (0 <? image_depth))
    (InvalidArgument [Str "image dimensions must be positive"]) done
  (fun context =>
  OP_REQUIRES_ASYNC (dim_size image_ 4 =? depth)
    (InvalidArgument [Str "image, grads depth differ"]) done
  (fun context =>
  let parsed := ParseAndCheckBoxSizes3D boxes_ box_index_ 0 in
  let num_boxes := snd parsed in
  OP_REQUIRES_OK_ASYNC (fst parsed) done
  (fun context =>
  OP_REQUIRES_ASYNC (dim_size grads_ 0 =? num_boxes)
    (InvalidArgument [Str "boxes and grads have incompatible shape"]) done
  (fun context =>
  match TensorShape [num_boxes; 6] with
  | None => None
  | Some shape =>
  OP_REQUIRES_OK_ASYNC (allocate_status alloc shape) done
  (fun context =>
  let context := with_grads_boxes (allocated alloc shape) context in
  match tensor_view 1 box_index_ with
  | None => None
  | Some box_index_view =>
      RunIfBoxIndexIsValid box_index_view batch_size
        (Some CropAndResizeGradBoxesOp3D_compute_callback) done context
  end) context
  end) context) context) context) context) context) context) context.

End OpClasses.

(** One 2x2 image that holds 5 everywhere, and one box over the full
    image with crop size 2x2. *)
Definition flat_store : Store Q Q :=
  {| image := tensor_of_list [1; 2; 2; 1] 5%Q [];
     boxes := tensor_of_list [1; 4] 0%Q [0; 0; 1; 1]%Q;
     box_index := tensor_of_list [1] 0 [0];
     grads := tensor_of_list [1; 2; 2; 1] 1%Q [];
     crops := tensor_of_list [1; 2; 2; 1] 9%Q [];
     grads_image := tensor_of_list [1; 2; 2; 1] 9%Q [];
     grads_boxes := tensor_of_list [1; 4] 9%Q [] |}.

(** One 2x2 image and one box strictly inside it, from (1/4, 1/4) to
    (3/4, 3/4), with crop size 2x2. *)
Definition inner_store : Store Q Q :=
  {| image := tensor_of_list [1; 2; 2; 1] 0%Q [0; 1; 2; 3]%Q;
     boxes := tensor_of_list [1; 4] 0%Q [1 # 4; 1 # 4; 3 # 4; 3 # 4]%Q;
     box_index := tensor_of_list [1] 0 [0];
     grads := tensor_of_list [1; 2; 2; 1] 1%Q [];
     crops := tensor_of_list [1; 2; 2; 1] 9%Q [];
     grads_image := tensor_of_list [1; 2; 2; 1] 9%Q [];
     grads_boxes := tensor_of_list [1; 4] 9%Q [] |}.

(** One 2x2x2 volume that holds 5 everywhere, and one box over the full
    volume with crop size 2x2x2. *)
Definition flat_store3 : Store Q Q :=
  {| image := tensor_of_list [1; 2; 2; 2; 1] 5%Q [];
     boxes := tensor_of_list [1; 6] 0%Q [0; 0; 0; 1; 1; 1]%Q;
     box_index := tensor_of_list [1] 0 [0];
     grads := tensor_of_list [1; 2; 2; 2; 1] 1%Q [];
     crops := tensor_of_list [1; 2; 2; 2; 1] 9%Q [];
     grads_image := tensor_of_list [1; 2; 2; 2; 1] 9%Q [];
     grads_boxes := tensor_of_list [1; 6] 9%Q [] |}.

(** ** Concrete contexts *)

(** A context whose status is OK, with the tensors [s] and with [sizes]
    in its [int32] input. *)
Definition context_of (s : Store Q Q) (sizes : list Z)
  : OpKernelContext Q Q :=
  {| tensors := s;
     size_input := tensor_of_list [Z.of_nat (length sizes)] 0 sizes;
     status := Status_OK |}.

(** An allocator that succeeds and hands out buffers that hold [fill]
    everywhere. *)
Definition filled_allocator (fill : Q) : Allocator Q :=
  {| allocate_status := fun _ => Status_OK;
     uninitialized := fun _ _ => fill |}.

Local Close Scope string_scope.

(* ================================================================== *)
(** * The kernels as folds over the cells *)

Section Folds.

Context {F T : Type} {FO : FloatOps F} {EO : ElemOps T F}.

Local Open Scope float_scope.

(** The coordinate of grid index [i] in the words of the specification
    (section 4.1): [p1*(ext-1) + i*scale] with
    [scale = (p2-p1)*(ext-1)/(crop-1)] when [crop > 1], the midpoint
    [0.5*(p1+p2)*(ext-1)] otherwise, every operation being that of the
    working precision. *)
Definition mapped_coord (p1 p2 : F) (ext crop i : Z) : F :=
  if 1 <? crop
  then p1 *^ of_int (ext - 1)
       +^ of_int i *^ ((p2 -^ p1) *^ of_int (ext - 1) /^ of_int (crop - 1))
  else fhalf *^ (p1 +^ p2) *^ of_int (ext - 1).

(** The same with the scale in the grouping of the box-gradient kernels,
    which multiply [p2 - p1] with the ratio [(ext-1)/(crop-1)]
    (section 4.4). *)
Definition mapped_coord_ratio (p1 p2 : F) (ext crop i : Z) : F :=
  if 1 <? crop
  then p1 *^ of_int (ext - 1)
       +^ of_int i *^ ((p2 -^ p1) *^ (of_int (ext - 1) /^ of_int (crop - 1)))
  else fhalf *^ (p1 +^ p2) *^ of_int (ext - 1).

(** [f (hi - 1) (... (f (lo + 1) (f lo a)))]: what a loop from [lo] to
    [hi] makes of [a] when iteration [i] makes [f i a'] of [a']. *)
Fixpoint iter_from {A} (n : nat) (i : Z) (f : Z -> A -> A) (a : A) : A :=
  match n with
  | O => a
  | S n' => iter_from n' (i + 1) f (f i a)
  end.

Definition iter_range {A} (lo hi : Z) (f : Z -> A -> A) (a : A) : A :=
  iter_from (Z.to_nat (hi - lo)) lo f a.

(** [step] applied, in the order of the loops, for every cell of box
    [b] whose coordinate is in the image on both axes and for every
    channel, when the box has a valid image index; nothing otherwise.
    [coord] maps the grid indices. *)
Definition for_box2 {O} (coord : F -> F -> Z -> Z -> Z -> F)
    (bx : Tensor F) (bi : Tensor Z) (B H W CH CW C : Z)
    (step : Z -> Z -> Z -> Z -> F -> F -> Z -> O -> O) (b : Z) (o : O) : O :=
  let b_in := elt bi [b] in
  if negb (FastBoundsCheck b_in B) then o
  else
    iter_range 0 CH (fun y o =>
      let in_y := coord (elt bx [b; 0]) (elt bx [b; 2]) H CH y in
      if out_of_image in_y H then o
      else
        iter_range 0 CW (fun x o =>
          let in_x := coord (elt bx [b; 1]) (elt bx [b; 3]) W CW x in
          if out_of_image in_x W then o
          else iter_range 0 C (step b b_in y x in_y in_x) o) o) o.

(** The same for every box, in the order of the boxes. *)
Definition for_cells2 {O} (coord : F -> F -> Z -> Z -> Z -> F)
    (bx : Tensor F) (bi : Tensor Z) (B H W N CH CW C : Z)
    (step : Z -> Z -> Z -> Z -> F -> F -> Z -> O -> O) : O -> O :=
  iter_range 0 N (for_box2 coord bx bi B H W CH CW C step).

(** The same over the cells of 3D boxes. *)
Definition for_box3 {O} (coord : F -> F -> Z -> Z -> Z -> F)
    (bx : Tensor F) (bi : Tensor Z) (B H W D CH CW CD C : Z)
    (step : Z -> Z -> Z -> Z -> Z -> F -> F -> F -> Z -> O -> O)
    (b : Z) (o : O) : O :=
  let b_in := elt bi [b] in
  if negb (FastBoundsCheck b_in B) then o
  else
    iter_range 0 CH (fun y o =>
      let in_y := coord (elt bx [b; 0]) (elt bx [b; 3]) H CH y in
      if out_of_image in_y H then o
      else
        iter_range 0 CW (fun x o =>
          let in_x := coord (elt bx [b; 1]) (elt bx [b; 4]) W CW x in
          if out_of_image in_x W then o
          else
            iter_range 0 CD (fun z o =>
              let in_z := coord (elt bx [b; 2]) (elt bx [b; 5]) D CD z in
              if out_of_image in_z D then o
              else iter_range 0 C (step b b_in y x z in_y in_x in_z) o)
            o) o) o.

Definition for_cells3 {O} (coord : F -> F -> Z -> Z -> Z -> F)
    (bx : Tensor F) (bi : Tensor Z) (B H W D N CH CW CD C : Z)
    (step : Z -> Z -> Z -> Z -> Z -> F -> F -> F -> Z -> O -> O) : O -> O :=
  iter_range 0 N (for_box3 coord bx bi B H W D CH CW CD C step).







(** Section 4.4, step 4, for one axis: the first endpoint (column [k1]
    of row [b]) gains the derivative [g] times [ext-1 - i*ratio] and the
    second (column [k2]) [g] times [i*ratio], with
    [ratio = (ext-1)/(crop-1)], when [crop > 1]; both gain [g] times
    [0.5*(ext-1)] when [crop = 1]. *)
Definition endpoints_add (b k1 k2 : Z) (g : F) (ext crop i : Z)
    (gb : Tensor F) : Tensor F :=
  tadd_at
    (tadd_at gb [b; k1] (endpoint1_term g ext crop (axis_ratio ext crop) i))
    [b; k2] (endpoint2_term g ext crop (axis_ratio ext crop) i).

(** Section 4.4 for one cell and one channel of the 2D kernel: the
    derivative of the bilinear sample along each axis, times the
    incoming gradient, is added to the two endpoints of the axis. *)
Definition endpoints2 (img : Tensor T) (g : Tensor F) (H W CH CW : Z)
    (b b_in y x : Z) (in_y in_x : F) (d : Z) (gb : Tensor F) : Tensor F :=
  let top := floorf in_y in
  let bottom := ceilf in_y in
  let y_lerp := in_y -^ of_int top in
  let left := floorf in_x in
  let right := ceilf in_x in
  let x_lerp := in_x -^ of_int left in
  let tl := to_float (elt img [b_in; top; left; d]) in
  let tr := to_float (elt img [b_in; top; right; d]) in
  let bl := to_float (elt img [b_in; bottom; left; d]) in
  let br := to_float (elt img [b_in; bottom; right; d]) in
  let top_grad := elt g [b; y; x; d] in
  endpoints_add b 1 3 (image_grad_x2 tl tr bl br y_lerp top_grad) W CW x
    (endpoints_add b 0 2 (image_grad_y2 tl tr bl br x_lerp top_grad) H CH y
       gb).

(** The box gradient that section 4.4 describes, from zero, when grid
    indices are mapped by [coord]. *)
Definition box_gradient2_with (coord : F -> F -> Z -> Z -> Z -> F)
    (s : Store F T) : Tensor F :=
  for_cells2 coord (boxes s) (box_index s)
    (dimension (image s) 0) (dimension (image s) 1) (dimension (image s) 2)
    (dimension (grads s) 0) (dimension (grads s) 1) (dimension (grads s) 2)
    (dimension (grads s) 3)
    (endpoints2 (image s) (grads s)
       (dimension (image s) 1) (dimension (image s) 2)
       (dimension (grads s) 1) (dimension (grads s) 2))
    (tfill (grads_boxes s) (of_int 0)).

(** The box gradient that the 2D kernel leaves, as a function of the
    store it starts from. *)
Definition box_gradient2 (s : Store F T) : Tensor F :=
  box_gradient2_with mapped_coord_ratio s.

(** The same for one cell and one channel of the 3D kernel, with the
    endpoints of the three axes in the columns 0,3 (y), 1,4 (x) and
    2,5 (z). *)
Definition endpoints3 (img : Tensor T) (g : Tensor F) (H W D CH CW CD : Z)
    (b b_in y x z : Z) (in_y in_x in_z : F) (d : Z) (gb : Tensor F)
  : Tensor F :=
  let top := floorf in_y in
  let bottom := ceilf in_y in
  let y_lerp := in_y -^ of_int top in
  let left := floorf in_x in
  let right := ceilf in_x in
  let x_lerp := in_x -^ of_int left in
  let front := floorf in_z in
  let back := ceilf in_z in
  let z_lerp := in_z -^ of_int front in
  let at_ y x z := to_float (elt img [b_in; y; x; z; d]) in
  let top_grad := elt g [b; y; x; z; d] in
  let gy := image_grad_y3 (at_ top left front) (at_ top right front)
              (at_ bottom left front) (at_ bottom right front)
              (at_ top left back) (at_ top right back)
              (at_ bottom left back) (at_ bottom right back)
              x_lerp z_lerp top_grad in
  let gx := image_grad_x3 (at_ top left front) (at_ top right front)
              (at_ bottom left front) (at_ bottom right front)
              (at_ top left back) (at_ top right back)
              (at_ bottom left back) (at_ bottom right back)
              y_lerp z_lerp top_grad in
  let gz := image_grad_z3 (at_ top left front) (at_ top right front)
              (at_ bottom left front) (at_ bottom right front)
              (at_ top left back) (at_ top right back)
              (at_ bottom left back) (at_ bottom right back)
              y_lerp x_lerp top_grad in
  endpoints_add b 2 5 gz D CD z
    (endpoints_add b 1 4 gx W CW x (endpoints_add b 0 3 gy H CH y gb)).

Definition box_gradient3_with (coord : F -> F -> Z -> Z -> Z -> F)
    (s : Store F T) : Tensor F :=
  for_cells3 coord (boxes s) (box_index s)
    (dimension (image s) 0) (dimension (image s) 1) (dimension (image s) 2)
    (dimension (image s) 3)
    (dimension (grads s) 0) (dimension (grads s) 1) (dimension (grads s) 2)
    (dimension (grads s) 3) (dimension (grads s) 4)
    (endpoints3 (image s) (grads s)
       (dimension (image s) 1) (dimension (image s) 2) (dimension (image s) 3)
       (dimension (grads s) 1) (dimension (grads s) 2)
       (dimension (grads s) 3))
    (tfill (grads_boxes s) (of_int 0)).

Definition box_gradient3 (s : Store F T) : Tensor F :=
  box_gradient3_with mapped_coord_ratio s.

(** [m] computes [f] on the output [out], under [P]: from a store that
    satisfies [P], a run of [m] without an access out of range ends in a
    store that satisfies [P] and whose output is [f] of the output
    before. *)
Definition computes {O} (P : Store F T -> Prop) (out : Store F T -> O)
    (f : O -> O) (m : M F T unit) : Prop :=
  forall s, P s -> wp True m (fun _ s' => P s' /\ out s' = f (out s)) s.

(** The tensors that the image-gradient loops read, and those that the
    box-gradient loops read. *)
Definition reads_grad_image (bx : Tensor F) (bi : Tensor Z) (g : Tensor F)
    (s : Store F T) : Prop :=
  boxes s = bx /\ box_index s = bi /\ grads s = g.

Definition reads_grad_boxes (img : Tensor T) (bx : Tensor F) (bi : Tensor Z)
    (g : Tensor F) (s : Store F T) : Prop :=
  image s = img /\ boxes s = bx /\ box_index s = bi /\ grads s = g.

End Folds.

(* ================================================================== *)
(** * Single precision

    The kernels compute in [float]: IEEE 754 binary32, with 24 bits of
    precision and exponents below 128, every operation rounded to
    nearest, ties to even.  [SpecFloat] of the Standard Library gives
    the operations. *)

Module Binary32.

Definition prec : Z := 24.
Definition emax : Z := 128.

(** [static_cast<float>(n)] *)
Definition of_Z (n : Z) : spec_float := binary_normalize prec emax n 0 false.

(** The integer that [floorf] returns as a [float], when there is one:
    none for an infinity or a NaN, which [floorf] returns as they
    are. *)
Definition floor_Z (x : spec_float) : option Z :=
  match x with
  | S754_zero _ => Some 0
  | S754_finite s m e =>
      Some (Z.div (cond_Zopp s (Zpos m) * 2 ^ Z.max e 0) (2 ^ Z.max (- e) 0))
  | S754_infinity _ | S754_nan => None
  end.

(** The same for [ceilf]. *)
Definition ceil_Z (x : spec_float) : option Z :=
  option_map Z.opp (floor_Z (SFopp x)).

Definition INT_MIN : Z := - 2 ^ 31.

(** The conversion of a [float] to [int] in [const int top_y_index =
    floorf(in_y)].  C++ leaves it undefined when the value is a NaN, an
    infinity or outside the range of [int]; the conversion instruction
    of x86 ([cvttss2si]) gives [INT_MIN] then, and so does this
    model. *)
Definition to_int (v : option Z) : Z :=
  match v with
  | Some n => if (INT_MIN <=? n) && (n <? 2 ^ 31) then n else INT_MIN
  | None => INT_MIN
  end.

(** Rounding toward zero, for [static_cast<int>(x)]. *)
Definition trunc_Z (x : spec_float) : option Z :=
  match x with
  | S754_finite true _ _ => ceil_Z x
  | _ => floor_Z x
  end.

(** The rational number that a finite [float] stands for. *)
Definition value (x : spec_float) : option Q :=
  match x with
  | S754_zero _ => Some 0%Q
  | S754_finite s m e =>
      Some (Qred (inject_Z (cond_Zopp s (Zpos m)) * Qpower 2 e))
  | S754_infinity _ | S754_nan => None
  end.

(** Addition of [int32] elements, wrapping around. *)
Definition wrap (n : Z) : Z := (n + 2 ^ 31) mod 2 ^ 32 - 2 ^ 31.

(** A mantissa of 24 digits with an exponent in the range of the
    normal and subnormal numbers: the form every finite [float] has. *)
Definition in_format (m : positive) (e : Z) : Prop :=
  Zpos (digits2_pos m) = 24 /\ -149 <= e <= 104.

(** Mantissa and exponent of the [float] of a positive integer below
    [2 ^ 24]: the integer shifted to 24 digits. *)
Definition mantissa (n : positive) : positive :=
  match (24 - Zpos (digits2_pos n))%Z with
  | Zpos k => Pos.iter xO n k
  | _ => n
  end.

Definition exponent (n : positive) : Z := Zpos (digits2_pos n) - 24.

(** The largest finite [float]. *)
Definition FLT_MAX : spec_float := S754_finite false (2 ^ 24 - 1) 104.

End Binary32.

#[export] Instance Binary32_FloatOps : FloatOps spec_float := {
  fadd := SFadd Binary32.prec Binary32.emax;
  fsub := SFsub Binary32.prec Binary32.emax;
  fmul := SFmul Binary32.prec Binary32.emax;
  fdiv := SFdiv Binary32.prec Binary32.emax;
  flt := SFltb;
  of_int := Binary32.of_Z;
  fhalf := S754_finite false 8388608 (-24);
  floorf := fun x => Binary32.to_int (Binary32.floor_Z x);
  ceilf := fun x => Binary32.to_int (Binary32.ceil_Z x)
}.

(** Images of [float] elements. *)
#[export] Instance Binary32_ElemOps : ElemOps spec_float spec_float := {
  to_float := fun t => t;
  of_float := fun x => x;
  tzero := S754_zero false;
  tadd := SFadd Binary32.prec Binary32.emax
}.

(** Images of [int32] elements. *)
#[export] Instance Int32_ElemOps : ElemOps Z spec_float := {
  to_float := Binary32.of_Z;
  of_float := fun x => Binary32.to_int (Binary32.trunc_Z x);
  tzero := 0;
  tadd := fun a b => Binary32.wrap (a + b)
}.

(** The [float] of a small integer, and [n / 8] as a [float]. *)
Definition f32 (n : Z) : spec_float := Binary32.of_Z n.

Definition eighths (n : Z) : spec_float :=
  SFdiv Binary32.prec Binary32.emax (f32 n) (f32 8).

(** A box holding exactly (0, 0, 1, 1). *)
Definition full_box (bx : Tensor spec_float) (b : Z) : Prop :=
  elt bx [b; 0] = f32 0 /\ elt bx [b; 1] = f32 0 /\
  elt bx [b; 2] = f32 1 /\ elt bx [b; 3] = f32 1.

(** ** Concrete stores in single precision *)

(** The image [[0,1],[2,3]] of shape [1,2,2,1] with the box
    [(0, 0, 1, 1)] and crop size 2x2: the scenario of the
    specification. *)
Definition identity_store32 : Store spec_float spec_float :=
  {| image := tensor_of_list [1; 2; 2; 1] (f32 0) (map f32 [0; 1; 2; 3]);
     boxes := tensor_of_list [1; 4] (f32 0) (map f32 [0; 0; 1; 1]);
     box_index := tensor_of_list [1] 0 [0];
     grads := tensor_of_list [1; 2; 2; 1] (f32 1) [];
     crops := tensor_of_list [1; 2; 2; 1] (f32 9) [];
     grads_image := tensor_of_list [1; 2; 2; 1] (f32 9) [];
     grads_boxes := tensor_of_list [1; 4] (f32 9) [] |}.

(** The same image with the box [(0, 0, +inf, 1)]: the scale of the y
    axis is [+inf], and the coordinate of row 0 is [0 + 0 * inf], a
    NaN. *)
Definition nan_row_store : Store spec_float spec_float :=
  {| image := tensor_of_list [1; 2; 2; 1] (f32 0) (map f32 [0; 1; 2; 3]);
     boxes := tensor_of_list [1; 4] (f32 0)
                [f32 0; f32 0; S754_infinity false; f32 1];
     box_index := tensor_of_list [1] 0 [0];
     grads := tensor_of_list [1; 2; 2; 1] (f32 1) [];
     crops := tensor_of_list [1; 2; 2; 1] (f32 9) [];
     grads_image := tensor_of_list [1; 2; 2; 1] (f32 9) [];
     grads_boxes := tensor_of_list [1; 4] (f32 9) [] |}.

(** The same image with the finite box [(-FLT_MAX, 0, FLT_MAX, 1)]:
    [y2 - y1] overflows to [+inf], and the coordinate of row 0 is
    [-FLT_MAX + 0 * inf], a NaN again. *)
Definition overflow_row_store : Store spec_float spec_float :=
  {| image := tensor_of_list [1; 2; 2; 1] (f32 0) (map f32 [0; 1; 2; 3]);
     boxes := tensor_of_list [1; 4] (f32 0)
                [SFopp Binary32.FLT_MAX; f32 0; Binary32.FLT_MAX; f32 1];
     box_index := tensor_of_list [1] 0 [0];
     grads := tensor_of_list [1; 2; 2; 1] (f32 1) [];
     crops := tensor_of_list [1; 2; 2; 1] (f32 9) [];
     grads_image := tensor_of_list [1; 2; 2; 1] (f32 9) [];
     grads_boxes := tensor_of_list [1; 4] (f32 9) [] |}.

(** An [int32] image of shape [1,2,2,1] whose last pixel, 2^24 + 1, is
    no [float], with the box [(0, 0, 1, 1)] and crop size 2x2. *)
Definition rounded_pixel_store : Store spec_float Z :=
  {| image := tensor_of_list [1; 2; 2; 1] 0 [0; 1; 2; 16777217];
     boxes := tensor_of_list [1; 4] (f32 0) (map f32 [0; 0; 1; 1]);
     box_index := tensor_of_list [1] 0 [0];
     grads := tensor_of_list [1; 2; 2; 1] (f32 1) [];
     crops := tensor_of_list [1; 2; 2; 1] (f32 9) [];
     grads_image := tensor_of_list [1; 2; 2; 1] 0 [];
     grads_boxes := tensor_of_list [1; 4] (f32 9) [] |}.

(** One image of three rows 0, 1, 2 and one column, and one box from
    [y1 = 7/8] up to [y2 = 4/8] with crop size 8x1; the incoming
    gradient is 1 in row 7 and 0 elsewhere.  Row 7 is mapped to
    [7/4 + 7 * ((-3/8) * 2 / 7)], which is 1 in exact arithmetic. *)
Definition ratio_store : Store spec_float spec_float :=
  {| image := tensor_of_list [1; 3; 1; 1] (f32 0) (map f32 [0; 1; 2]);
     boxes := tensor_of_list [1; 4] (f32 0)
                [eighths 7; f32 0; eighths 4; f32 0];
     box_index := tensor_of_list [1] 0 [0];
     grads := tensor_of_list [1; 8; 1; 1] (f32 0)
                (map f32 [0; 0; 0; 0; 0; 0; 0; 1]);
     crops := tensor_of_list [1; 8; 1; 1] (f32 9) [];
     grads_image := tensor_of_list [1; 3; 1; 1] (f32 9) [];
     grads_boxes := tensor_of_list [1; 4] (f32 9) [] |}.

(** The bodies of the kernels, for the tactics that walk through them. *)
Create HintDb kernel_bodies.
#[export] Hint Unfold
  CropAndResize Shard CropAndResizePerBox CropAndResize_box CropAndResize_row
  CropAndResize_col CropAndResize_channel
  CropAndResize3D CropAndResizePerBox3D CropAndResize3D_box
  CropAndResize3D_row CropAndResize3D_col CropAndResize3D_slice
  CropAndResize3D_channel
  CropAndResizeBackpropImage BackpropImage_box BackpropImage_row
  BackpropImage_col BackpropImage_channel
  CropAndResizeBackpropImage3D BackpropImage3D_box BackpropImage3D_row
  BackpropImage3D_col BackpropImage3D_slice BackpropImage3D_channel
  CropAndResizeBackpropBoxes BackpropBoxes_box BackpropBoxes_row
  BackpropBoxes_col BackpropBoxes_channel
  CropAndResizeBackpropBoxes3D BackpropBoxes3D_box BackpropBoxes3D_row
  BackpropBoxes3D_col BackpropBoxes3D_slice BackpropBoxes3D_channel
  : kernel_bodies.

(* ================================================================== *)
(** * Rules of the program logic *)

Section Logic.

Context {F T : Type} {FO : FloatOps F} {EO : ElemOps T F}.

Local Open Scope float_scope.

Lemma wp_ret {A} fail (a : A) (Q : A -> Store F T -> Prop) s :
  Q a s -> wp fail (ret a) Q s.
Proof. intros HQ; exact HQ. Qed.

Lemma wp_bind {A B} fail (m : M F T A) (k : A -> M F T B) Q s :
  wp fail m (fun a s' => wp fail (k a) Q s') s -> wp fail (bind m k) Q s.
Proof. unfold wp, bind. destruct (m s) as [[a s']|]; auto. Qed.

Lemma wp_conseq {A} fail (m : M F T A) (Q Q' : A -> Store F T -> Prop) s :
  wp fail m Q s -> (forall a s', Q a s' -> Q' a s') -> wp fail m Q' s.
Proof. unfold wp. destruct (m s) as [[a s']|]; auto. Qed.

Lemma wp_get_dim {A} fail (sel : Store F T -> Tensor A) k Q s :
  Q (dimension (sel s) k) s -> wp fail (get_dim sel k) Q s.
Proof. intros HQ; exact HQ. Qed.

Lemma wp_read {A} fail (sel : Store F T -> Tensor A) ix
    (Q : A -> Store F T -> Prop) s :
  (in_range (dims (sel s)) ix = false -> fail) ->
  (in_range (dims (sel s)) ix = true -> Q (elt (sel s) ix) s) ->
  wp fail (read sel ix) Q s.
Proof. unfold wp, read. destruct (in_range _ _); auto. Qed.

Lemma wp_read_in {A} fail (sel : Store F T -> Tensor A) ix
    (Q : A -> Store F T -> Prop) s :
  in_range (dims (sel s)) ix = true -> Q (elt (sel s) ix) s ->
  wp fail (read sel ix) Q s.
Proof. intros Hin HQ. apply wp_read; [congruence | auto]. Qed.

Lemma wp_read_partial {A} (sel : Store F T -> Tensor A) ix
    (Q : A -> Store F T -> Prop) s :
  Q (elt (sel s) ix) s -> wp True (read sel ix) Q s.
Proof. intros HQ. apply wp_read; auto. Qed.

Lemma wp_write_crops fail ix v (Q : unit -> Store F T -> Prop) s :
  (in_range (dims (crops s)) ix = false -> fail) ->
  (in_range (dims (crops s)) ix = true ->
   Q tt (set_crops s (tupdate (crops s) ix v))) ->
  wp fail (write_crops ix v) Q s.
Proof. unfold wp, write_crops. destruct (in_range _ _); auto. Qed.

Lemma wp_for_loop fail (I : Z -> Store F T -> Prop) body n : forall i s,
  I i s ->
  (forall j s', i <= j < i + Z.of_nat n -> I j s' ->
     wp fail (body j) (fun _ => I (j + 1)) s') ->
  wp fail (for_loop n i body) (fun _ => I (i + Z.of_nat n)) s.
Proof.
  induction n as [|n IH]; intros i s Hi Hbody.
  - apply wp_ret. now rewrite Z.add_0_r.
  - simpl for_loop. apply wp_bind.
    eapply wp_conseq. { apply Hbody; [lia | exact Hi]. }
    intros u s' Hs'. cbv beta in Hs' |- *.
    replace (i + Z.of_nat (S n)) with (i + 1 + Z.of_nat n) by lia.
    apply IH; [exact Hs' |]. intros j s'' Hj. apply Hbody. lia.
Qed.

(** The invariant rule for [for] loops. *)
Lemma wp_for fail (I : Z -> Store F T -> Prop) lo hi body s :
  lo <= hi -> I lo s ->
  (forall j s', lo <= j < hi -> I j s' ->
     wp fail (body j) (fun _ => I (j + 1)) s') ->
  wp fail (for_range lo hi body) (fun _ => I hi) s.
Proof.
  intros Hle Hlo Hbody. unfold for_range.
  eapply wp_conseq.
  - apply (@wp_for_loop fail I body (Z.to_nat (hi - lo)) lo s Hlo).
    intros j s' Hj. apply Hbody. lia.
  - intros u s' Hs'. cbv beta in Hs'.
    now replace (lo + Z.of_nat (Z.to_nat (hi - lo))) with hi in Hs' by lia.
Qed.

Lemma for_loop_app body n k : forall i (s : Store F T),
  for_loop (n + k) i body s
  = bind (for_loop n i body)
         (fun _ => for_loop k (i + Z.of_nat n) body) s.
Proof.
  induction n as [|n IH]; intros i s.
  - cbn [for_loop Nat.add]. unfold bind, ret. now rewrite Z.add_0_r.
  - cbn [for_loop Nat.add]. unfold bind at 1 2 3.
    destruct (body i s) as [[u s']|]; [| reflexivity].
    rewrite IH. unfold bind.
    now replace (i + 1 + Z.of_nat n) with (i + Z.of_nat (S n)) by lia.
Qed.

(** Running two adjacent ranges one after the other is running their
    union: the order in which [Shard] cuts [0, total) is immaterial as
    long as the pieces run in sequence. *)
Lemma for_range_split lo mid hi body (s : Store F T) :
  lo <= mid <= hi ->
  for_range lo hi body s
  = bind (for_range lo mid body) (fun _ => for_range mid hi body) s.
Proof.
  intros Hm. unfold for_range.
  assert (E1 : Z.to_nat (hi - lo)
               = (Z.to_nat (mid - lo) + Z.to_nat (hi - mid))%nat) by lia.
  assert (E2 : lo + Z.of_nat (Z.to_nat (mid - lo)) = mid) by lia.
  rewrite E1, for_loop_app, E2. reflexivity.
Qed.

Lemma in_range5 n0 n1 n2 n3 n4 i0 i1 i2 i3 i4 :
  in_range [n0; n1; n2; n3; n4] [i0; i1; i2; i3; i4] = true <->
  (0 <= i0 < n0 /\ 0 <= i1 < n1 /\ 0 <= i2 < n2 /\ 0 <= i3 < n3 /\
   0 <= i4 < n4).
Proof. simpl. rewrite !andb_true_iff, !Z.leb_le, !Z.ltb_lt. intuition lia. Qed.

Lemma in_range4 n0 n1 n2 n3 i0 i1 i2 i3 :
  in_range [n0; n1; n2; n3] [i0; i1; i2; i3] = true <->
  (0 <= i0 < n0 /\ 0 <= i1 < n1 /\ 0 <= i2 < n2 /\ 0 <= i3 < n3).
Proof. simpl. rewrite !andb_true_iff, !Z.leb_le, !Z.ltb_lt. intuition lia. Qed.

Lemma in_range2 n0 n1 i0 i1 :
  in_range [n0; n1] [i0; i1] = true <-> (0 <= i0 < n0 /\ 0 <= i1 < n1).
Proof. simpl. rewrite !andb_true_iff, !Z.leb_le, !Z.ltb_lt. intuition lia. Qed.

Lemma in_range1 n0 i0 :
  in_range [n0] [i0] = true <-> 0 <= i0 < n0.
Proof. simpl. rewrite !andb_true_iff, !Z.leb_le, !Z.ltb_lt. intuition lia. Qed.

Lemma idx_eqb_eq i : forall j, idx_eqb i j = true <-> i = j.
Proof.
  induction i as [|a i IH]; destruct j as [|b j]; simpl;
    try (split; [discriminate | discriminate]); [tauto |].
  rewrite andb_true_iff, Z.eqb_eq, IH. split.
  - intros [-> ->]; reflexivity.
  - intros E; injection E; auto.
Qed.

Lemma FastBoundsCheck_true i n :
  FastBoundsCheck i n = true <-> 0 <= i < n.
Proof.
  unfold FastBoundsCheck. rewrite andb_true_iff, Z.leb_le, Z.ltb_lt. tauto.
Qed.

Lemma FastBoundsCheck_false i n :
  FastBoundsCheck i n = false <-> ~ (0 <= i < n).
Proof.
  rewrite <- FastBoundsCheck_true.
  destruct (FastBoundsCheck i n); split; congruence.
Qed.

(** An indexable coordinate that passes the bounds test has its two
    corner indices inside the extent. *)
Lemma indexable_range (c : F) (ext : Z) :
  indexable c ext = true -> out_of_image c ext = false ->
  0 <= floorf c < ext /\ 0 <= ceilf c < ext.
Proof.
  unfold indexable. intros Hi Ho. rewrite Ho in Hi. cbn [orb] in Hi.
  rewrite !andb_true_iff, !Z.leb_le, !Z.ltb_lt in Hi. lia.
Qed.

Lemma indexable_corners (c : F) (ext : Z) :
  0 <= floorf c < ext -> 0 <= ceilf c < ext -> indexable c ext = true.
Proof.
  intros Hf Hc. unfold indexable. apply orb_true_iff. right.
  rewrite !andb_true_iff, !Z.leb_le, !Z.ltb_lt. lia.
Qed.

Lemma indexable_outside (c : F) (ext : Z) :
  out_of_image c ext = true -> indexable c ext = true.
Proof. intros Ho. unfold indexable. now rewrite Ho. Qed.

End Logic.

(* ================================================================== *)
(** * The 2D forward kernel computes [crop_cell] in every cell *)

Section Forward2D.

Context {F T : Type} {FO : FloatOps F} {EO : ElemOps T F}.

Local Open Scope float_scope.

Variables B H W C N CH CW : Z.
Variable e : F.
Variable s0 : Store F T.
Hypothesis Hshape : shapes2 s0 B H W C N CH CW.

(* Total correctness ([fail] is [False]) needs the coordinates of the
   boxes to be indexable; partial correctness ([fail] is [True]) does
   not. *)
Variable fail : Prop.
Hypothesis Hcoord :
  fail \/
  boxes_indexable2 axis_scale (boxes s0) (box_index s0) B H W N CH CW.

Let cell := crop_cell s0 e B H W CH CW.
Let I4 := Inv4 s0 cell N CH CW C.

Lemma Inv4_equiv b y x d b2 y2 x2 d2 s :
  (forall b' y' x' d',
    0 <= b' < N -> 0 <= y' < CH -> 0 <= x' < CW -> 0 <= d' < C ->
    (before4 b y x d b' y' x' d' <-> before4 b2 y2 x2 d2 b' y' x' d')) ->
  I4 b y x d s -> I4 b2 y2 x2 d2 s.
Proof.
  intros Heq [Hf Hc]. split; [exact Hf |].
  intros b' y' x' d' Hb Hy Hx Hd.
  specialize (Heq b' y' x' d' Hb Hy Hx Hd).
  destruct (Hc b' y' x' d' Hb Hy Hx Hd) as [H1 H2].
  split; intros Hbf; [apply H1 | apply H2]; tauto.
Qed.

(** The store [crops(b, y, x, d) = v] advances the invariant by one
    cell when [v] is the final value of the cell. *)
Lemma Inv4_write b y x d v s :
  0 <= b < N -> 0 <= y < CH -> 0 <= x < CW -> 0 <= d < C ->
  v = cell b y x d ->
  I4 b y x d s ->
  wp fail (write_crops [b; y; x; d] v) (fun _ => I4 b y x (d + 1)) s.
Proof.
  intros Hb Hy Hx Hd Hv [Hf Hc].
  destruct Hshape as (_ & _ & _ & Hcr & _).
  assert (Hin : in_range (dims (crops s)) [b; y; x; d] = true).
  { destruct Hf as (_ & _ & _ & _ & _ & _ & Hd'). rewrite Hd', Hcr.
    apply in_range4. lia. }
  apply wp_write_crops; [congruence |]. intros _.
  split.
  - destruct Hf as (? & ? & ? & ? & ? & ? & ?). repeat split; assumption.
  - intros b' y' x' d' Hb' Hy' Hx' Hd'.
    destruct (Hc b' y' x' d' Hb' Hy' Hx' Hd') as [H1 H2].
    cbn [crops set_crops tupdate elt].
    destruct (idx_eqb [b'; y'; x'; d'] [b; y; x; d]) eqn:E.
    + apply idx_eqb_eq in E. injection E as -> -> -> ->.
      split; [intros _; exact Hv |]. unfold before4. lia.
    + assert (Hne : ~ (b' = b /\ y' = y /\ x' = x /\ d' = d)).
      { intros (-> & -> & -> & ->).
        rewrite (proj2 (idx_eqb_eq _ _) eq_refl) in E. discriminate. }
      split; intros Hbf; [apply H1 | apply H2]; unfold before4 in *; lia.
Qed.

(** Lines 378-380 (and the inner loop of lines 362-366). *)
Lemma Inv4_fill_channels b y x s :
  0 <= b < N -> 0 <= y < CH -> 0 <= x < CW ->
  (forall d, 0 <= d < C -> cell b y x d = e) ->
  I4 b y x 0 s ->
  wp fail (for_range 0 C (fun d => write_crops [b; y; x; d] e))
     (fun _ => I4 b y (x + 1) 0) s.
Proof.
  intros Hb Hy Hx He HI.
  assert (HC : 0 <= C) by (destruct Hshape as (_ & _ & _ & _ & ?); lia).
  eapply wp_conseq.
  - apply wp_for with (I := fun d => I4 b y x d); [exact HC | exact HI |].
    intros d s' Hd HI'. apply Inv4_write; auto. symmetry; auto.
  - intros u s' HI'. revert HI'. apply Inv4_equiv.
    intros; unfold before4; lia.
Qed.

(** Lines 362-366. *)
Lemma Inv4_fill_cols b y s :
  0 <= b < N -> 0 <= y < CH ->
  (forall x d, 0 <= x < CW -> 0 <= d < C -> cell b y x d = e) ->
  I4 b y 0 0 s ->
  wp fail (for_range 0 CW (fun x =>
             for_range 0 C (fun d => write_crops [b; y; x; d] e)))
     (fun _ => I4 b (y + 1) 0 0) s.
Proof.
  intros Hb Hy He HI.
  assert (HC : 0 <= CW) by (destruct Hshape as (_ & _ & _ & _ & ?); lia).
  eapply wp_conseq.
  - apply wp_for with (I := fun x => I4 b y x 0); [exact HC | exact HI |].
    intros x s' Hx HI'. apply Inv4_fill_channels; auto.
  - intros u s' HI'. revert HI'. apply Inv4_equiv.
    intros; unfold before4; lia.
Qed.

(** Lines 345-347: a box with an invalid index keeps its cells. *)
Lemma Inv4_skip_box b s :
  0 <= b < N ->
  FastBoundsCheck (elt (box_index s0) [b]) B = false ->
  I4 b 0 0 0 s -> I4 (b + 1) 0 0 0 s.
Proof.
  intros Hb Hinv [Hf Hc]. split; [exact Hf |].
  intros b' y' x' d' Hb' Hy' Hx' Hd'.
  destruct (Hc b' y' x' d' Hb' Hy' Hx' Hd') as [H1 H2].
  split; intros Hbf.
  - destruct (Z.eq_dec b' b) as [-> | Hne].
    + rewrite H2 by (unfold before4; lia).
      unfold cell, crop_cell. now rewrite Hinv.
    + apply H1. unfold before4 in *. lia.
  - apply H2. unfold before4 in *. lia.
Qed.

(* The coordinates the kernel computes for row [y] and column [x] of
   box [b]. *)
Let in_y (b y : Z) : F :=
  in_coord (elt (boxes s0) [b; 0]) (elt (boxes s0) [b; 2]) H CH
    (axis_scale (elt (boxes s0) [b; 0]) (elt (boxes s0) [b; 2]) H CH) y.
Let in_x (b x : Z) : F :=
  in_coord (elt (boxes s0) [b; 1]) (elt (boxes s0) [b; 3]) W CW
    (axis_scale (elt (boxes s0) [b; 1]) (elt (boxes s0) [b; 3]) W CW) x.

(** Lines 387-400. *)
Lemma Inv4_channel b y x d s :
  0 <= b < N -> 0 <= y < CH -> 0 <= x < CW -> 0 <= d < C ->
  FastBoundsCheck (elt (box_index s0) [b]) B = true ->
  out_of_image (in_y b y) H = false ->
  out_of_image (in_x b x) W = false ->
  I4 b y x d s ->
  wp fail
     (CropAndResize_channel b (elt (box_index s0) [b]) y x
        (floorf (in_y b y)) (ceilf (in_y b y))
        (in_y b y -^ of_int (floorf (in_y b y)))
        (floorf (in_x b x)) (ceilf (in_x b x))
        (in_x b x -^ of_int (floorf (in_x b x))) d)
     (fun _ => I4 b y x (d + 1)) s.
Proof.
  intros Hb Hy Hx Hd Hv Hoy Hox HI.
  pose proof HI as [Hf _].
  destruct Hf as (Him & _).
  destruct Hshape as (Hdi & _).
  pose proof (proj1 (FastBoundsCheck_true _ _) Hv) as Hv'.
  assert (Hin : fail \/
                (0 <= floorf (in_y b y) < H /\ 0 <= ceilf (in_y b y) < H) /\
                (0 <= floorf (in_x b x) < W /\ 0 <= ceilf (in_x b x) < W)).
  { destruct Hcoord as [Hfl | Hc]; [left; exact Hfl | right].
    destruct (Hc b Hb Hv') as [Hay Hax].
    split; [exact (indexable_range _ _ (Hay y Hy) Hoy)
           | exact (indexable_range _ _ (Hax x Hx) Hox)]. }
  unfold CropAndResize_channel.
  do 4 (apply wp_bind; apply wp_read;
        [ intros Hout; destruct Hin as [Hfl | Hin]; [exact Hfl | exfalso];
          rewrite Him, Hdi in Hout;
          match type of Hout with
          | ?t = false =>
              assert (Ht : t = true) by (apply in_range4; lia)
          end;
          congruence
        | intros _ ]).
  apply Inv4_write; auto.
  rewrite Him. unfold cell, crop_cell.
  fold (in_y b y). fold (in_x b x).
  rewrite Hv. cbn [negb]. rewrite Hoy, Hox. reflexivity.
Qed.

(** Lines 373-401. *)
Lemma Inv4_col b y x s :
  0 <= b < N -> 0 <= y < CH -> 0 <= x < CW ->
  FastBoundsCheck (elt (box_index s0) [b]) B = true ->
  out_of_image (in_y b y) H = false ->
  I4 b y x 0 s ->
  wp fail
     (CropAndResize_col W CW C e b (elt (box_index s0) [b])
        (elt (boxes s0) [b; 1]) (elt (boxes s0) [b; 3])
        (axis_scale (elt (boxes s0) [b; 1]) (elt (boxes s0) [b; 3]) W CW)
        y (floorf (in_y b y)) (ceilf (in_y b y))
        (in_y b y -^ of_int (floorf (in_y b y))) x)
     (fun _ => I4 b y (x + 1) 0) s.
Proof.
  intros Hb Hy Hx Hv Hoy HI.
  assert (HC : 0 <= C) by (destruct Hshape as (_ & _ & _ & _ & ?); lia).
  unfold CropAndResize_col. fold (in_x b x).
  destruct (out_of_image (in_x b x) W) eqn:Hox.
  - apply Inv4_fill_channels; auto.
    intros d Hd. unfold cell, crop_cell. rewrite Hv. cbn [negb].
    fold (in_y b y). fold (in_x b x). now rewrite Hoy, Hox.
  - eapply wp_conseq.
    + apply wp_for with (I := fun d => I4 b y x d); [exact HC | exact HI |].
      intros d s' Hd HI'. apply Inv4_channel; auto.
    + intros u s' HI'. revert HI'. apply Inv4_equiv.
      intros; unfold before4; lia.
Qed.

(** Lines 357-402. *)
Lemma Inv4_row b y s :
  0 <= b < N -> 0 <= y < CH ->
  FastBoundsCheck (elt (box_index s0) [b]) B = true ->
  I4 b y 0 0 s ->
  wp fail
     (CropAndResize_row H W CH CW C e b (elt (box_index s0) [b])
        (elt (boxes s0) [b; 0]) (elt (boxes s0) [b; 1])
        (elt (boxes s0) [b; 2]) (elt (boxes s0) [b; 3])
        (axis_scale (elt (boxes s0) [b; 0]) (elt (boxes s0) [b; 2]) H CH)
        (axis_scale (elt (boxes s0) [b; 1]) (elt (boxes s0) [b; 3]) W CW) y)
     (fun _ => I4 b (y + 1) 0 0) s.
Proof.
  intros Hb Hy Hv HI.
  assert (HC : 0 <= CW) by (destruct Hshape as (_ & _ & _ & _ & ?); lia).
  unfold CropAndResize_row. fold (in_y b y).
  destruct (out_of_image (in_y b y) H) eqn:Hoy.
  - apply Inv4_fill_cols; auto.
    intros x d Hx Hd. unfold cell, crop_cell. rewrite Hv. cbn [negb].
    fold (in_y b y). now rewrite Hoy.
  - eapply wp_conseq.
    + apply wp_for with (I := fun x => I4 b y x 0); [exact HC | exact HI |].
      intros x s' Hx HI'. apply Inv4_col; auto.
    + intros u s' HI'. revert HI'. apply Inv4_equiv.
      intros; unfold before4; lia.
Qed.

(** Lines 338-403. *)
Lemma Inv4_box b s :
  0 <= b < N ->
  I4 b 0 0 0 s ->
  wp fail (CropAndResize_box B H W CH CW C e b)
     (fun _ => I4 (b + 1) 0 0 0) s.
Proof.
  intros Hb HI.
  pose proof HI as [Hf _].
  destruct Hf as (_ & Hbx & Hbi & _).
  destruct Hshape as (_ & Hdb & Hdi & _ & _ & HCH & _).
  unfold CropAndResize_box.
  do 4 (apply wp_bind; apply wp_read_in;
        [ rewrite Hbx, Hdb; apply in_range2; lia | ]).
  apply wp_bind; apply wp_read_in;
    [ rewrite Hbi, Hdi; apply in_range1; lia | ].
  rewrite Hbx, Hbi.
  destruct (FastBoundsCheck (elt (box_index s0) [b]) B) eqn:Hv; cbn [negb].
  - eapply wp_conseq.
    + apply wp_for with (I := fun y => I4 b y 0 0); [exact HCH | exact HI |].
      intros y s' Hy HI'. apply Inv4_row; auto.
    + intros u s' HI'. revert HI'. apply Inv4_equiv.
      intros; unfold before4; lia.
  - apply wp_ret. apply Inv4_skip_box; auto.
Qed.

Lemma Inv4_init : I4 0 0 0 0 s0.
Proof.
  split; [repeat split |].
  intros b' y' x' d' Hb' Hy' Hx' Hd'.
  split; [unfold before4; lia | reflexivity].
Qed.

Lemma CropAndResize_wp :
  wp fail (CropAndResize e) (fun _ => I4 N 0 0 0) s0.
Proof.
  destruct Hshape as (Hdi & _ & _ & Hdc & HN & _).
  unfold CropAndResize.
  repeat (apply wp_bind; apply wp_get_dim).
  unfold dimension. rewrite Hdi, Hdc. cbn [nth].
  unfold Shard, CropAndResizePerBox.
  apply wp_for with (I := fun b => I4 b 0 0 0);
    [exact HN | apply Inv4_init |].
  intros b s' Hb HI'. apply Inv4_box; auto.
Qed.

End Forward2D.

(** On caller-guaranteed shapes and indexable coordinates the 2D forward
    kernel returns, touches nothing but the contents of [crops], and
    leaves [crop_cell] in every cell. *)
Lemma CropAndResize_correct {F T} {FO : FloatOps F} {EO : ElemOps T F}
    (s : Store F T) (e : F) (B H W C N CH CW : Z) :
  shapes2 s B H W C N CH CW ->
  boxes_indexable2 axis_scale (boxes s) (box_index s) B H W N CH CW ->
  exists s', CropAndResize e s = Some (tt, s') /\
    crops_frame s s' /\
    forall b y x d,
      0 <= b < N -> 0 <= y < CH -> 0 <= x < CW -> 0 <= d < C ->
      elt (crops s') [b; y; x; d] = crop_cell s e B H W CH CW b y x d.
Proof.
  intros Hs Hc.
  pose proof (@CropAndResize_wp F T FO EO B H W C N CH CW e s Hs
                False (or_intror Hc)) as Hwp.
  unfold wp in Hwp.
  destruct (CropAndResize e s) as [[[] s']|]; [| contradiction].
  exists s'. split; [reflexivity |]. destruct Hwp as [Hf Hcell].
  split; [exact Hf |]. intros b y x d Hb Hy Hx Hd.
  apply (Hcell b y x d Hb Hy Hx Hd). unfold before4. lia.
Qed.

(** Whatever the coordinates are: a run of the 2D forward kernel in
    which no access is out of range touches nothing but the contents of
    [crops] and leaves [crop_cell] in every cell. *)
Lemma CropAndResize_cells {F T} {FO : FloatOps F} {EO : ElemOps T F}
    (s s' : Store F T) (e : F) (B H W C N CH CW : Z) :
  shapes2 s B H W C N CH CW ->
  CropAndResize e s = Some (tt, s') ->
  crops_frame s s' /\
  forall b y x d,
    0 <= b < N -> 0 <= y < CH -> 0 <= x < CW -> 0 <= d < C ->
    elt (crops s') [b; y; x; d] = crop_cell s e B H W CH CW b y x d.
Proof.
  intros Hs Hrun.
  pose proof (@CropAndResize_wp F T FO EO B H W C N CH CW e s Hs
                True (or_introl I)) as Hwp.
  unfold wp in Hwp. rewrite Hrun in Hwp. destruct Hwp as [Hf Hcell].
  split; [exact Hf |]. intros b y x d Hb Hy Hx Hd.
  apply (Hcell b y x d Hb Hy Hx Hd). unfold before4. lia.
Qed.

(* ================================================================== *)
(** * The 3D forward kernel computes [crop_cell3D] in every cell,
      whenever it returns *)

Section Forward3D.

Context {F T : Type} {FO : FloatOps F} {EO : ElemOps T F}.

Local Open Scope float_scope.

Variables B H W D C N CH CW CD : Z.
Variable e : F.
Variable s0 : Store F T.
Hypothesis Hshape : shapes3 s0 B H W D C N CH CW CD.

Let cell := crop_cell3D s0 e B H W D CH CW CD.
Let I5 := Inv5 s0 cell N CH CW CD C.

Lemma Inv5_equiv b y x z d b2 y2 x2 z2 d2 s :
  (forall b' y' x' z' d',
    0 <= b' < N -> 0 <= y' < CH -> 0 <= x' < CW -> 0 <= z' < CD ->
    0 <= d' < C ->
    (before5 b y x z d b' y' x' z' d'
     <-> before5 b2 y2 x2 z2 d2 b' y' x' z' d')) ->
  I5 b y x z d s -> I5 b2 y2 x2 z2 d2 s.
Proof.
  intros Heq [Hf Hc]. split; [exact Hf |].
  intros b' y' x' z' d' Hb Hy Hx Hz Hd.
  specialize (Heq b' y' x' z' d' Hb Hy Hx Hz Hd).
  destruct (Hc b' y' x' z' d' Hb Hy Hx Hz Hd) as [H1 H2].
  split; intros Hbf; [apply H1 | apply H2]; tauto.
Qed.

Lemma Inv5_write b y x z d v s :
  0 <= b < N -> 0 <= y < CH -> 0 <= x < CW -> 0 <= z < CD -> 0 <= d < C ->
  v = cell b y x z d ->
  I5 b y x z d s ->
  wp True (write_crops [b; y; x; z; d] v) (fun _ => I5 b y x z (d + 1)) s.
Proof.
  intros Hb Hy Hx Hz Hd Hv [Hf Hc].
  apply wp_write_crops; [trivial |]. intros _.
  split.
  - destruct Hf as (? & ? & ? & ? & ? & ? & ?). repeat split; assumption.
  - intros b' y' x' z' d' Hb' Hy' Hx' Hz' Hd'.
    destruct (Hc b' y' x' z' d' Hb' Hy' Hx' Hz' Hd') as [H1 H2].
    cbn [crops set_crops tupdate elt].
    destruct (idx_eqb [b'; y'; x'; z'; d'] [b; y; x; z; d]) eqn:E.
    + apply idx_eqb_eq in E. injection E as -> -> -> -> ->.
      split; [intros _; exact Hv |]. unfold before5. lia.
    + assert (Hne : ~ (b' = b /\ y' = y /\ x' = x /\ z' = z /\ d' = d)).
      { intros (-> & -> & -> & -> & ->).
        rewrite (proj2 (idx_eqb_eq _ _) eq_refl) in E. discriminate. }
      split; intros Hbf; [apply H1 | apply H2]; unfold before5 in *; lia.
Qed.

(** Lines 511-513 (and the innermost loops of lines 477-483, 495-499). *)
Lemma Inv5_fill_channels b y x z s :
  0 <= b < N -> 0 <= y < CH -> 0 <= x < CW -> 0 <= z < CD ->
  (forall d, 0 <= d < C -> cell b y x z d = e) ->
  I5 b y x z 0 s ->
  wp True (for_range 0 C (fun d => write_crops [b; y; x; z; d] e))
     (fun _ => I5 b y x (z + 1) 0) s.
Proof.
  intros Hb Hy Hx Hz He HI.
  assert (HC : 0 <= C) by (destruct Hshape as (_ & _ & _ & _ & ?); lia).
  eapply wp_conseq.
  - apply wp_for with (I := fun d => I5 b y x z d); [exact HC | exact HI |].
    intros d s' Hd HI'. apply Inv5_write; auto. symmetry; auto.
  - intros u s' HI'. revert HI'. apply Inv5_equiv.
    intros; unfold before5; lia.
Qed.

(** Lines 495-499. *)
Lemma Inv5_fill_slices b y x s :
  0 <= b < N -> 0 <= y < CH -> 0 <= x < CW ->
  (forall z d, 0 <= z < CD -> 0 <= d < C -> cell b y x z d = e) ->
  I5 b y x 0 0 s ->
  wp True (for_range 0 CD (fun z =>
             for_range 0 C (fun d => write_crops [b; y; x; z; d] e)))
     (fun _ => I5 b y (x + 1) 0 0) s.
Proof.
  intros Hb Hy Hx He HI.
  assert (HC : 0 <= CD) by (destruct Hshape as (_ & _ & _ & _ & ?); lia).
  eapply wp_conseq.
  - apply wp_for with (I := fun z => I5 b y x z 0); [exact HC | exact HI |].
    intros z s' Hz HI'. apply Inv5_fill_channels; auto.
  - intros u s' HI'. revert HI'. apply Inv5_equiv.
    intros; unfold before5; lia.
Qed.

(** Lines 477-483. *)
Lemma Inv5_fill_cols b y s :
  0 <= b < N -> 0 <= y < CH ->
  (forall x z d, 0 <= x < CW -> 0 <= z < CD -> 0 <= d < C ->
     cell b y x z d = e) ->
  I5 b y 0 0 0 s ->
  wp True (for_range 0 CW (fun x =>
             for_range 0 CD (fun z =>
               for_range 0 C (fun d => write_crops [b; y; x; z; d] e))))
     (fun _ => I5 b (y + 1) 0 0 0) s.
Proof.
  intros Hb Hy He HI.
  assert (HC : 0 <= CW) by (destruct Hshape as (_ & _ & _ & _ & ?); lia).
  eapply wp_conseq.
  - apply wp_for with (I := fun x => I5 b y x 0 0); [exact HC | exact HI |].
    intros x s' Hx HI'. apply Inv5_fill_slices; auto.
  - intros u s' HI'. revert HI'. apply Inv5_equiv.
    intros; unfold before5; lia.
Qed.

(** Lines 458-460. *)
Lemma Inv5_skip_box b s :
  0 <= b < N ->
  FastBoundsCheck (elt (box_index s0) [b]) B = false ->
  I5 b 0 0 0 0 s -> I5 (b + 1) 0 0 0 0 s.
Proof.
  intros Hb Hinv [Hf Hc]. split; [exact Hf |].
  intros b' y' x' z' d' Hb' Hy' Hx' Hz' Hd'.
  destruct (Hc b' y' x' z' d' Hb' Hy' Hx' Hz' Hd') as [H1 H2].
  split; intros Hbf.
  - destruct (Z.eq_dec b' b) as [-> | Hne].
    + rewrite H2 by (unfold before5; lia).
      unfold cell, crop_cell3D. now rewrite Hinv.
    + apply H1. unfold before5 in *. lia.
  - apply H2. unfold before5 in *. lia.
Qed.

Let in_y (b y : Z) : F :=
  in_coord (elt (boxes s0) [b; 0]) (elt (boxes s0) [b; 3]) H CH
    (axis_scale (elt (boxes s0) [b; 0]) (elt (boxes s0) [b; 3]) H CH) y.
Let in_x (b x : Z) : F :=
  in_coord (elt (boxes s0) [b; 1]) (elt (boxes s0) [b; 4]) W CW
    (axis_scale (elt (boxes s0) [b; 1]) (elt (boxes s0) [b; 4]) W CW) x.
Let in_z (b z : Z) : F :=
  in_coord (elt (boxes s0) [b; 2]) (elt (boxes s0) [b; 5]) D CD
    (axis_scale (elt (boxes s0) [b; 2]) (elt (boxes s0) [b; 5]) D CD) z.

(** Lines 520-536. *)
Lemma Inv5_channel b y x z d s :
  0 <= b < N -> 0 <= y < CH -> 0 <= x < CW -> 0 <= z < CD -> 0 <= d < C ->
  FastBoundsCheck (elt (box_index s0) [b]) B = true ->
  out_of_image (in_y b y) H = false ->
  out_of_image (in_x b x) W = false ->
  out_of_image (in_z b z) D = false ->
  I5 b y x z d s ->
  wp True
     (CropAndResize3D_channel b (elt (box_index s0) [b]) y x z
        (floorf (in_y b y)) (ceilf (in_y b y))
        (in_y b y -^ of_int (floorf (in_y b y)))
        (floorf (in_x b x)) (ceilf (in_x b x))
        (in_x b x -^ of_int (floorf (in_x b x)))
        (floorf (in_z b z)) (ceilf (in_x b x))
        (in_z b z -^ of_int (floorf (in_z b z))) d)
     (fun _ => I5 b y x z (d + 1)) s.
Proof.
  intros Hb Hy Hx Hz Hd Hv Hoy Hox Hoz HI.
  pose proof HI as [Hf _].
  destruct Hf as (Him & _).
  unfold CropAndResize3D_channel.
  do 8 (apply wp_bind; apply wp_read_partial).
  apply Inv5_write; auto.
  rewrite Him. unfold cell, crop_cell3D.
  fold (in_y b y). fold (in_x b x). fold (in_z b z).
  rewrite Hv. cbn [negb]. rewrite Hoy, Hox, Hoz. reflexivity.
Qed.

(** Lines 506-537. *)
Lemma Inv5_slice b y x z s :
  0 <= b < N -> 0 <= y < CH -> 0 <= x < CW -> 0 <= z < CD ->
  FastBoundsCheck (elt (box_index s0) [b]) B = true ->
  out_of_image (in_y b y) H = false ->
  out_of_image (in_x b x) W = false ->
  I5 b y x z 0 s ->
  wp True
     (CropAndResize3D_slice D CD C e b (elt (box_index s0) [b])
        (elt (boxes s0) [b; 2]) (elt (boxes s0) [b; 5])
        (axis_scale (elt (boxes s0) [b; 2]) (elt (boxes s0) [b; 5]) D CD)
        y (floorf (in_y b y)) (ceilf (in_y b y))
        (in_y b y -^ of_int (floorf (in_y b y)))
        x (in_x b x) (floorf (in_x b x)) (ceilf (in_x b x))
        (in_x b x -^ of_int (floorf (in_x b x))) z)
     (fun _ => I5 b y x (z + 1) 0) s.
Proof.
  intros Hb Hy Hx Hz Hv Hoy Hox HI.
  assert (HC : 0 <= C) by (destruct Hshape as (_ & _ & _ & _ & ?); lia).
  unfold CropAndResize3D_slice. fold (in_z b z).
  destruct (out_of_image (in_z b z) D) eqn:Hoz.
  - apply Inv5_fill_channels; auto.
    intros d Hd. unfold cell, crop_cell3D. rewrite Hv. cbn [negb].
    fold (in_y b y). fold (in_x b x). fold (in_z b z).
    now rewrite Hoy, Hox, Hoz.
  - eapply wp_conseq.
    + apply wp_for with (I := fun d => I5 b y x z d); [exact HC | exact HI |].
      intros d s' Hd HI'. apply Inv5_channel; auto.
    + intros u s' HI'. revert HI'. apply Inv5_equiv.
      intros; unfold before5; lia.
Qed.

(** Lines 490-538. *)
Lemma Inv5_col b y x s :
  0 <= b < N -> 0 <= y < CH -> 0 <= x < CW ->
  FastBoundsCheck (elt (box_index s0) [b]) B = true ->
  out_of_image (in_y b y) H = false ->
  I5 b y x 0 0 s ->
  wp True
     (CropAndResize3D_col W D CW CD C e b (elt (box_index s0) [b])
        (elt (boxes s0) [b; 1]) (elt (boxes s0) [b; 2])
        (elt (boxes s0) [b; 4]) (elt (boxes s0) [b; 5])
        (axis_scale (elt (boxes s0) [b; 1]) (elt (boxes s0) [b; 4]) W CW)
        (axis_scale (elt (boxes s0) [b; 2]) (elt (boxes s0) [b; 5]) D CD)
        y (floorf (in_y b y)) (ceilf (in_y b y))
        (in_y b y -^ of_int (floorf (in_y b y))) x)
     (fun _ => I5 b y (x + 1) 0 0) s.
Proof.
  intros Hb Hy Hx Hv Hoy HI.
  assert (HC : 0 <= CD) by (destruct Hshape as (_ & _ & _ & _ & ?); lia).
  unfold CropAndResize3D_col. fold (in_x b x).
  destruct (out_of_image (in_x b x) W) eqn:Hox.
  - apply Inv5_fill_slices; auto.
    intros z d Hz Hd. unfold cell, crop_cell3D. rewrite Hv. cbn [negb].
    fold (in_y b y). fold (in_x b x). now rewrite Hoy, Hox.
  - eapply wp_conseq.
    + apply wp_for with (I := fun z => I5 b y x z 0); [exact HC | exact HI |].
      intros z s' Hz HI'. apply Inv5_slice; auto.
    + intros u s' HI'. revert HI'. apply Inv5_equiv.
      intros; unfold before5; lia.
Qed.

(** Lines 472-539. *)
Lemma Inv5_row b y s :
  0 <= b < N -> 0 <= y < CH ->
  FastBoundsCheck (elt (box_index s0) [b]) B = true ->
  I5 b y 0 0 0 s ->
  wp True
     (CropAndResize3D_row H W D CH CW CD C e b (elt (box_index s0) [b])
        (elt (boxes s0) [b; 0]) (elt (boxes s0) [b; 1])
        (elt (boxes s0) [b; 2]) (elt (boxes s0) [b; 3])
        (elt (boxes s0) [b; 4]) (elt (boxes s0) [b; 5])
        (axis_scale (elt (boxes s0) [b; 0]) (elt (boxes s0) [b; 3]) H CH)
        (axis_scale (elt (boxes s0) [b; 1]) (elt (boxes s0) [b; 4]) W CW)
        (axis_scale (elt (boxes s0) [b; 2]) (elt (boxes s0) [b; 5]) D CD) y)
     (fun _ => I5 b (y + 1) 0 0 0) s.
Proof.
  intros Hb Hy Hv HI.
  assert (HC : 0 <= CW) by (destruct Hshape as (_ & _ & _ & _ & ?); lia).
  unfold CropAndResize3D_row. fold (in_y b y).
  destruct (out_of_image (in_y b y) H) eqn:Hoy.
  - apply Inv5_fill_cols; auto.
    intros x z d Hx Hz Hd. unfold cell, crop_cell3D. rewrite Hv. cbn [negb].
    fold (in_y b y). now rewrite Hoy.
  - eapply wp_conseq.
    + apply wp_for with (I := fun x => I5 b y x 0 0); [exact HC | exact HI |].
      intros x s' Hx HI'. apply Inv5_col; auto.
    + intros u s' HI'. revert HI'. apply Inv5_equiv.
      intros; unfold before5; lia.
Qed.

(** Lines 449-540. *)
Lemma Inv5_box b s :
  0 <= b < N ->
  I5 b 0 0 0 0 s ->
  wp True (CropAndResize3D_box B H W D CH CW CD C e b)
     (fun _ => I5 (b + 1) 0 0 0 0) s.
Proof.
  intros Hb HI.
  pose proof HI as [Hf _].
  destruct Hf as (_ & Hbx & Hbi & _).
  destruct Hshape as (_ & _ & _ & _ & _ & HCH & _).
  unfold CropAndResize3D_box.
  do 7 (apply wp_bind; apply wp_read_partial).
  rewrite Hbx, Hbi.
  destruct (FastBoundsCheck (elt (box_index s0) [b]) B) eqn:Hv; cbn [negb].
  - eapply wp_conseq.
    + apply wp_for with (I := fun y => I5 b y 0 0 0);
        [exact HCH | exact HI |].
      intros y s' Hy HI'. apply Inv5_row; auto.
    + intros u s' HI'. revert HI'. apply Inv5_equiv.
      intros; unfold before5; lia.
  - apply wp_ret. apply Inv5_skip_box; auto.
Qed.

Lemma Inv5_init : I5 0 0 0 0 0 s0.
Proof.
  split; [repeat split |].
  intros b' y' x' z' d' Hb' Hy' Hx' Hz' Hd'.
  split; [unfold before5; lia | reflexivity].
Qed.

Lemma CropAndResize3D_wp :
  wp True (CropAndResize3D e) (fun _ => I5 N 0 0 0 0) s0.
Proof.
  destruct Hshape as (Hdi & _ & _ & Hdc & HN & _).
  unfold CropAndResize3D.
  repeat (apply wp_bind; apply wp_get_dim).
  unfold dimension. rewrite Hdi, Hdc. cbn [nth].
  unfold Shard, CropAndResizePerBox3D.
  apply wp_for with (I := fun b => I5 b 0 0 0 0);
    [exact HN | apply Inv5_init |].
  intros b s' Hb HI'. apply Inv5_box; auto.
Qed.

End Forward3D.

(** On caller-guaranteed shapes, a run of the 3D forward kernel that
    returns has touched nothing but the contents of [crops] and leaves
    [crop_cell3D] in every cell. *)
Lemma CropAndResize3D_correct {F T} {FO : FloatOps F} {EO : ElemOps T F}
    (s s' : Store F T) (e : F) (B H W D C N CH CW CD : Z) :
  shapes3 s B H W D C N CH CW CD ->
  CropAndResize3D e s = Some (tt, s') ->
  crops_frame s s' /\
  forall b y x z d,
    0 <= b < N -> 0 <= y < CH -> 0 <= x < CW -> 0 <= z < CD -> 0 <= d < C ->
    elt (crops s') [b; y; x; z; d]
    = crop_cell3D s e B H W D CH CW CD b y x z d.
Proof.
  intros Hs Hrun.
  pose proof (@CropAndResize3D_wp F T FO EO B H W D C N CH CW CD e s Hs)
    as Hwp.
  unfold wp in Hwp. rewrite Hrun in Hwp. destruct Hwp as [Hf Hc].
  split; [exact Hf |]. intros b y x z d Hb Hy Hx Hz Hd.
  apply (Hc b y x z d Hb Hy Hx Hz Hd). unfold before5. lia.
Qed.

(* ================================================================== *)
(** * The kernels keep their input tensors *)

Section Kept.

Context {F T : Type} {FO : FloatOps F} {EO : ElemOps T F}.

Local Abbreviation kept_ := (inputs_kept (F:=F) (T:=T)).

Lemma kept_ret {A} (a : A) : kept_ (ret a).
Proof. intros s a' s' E. injection E as _ <-. auto. Qed.

Lemma kept_bind {A B} (m : M F T A) (k : A -> M F T B) :
  kept_ m -> (forall a, kept_ (k a)) -> kept_ (bind m k).
Proof.
  intros Hm Hk s b s' E. unfold bind in E.
  destruct (m s) as [[a s1]|] eqn:E1; [| discriminate].
  destruct (Hm _ _ _ E1) as (H1 & H2 & H3 & H4).
  destruct (Hk a _ _ _ E) as (K1 & K2 & K3 & K4).
  repeat split; congruence.
Qed.

Lemma kept_for_loop body n :
  (forall i, kept_ (body i)) -> forall i, kept_ (for_loop n i body).
Proof.
  intros Hb. induction n as [|n IH]; intros i; simpl.
  - apply kept_ret.
  - apply kept_bind; auto.
Qed.

Lemma kept_for lo hi body :
  (forall i, kept_ (body i)) -> kept_ (for_range lo hi body).
Proof. intros Hb. apply kept_for_loop, Hb. Qed.

Lemma kept_get_dim {A} (sel : Store F T -> Tensor A) k :
  kept_ (get_dim sel k).
Proof. intros s a s' E. injection E as _ <-. auto. Qed.

Lemma kept_read {A} (sel : Store F T -> Tensor A) ix :
  kept_ (read sel ix).
Proof.
  intros s a s' E. unfold read in E.
  destruct (in_range _ _); [| discriminate]. injection E as _ <-. auto.
Qed.

Lemma kept_write_crops ix v : kept_ (write_crops ix v).
Proof.
  intros s a s' E. unfold write_crops in E.
  destruct (in_range _ _); [| discriminate]. injection E as _ <-. auto.
Qed.

Lemma kept_add_grads_image ix v : kept_ (add_grads_image ix v).
Proof.
  intros s a s' E. unfold add_grads_image in E.
  destruct (in_range _ _); [| discriminate]. injection E as _ <-. auto.
Qed.

Lemma kept_add_grads_boxes ix v : kept_ (add_grads_boxes ix v).
Proof.
  intros s a s' E. unfold add_grads_boxes in E.
  destruct (in_range _ _); [| discriminate]. injection E as _ <-. auto.
Qed.

Lemma kept_setZero_grads_image : kept_ setZero_grads_image.
Proof. intros s a s' E. injection E as _ <-. auto. Qed.

Lemma kept_setZero_grads_boxes : kept_ setZero_grads_boxes.
Proof. intros s a s' E. injection E as _ <-. auto. Qed.

End Kept.

Ltac kept_step :=
  lazymatch goal with
  | |- inputs_kept (bind _ _) => apply kept_bind; [| intros ?]
  | |- inputs_kept (ret _) => apply kept_ret
  | |- inputs_kept (for_range _ _ _) => apply kept_for; intros ?
  | |- inputs_kept (get_dim _ _) => apply kept_get_dim
  | |- inputs_kept (read _ _) => apply kept_read
  | |- inputs_kept (write_crops _ _) => apply kept_write_crops
  | |- inputs_kept (add_grads_image _ _) => apply kept_add_grads_image
  | |- inputs_kept (add_grads_boxes _ _) => apply kept_add_grads_boxes
  | |- inputs_kept setZero_grads_image => apply kept_setZero_grads_image
  | |- inputs_kept setZero_grads_boxes => apply kept_setZero_grads_boxes
  | |- inputs_kept (if ?c then _ else _) => destruct c
  | |- inputs_kept (let x := _ in _) => cbv zeta
  end.

Ltac kept := autounfold with kernel_bodies; repeat kept_step.

Section KeptKernels.

Context {F T : Type} {FO : FloatOps F} {EO : ElemOps T F}.

Local Abbreviation kept_ := (inputs_kept (F:=F) (T:=T)).

Lemma CropAndResize_kept (e : F) : kept_ (CropAndResize e).
Proof. kept. Qed.

Lemma CropAndResize3D_kept (e : F) : kept_ (CropAndResize3D e).
Proof. kept. Qed.

Lemma CropAndResizeBackpropImage_kept : kept_ CropAndResizeBackpropImage.
Proof. kept. Qed.

Lemma CropAndResizeBackpropImage3D_kept :
  kept_ CropAndResizeBackpropImage3D.
Proof. kept. Qed.

Lemma CropAndResizeBackpropBoxes_kept : kept_ CropAndResizeBackpropBoxes.
Proof. kept. Qed.

Lemma CropAndResizeBackpropBoxes3D_kept :
  kept_ CropAndResizeBackpropBoxes3D.
Proof. kept. Qed.

End KeptKernels.

(* ================================================================== *)
(** * The kernels read nothing but their inputs *)

Section Respects.

Context {F T : Type} {FO : FloatOps F} {EO : ElemOps T F}.

Variable R : Store F T -> Store F T -> Prop.

Lemma respects_ret {A} (a : A) : respects R (ret a).
Proof. intros s1 s2 HR. simpl. auto. Qed.

Lemma respects_bind {A B} (m : M F T A) (k : A -> M F T B) :
  respects R m -> (forall a, respects R (k a)) -> respects R (bind m k).
Proof.
  intros Hm Hk s1 s2 HR. unfold bind. specialize (Hm s1 s2 HR).
  destruct (m s1) as [[a1 s1']|], (m s2) as [[a2 s2']|]; try tauto.
  destruct Hm as [-> HR']. exact (Hk a2 s1' s2' HR').
Qed.

Lemma respects_for_loop body n :
  (forall i, respects R (body i)) -> forall i, respects R (for_loop n i body).
Proof.
  intros Hb. induction n as [|n IH]; intros i; simpl.
  - apply respects_ret.
  - apply respects_bind; auto.
Qed.

Lemma respects_for lo hi body :
  (forall i, respects R (body i)) -> respects R (for_range lo hi body).
Proof. intros Hb. apply respects_for_loop, Hb. Qed.

Lemma respects_read {A} (sel : Store F T -> Tensor A) ix :
  (forall s1 s2, R s1 s2 -> sel s1 = sel s2) -> respects R (read sel ix).
Proof.
  intros Hsel s1 s2 HR. unfold read. rewrite (Hsel s1 s2 HR).
  destruct (in_range _ _); auto.
Qed.

Lemma respects_get_dim {A} (sel : Store F T -> Tensor A) k :
  (forall s1 s2, R s1 s2 -> dims (sel s1) = dims (sel s2)) ->
  respects R (get_dim sel k).
Proof.
  intros Hsel s1 s2 HR. unfold get_dim, dimension. rewrite (Hsel s1 s2 HR).
  auto.
Qed.

End Respects.

Section RespectsWrites.
Context {F T : Type} {FO : FloatOps F} {EO : ElemOps T F}.

Lemma respects_write_crops ix (v : F) :
  respects (T:=T) agree_forward (write_crops ix v).
Proof.
  intros s1 s2 (Hi & Hb & Hx & Hd). unfold write_crops. rewrite Hd.
  destruct (in_range _ _); [| exact I].
  split; [reflexivity |]. repeat split; assumption.
Qed.

Lemma respects_add_grads_image ix (v : T) :
  respects (F:=F) agree_grad_image (add_grads_image ix v).
Proof.
  intros s1 s2 (Hg & Hb & Hx & Hgi). unfold add_grads_image. rewrite Hgi.
  destruct (in_range _ _); [| exact I].
  split; [reflexivity |]. repeat split; assumption.
Qed.

Lemma respects_add_grads_boxes ix (v : F) :
  respects (T:=T) agree_grad_boxes (add_grads_boxes ix v).
Proof.
  intros s1 s2 (Hg & Hi & Hb & Hx & Hgb). unfold add_grads_boxes.
  rewrite Hgb. destruct (in_range _ _); [| exact I].
  split; [reflexivity |]. repeat split; assumption.
Qed.

End RespectsWrites.

Ltac agree_side :=
  let H := fresh in
  intros ? ? H;
  cbv [agree_forward agree_grad_image agree_grad_boxes] in H;
  intuition congruence.

Ltac respects_step :=
  lazymatch goal with
  | |- respects _ (bind _ _) => apply respects_bind; [| intros ?]
  | |- respects _ (ret _) => apply respects_ret
  | |- respects _ (for_range _ _ _) => apply respects_for; intros ?
  | |- respects _ (get_dim _ _) => apply respects_get_dim; agree_side
  | |- respects _ (read _ _) => apply respects_read; agree_side
  | |- respects _ (write_crops _ _) => apply respects_write_crops
  | |- respects _ (add_grads_image _ _) => apply respects_add_grads_image
  | |- respects _ (add_grads_boxes _ _) => apply respects_add_grads_boxes
  | |- respects _ (if ?c then _ else _) => destruct c
  | |- respects _ (let x := _ in _) => cbv zeta
  end.

Ltac respects_tac := autounfold with kernel_bodies; repeat respects_step.

Section RespectsKernels.

Context {F T : Type} {FO : FloatOps F} {EO : ElemOps T F}.

Lemma CropAndResize_respects (e : F) :
  respects (T:=T) agree_forward (CropAndResize e).
Proof. respects_tac. Qed.

Lemma CropAndResize3D_respects (e : F) :
  respects (T:=T) agree_forward (CropAndResize3D e).
Proof. respects_tac. Qed.

Lemma BackpropImage_box_respects B H W CH CW C b :
  respects (F:=F) (T:=T) agree_grad_image (BackpropImage_box B H W CH CW C b).
Proof. respects_tac. Qed.

Lemma BackpropImage3D_box_respects B H W D CH CW CD C b :
  respects (F:=F) (T:=T) agree_grad_image
    (BackpropImage3D_box B H W D CH CW CD C b).
Proof. respects_tac. Qed.

Lemma BackpropBoxes_box_respects B H W CH CW C b :
  respects (F:=F) (T:=T) agree_grad_boxes (BackpropBoxes_box B H W CH CW C b).
Proof. respects_tac. Qed.

Lemma BackpropBoxes3D_box_respects B H W D CH CW CD C b :
  respects (F:=F) (T:=T) agree_grad_boxes
    (BackpropBoxes3D_box B H W D CH CW CD C b).
Proof. respects_tac. Qed.

End RespectsKernels.

(* ================================================================== *)
(** * The backward kernels read the incoming gradient only where they
      use it *)

Section Where.

Context {F T : Type} {FO : FloatOps F} {EO : ElemOps T F}.

Section Generic.
Variable R : Store F T -> Store F T -> Prop.

(** A read of a tensor that [R] pins down passes its element on. *)
Lemma respects_bind_read {A B} (sel : Store F T -> Tensor A) (t : Tensor A)
    ix (k : A -> M F T B) :
  (forall s1 s2, R s1 s2 -> sel s1 = t /\ sel s2 = t) ->
  respects R (k (elt t ix)) ->
  respects R (bind (read sel ix) k).
Proof.
  intros Hsel Hk s1 s2 HR. unfold bind, read.
  destruct (Hsel s1 s2 HR) as [-> ->].
  destruct (in_range (dims t) ix); [exact (Hk s1 s2 HR) | exact I].
Qed.

(** A read on which [R] makes the two stores agree. *)
Lemma respects_read_elt {A} (sel : Store F T -> Tensor A) ix :
  (forall s1 s2, R s1 s2 ->
     dims (sel s1) = dims (sel s2) /\ elt (sel s1) ix = elt (sel s2) ix) ->
  respects R (read sel ix).
Proof.
  intros Hsel s1 s2 HR. unfold read.
  destruct (Hsel s1 s2 HR) as [-> ->].
  destruct (in_range _ _); auto.
Qed.

End Generic.

Lemma respects_add_grads_image_where used bx bi ix (v : T) :
  respects (F:=F) (T:=T)
    (agree_grad_image_where used bx bi) (add_grads_image ix v).
Proof.
  intros s1 s2 (H1 & H2 & H3 & H4 & Hgi & Hg). unfold add_grads_image.
  rewrite Hgi. destruct (in_range _ _); [| exact I].
  split; [reflexivity |]. repeat split; try assumption; apply Hg.
Qed.

Lemma respects_add_grads_boxes_where used img bx bi ix (v : F) :
  respects (F:=F) (T:=T)
    (agree_grad_boxes_where used img bx bi) (add_grads_boxes ix v).
Proof.
  intros s1 s2 (H1 & H2 & H3 & H4 & H5 & H6 & Hgb & Hg).
  unfold add_grads_boxes.
  rewrite Hgb. destruct (in_range _ _); [| exact I].
  split; [reflexivity |]. repeat split; try assumption; apply Hg.
Qed.

End Where.

Ltac where_pinned :=
  let H := fresh in
  intros ? ? H;
  cbv [agree_grad_image_where agree_grad_boxes_where] in H;
  intuition congruence.

(* The gradient cell read at this point is used: the tests that guard
   it are among the hypotheses. *)
Ltac where_grads :=
  let H := fresh in
  intros ? ? H;
  cbv [agree_grad_image_where agree_grad_boxes_where grads_agree_where] in H;
  decompose [and] H; clear H;
  split; [assumption |];
  match goal with
  | Hc : forall ix, _ -> elt (grads _) ix = elt (grads _) ix |- _ =>
      apply Hc
  end;
  repeat eexists;
  repeat match goal with
         | Hn : negb _ = false |- _ =>
             apply negb_false_iff in Hn; apply FastBoundsCheck_true in Hn
         end;
  cbv [cell_used2 cell_used3 axis_scale_boxes];
  repeat split; first [assumption | lia].

Ltac respects_where_step :=
  lazymatch goal with
  | |- respects (agree_grad_image_where _ ?bx _) (bind (read boxes _) _) =>
      apply respects_bind_read with (t := bx); [where_pinned |]
  | |- respects (agree_grad_image_where _ _ ?bi)
         (bind (read box_index _) _) =>
      apply respects_bind_read with (t := bi); [where_pinned |]
  | |- respects (agree_grad_boxes_where _ _ ?bx _)
         (bind (read boxes _) _) =>
      apply respects_bind_read with (t := bx); [where_pinned |]
  | |- respects (agree_grad_boxes_where _ _ _ ?bi)
         (bind (read box_index _) _) =>
      apply respects_bind_read with (t := bi); [where_pinned |]
  | |- respects (agree_grad_boxes_where _ ?img _ _)
         (bind (read image _) _) =>
      apply respects_bind_read with (t := img); [where_pinned |]
  | |- respects _ (bind _ _) => apply respects_bind; [| intros ?]
  | |- respects _ (ret _) => apply respects_ret
  | |- respects _ (for_range _ _ _) => apply respects_for; intros ?
  | |- respects _ (read grads _) => apply respects_read_elt; where_grads
  | |- respects _ (add_grads_image _ _) =>
      apply respects_add_grads_image_where
  | |- respects _ (add_grads_boxes _ _) =>
      apply respects_add_grads_boxes_where
  | |- respects _ (if ?c then _ else _) => destruct c eqn:?
  | |- respects _ (let x := _ in _) => cbv zeta
  end.

Ltac respects_where :=
  autounfold with kernel_bodies; repeat respects_where_step.

Section WhereKernels.

Context {F T : Type} {FO : FloatOps F} {EO : ElemOps T F}.

Lemma BackpropImage_box_where bx bi B H W CH CW C b :
  respects (F:=F) (T:=T)
    (agree_grad_image_where (used2 axis_scale bx bi B H W CH CW) bx bi)
    (BackpropImage_box B H W CH CW C b).
Proof. unfold used2. respects_where. Qed.

Lemma BackpropBoxes_box_where img bx bi B H W CH CW C b :
  respects (F:=F) (T:=T)
    (agree_grad_boxes_where (used2 axis_scale_boxes bx bi B H W CH CW)
       img bx bi)
    (BackpropBoxes_box B H W CH CW C b).
Proof. unfold used2. respects_where. Qed.

Lemma BackpropImage3D_box_where bx bi B H W D CH CW CD C b :
  respects (F:=F) (T:=T)
    (agree_grad_image_where (used3 axis_scale bx bi B H W D CH CW CD) bx bi)
    (BackpropImage3D_box B H W D CH CW CD C b).
Proof. unfold used3. respects_where. Qed.

Lemma BackpropBoxes3D_box_where img bx bi B H W D CH CW CD C b :
  respects (F:=F) (T:=T)
    (agree_grad_boxes_where (used3 axis_scale_boxes bx bi B H W D CH CW CD)
       img bx bi)
    (BackpropBoxes3D_box B H W D CH CW CD C b).
Proof. unfold used3. respects_where. Qed.

End WhereKernels.

(* ================================================================== *)
(** * Memory safety of the 2D backward kernels and of the 3D
      box-gradient kernel *)

Section Safe.

Context {F T : Type} {FO : FloatOps F} {EO : ElemOps T F}.

Variable P : Store F T -> Prop.

Lemma safe_ret {A} (a : A) : safe P (ret a).
Proof. intros s HP. exists a, s. split; [reflexivity | exact HP]. Qed.

Lemma safe_bind {A B} (m : M F T A) (k : A -> M F T B) :
  safe P m -> (forall a, safe P (k a)) -> safe P (bind m k).
Proof.
  intros Hm Hk s HP. destruct (Hm s HP) as (a & s1 & E1 & HP1).
  destruct (Hk a s1 HP1) as (b & s2 & E2 & HP2).
  exists b, s2. unfold bind. rewrite E1. auto.
Qed.

Lemma safe_for_loop body n : forall i,
  (forall j, i <= j < i + Z.of_nat n -> safe P (body j)) ->
  safe P (for_loop n i body).
Proof.
  induction n as [|n IH]; intros i Hb; simpl.
  - apply safe_ret.
  - apply safe_bind; [apply Hb; lia |]. intros _. apply IH.
    intros j Hj. apply Hb. lia.
Qed.

Lemma safe_for lo hi body :
  (forall j, lo <= j < hi -> safe P (body j)) ->
  safe P (for_range lo hi body).
Proof. intros Hb. apply safe_for_loop. intros j Hj. apply Hb. lia. Qed.

Lemma safe_read {A} (sel : Store F T -> Tensor A) ix :
  (forall s, P s -> in_range (dims (sel s)) ix = true) ->
  safe P (read sel ix).
Proof.
  intros Hin s HP. unfold read. rewrite (Hin s HP).
  eexists _, s. split; [reflexivity | exact HP].
Qed.

(** A read of a tensor that [P] pins to [t] hands on the element of
    [t]. *)
Lemma safe_read_bind {A B} (sel : Store F T -> Tensor A) (t : Tensor A) ix
    (k : A -> M F T B) :
  (forall s, P s -> sel s = t) -> in_range (dims t) ix = true ->
  safe P (k (elt t ix)) -> safe P (bind (read sel ix) k).
Proof.
  intros Hsel Hin Hk s HP. unfold bind, read.
  rewrite (Hsel s HP), Hin. apply Hk. exact HP.
Qed.

End Safe.

Section SafeWrites.

Context {F T : Type} {FO : FloatOps F} {EO : ElemOps T F}.

Variables (bx : Tensor F) (bi : Tensor Z).

Lemma safe_add_grads_image2 B H W C N CH CW ix (v : T) :
  in_range [B; H; W; C] ix = true ->
  safe (pinned bx bi (shapes_grad_image2 B H W C N CH CW))
    (add_grads_image ix v).
Proof.
  intros Hin s HP. unfold add_grads_image.
  destruct HP as ((H1 & H2 & H3 & H4) & H5 & H6). rewrite H4, Hin.
  eexists _, _. split; [reflexivity |]. repeat split; assumption.
Qed.

Lemma safe_add_grads_boxes2 B H W C N CH CW ix (v : F) :
  in_range [N; 4] ix = true ->
  safe (pinned bx bi (shapes_grad_boxes2 (T:=T) B H W C N CH CW))
    (add_grads_boxes ix v).
Proof.
  intros Hin s HP. unfold add_grads_boxes.
  destruct HP as ((H1 & H2 & H3 & H4 & H5) & H6 & H7). rewrite H5, Hin.
  eexists _, _. split; [reflexivity |]. repeat split; assumption.
Qed.

Lemma safe_add_grads_boxes3 B H W D C N CH CW CD ix (v : F) :
  in_range [N; 6] ix = true ->
  safe (pinned bx bi (shapes_grad_boxes3 (T:=T) B H W D C N CH CW CD))
    (add_grads_boxes ix v).
Proof.
  intros Hin s HP. unfold add_grads_boxes.
  destruct HP as ((H1 & H2 & H3 & H4 & H5) & H6 & H7). rewrite H5, Hin.
  eexists _, _. split; [reflexivity |]. repeat split; assumption.
Qed.

Lemma safe_add_grads_image3 B H W D C N CH CW CD ix (v : T) :
  in_range [B; H; W; D; C] ix = true ->
  safe (pinned bx bi (shapes_grad_image3 B H W D C N CH CW CD))
    (add_grads_image ix v).
Proof.
  intros Hin s HP. unfold add_grads_image.
  destruct HP as ((H1 & H2 & H3 & H4) & H5 & H6). rewrite H4, Hin.
  eexists _, _. split; [reflexivity |]. repeat split; assumption.
Qed.

Lemma safe_write_crops3 B H W D C N CH CW CD ix (v : F) :
  in_range [N; CH; CW; CD; C] ix = true ->
  safe (pinned bx bi (fun s : Store F T => shapes3 s B H W D C N CH CW CD))
    (write_crops ix v).
Proof.
  intros Hin s HP. unfold write_crops.
  destruct HP as ((H1 & H2 & H3 & H4 & H5) & H6 & H7). rewrite H4, Hin.
  eexists _, _. split; [reflexivity |].
  repeat split; solve [assumption | lia].
Qed.

End SafeWrites.

(* The guards of the kernel are among the hypotheses: the box index is
   valid, so the coordinates of the box are indexable ([Hcoord]), and
   the coordinates at hand passed the bounds test. *)
Ltac in_range_facts Hcoord :=
  repeat match goal with
         | Hn : negb (FastBoundsCheck _ _) = false |- _ =>
             apply negb_false_iff in Hn; apply FastBoundsCheck_true in Hn
         end;
  try match goal with
      | Hb : 0 <= ?b < _, Hv : 0 <= elt _ [?b] < _ |- _ =>
          let Ha := fresh "Ha" in
          pose proof (Hcoord b Hb Hv) as Ha; decompose [and] Ha; clear Ha
      end;
  repeat match goal with
         | Ha : axis_indexable _ _ _ ?ext _,
           Ho : out_of_image (in_coord _ _ ?ext _ _ ?i) ?ext = false |- _ =>
             apply (indexable_range _ _ (Ha i ltac:(lia))) in Ho
         end.

Ltac in_range_tac Hcoord :=
  in_range_facts Hcoord;
  first [ apply in_range5 | apply in_range4 | apply in_range2
        | apply in_range1 ];
  lia.

Ltac safe_read_side Hcoord :=
  let s := fresh "s" in
  let HP := fresh "HP" in
  intros s HP;
  cbv [pinned shapes_grad_image2 shapes_grad_boxes2 shapes_grad_boxes3
       shapes_grad_image3 shapes3] in HP;
  decompose [and] HP; clear HP;
  match goal with
  | Hd : dims ?t = _ |- in_range (dims ?t) _ = true => rewrite Hd
  end;
  in_range_tac Hcoord.

Ltac safe_pinned_side :=
  let s := fresh "s" in
  let HP := fresh "HP" in
  intros s HP; cbv [pinned] in HP; decompose [and] HP; eassumption.

Ltac safe_step Hcoord Hdbx Hdbi :=
  lazymatch goal with
  | |- safe _ (bind (read boxes _) _) =>
      eapply safe_read_bind;
        [ safe_pinned_side | rewrite Hdbx; apply in_range2; lia | ]
  | |- safe _ (bind (read box_index _) _) =>
      eapply safe_read_bind;
        [ safe_pinned_side | rewrite Hdbi; apply in_range1; lia | ]
  | |- safe _ (bind _ _) => apply safe_bind; [| intros ?]
  | |- safe _ (ret _) => apply safe_ret
  | |- safe _ (for_range _ _ _) => apply safe_for; intros ? ?
  | |- safe _ (read _ _) => apply safe_read; safe_read_side Hcoord
  | |- safe (pinned _ _ (shapes_grad_image2 _ _ _ _ _ _ _))
         (add_grads_image _ _) =>
      apply safe_add_grads_image2; in_range_tac Hcoord
  | |- safe (pinned _ _ (shapes_grad_boxes2 _ _ _ _ _ _ _))
         (add_grads_boxes _ _) =>
      apply safe_add_grads_boxes2; in_range_tac Hcoord
  | |- safe (pinned _ _ (shapes_grad_boxes3 _ _ _ _ _ _ _ _ _))
         (add_grads_boxes _ _) =>
      apply safe_add_grads_boxes3; in_range_tac Hcoord
  | |- safe (pinned _ _ (shapes_grad_image3 _ _ _ _ _ _ _ _ _))
         (add_grads_image _ _) =>
      apply safe_add_grads_image3; in_range_tac Hcoord
  | |- safe _ (write_crops _ _) =>
      apply safe_write_crops3; in_range_tac Hcoord
  | |- safe _ (if ?c then _ else _) => destruct c eqn:?
  | |- safe _ (let x := _ in _) => cbv zeta
  end.

Ltac safe_tac Hcoord Hdbx Hdbi :=
  autounfold with kernel_bodies; repeat safe_step Hcoord Hdbx Hdbi.

Section SafeKernels.

Context {F T : Type} {FO : FloatOps F} {EO : ElemOps T F}.

Variables (bx : Tensor F) (bi : Tensor Z).

Lemma BackpropImage_box_safe B H W C N CH CW b :
  dims bx = [N; 4] -> dims bi = [N] ->
  boxes_indexable2 axis_scale bx bi B H W N CH CW ->
  0 <= b < N ->
  safe (pinned bx bi (shapes_grad_image2 B H W C N CH CW))
    (BackpropImage_box (T:=T) B H W CH CW C b).
Proof. intros Hdbx Hdbi Hcoord Hb. safe_tac Hcoord Hdbx Hdbi. Qed.

Lemma BackpropBoxes_box_safe B H W C N CH CW b :
  dims bx = [N; 4] -> dims bi = [N] ->
  boxes_indexable2 axis_scale_boxes bx bi B H W N CH CW ->
  0 <= b < N ->
  safe (pinned bx bi (shapes_grad_boxes2 B H W C N CH CW))
    (BackpropBoxes_box (T:=T) B H W CH CW C b).
Proof.
  intros Hdbx Hdbi Hcoord Hb. unfold boxes_indexable2, axis_scale_boxes in Hcoord.
  safe_tac Hcoord Hdbx Hdbi.
Qed.

Lemma BackpropBoxes3D_box_safe B H W D C N CH CW CD b :
  dims bx = [N; 6] -> dims bi = [N] ->
  boxes_indexable3 axis_scale_boxes bx bi B H W D N CH CW CD ->
  0 <= b < N ->
  safe (pinned bx bi (shapes_grad_boxes3 B H W D C N CH CW CD))
    (BackpropBoxes3D_box (T:=T) B H W D CH CW CD C b).
Proof.
  intros Hdbx Hdbi Hcoord Hb. unfold boxes_indexable3, axis_scale_boxes in Hcoord.
  safe_tac Hcoord Hdbx Hdbi.
Qed.

(* The z indices of lines 902-903 are the floor and the ceiling of the x
   coordinate: they lie in [0, W - 1], which is within the depth when
   W <= D. *)
Lemma BackpropImage3D_box_safe B H W D C N CH CW CD b :
  dims bx = [N; 6] -> dims bi = [N] ->
  boxes_indexable3 axis_scale bx bi B H W D N CH CW CD ->
  W <= D -> 0 <= b < N ->
  safe (pinned bx bi (shapes_grad_image3 B H W D C N CH CW CD))
    (BackpropImage3D_box (T:=T) B H W D CH CW CD C b).
Proof. intros Hdbx Hdbi Hcoord HWD Hb. safe_tac Hcoord Hdbx Hdbi. Qed.

Lemma CropAndResize3D_box_safe B H W D C N CH CW CD e b :
  dims bx = [N; 6] -> dims bi = [N] ->
  boxes_indexable3 axis_scale bx bi B H W D N CH CW CD ->
  W <= D -> 0 <= b < N ->
  safe (pinned bx bi (fun s : Store F T => shapes3 s B H W D C N CH CW CD))
    (CropAndResize3D_box B H W D CH CW CD C e b).
Proof. intros Hdbx Hdbi Hcoord HWD Hb. safe_tac Hcoord Hdbx Hdbi. Qed.

End SafeKernels.

Section SafeRuns.

Context {F T : Type} {FO : FloatOps F} {EO : ElemOps T F}.

(** On caller-guaranteed shapes and indexable coordinates the 2D
    image-gradient kernel returns: none of its accesses is out of
    range. *)
Lemma CropAndResizeBackpropImage_safe (s : Store F T) B H W C N CH CW :
  shapes_grad_image2 B H W C N CH CW s ->
  boxes_indexable2 axis_scale (boxes s) (box_index s) B H W N CH CW ->
  exists s', CropAndResizeBackpropImage s = Some (tt, s').
Proof.
  intros HP Hc. pose proof HP as (H1 & H2 & H3 & H4).
  unfold CropAndResizeBackpropImage, bind, get_dim, setZero_grads_image,
    dimension.
  rewrite H1, H4. cbn [nth].
  assert (Hloop : safe (pinned (boxes s) (box_index s)
                          (shapes_grad_image2 B H W C N CH CW))
                    (for_range 0 N (BackpropImage_box B H W CH CW C))).
  { apply safe_for. intros b Hb. now apply BackpropImage_box_safe. }
  destruct (Hloop (set_grads_image s (tfill (grads_image s) tzero)))
    as ([] & s' & E & _).
  - repeat split; assumption.
  - exists s'. exact E.
Qed.

(** The same for the 2D box-gradient kernel. *)
Lemma CropAndResizeBackpropBoxes_safe (s : Store F T) B H W C N CH CW :
  shapes_grad_boxes2 B H W C N CH CW s ->
  boxes_indexable2 axis_scale_boxes (boxes s) (box_index s) B H W N CH CW ->
  exists s', CropAndResizeBackpropBoxes s = Some (tt, s').
Proof.
  intros HP Hc. pose proof HP as (H1 & H2 & H3 & H4 & H5).
  unfold CropAndResizeBackpropBoxes, bind, get_dim, setZero_grads_boxes,
    dimension.
  rewrite H1, H4. cbn [nth].
  assert (Hloop : safe (pinned (boxes s) (box_index s)
                          (shapes_grad_boxes2 B H W C N CH CW))
                    (for_range 0 N (BackpropBoxes_box B H W CH CW C))).
  { apply safe_for. intros b Hb. now apply BackpropBoxes_box_safe. }
  destruct (Hloop (set_grads_boxes s (tfill (grads_boxes s) (of_int 0))))
    as ([] & s' & E & _).
  - repeat split; assumption.
  - exists s'. exact E.
Qed.

(** The same for the 3D box-gradient kernel, which takes every corner
    index from the coordinate of its own axis (lines 1277-1300). *)
Lemma CropAndResizeBackpropBoxes3D_safe (s : Store F T)
    B H W D C N CH CW CD :
  shapes_grad_boxes3 B H W D C N CH CW CD s ->
  boxes_indexable3 axis_scale_boxes (boxes s) (box_index s)
    B H W D N CH CW CD ->
  exists s', CropAndResizeBackpropBoxes3D s = Some (tt, s').
Proof.
  intros HP Hc. pose proof HP as (H1 & H2 & H3 & H4 & H5).
  unfold CropAndResizeBackpropBoxes3D, bind, get_dim, setZero_grads_boxes,
    dimension.
  rewrite H1, H4. cbn [nth].
  assert (Hloop : safe (pinned (boxes s) (box_index s)
                          (shapes_grad_boxes3 B H W D C N CH CW CD))
                    (for_range 0 N (BackpropBoxes3D_box B H W D CH CW CD C))).
  { apply safe_for. intros b Hb. now apply BackpropBoxes3D_box_safe. }
  destruct (Hloop (set_grads_boxes s (tfill (grads_boxes s) (of_int 0))))
    as ([] & s' & E & _).
  - repeat split; assumption.
  - exists s'. exact E.
Qed.

(** The 3D forward kernel and the 3D image-gradient kernel return on an
    image that is at least as deep as it is wide. *)
Lemma CropAndResize3D_returns (s : Store F T) (e : F)
    (B H W D C N CH CW CD : Z) :
  shapes3 s B H W D C N CH CW CD ->
  boxes_indexable3 axis_scale (boxes s) (box_index s) B H W D N CH CW CD ->
  W <= D ->
  exists s', CropAndResize3D e s = Some (tt, s').
Proof.
  intros HP Hc HWD. pose proof HP as (H1 & H2 & H3 & H4 & H5).
  unfold CropAndResize3D, Shard, CropAndResizePerBox3D, bind, get_dim,
    dimension.
  rewrite H1, H4. cbn [nth].
  assert (Hloop : safe (pinned (boxes s) (box_index s)
                          (fun s => shapes3 s B H W D C N CH CW CD))
                    (for_range 0 N
                       (CropAndResize3D_box B H W D CH CW CD C e))).
  { apply safe_for. intros b Hb. now apply CropAndResize3D_box_safe. }
  destruct (Hloop s) as ([] & s' & E & _).
  - split; [exact HP | split; reflexivity].
  - exists s'. exact E.
Qed.

Lemma CropAndResizeBackpropImage3D_returns (s : Store F T)
    (B H W D C N CH CW CD : Z) :
  shapes_grad_image3 B H W D C N CH CW CD s ->
  boxes_indexable3 axis_scale (boxes s) (box_index s) B H W D N CH CW CD ->
  W <= D ->
  exists s', CropAndResizeBackpropImage3D s = Some (tt, s').
Proof.
  intros HP Hc HWD. pose proof HP as (H1 & H2 & H3 & H4).
  unfold CropAndResizeBackpropImage3D, bind, get_dim, setZero_grads_image,
    dimension.
  rewrite H1, H4. cbn [nth].
  assert (Hloop : safe (pinned (boxes s) (box_index s)
                          (shapes_grad_image3 B H W D C N CH CW CD))
                    (for_range 0 N
                       (BackpropImage3D_box B H W D CH CW CD C))).
  { apply safe_for. intros b Hb. now apply BackpropImage3D_box_safe. }
  destruct (Hloop (set_grads_image s (tfill (grads_image s) tzero)))
    as ([] & s' & E & _).
  - repeat split; assumption.
  - exists s'. exact E.
Qed.

End SafeRuns.

(* ================================================================== *)
(** * Laws of exact arithmetic *)

Lemma Qltb_false a b : Qltb a b = false <-> (b <= a)%Q.
Proof.
  unfold Qltb. destruct (Qcompare a b) eqn:E.
  - apply Qeq_alt in E. split; [intros _ | reflexivity].
    rewrite E. apply Qle_refl.
  - apply Qlt_alt in E. split; [discriminate | intros Hle]. exfalso.
    apply (Qlt_irrefl a). eapply Qlt_le_trans; eauto.
  - apply Qgt_alt in E. split; [intros _ | reflexivity].
    apply Qlt_le_weak. exact E.
Qed.

Lemma Qltb_true a b : Qltb a b = true <-> (a < b)%Q.
Proof.
  unfold Qltb. destruct (Qcompare a b) eqn:E.
  - apply Qeq_alt in E. split; [discriminate |]. rewrite E.
    intros Hc. exfalso. apply (Qlt_irrefl _ Hc).
  - apply Qlt_alt in E. tauto.
  - apply Qgt_alt in E. split; [discriminate |]. intros Hc. exfalso.
    apply (Qlt_irrefl a). eapply Qlt_trans; eauto.
Qed.

Lemma Q_floor_ceil_range (x : Q) (n : Z) :
  (0 <= x)%Q -> (x <= inject_Z n)%Q ->
  (0 <= Qfloor x <= n) /\ (0 <= Qceiling x <= n).
Proof.
  intros H0 Hn. change 0%Q with (inject_Z 0) in H0.
  pose proof (Qfloor_resp_le _ _ H0) as F0.
  pose proof (Qfloor_resp_le _ _ Hn) as Fn.
  pose proof (Qceiling_resp_le _ _ H0) as C0.
  pose proof (Qceiling_resp_le _ _ Hn) as Cn.
  rewrite Qfloor_Z in F0, Fn. rewrite Qceiling_Z in C0, Cn. lia.
Qed.

(** In exact arithmetic every coordinate is indexable: one that passes
    the bounds test lies in [0, ext - 1], and so do its floor and its
    ceiling. *)
Lemma Q_indexable (c : Q) (ext : Z) : indexable c ext = true.
Proof.
  destruct (out_of_image c ext) eqn:Ho; [now apply indexable_outside |].
  unfold out_of_image in Ho. apply orb_false_iff in Ho.
  destruct Ho as [H0 Hn]. cbn [flt of_int Q_FloatOps] in H0, Hn.
  apply Qltb_false in H0. apply Qltb_false in Hn.
  destruct (@Q_floor_ceil_range c (ext - 1) H0 Hn) as [Hf Hc].
  cbn [floorf ceilf Q_FloatOps] in *.
  apply indexable_corners; cbn [floorf ceilf Q_FloatOps]; lia.
Qed.

Lemma Q_boxes_indexable2 (scale : Q -> Q -> Z -> Z -> Q)
    (bx : Tensor Q) (bi : Tensor Z) (B H W N CH CW : Z) :
  boxes_indexable2 scale bx bi B H W N CH CW.
Proof. intros b _ _. split; intros i _; apply Q_indexable. Qed.

Lemma Q_boxes_indexable3 (scale : Q -> Q -> Z -> Z -> Q)
    (bx : Tensor Q) (bi : Tensor Z) (B H W D N CH CW CD : Z) :
  boxes_indexable3 scale bx bi B H W D N CH CW CD.
Proof.
  intros b _ _. split; [| split]; intros i _; apply Q_indexable.
Qed.

Lemma inject_Z_nonzero n : n <> 0 -> ~ (inject_Z n == 0)%Q.
Proof. intros Hn E. apply Hn. unfold Qeq in E. simpl in E. lia. Qed.

Lemma out_of_image_Q_false (c : Q) (ext : Z) :
  (0 <= c)%Q -> (c <= inject_Z (ext - 1))%Q -> out_of_image c ext = false.
Proof.
  intros H0 H1. unfold out_of_image. cbn [flt of_int Q_FloatOps].
  apply orb_false_iff. split; apply Qltb_false; assumption.
Qed.

(** The coordinate of grid index [i] for a box side running from 0 to
    1 with as many samples as the image has pixels is [i] itself. *)
Lemma in_coord_full_extent (p1 p2 : Q) (ext i : Z) :
  (p1 == 0)%Q -> (p2 == 1)%Q -> 0 <= i < ext ->
  (in_coord p1 p2 ext ext (axis_scale p1 p2 ext ext) i == inject_Z i)%Q.
Proof.
  intros H1 H2 Hi. unfold in_coord, axis_scale.
  cbn [fadd fsub fmul fdiv of_int fhalf Q_FloatOps].
  destruct (Z.ltb_spec 1 ext) as [Hlt | Hge].
  - rewrite H1, H2. field. apply inject_Z_nonzero. lia.
  - assert (ext = 1) by lia. assert (i = 0) by lia. subst.
    rewrite H1, H2. reflexivity.
Qed.

Lemma identity_cell (s : Store Q Q) (e : Q) (B H W : Z) (b y x d : Z) :
  FastBoundsCheck (elt (box_index s) [b]) B = true ->
  Qeq (elt (boxes s) [b; 0]) 0%Q -> Qeq (elt (boxes s) [b; 1]) 0%Q ->
  Qeq (elt (boxes s) [b; 2]) 1%Q -> Qeq (elt (boxes s) [b; 3]) 1%Q ->
  0 <= y < H -> 0 <= x < W ->
  Qeq (crop_cell s e B H W H W b y x d)
      (elt (image s) [elt (box_index s) [b]; y; x; d]).
Proof.
  intros Hv Hy1 Hx1 Hy2 Hx2 Hy Hx.
  pose proof (in_coord_full_extent Hy1 Hy2 Hy) as Ey.
  pose proof (in_coord_full_extent Hx1 Hx2 Hx) as Ex.
  unfold crop_cell. rewrite Hv. cbn [negb].
  set (in_y := in_coord _ _ H H _ y) in *.
  set (in_x := in_coord _ _ W W _ x) in *.
  rewrite (@out_of_image_Q_false in_y H), (@out_of_image_Q_false in_x W).
  - unfold bilinear, lerp.
    cbn [fadd fsub fmul fdiv of_int floorf ceilf to_float Q_FloatOps Q_ElemOps].
    rewrite (Qfloor_comp _ _ Ey), (Qceiling_comp _ _ Ey).
    rewrite (Qfloor_comp _ _ Ex), (Qceiling_comp _ _ Ex).
    rewrite !Qfloor_Z, !Qceiling_Z. ring.
  - rewrite Ex. change 0%Q with (inject_Z 0). rewrite <- Zle_Qle. lia.
  - rewrite Ex. rewrite <- Zle_Qle. lia.
  - rewrite Ey. change 0%Q with (inject_Z 0). rewrite <- Zle_Qle. lia.
  - rewrite Ey. rewrite <- Zle_Qle. lia.
Qed.


(* ================================================================== *)
(** * Small integers in single precision *)

Module Binary32Facts.

Import Binary32.

(** [digits2_pos] counts the binary digits. *)
Lemma digits2_pos_size (m : positive) : digits2_pos m = Pos.size m.
Proof. induction m; simpl; congruence. Qed.

Lemma digits2_pos_bounds (m : positive) :
  2 ^ (Zpos (digits2_pos m) - 1) <= Zpos m < 2 ^ Zpos (digits2_pos m).
Proof.
  rewrite digits2_pos_size. split.
  - pose proof (Pos.size_le m) as Hle.
    assert (Hz : 2 ^ Zpos (Pos.size m) <= 2 * Zpos m).
    { change (2 * Zpos m) with (Zpos m~0).
      change 2 with (Zpos 2) at 1. rewrite <- Pos2Z.inj_pow.
      apply Pos2Z.pos_le_pos. exact Hle. }
    replace (Zpos (Pos.size m)) with (Z.succ (Zpos (Pos.size m) - 1)) in Hz
      by lia.
    rewrite Z.pow_succ_r in Hz by lia. lia.
  - pose proof (Pos.size_gt m) as Hgt.
    change 2 with (Zpos 2). rewrite <- Pos2Z.inj_pow.
    apply Pos2Z.pos_lt_pos. exact Hgt.
Qed.

Lemma digits2_pos_unique (m : positive) (d : Z) :
  2 ^ (d - 1) <= Zpos m < 2 ^ d -> 0 < d -> Zpos (digits2_pos m) = d.
Proof.
  intros [Hlo Hhi] Hd. pose proof (digits2_pos_bounds m) as [Blo Bhi].
  set (k := Zpos (digits2_pos m)) in *.
  assert (Hk : 0 < k) by (unfold k; lia).
  destruct (Z.lt_trichotomy k d) as [Hlt | [Heq | Hgt]]; [| exact Heq |].
  - exfalso. assert (2 ^ k <= 2 ^ (d - 1)) by (apply Z.pow_le_mono_r; lia).
    lia.
  - exfalso. assert (2 ^ d <= 2 ^ (k - 1)) by (apply Z.pow_le_mono_r; lia).
    lia.
Qed.

Lemma digits2_pos_mono (a b : positive) :
  (a <= b)%positive -> Zpos (digits2_pos a) <= Zpos (digits2_pos b).
Proof.
  intros Hab. pose proof (digits2_pos_bounds a) as [Alo _].
  pose proof (digits2_pos_bounds b) as [_ Bhi].
  destruct (Z_le_gt_dec (Zpos (digits2_pos a)) (Zpos (digits2_pos b)))
    as [Hle | Hgt]; [exact Hle | exfalso].
  assert (2 ^ Zpos (digits2_pos b) <= 2 ^ (Zpos (digits2_pos a) - 1))
    by (apply Z.pow_le_mono_r; lia).
  assert (Zpos a <= Zpos b) by (apply Pos2Z.pos_le_pos; exact Hab). lia.
Qed.

(** Shifting a mantissa to the left. *)
Lemma iter_xO_value (m p : positive) :
  Zpos (Pos.iter xO m p) = Zpos m * 2 ^ Zpos p.
Proof.
  induction p as [|p IH] using Pos.peano_ind.
  - simpl. lia.
  - rewrite Pos.iter_succ, Pos2Z.inj_succ, Z.pow_succ_r by lia.
    change (Zpos (Pos.iter xO m p)~0) with (2 * Zpos (Pos.iter xO m p)).
    rewrite IH. ring.
Qed.

Lemma iter_xO_digits (m p : positive) :
  Zpos (digits2_pos (Pos.iter xO m p)) = Zpos (digits2_pos m) + Zpos p.
Proof.
  induction p as [|p IH] using Pos.peano_ind.
  - simpl. lia.
  - rewrite Pos.iter_succ. cbn [digits2_pos].
    rewrite Pos2Z.inj_succ, IH. lia.
Qed.

(** Shifting back to the right loses nothing. *)
Lemma iter_shr_1_exact (p m : positive) :
  iter_pos shr_1 p
    {| shr_m := Zpos (Pos.iter xO m p); shr_r := false; shr_s := false |}
  = {| shr_m := Zpos m; shr_r := false; shr_s := false |}.
Proof.
  revert m. induction p as [p IH | p IH |]; intros m.
  - cbn [iter_pos Pos.iter shr_1 orb]. rewrite IH, IH. reflexivity.
  - cbn [iter_pos Pos.iter]. rewrite IH, IH. reflexivity.
  - reflexivity.
Qed.


(** A mantissa of 24 digits with an exponent in range is a fixed point
    of the rounding, whatever the shift it comes with. *)
Lemma fexp_in_format (e : Z) :
  -149 <= e -> fexp prec emax (24 + e) = e.
Proof. intros He. unfold fexp, emin, prec, emax. lia. Qed.

Lemma shr_fexp_in_format (m : positive) (e : Z) :
  in_format m e ->
  shr_fexp prec emax (Zpos m) e loc_Exact
  = ({| shr_m := Zpos m; shr_r := false; shr_s := false |}, e).
Proof.
  intros [Hd He]. unfold shr_fexp. cbn [Zdigits2]. rewrite Hd.
  rewrite fexp_in_format by lia. rewrite Z.sub_diag. reflexivity.
Qed.

Lemma shr_fexp_shifted (m p : positive) (e : Z) :
  in_format m e ->
  shr_fexp prec emax (Zpos (Pos.iter xO m p)) (e - Zpos p) loc_Exact
  = ({| shr_m := Zpos m; shr_r := false; shr_s := false |}, e).
Proof.
  intros [Hd He]. unfold shr_fexp. cbn [Zdigits2].
  rewrite iter_xO_digits, Hd.
  replace (24 + Zpos p + (e - Zpos p)) with (24 + e) by lia.
  rewrite fexp_in_format by lia.
  replace (e - (e - Zpos p)) with (Zpos p) by lia.
  cbn [shr shr_record_of_loc]. rewrite iter_shr_1_exact.
  f_equal. lia.
Qed.

Lemma binary_round_aux_in_format (sx : bool) (m : positive) (e : Z) :
  in_format m e ->
  binary_round_aux prec emax sx (Zpos m) e loc_Exact = S754_finite sx m e.
Proof.
  intros Hf. unfold binary_round_aux.
  rewrite (shr_fexp_in_format Hf).
  cbn [loc_of_shr_record shr_m shr_r shr_s round_nearest_even].
  rewrite (shr_fexp_in_format Hf). cbn [shr_m].
  destruct Hf as [_ He].
  replace (e <=? emax - prec) with true
    by (symmetry; apply Z.leb_le; unfold emax, prec; lia).
  reflexivity.
Qed.

Lemma binary_round_aux_shifted (sx : bool) (m p : positive) (e : Z) :
  in_format m e ->
  binary_round_aux prec emax sx (Zpos (Pos.iter xO m p)) (e - Zpos p)
    loc_Exact
  = S754_finite sx m e.
Proof.
  intros Hf. unfold binary_round_aux.
  rewrite (shr_fexp_shifted p Hf).
  cbn [loc_of_shr_record shr_m shr_r shr_s round_nearest_even].
  rewrite (shr_fexp_in_format Hf). cbn [shr_m].
  destruct Hf as [_ He].
  replace (e <=? emax - prec) with true
    by (symmetry; apply Z.leb_le; unfold emax, prec; lia).
  reflexivity.
Qed.

(** The float of a positive integer below [2 ^ 24]: the integer shifted
    to 24 digits. *)
Lemma digits2_pos_small (n : positive) :
  Zpos n < 2 ^ 24 -> Zpos (digits2_pos n) <= 24.
Proof.
  intros Hn. pose proof (digits2_pos_bounds n) as [Hlo _].
  destruct (Z_le_gt_dec (Zpos (digits2_pos n)) 24) as [H | H];
    [exact H | exfalso].
  assert (2 ^ 24 <= 2 ^ (Zpos (digits2_pos n) - 1))
    by (apply Z.pow_le_mono_r; lia).
  lia.
Qed.

Lemma mantissa_value (n : positive) :
  Zpos n < 2 ^ 24 ->
  Zpos (mantissa n) = Zpos n * 2 ^ (- exponent n) /\
  in_format (mantissa n) (exponent n).
Proof.
  intros Hn. unfold mantissa, exponent, in_format.
  pose proof (digits2_pos_small Hn) as Hd.
  destruct (24 - Zpos (digits2_pos n)) as [| k | k] eqn:Ek.
  - replace (- (Zpos (digits2_pos n) - 24)) with 0 by lia.
    rewrite Z.pow_0_r. lia.
  - rewrite iter_xO_value, iter_xO_digits.
    replace (- (Zpos (digits2_pos n) - 24)) with (Zpos k) by lia. lia.
  - lia.
Qed.

Lemma of_Z_pos (n : positive) :
  Zpos n < 2 ^ 24 ->
  of_Z (Zpos n) = S754_finite false (mantissa n) (exponent n).
Proof.
  intros Hn. destruct (mantissa_value Hn) as [_ Hf].
  unfold of_Z, binary_normalize, binary_round, shl_align.
  cbn [Zdigits2]. rewrite Z.add_0_r.
  pose proof (digits2_pos_small Hn) as Hd.
  assert (Hfe : fexp prec emax (Zpos (digits2_pos n))
                = Zpos (digits2_pos n) - 24).
  { unfold fexp, emin, prec, emax. lia. }
  rewrite Hfe. rewrite Z.sub_0_r.
  unfold mantissa, exponent in *.
  destruct (Zpos (digits2_pos n) - 24) as [| k | k] eqn:Ek.
  - replace (24 - Zpos (digits2_pos n)) with 0 in * by lia.
    apply binary_round_aux_in_format. exact Hf.
  - lia.
  - replace (24 - Zpos (digits2_pos n)) with (Zpos k) in * by lia.
    apply binary_round_aux_in_format. exact Hf.
Qed.


Lemma of_Z_1 : of_Z 1 = S754_finite false 8388608 (-23).
Proof. reflexivity. Qed.

(** Multiplying by one, dividing by itself, subtracting itself. *)
Lemma SFmul_one_r (s : bool) (m : positive) (e : Z) :
  in_format m e ->
  SFmul prec emax (S754_finite s m e) (of_Z 1) = S754_finite s m e.
Proof.
  intros Hf. rewrite of_Z_1. cbn [SFmul]. rewrite xorb_false_r.
  assert (Hm : (m * 8388608)%positive = Pos.iter xO m 23).
  { apply Pos2Z.inj. rewrite iter_xO_value, Pos2Z.inj_mul. reflexivity. }
  rewrite Hm. change (e + -23) with (e - Zpos 23).
  now apply binary_round_aux_shifted.
Qed.

Lemma SFmul_one_l (s : bool) (m : positive) (e : Z) :
  in_format m e ->
  SFmul prec emax (of_Z 1) (S754_finite s m e) = S754_finite s m e.
Proof.
  intros Hf. rewrite of_Z_1. cbn [SFmul xorb].
  assert (Hm : (8388608 * m)%positive = Pos.iter xO m 23).
  { apply Pos2Z.inj. rewrite iter_xO_value, Pos2Z.inj_mul.
    rewrite Z.mul_comm. reflexivity. }
  rewrite Hm. replace (-23 + e) with (e - Zpos 23) by lia.
  now apply binary_round_aux_shifted.
Qed.

Lemma div_eucl_div_mod (a b : Z) : Z.div_eucl a b = (a / b, a mod b).
Proof. unfold Z.div, Z.modulo. now destruct (Z.div_eucl a b). Qed.

Lemma SFdiv_self (m : positive) (e : Z) :
  SFdiv prec emax (S754_finite false m e) (S754_finite false m e) = of_Z 1.
Proof.
  rewrite of_Z_1. cbn [SFdiv]. unfold SFdiv_core_binary.
  rewrite !Z.sub_diag.
  change (Z.min (fexp prec emax 0) 0) with (-24).
  change (0 - -24) with 24. cbv iota.
  rewrite Z.shiftl_mul_pow2 by lia.
  rewrite div_eucl_div_mod.
  rewrite (Z.mul_comm (Zpos m)), Z.div_mul, Z.mod_mul by lia.
  assert (Hl : new_location (Zpos m) 0 = loc_Exact).
  { unfold new_location. now destruct (Z.even (Zpos m)). }
  rewrite Hl. reflexivity.
Qed.

Lemma SFsub_self_finite (s : bool) (m : positive) (e : Z) :
  SFsub prec emax (S754_finite s m e) (S754_finite s m e) = S754_zero false.
Proof.
  cbn [SFsub]. rewrite Z.min_id. unfold shl_align.
  rewrite Z.sub_diag. cbn [fst]. rewrite ?Z.sub_diag. reflexivity.
Qed.

Lemma SFsub_self_zero (s : bool) :
  SFsub prec emax (S754_zero s) (S754_zero s) = S754_zero false.
Proof. now destruct s. Qed.

(** The floats of the integers from 0 to [2 ^ 24]. *)
Lemma of_Z_cases (n : Z) :
  0 <= n < 2 ^ 24 ->
  of_Z n = S754_zero false \/
  exists m e, of_Z n = S754_finite false m e /\ in_format m e.
Proof.
  intros Hn. destruct n as [| p | p]; [now left | right | lia].
  exists (mantissa p), (exponent p). split.
  - apply of_Z_pos. lia.
  - apply mantissa_value. lia.
Qed.

Lemma SFsub_self_of_Z (n : Z) :
  0 <= n < 2 ^ 24 -> SFsub prec emax (of_Z n) (of_Z n) = S754_zero false.
Proof.
  intros Hn. destruct (of_Z_cases Hn) as [E | (m & e & E & _)]; rewrite E.
  - apply SFsub_self_zero.
  - apply SFsub_self_finite.
Qed.

Lemma SFmul_of_Z_one (n : Z) :
  0 <= n < 2 ^ 24 -> SFmul prec emax (of_Z n) (of_Z 1) = of_Z n.
Proof.
  intros Hn. destruct (of_Z_cases Hn) as [E | (m & e & E & Hf)]; rewrite E.
  - reflexivity.
  - now apply SFmul_one_r.
Qed.

Lemma SFltb_of_Z (a b : Z) :
  0 <= a <= b -> b < 2 ^ 24 -> SFltb (of_Z b) (of_Z a) = false.
Proof.
  intros Hab Hb.
  destruct a as [| a | a]; [| | lia].
  - destruct b as [| b | b]; [reflexivity | | lia].
    rewrite of_Z_pos by lia. reflexivity.
  - destruct b as [| b | b]; [lia | | lia].
    assert (Ha : Zpos a < 2 ^ 24) by lia.
    rewrite (of_Z_pos Ha), (of_Z_pos Hb).
    destruct (mantissa_value Ha) as [Va _].
    destruct (mantissa_value Hb) as [Vb _].
    assert (Hd : Zpos (digits2_pos a) <= Zpos (digits2_pos b)).
    { apply digits2_pos_mono. lia. }
    unfold SFltb, SFcompare.
    destruct (Z.compare_spec (exponent b) (exponent a)) as [He | He | He].
    + assert (Hm : Zpos (mantissa a) <= Zpos (mantissa b)).
      { rewrite Va, Vb, He.
        apply Z.mul_le_mono_nonneg_r; [| lia].
        apply Z.pow_nonneg. lia. }
      change (Pos.compare_cont Eq (mantissa b) (mantissa a))
        with (mantissa b ?= mantissa a)%positive.
      destruct (Pos.compare_spec (mantissa b) (mantissa a)) as [| Hlt |];
        [reflexivity | lia | reflexivity].
    + unfold exponent in He. lia.
    + reflexivity.
Qed.

Lemma floor_Z_of_Z (n : Z) : 0 <= n < 2 ^ 24 -> floor_Z (of_Z n) = Some n.
Proof.
  intros Hn. destruct n as [| p | p]; [reflexivity | | lia].
  assert (Hp : Zpos p < 2 ^ 24) by lia.
  rewrite (of_Z_pos Hp). destruct (mantissa_value Hp) as [V _].
  pose proof (digits2_pos_small Hp) as Hd.
  unfold floor_Z. cbn [cond_Zopp]. rewrite V.
  unfold exponent in *.
  rewrite (Z.max_r _ 0) by lia. rewrite Z.max_l by lia.
  rewrite Z.pow_0_r, Z.mul_1_r.
  rewrite Z.div_mul; [reflexivity |].
  apply Z.pow_nonzero; lia.
Qed.

Lemma ceil_Z_of_Z (n : Z) : 0 <= n < 2 ^ 24 -> ceil_Z (of_Z n) = Some n.
Proof.
  intros Hn. destruct n as [| p | p]; [reflexivity | | lia].
  assert (Hp : Zpos p < 2 ^ 24) by lia.
  rewrite (of_Z_pos Hp). destruct (mantissa_value Hp) as [V _].
  pose proof (digits2_pos_small Hp) as Hd.
  unfold ceil_Z, floor_Z. cbn [SFopp negb cond_Zopp option_map]. rewrite V.
  unfold exponent in *.
  rewrite (Z.max_r _ 0) by lia. rewrite Z.max_l by lia.
  rewrite Z.pow_0_r, Z.mul_1_r.
  rewrite <- Z.mul_opp_l.
  rewrite Z.div_mul; [f_equal; lia |].
  apply Z.pow_nonzero; lia.
Qed.

Lemma to_int_small (n : Z) : 0 <= n < 2 ^ 24 -> to_int (Some n) = n.
Proof.
  intros Hn. unfold to_int, INT_MIN.
  replace (- 2 ^ 31 <=? n) with true by (symmetry; apply Z.leb_le; lia).
  replace (n <? 2 ^ 31) with true by (symmetry; apply Z.ltb_lt; lia).
  reflexivity.
Qed.

End Binary32Facts.

(** ** The full box in single precision *)

Section FullBox32.

Import Binary32 Binary32Facts.

Context {T : Type} {EO : ElemOps T spec_float}.

(** With the box (0, 0, 1, 1) and a crop size equal to the extent, grid
    index [i] is mapped to the float of [i]. *)
Lemma in_coord_full_extent32 (ext i : Z) :
  0 <= i < ext -> ext <= 2 ^ 24 ->
  in_coord (f32 0) (f32 1) ext ext (axis_scale (f32 0) (f32 1) ext ext) i
  = f32 i.
Proof.
  intros Hi He. unfold in_coord, axis_scale.
  destruct (1 <? ext) eqn:E.
  - apply Z.ltb_lt in E.
    cbn [fadd fsub fmul fdiv of_int Binary32_FloatOps]. unfold f32.
    destruct (ext - 1) as [| q | q] eqn:Eq; try lia.
    assert (Hq : Zpos q < 2 ^ 24) by lia.
    rewrite (of_Z_pos Hq). destruct (mantissa_value Hq) as [_ Hf].
    change (SFsub prec emax (of_Z 1) (of_Z 0)) with (of_Z 1).
    rewrite (SFmul_one_l _ Hf), SFdiv_self, SFmul_of_Z_one by lia.
    change (SFmul prec emax (of_Z 0) (S754_finite false (mantissa q)
                                        (exponent q)))
      with (S754_zero false).
    assert (Hi' : 0 <= i < 2 ^ 24) by lia.
    destruct (of_Z_cases Hi') as [Ei | (mi & ei & Ei & _)]; rewrite Ei;
      reflexivity.
  - apply Z.ltb_ge in E. assert (ext = 1) by lia. assert (i = 0) by lia.
    subst. reflexivity.
Qed.

Lemma out_of_image_of_Z (ext i : Z) :
  0 <= i < ext -> ext <= 2 ^ 24 -> out_of_image (f32 i) ext = false.
Proof.
  intros Hi He. unfold out_of_image, f32.
  cbn [flt of_int Binary32_FloatOps].
  rewrite !SFltb_of_Z by lia. reflexivity.
Qed.

Lemma floorf_of_Z (i : Z) : 0 <= i < 2 ^ 24 -> floorf (f32 i) = i.
Proof.
  intros Hi. unfold f32. cbn [floorf Binary32_FloatOps].
  rewrite floor_Z_of_Z by lia. now apply to_int_small.
Qed.

Lemma ceilf_of_Z (i : Z) : 0 <= i < 2 ^ 24 -> ceilf (f32 i) = i.
Proof.
  intros Hi. unfold f32. cbn [ceilf Binary32_FloatOps].
  rewrite ceil_Z_of_Z by lia. now apply to_int_small.
Qed.

Lemma indexable_of_Z (ext i : Z) :
  0 <= i < ext -> ext <= 2 ^ 24 -> indexable (f32 i) ext = true.
Proof.
  intros Hi He. unfold indexable.
  rewrite out_of_image_of_Z, floorf_of_Z, ceilf_of_Z by lia.
  cbn [orb].
  replace (0 <=? i) with true by (symmetry; apply Z.leb_le; lia).
  replace (i <? ext) with true by (symmetry; apply Z.ltb_lt; lia).
  reflexivity.
Qed.

(** Blending a finite value with itself gives the value, with the zero
    of either sign turned into [+0]. *)
Lemma lerp_self (p : spec_float) :
  value p <> None ->
  exists q, lerp p p (S754_zero false) = q /\ value q = value p /\
    lerp q q (S754_zero false) = q.
Proof.
  intros Hp. unfold lerp. cbn [fadd fsub fmul Binary32_FloatOps].
  destruct p as [sg | sg | | sg m e].
  - exists (S754_zero false). now destruct sg.
  - now contradiction Hp.
  - now contradiction Hp.
  - exists (S754_finite sg m e). rewrite SFsub_self_finite. now split.
Qed.

Lemma bilinear_at_pixel32 (img : Tensor T) (b_in y x d : Z) :
  0 <= y < 2 ^ 24 -> 0 <= x < 2 ^ 24 ->
  value (to_float (elt img [b_in; y; x; d])) <> None ->
  value (bilinear img b_in (f32 y) (f32 x) d)
  = value (to_float (elt img [b_in; y; x; d])).
Proof.
  intros Hy Hx Hp. unfold bilinear. cbv zeta.
  rewrite !floorf_of_Z, !ceilf_of_Z by lia.
  unfold f32. cbn [fsub of_int Binary32_FloatOps].
  rewrite !SFsub_self_of_Z by lia.
  destruct (lerp_self _ Hp) as (q & E1 & E2 & E3).
  rewrite E1, E3. exact E2.
Qed.

Lemma identity_cell32 (s : Store spec_float T) (e : spec_float)
    (B H W b y x d : Z) :
  FastBoundsCheck (elt (box_index s) [b]) B = true ->
  full_box (boxes s) b ->
  0 <= y < H -> 0 <= x < W -> H <= 2 ^ 24 -> W <= 2 ^ 24 ->
  value (to_float (elt (image s) [elt (box_index s) [b]; y; x; d])) <> None ->
  value (crop_cell s e B H W H W b y x d)
  = value (to_float (elt (image s) [elt (box_index s) [b]; y; x; d])).
Proof.
  intros Hv (Hy1 & Hx1 & Hy2 & Hx2) Hy Hx HH HW Hp.
  unfold crop_cell. rewrite Hv. cbn [negb].
  rewrite Hy1, Hx1, Hy2, Hx2.
  rewrite !in_coord_full_extent32 by lia.
  rewrite !out_of_image_of_Z by lia.
  apply bilinear_at_pixel32; [lia | lia | exact Hp].
Qed.

Lemma full_boxes_indexable (bx : Tensor spec_float) (bi : Tensor Z)
    (B H W N : Z) :
  H <= 2 ^ 24 -> W <= 2 ^ 24 ->
  (forall b, 0 <= b < N -> 0 <= elt bi [b] < B -> full_box bx b) ->
  boxes_indexable2 axis_scale bx bi B H W N H W.
Proof.
  intros HH HW Hfull b Hb Hv.
  destruct (Hfull b Hb Hv) as (Hy1 & Hx1 & Hy2 & Hx2).
  rewrite Hy1, Hx1, Hy2, Hx2.
  split; intros i Hi; rewrite in_coord_full_extent32 by lia;
    apply indexable_of_Z; lia.
Qed.

End FullBox32.

(* ================================================================== *)
(** * The backward kernels compute the folds *)

Section FoldLemmas.

Context {F T : Type} {FO : FloatOps F} {EO : ElemOps T F}.

Local Open Scope float_scope.

(** The coordinates of the kernels are those of the specification. *)
Lemma in_coord_mapped (p1 p2 : F) (ext crop i : Z) :
  in_coord p1 p2 ext crop (axis_scale p1 p2 ext crop) i
  = mapped_coord p1 p2 ext crop i.
Proof.
  unfold in_coord, axis_scale, mapped_coord. now destruct (1 <? crop).
Qed.

Lemma in_coord_mapped_ratio (p1 p2 : F) (ext crop i : Z) :
  in_coord p1 p2 ext crop (ratio_scale p1 p2 (axis_ratio ext crop) crop) i
  = mapped_coord_ratio p1 p2 ext crop i.
Proof.
  unfold in_coord, ratio_scale, axis_ratio, mapped_coord_ratio.
  now destruct (1 <? crop).
Qed.

Section Computes.

Context {O : Type}.
Variable P : Store F T -> Prop.
Variable out : Store F T -> O.

Lemma computes_ret : computes P out (fun o => o) (ret tt).
Proof. intros s HP. unfold wp, ret. auto. Qed.

Lemma computes_seq f g (m k : M F T unit) :
  computes P out f m -> computes P out g k ->
  computes P out (fun o => g (f o)) (bind m (fun _ => k)).
Proof.
  intros Hm Hk s HP. specialize (Hm s HP). unfold wp, bind in *.
  destruct (m s) as [[[] s1]|]; [| exact I].
  cbv beta in Hm. destruct Hm as [HP1 E1]. specialize (Hk s1 HP1).
  unfold wp in Hk. destruct (k s1) as [[[] s2]|]; [| exact I].
  cbv beta in Hk. destruct Hk as [HP2 E2]. split; [exact HP2 | congruence].
Qed.

Lemma computes_read {A} (sel : Store F T -> Tensor A) (t : Tensor A) ix f
    (k : A -> M F T unit) :
  (forall s, P s -> sel s = t) ->
  computes P out f (k (elt t ix)) ->
  computes P out f (bind (read sel ix) k).
Proof.
  intros Hsel Hk s HP. unfold wp, bind, read.
  destruct (in_range (dims (sel s)) ix); [| exact I].
  rewrite (Hsel s HP). apply Hk. exact HP.
Qed.

Lemma computes_for_loop body f n : forall lo,
  (forall j, lo <= j < lo + Z.of_nat n -> computes P out (f j) (body j)) ->
  computes P out (iter_from n lo f) (for_loop n lo body).
Proof.
  induction n as [|n IH]; intros lo Hb.
  - apply computes_ret.
  - cbn [for_loop iter_from].
    apply (@computes_seq (f lo) (iter_from n (lo + 1) f)).
    + apply Hb. lia.
    + apply IH. intros j Hj. apply Hb. lia.
Qed.

Lemma computes_for lo hi body f :
  (forall j, lo <= j < hi -> computes P out (f j) (body j)) ->
  computes P out (iter_range lo hi f) (for_range lo hi body).
Proof.
  intros Hb. apply computes_for_loop. intros j Hj. apply Hb. lia.
Qed.

End Computes.


(* One access of a loop body: out of range, the run stops; in range, it
   goes on. *)
Ltac fold_access :=
  match goal with
  | |- context [in_range ?ds ?ix] =>
      destruct (in_range ds ix);
      cbn [fst snd image boxes box_index grads crops grads_image grads_boxes
           set_grads_image set_grads_boxes tupdate tadd_elem_at tadd_at dims];
      [| exact I]
  end.

(* The steps of a walk through a loop nest. *)
Ltac fold_step :=
  lazymatch goal with
  | |- computes _ _ _ (bind (read boxes _) _) =>
      eapply computes_read; [intros ? HP; apply HP |]
  | |- computes _ _ _ (bind (read box_index _) _) =>
      eapply computes_read; [intros ? HP; apply HP |]
  | |- computes _ _ _ (ret tt) => apply computes_ret
  | |- computes _ _ _ (for_range _ _ _) =>
      apply computes_for; intros ? ?
  | |- computes _ _ _ (if ?c then _ else _) => destruct c
  | |- computes _ _ _ (let x := _ in _) => cbv zeta
  end.

Ltac fold_walk :=
  repeat first [ rewrite in_coord_mapped | rewrite in_coord_mapped_ratio
               | fold_step ].

Section ImageGradientFolds.

Variables (bx : Tensor F) (bi : Tensor Z) (g : Tensor F).

Let P := reads_grad_image (T:=T) bx bi g.







End ImageGradientFolds.

Section BoxGradientFolds.

Variables (img : Tensor T) (bx : Tensor F) (bi : Tensor Z) (g : Tensor F).

Let P := reads_grad_boxes img bx bi g.

Lemma BackpropBoxes_channel_fold H W CH CW b b_in y x in_y in_x d :
  computes P grads_boxes (endpoints2 img g H W CH CW b b_in y x in_y in_x d)
    (BackpropBoxes_channel H W CH CW b b_in
       (axis_ratio H CH) (axis_ratio W CW) y x
       (floorf in_y) (ceilf in_y) (in_y -^ of_int (floorf in_y))
       (floorf in_x) (ceilf in_x) (in_x -^ of_int (floorf in_x)) d).
Proof.
  intros s (Him & Hbx & Hbi & Hg).
  unfold wp, BackpropBoxes_channel, bind, read, add_grads_boxes.
  unfold endpoints2, endpoints_add, endpoint1_term, endpoint2_term,
    image_grad_y2, image_grad_x2, tadd_at.
  destruct (1 <? CH); destruct (1 <? CW); repeat fold_access;
    (split; [repeat split; assumption |]);
    rewrite <- Hg, <- Him; reflexivity.
Qed.

Lemma BackpropBoxes_box_fold B H W CH CW C b :
  computes P grads_boxes
    (for_box2 mapped_coord_ratio bx bi B H W CH CW C
       (endpoints2 img g H W CH CW) b)
    (BackpropBoxes_box B H W CH CW C b).
Proof.
  unfold BackpropBoxes_box, BackpropBoxes_row, BackpropBoxes_col, for_box2.
  fold_walk. apply BackpropBoxes_channel_fold.
Qed.

Lemma BackpropBoxes3D_channel_fold H W D CH CW CD b b_in y x z
    in_y in_x in_z d :
  computes P grads_boxes
    (endpoints3 img g H W D CH CW CD b b_in y x z in_y in_x in_z d)
    (BackpropBoxes3D_channel H W D CH CW CD b b_in
       (axis_ratio H CH) (axis_ratio W CW) (axis_ratio D CD) y x z
       (floorf in_y) (ceilf in_y) (in_y -^ of_int (floorf in_y))
       (floorf in_x) (ceilf in_x) (in_x -^ of_int (floorf in_x))
       (floorf in_z) (ceilf in_z) (in_z -^ of_int (floorf in_z)) d).
Proof.
  intros s (Him & Hbx & Hbi & Hg).
  unfold wp, BackpropBoxes3D_channel, bind, read, add_grads_boxes.
  unfold endpoints3, endpoints_add, endpoint1_term, endpoint2_term,
    image_grad_y3, image_grad_x3, image_grad_z3, tadd_at.
  destruct (1 <? CH); destruct (1 <? CW); destruct (1 <? CD);
    repeat fold_access;
    (split; [repeat split; assumption |]);
    rewrite <- Hg, <- Him; reflexivity.
Qed.

Lemma BackpropBoxes3D_box_fold B H W D CH CW CD C b :
  computes P grads_boxes
    (for_box3 mapped_coord_ratio bx bi B H W D CH CW CD C
       (endpoints3 img g H W D CH CW CD) b)
    (BackpropBoxes3D_box B H W D CH CW CD C b).
Proof.
  unfold BackpropBoxes3D_box, BackpropBoxes3D_row, BackpropBoxes3D_col,
    BackpropBoxes3D_slice, for_box3.
  fold_walk. apply BackpropBoxes3D_channel_fold.
Qed.

End BoxGradientFolds.

Lemma computes_run {O} (P : Store F T -> Prop) (out : Store F T -> O)
    (f : O -> O) (m : M F T unit) (s s' : Store F T) :
  computes P out f m -> P s -> m s = Some (tt, s') -> out s' = f (out s).
Proof.
  intros Hc HP Hrun. specialize (Hc s HP). unfold wp in Hc.
  rewrite Hrun in Hc. apply Hc.
Qed.



Lemma CropAndResizeBackpropBoxes_fold (s s' : Store F T) :
  CropAndResizeBackpropBoxes s = Some (tt, s') ->
  grads_boxes s' = box_gradient2 s.
Proof.
  unfold CropAndResizeBackpropBoxes, bind, get_dim, setZero_grads_boxes.
  intros Hrun. unfold box_gradient2, box_gradient2_with, for_cells2.
  refine (@computes_run _
            (reads_grad_boxes (image s) (boxes s) (box_index s)
                    (grads s))
            grads_boxes
            (iter_range 0 _
                    (for_box2 mapped_coord_ratio (boxes s) (box_index s)
                       _ _ _ _ _ _
                       (endpoints2 (image s) (grads s) _ _ _ _)))
            _ _ _ _ _ Hrun).
  - apply computes_for. intros b _. apply BackpropBoxes_box_fold.
  - repeat split.
Qed.

Lemma CropAndResizeBackpropBoxes3D_fold (s s' : Store F T) :
  CropAndResizeBackpropBoxes3D s = Some (tt, s') ->
  grads_boxes s' = box_gradient3 s.
Proof.
  unfold CropAndResizeBackpropBoxes3D, bind, get_dim, setZero_grads_boxes.
  intros Hrun. unfold box_gradient3, box_gradient3_with, for_cells3.
  refine (@computes_run _
            (reads_grad_boxes (image s) (boxes s) (box_index s)
                    (grads s))
            grads_boxes
            (iter_range 0 _
                    (for_box3 mapped_coord_ratio (boxes s) (box_index s)
                       _ _ _ _ _ _ _ _
                       (endpoints3 (image s) (grads s) _ _ _ _ _ _)))
            _ _ _ _ _ Hrun).
  - apply computes_for. intros b _. apply BackpropBoxes3D_box_fold.
  - repeat split.
Qed.

End FoldLemmas.

(* ================================================================== *)
(** * Properties of the kernels, for every arithmetic *)

Section Claims.

Context {F T : Type} {FO : FloatOps F} {EO : ElemOps T F}.

Local Open Scope float_scope.

(** ** Boxes with an image index outside the batch *)

Lemma read_in_range {A} (sel : Store F T -> Tensor A) ix s :
  in_range (dims (sel s)) ix = true ->
  read sel ix s = Some (elt (sel s) ix, s).
Proof. intros Hin. unfold read. now rewrite Hin. Qed.

Ltac skip_box2 Hbx Hbi Hb Hinv :=
  autounfold with kernel_bodies; unfold bind;
  rewrite !read_in_range by (first [rewrite Hbx; apply in_range2; lia
                                   | rewrite Hbi; apply in_range1; lia]);
  rewrite Hinv; reflexivity.

Lemma box_skipped_2D (s : Store F T) (e : F) (B H W CH CW C N b : Z) :
  dims (boxes s) = [N; 4] -> dims (box_index s) = [N] -> 0 <= b < N ->
  FastBoundsCheck (elt (box_index s) [b]) B = false ->
  CropAndResize_box B H W CH CW C e b s = Some (tt, s) /\
  BackpropImage_box B H W CH CW C b s = Some (tt, s) /\
  BackpropBoxes_box B H W CH CW C b s = Some (tt, s).
Proof.
  intros Hbx Hbi Hb Hinv.
  repeat split; skip_box2 Hbx Hbi Hb Hinv.
Qed.

Lemma box_skipped_3D (s : Store F T) (e : F) (B H W D CH CW CD C N b : Z) :
  dims (boxes s) = [N; 6] -> dims (box_index s) = [N] -> 0 <= b < N ->
  FastBoundsCheck (elt (box_index s) [b]) B = false ->
  CropAndResize3D_box B H W D CH CW CD C e b s = Some (tt, s) /\
  BackpropImage3D_box B H W D CH CW CD C b s = Some (tt, s) /\
  BackpropBoxes3D_box B H W D CH CW CD C b s = Some (tt, s).
Proof.
  intros Hbx Hbi Hb Hinv.
  repeat split; skip_box2 Hbx Hbi Hb Hinv.
Qed.


(** C6.  A box whose image index lies outside [0, batch_size) is
    skipped by every kernel, without an error: the iteration of the
    loop over the boxes that finds such an index returns at once and
    leaves the whole store as it was, so that nothing is written for
    the box to the forward output and nothing is added for it to the
    image gradient or to the box gradient.  First the three 2D kernels,
    then the three 3D kernels. *)
Theorem invalid_box_index_skipped :
  (forall (s : Store F T) (e : F) (B H W CH CW C N b : Z),
     dims (boxes s) = [N; 4] -> dims (box_index s) = [N] -> 0 <= b < N ->
     ~ (0 <= elt (box_index s) [b] < B) ->
     CropAndResize_box B H W CH CW C e b s = Some (tt, s) /\
     BackpropImage_box B H W CH CW C b s = Some (tt, s) /\
     BackpropBoxes_box B H W CH CW C b s = Some (tt, s)) /\
  (forall (s : Store F T) (e : F) (B H W D CH CW CD C N b : Z),
     dims (boxes s) = [N; 6] -> dims (box_index s) = [N] -> 0 <= b < N ->
     ~ (0 <= elt (box_index s) [b] < B) ->
     CropAndResize3D_box B H W D CH CW CD C e b s = Some (tt, s) /\
     BackpropImage3D_box B H W D CH CW CD C b s = Some (tt, s) /\
     BackpropBoxes3D_box B H W D CH CW CD C b s = Some (tt, s)).
Proof.
  split.
  - intros s e B H W CH CW C N b Hbx Hbi Hb Hinv.
    apply FastBoundsCheck_false in Hinv.
    now apply box_skipped_2D with (N := N).
  - intros s e B H W D CH CW CD C N b Hbx Hbi Hb Hinv.
    apply FastBoundsCheck_false in Hinv.
    now apply box_skipped_3D with (N := N).
Qed.

(** ** The image is only read *)

(** C8.  No kernel modifies the image batch: after a run of any of the
    six kernels the [image] tensor of the store is the one before the
    call. *)
Theorem image_never_modified (e : F) (s s' : Store F T) :
  (CropAndResize e s = Some (tt, s') -> image s' = image s) /\
  (CropAndResize3D e s = Some (tt, s') -> image s' = image s) /\
  (CropAndResizeBackpropImage s = Some (tt, s') -> image s' = image s) /\
  (CropAndResizeBackpropImage3D s = Some (tt, s') -> image s' = image s) /\
  (CropAndResizeBackpropBoxes s = Some (tt, s') -> image s' = image s) /\
  (CropAndResizeBackpropBoxes3D s = Some (tt, s') -> image s' = image s).
Proof.
  repeat split; intros Hrun.
  - exact (proj1 (CropAndResize_kept e s Hrun)).
  - exact (proj1 (CropAndResize3D_kept e s Hrun)).
  - exact (proj1 (CropAndResizeBackpropImage_kept s Hrun)).
  - exact (proj1 (CropAndResizeBackpropImage3D_kept s Hrun)).
  - exact (proj1 (CropAndResizeBackpropBoxes_kept s Hrun)).
  - exact (proj1 (CropAndResizeBackpropBoxes3D_kept s Hrun)).
Qed.

(** ** Index tuples in range *)

Lemma in_range4_inv n0 n1 n2 n3 ix :
  in_range [n0; n1; n2; n3] ix = true ->
  exists b y x d, ix = [b; y; x; d] /\
    0 <= b < n0 /\ 0 <= y < n1 /\ 0 <= x < n2 /\ 0 <= d < n3.
Proof.
  destruct ix as [|b [|y [|x [|d [|? ?]]]]]; simpl;
    try discriminate;
    try (rewrite ?andb_false_r; discriminate).
  intros Hin. exists b, y, x, d. split; [reflexivity |].
  now apply in_range4.
Qed.

Lemma in_range5_inv n0 n1 n2 n3 n4 ix :
  in_range [n0; n1; n2; n3; n4] ix = true ->
  exists b y x z d, ix = [b; y; x; z; d] /\
    0 <= b < n0 /\ 0 <= y < n1 /\ 0 <= x < n2 /\ 0 <= z < n3 /\ 0 <= d < n4.
Proof.
  destruct ix as [|b [|y [|x [|z [|d [|? ?]]]]]]; simpl;
    try discriminate;
    try (rewrite ?andb_false_r; discriminate).
  intros Hin. exists b, y, x, z, d. split; [reflexivity |].
  now apply in_range5.
Qed.

(** ** One channel of the box-gradient kernels *)

Lemma add_grads_boxes_run ix (v : F) (s : Store F T) :
  in_range (dims (grads_boxes s)) ix = true ->
  add_grads_boxes ix v s
  = Some (tt, set_grads_boxes s (tadd_at (grads_boxes s) ix v)).
Proof. intros Hin. unfold add_grads_boxes. now rewrite Hin. Qed.

Lemma BackpropBoxes_channel_run (s : Store F T)
    (H W CH CW N b b_in : Z) (hr wr : F) (y x top bottom : Z) (y_lerp : F)
    (left right : Z) (x_lerp : F) (d : Z) :
  dims (grads_boxes s) = [N; 4] -> 0 <= b < N ->
  in_range (dims (image s)) [b_in; top; left; d] = true ->
  in_range (dims (image s)) [b_in; top; right; d] = true ->
  in_range (dims (image s)) [b_in; bottom; left; d] = true ->
  in_range (dims (image s)) [b_in; bottom; right; d] = true ->
  in_range (dims (grads s)) [b; y; x; d] = true ->
  let tl := to_float (elt (image s) [b_in; top; left; d]) in
  let tr := to_float (elt (image s) [b_in; top; right; d]) in
  let bl := to_float (elt (image s) [b_in; bottom; left; d]) in
  let br := to_float (elt (image s) [b_in; bottom; right; d]) in
  let g := elt (grads s) [b; y; x; d] in
  let gy := image_grad_y2 tl tr bl br x_lerp g in
  let gx := image_grad_x2 tl tr bl br y_lerp g in
  BackpropBoxes_channel H W CH CW b b_in hr wr y x top bottom y_lerp
    left right x_lerp d s
  = Some (tt, set_grads_boxes s
       (tadd_at (tadd_at (tadd_at (tadd_at (grads_boxes s)
          [b; 0] (endpoint1_term gy H CH hr y))
          [b; 2] (endpoint2_term gy H CH hr y))
          [b; 1] (endpoint1_term gx W CW wr x))
          [b; 3] (endpoint2_term gx W CW wr x))).
Proof.
  intros Hgb Hb H1 H2 H3 H4 H5. cbv zeta.
  unfold BackpropBoxes_channel, bind.
  rewrite !read_in_range by assumption.
  unfold endpoint1_term, endpoint2_term.
  destruct (1 <? CH); destruct (1 <? CW);
    repeat (rewrite add_grads_boxes_run
              by (cbn [grads_boxes set_grads_boxes tadd_at tupdate dims];
                  rewrite Hgb; apply in_range2; lia);
            cbn [grads_boxes set_grads_boxes]);
    reflexivity.
Qed.


Lemma BackpropBoxes3D_channel_run (s : Store F T)
    (H W D CH CW CD N b b_in : Z) (hr wr dr : F)
    (y x z top bottom : Z) (y_lerp : F)
    (left right : Z) (x_lerp : F) (front back : Z) (z_lerp : F) (d : Z) :
  dims (grads_boxes s) = [N; 6] -> 0 <= b < N ->
  in_range (dims (image s)) [b_in; top; left; front; d] = true ->
  in_range (dims (image s)) [b_in; top; right; front; d] = true ->
  in_range (dims (image s)) [b_in; bottom; left; front; d] = true ->
  in_range (dims (image s)) [b_in; bottom; right; front; d] = true ->
  in_range (dims (image s)) [b_in; top; left; back; d] = true ->
  in_range (dims (image s)) [b_in; top; right; back; d] = true ->
  in_range (dims (image s)) [b_in; bottom; left; back; d] = true ->
  in_range (dims (image s)) [b_in; bottom; right; back; d] = true ->
  in_range (dims (grads s)) [b; y; x; z; d] = true ->
  let at_ y x z := to_float (elt (image s) [b_in; y; x; z; d]) in
  let g := elt (grads s) [b; y; x; z; d] in
  let gy := image_grad_y3 (at_ top left front) (at_ top right front)
              (at_ bottom left front) (at_ bottom right front)
              (at_ top left back) (at_ top right back)
              (at_ bottom left back) (at_ bottom right back)
              x_lerp z_lerp g in
  let gx := image_grad_x3 (at_ top left front) (at_ top right front)
              (at_ bottom left front) (at_ bottom right front)
              (at_ top left back) (at_ top right back)
              (at_ bottom left back) (at_ bottom right back)
              y_lerp z_lerp g in
  let gz := image_grad_z3 (at_ top left front) (at_ top right front)
              (at_ bottom left front) (at_ bottom right front)
              (at_ top left back) (at_ top right back)
              (at_ bottom left back) (at_ bottom right back)
              y_lerp x_lerp g in
  BackpropBoxes3D_channel H W D CH CW CD b b_in hr wr dr y x z
    top bottom y_lerp left right x_lerp front back z_lerp d s
  = Some (tt, set_grads_boxes s
       (tadd_at (tadd_at (tadd_at (tadd_at (tadd_at (tadd_at (grads_boxes s)
          [b; 0] (endpoint1_term gy H CH hr y))
          [b; 3] (endpoint2_term gy H CH hr y))
          [b; 1] (endpoint1_term gx W CW wr x))
          [b; 4] (endpoint2_term gx W CW wr x))
          [b; 2] (endpoint1_term gz D CD dr z))
          [b; 5] (endpoint2_term gz D CD dr z))).
Proof.
  intros Hgb Hb H1 H2 H3 H4 H5 H6 H7 H8 H9. cbv zeta.
  unfold BackpropBoxes3D_channel, bind.
  rewrite !read_in_range by assumption.
  unfold endpoint1_term, endpoint2_term.
  destruct (1 <? CH); destruct (1 <? CW); destruct (1 <? CD);
    repeat (rewrite add_grads_boxes_run
              by (cbn [grads_boxes set_grads_boxes tadd_at tupdate dims];
                  rewrite Hgb; apply in_range2; lia);
            cbn [grads_boxes set_grads_boxes]);
    reflexivity.
Qed.

(** ** One channel of the 2D image-gradient kernel; the 2D forward
       kernel interpolates bilinearly *)

Lemma add_grads_image_run ix (v : T) (s : Store F T) :
  in_range (dims (grads_image s)) ix = true ->
  add_grads_image ix v s
  = Some (tt, set_grads_image s (tadd_elem_at (grads_image s) ix v)).
Proof. intros Hin. unfold add_grads_image. now rewrite Hin. Qed.

(** Lines 807-818: one run of the channel loop body of the 2D
    image-gradient kernel adds the incoming gradient times the bilinear
    weight of each corner at the four corners, in the order top-left,
    top-right, bottom-left, bottom-right. *)
Lemma BackpropImage_channel_run (s : Store F T)
    (b b_in y x top bottom : Z) (y_lerp : F)
    (left right : Z) (x_lerp : F) (d : Z) :
  in_range (dims (grads s)) [b; y; x; d] = true ->
  in_range (dims (grads_image s)) [b_in; top; left; d] = true ->
  in_range (dims (grads_image s)) [b_in; top; right; d] = true ->
  in_range (dims (grads_image s)) [b_in; bottom; left; d] = true ->
  in_range (dims (grads_image s)) [b_in; bottom; right; d] = true ->
  let g := elt (grads s) [b; y; x; d] in
  BackpropImage_channel b b_in y x top bottom y_lerp left right x_lerp d s
  = Some (tt, set_grads_image s
       (tadd_elem_at (tadd_elem_at (tadd_elem_at (tadd_elem_at
          (grads_image s)
          [b_in; top; left; d]
          (of_float ((of_int 1 -^ x_lerp) *^ ((of_int 1 -^ y_lerp) *^ g))))
          [b_in; top; right; d]
          (of_float (x_lerp *^ ((of_int 1 -^ y_lerp) *^ g))))
          [b_in; bottom; left; d]
          (of_float ((of_int 1 -^ x_lerp) *^ (y_lerp *^ g))))
          [b_in; bottom; right; d]
          (of_float (x_lerp *^ (y_lerp *^ g))))).
Proof.
  intros Hg H1 H2 H3 H4. cbv zeta.
  unfold BackpropImage_channel, bind.
  repeat (first [ rewrite read_in_range by exact Hg
                | rewrite add_grads_image_run by assumption ];
          cbn [grads grads_image set_grads_image tadd_elem_at tupdate dims]).
  reflexivity.
Qed.

(** The 2D forward kernel stores the bilinear interpolation of the
    specification in every cell of a valid box that is mapped into the
    image. *)
Lemma CropAndResize_bilinear
    (s : Store F T) (e : F) (B H W C N CH CW b y x d : Z) :
  shapes2 s B H W C N CH CW ->
  boxes_indexable2 axis_scale (boxes s) (box_index s) B H W N CH CW ->
  0 <= b < N -> 0 <= y < CH -> 0 <= x < CW -> 0 <= d < C ->
  0 <= elt (box_index s) [b] < B ->
  out_of_image (in_y_of s H CH b y) H = false ->
  out_of_image (in_x_of s W CW b x) W = false ->
  exists s', CropAndResize e s = Some (tt, s') /\
    elt (crops s') [b; y; x; d]
    = bilinear (image s) (elt (box_index s) [b])
        (in_y_of s H CH b y) (in_x_of s W CW b x) d.
Proof.
  intros Hs Hc Hb Hy Hx Hd Hv Hoy Hox. apply FastBoundsCheck_true in Hv.
  destruct (CropAndResize_correct e Hs Hc) as (s' & Hrun & _ & Hcell).
  exists s'. split; [exact Hrun |].
  rewrite (Hcell b y x d Hb Hy Hx Hd). unfold crop_cell.
  rewrite Hv. cbn [negb].
  fold (in_y_of s H CH b y). fold (in_x_of s W CW b x).
  now rewrite Hoy, Hox.
Qed.

(** ** The forward kernels sample at the mapped coordinates *)





(** A kernel stops at an access out of range from every store that
    holds the inputs of a store from which it stops. *)
Lemma respects_None {A} (R : Store F T -> Store F T -> Prop)
    (m : M F T A) (s1 s2 : Store F T) :
  respects R m -> R s1 s2 -> m s1 = None -> m s2 = None.
Proof.
  intros Hm HR E. specialize (Hm s1 s2 HR). rewrite E in Hm.
  destruct (m s2) as [[? ?]|]; [contradiction | reflexivity].
Qed.

End Claims.

(* ================================================================== *)
(** * The coordinates and the endpoint gradients of the kernels *)



(** In exact arithmetic the terms that [+=] adds to the two endpoints
    of an axis are those of section 4.4. *)

Lemma endpoint_terms_Q (g : Q) (ext crop i : Z) (a1 a2 : Q) :
  (1 < crop ->
     Qeq (a1 + endpoint1_term g ext crop (axis_ratio ext crop) i)
         (a1 + g * (inject_Z (ext - 1)
                 - inject_Z i * (inject_Z (ext - 1) / inject_Z (crop - 1))))%Q
     /\
     Qeq (a2 + endpoint2_term g ext crop (axis_ratio ext crop) i)
         (a2 + g * (inject_Z i * (inject_Z (ext - 1) / inject_Z (crop - 1))))%Q)
  /\
  (crop = 1 ->
     Qeq (a1 + endpoint1_term g ext crop (axis_ratio ext crop) i)
         (a1 + g * ((1 # 2) * inject_Z (ext - 1)))%Q /\
     Qeq (a2 + endpoint2_term g ext crop (axis_ratio ext crop) i)
         (a2 + g * ((1 # 2) * inject_Z (ext - 1)))%Q).
Proof.
  unfold endpoint1_term, endpoint2_term, axis_ratio. split.
  - intros Hc. replace (1 <? crop) with true by (symmetry; apply Z.ltb_lt; lia).
    cbn [fadd fsub fmul fdiv of_int Q_FloatOps]. split; reflexivity.
  - intros ->. change (1 <? 1) with false. cbv iota.
    cbn [fadd fsub fmul fdiv of_int fhalf Q_FloatOps]. split; ring.
Qed.

Lemma endpoints_add_update (gb : Tensor Q) (b k1 k2 : Z) (g : Q)
    (ext crop i : Z) :
  k1 <> k2 ->
  endpoint_update gb (endpoints_add b k1 k2 g ext crop i gb)
    [b; k1] [b; k2] g ext crop i /\
  (forall b' k, b' <> b ->
     elt (endpoints_add b k1 k2 g ext crop i gb) [b'; k] = elt gb [b'; k]).
Proof.
  intros Hk. unfold endpoints_add, endpoint_update.
  cbn [tadd_at tupdate elt idx_eqb fadd Q_FloatOps].
  rewrite !Z.eqb_refl. cbn [andb].
  replace (k1 =? k2) with false by (symmetry; apply Z.eqb_neq; lia).
  replace (k2 =? k1) with false by (symmetry; apply Z.eqb_neq; lia).
  cbn [andb].
  split; [apply endpoint_terms_Q |].
  intros b' k Hne.
  replace (b' =? b) with false by (symmetry; apply Z.eqb_neq; lia).
  reflexivity.
Qed.

(** C5.  The box-gradient kernels (2D and 3D) leave in [grads_boxes],
    after a run that returns, the fold of section 4.4 from zero: in
    the order of the loops, for every box with a valid index, every
    cell whose coordinate is in the image on every axis and every
    channel, the derivative of the sample along each axis times the
    incoming gradient is turned into the two endpoint terms of the axis
    and each is added ([+=]) to its entry of the row of the box
    ([endpoints_add]: columns 0,2 for y and 1,3 for x in 2D; 0,3 for y,
    1,4 for x and 2,5 for z in 3D).  The kernels return when the shapes
    are consistent and the coordinates of the boxes are indexable.  In
    exact arithmetic the first endpoint gains the derivative times
    [ext-1 - i*ratio] and the second the derivative times [i*ratio],
    with [ratio = (ext-1)/(crop-1)], when [crop > 1], both gain the
    derivative times [0.5*(ext-1)] when [crop = 1], and the rows of the
    other boxes are as before. *)
Theorem box_gradient_endpoints :
  (forall (F T : Type) (FO : FloatOps F) (EO : ElemOps T F),
     (forall s s' : Store F T,
        CropAndResizeBackpropBoxes s = Some (tt, s') ->
        grads_boxes s' = box_gradient2 s) /\
     (forall s s' : Store F T,
        CropAndResizeBackpropBoxes3D s = Some (tt, s') ->
        grads_boxes s' = box_gradient3 s) /\
     (forall (s : Store F T) (B H W C N CH CW : Z),
        shapes_grad_boxes2 B H W C N CH CW s ->
        boxes_indexable2 axis_scale_boxes (boxes s) (box_index s)
          B H W N CH CW ->
        exists s', CropAndResizeBackpropBoxes s = Some (tt, s')) /\
     (forall (s : Store F T) (B H W D C N CH CW CD : Z),
        shapes_grad_boxes3 B H W D C N CH CW CD s ->
        boxes_indexable3 axis_scale_boxes (boxes s) (box_index s)
          B H W D N CH CW CD ->
        exists s', CropAndResizeBackpropBoxes3D s = Some (tt, s'))) /\
  (forall (gb : Tensor Q) (b k1 k2 : Z) (g : Q) (ext crop i : Z),
     k1 <> k2 ->
     endpoint_update gb (endpoints_add b k1 k2 g ext crop i gb)
       [b; k1] [b; k2] g ext crop i /\
     (forall b' k, b' <> b ->
        elt (endpoints_add b k1 k2 g ext crop i gb) [b'; k]
        = elt gb [b'; k])).
Proof.
  split.
  - intros F T FO EO. repeat split.
    + intros s s'. apply CropAndResizeBackpropBoxes_fold.
    + intros s s'. apply CropAndResizeBackpropBoxes3D_fold.
    + intros s B H W C N CH CW Hs Hc.
      now apply CropAndResizeBackpropBoxes_safe with (1 := Hs).
    + intros s B H W D C N CH CW CD Hs Hc.
      now apply CropAndResizeBackpropBoxes3D_safe with (1 := Hs).
  - intros gb b k1 k2 g ext crop i Hk. now apply endpoints_add_update.
Qed.

(** C7, in exact arithmetic, in single precision and on the scenario.
    In exact arithmetic, for a box with coordinates (0, 0, 1, 1) and a
    valid image index, and a crop size equal to the spatial size of the
    image, the 2D forward kernel returns and every cell of the box in
    the output equals the cell of the source image at the same
    position.  For the image [[0,1],[2,3]] of shape [1,2,2,1], box
    [0,0,1,1] and crop size [2,2], the output is [0,1,2,3], in exact
    arithmetic and in single precision.  In single precision, for an
    image of any element type with at most [2 ^ 24] rows and columns
    and a crop size equal to its spatial size: in a run that returns,
    every cell of a box (0, 0, 1, 1) with a valid image index is the
    same number as the [float] of the pixel at the same position,
    whenever that [float] is finite; and the kernel returns when every
    box with a valid image index is (0, 0, 1, 1). *)
Theorem identity_resampling :
  (forall (s : Store Q Q) (e : Q) (B H W C N b : Z),
     shapes2 s B H W C N H W ->
     0 <= b < N ->
     0 <= elt (box_index s) [b] < B ->
     Qeq (elt (boxes s) [b; 0]) 0%Q -> Qeq (elt (boxes s) [b; 1]) 0%Q ->
     Qeq (elt (boxes s) [b; 2]) 1%Q -> Qeq (elt (boxes s) [b; 3]) 1%Q ->
     exists s', CropAndResize e s = Some (tt, s') /\
       forall y x d, 0 <= y < H -> 0 <= x < W -> 0 <= d < C ->
         Qeq (elt (crops s') [b; y; x; d])
             (elt (image s) [elt (box_index s) [b]; y; x; d]))
  /\
  (exists s', CropAndResize 0%Q identity_store = Some (tt, s') /\
     map Qred (tensor_values (crops s')) = [0; 1; 2; 3]%Q)
  /\
  (exists s', CropAndResize (f32 0) identity_store32 = Some (tt, s') /\
     tensor_values (crops s') = map f32 [0; 1; 2; 3])
  /\
  (forall (T : Type) (EO : ElemOps T spec_float) (s : Store spec_float T)
          (e : spec_float) (B H W C N : Z),
     shapes2 s B H W C N H W -> H <= 2 ^ 24 -> W <= 2 ^ 24 ->
     (forall s', CropAndResize e s = Some (tt, s') ->
        forall b y x d,
          0 <= b < N -> 0 <= elt (box_index s) [b] < B ->
          full_box (boxes s) b ->
          0 <= y < H -> 0 <= x < W -> 0 <= d < C ->
          Binary32.value
            (to_float (elt (image s) [elt (box_index s) [b]; y; x; d]))
          <> None ->
          Binary32.value (elt (crops s') [b; y; x; d])
          = Binary32.value
              (to_float (elt (image s) [elt (box_index s) [b]; y; x; d])))
     /\
     ((forall b, 0 <= b < N -> 0 <= elt (box_index s) [b] < B ->
         full_box (boxes s) b) ->
      exists s', CropAndResize e s = Some (tt, s'))).
Proof.
  split; [| split; [| split]]; cycle 3.
  - intros T EO s e B H W C N Hs HH HW. split.
    + intros s' Hrun b y x d Hb Hv Hfull Hy Hx Hd Hp.
      destruct (CropAndResize_cells e Hs Hrun) as [_ Hcell].
      rewrite (Hcell b y x d Hb Hy Hx Hd).
      apply identity_cell32; try assumption.
      now apply FastBoundsCheck_true.
    + intros Hfull.
      destruct (CropAndResize_correct e Hs
                  (full_boxes_indexable (box_index s) HH HW Hfull))
        as (s' & Hrun & _).
      now exists s'.
  - intros s e B H W C N b Hs Hb Hv Hy1 Hx1 Hy2 Hx2.
    destruct (CropAndResize_correct e Hs (@Q_boxes_indexable2 _ _ _ _ _ _ _ _ _))
      as (s' & Hrun & _ & Hcell).
    exists s'. split; [exact Hrun |]. intros y x d Hy Hx Hd.
    rewrite (Hcell b y x d Hb Hy Hx Hd).
    apply identity_cell; try assumption. now apply FastBoundsCheck_true.
  - eexists. split; [vm_compute; reflexivity | vm_compute; reflexivity].
  - eexists. split; [vm_compute; reflexivity | vm_compute; reflexivity].
Qed.

(** C1 (the 3D kernel departs from it).  At a valid box and a cell
    in bounds on every axis the 3D forward kernel does not store the
    trilinear interpolation of the specification.  On [back_index_store]
    the mapped coordinate is (0, 0, 1/2): the kernel stores 10, the
    value of the front voxel, because line 517 takes the back index from
    [in_x], where interpolation between the voxels 10 and 20 gives 15.
    On [bottom_back_store] the mapped coordinate is (1/2, 1/2, 1/2): the
    kernel stores 0, because line 533 subtracts [bottom_left_front] in
    the blend of the back plane, where interpolation gives 1. *)
Theorem CropAndResize3D_not_trilinear :
  (shapes3 back_index_store 1 1 1 2 1 1 1 1 1 /\
   box_indices_valid back_index_store 1 1 /\
   out_of_image (in_y3_of back_index_store 1 1 0 0) 1 = false /\
   out_of_image (in_x3_of back_index_store 1 1 0 0) 1 = false /\
   out_of_image (in_z3_of back_index_store 2 1 0 0) 2 = false /\
   exists s', CropAndResize3D 0%Q back_index_store = Some (tt, s') /\
     Qeq (elt (crops s') [0; 0; 0; 0; 0]) 10%Q /\
     Qeq (trilinear (image back_index_store) 0
            (in_y3_of back_index_store 1 1 0 0)
            (in_x3_of back_index_store 1 1 0 0)
            (in_z3_of back_index_store 2 1 0 0) 0) 15%Q) /\
  (shapes3 bottom_back_store 1 2 2 2 1 1 1 1 1 /\
   box_indices_valid bottom_back_store 1 1 /\
   out_of_image (in_y3_of bottom_back_store 2 1 0 0) 2 = false /\
   out_of_image (in_x3_of bottom_back_store 2 1 0 0) 2 = false /\
   out_of_image (in_z3_of bottom_back_store 2 1 0 0) 2 = false /\
   exists s', CropAndResize3D 0%Q bottom_back_store = Some (tt, s') /\
     Qeq (elt (crops s') [0; 0; 0; 0; 0]) 0%Q /\
     Qeq (trilinear (image bottom_back_store) 0
            (in_y3_of bottom_back_store 2 1 0 0)
            (in_x3_of bottom_back_store 2 1 0 0)
            (in_z3_of bottom_back_store 2 1 0 0) 0) 1%Q).
Proof.
  split.
  - split; [repeat split; try reflexivity; lia |].
    split; [intros b Hb; assert (b = 0) as -> by lia;
           vm_compute; split; [discriminate | reflexivity] |].
    repeat (split; [reflexivity |]).
    eexists. split; [vm_compute; reflexivity |].
    split; vm_compute; reflexivity.
  - split; [repeat split; try reflexivity; lia |].
    split; [intros b Hb; assert (b = 0) as -> by lia;
           vm_compute; split; [discriminate | reflexivity] |].
    repeat (split; [reflexivity |]).
    eexists. split; [vm_compute; reflexivity |].
    split; vm_compute; reflexivity.
Qed.

(** C3 (the 3D kernel departs from it).  On [back_index_store] the
    cell is mapped to z = 1/2, between the corners z = 0 and z = 1, and
    the incoming gradient is 1: the 3D image-gradient kernel returns
    with the whole gradient added at z = 0 and nothing at z = 1, because
    lines 902-903 take both z indices from [in_x]; the corner weights of
    the specification are 1/2 and 1/2. *)
Theorem BackpropImage3D_misses_corner :
  0 <= elt (box_index back_index_store) [0] < 1 /\
  out_of_image (in_y3_of back_index_store 1 1 0 0) 1 = false /\
  out_of_image (in_x3_of back_index_store 1 1 0 0) 1 = false /\
  out_of_image (in_z3_of back_index_store 2 1 0 0) 2 = false /\
  floorf (in_z3_of back_index_store 2 1 0 0) = 0 /\
  ceilf (in_z3_of back_index_store 2 1 0 0) = 1 /\
  exists s', CropAndResizeBackpropImage3D back_index_store = Some (tt, s') /\
    map Qred (tensor_values (grads_image s')) = [1; 0]%Q.
Proof.
  split; [vm_compute; split; [discriminate | reflexivity] |].
  repeat (split; [reflexivity |]).
  eexists. split; vm_compute; reflexivity.
Qed.

(** C10 (the 3D forward and image-gradient kernels depart from it).
    On [wide_store], whose shapes are consistent and whose only cell is
    mapped in bounds on every axis, the z index the kernels take from
    [in_x] (lines 517 and 902-903) is 2 while the image depth is 1: the
    read [image(0, 0, 2, 2, 0)] of the forward kernel and the update of
    [grads_image] of the image-gradient kernel are out of range, and
    both kernels stop there. *)
Theorem CropAndResize3D_out_of_bounds :
  shapes3 wide_store 1 1 3 1 1 1 1 1 1 /\
  dims (grads wide_store) = [1; 1; 1; 1; 1] /\
  dims (grads_image wide_store) = [1; 1; 3; 1; 1] /\
  box_indices_valid wide_store 1 1 /\
  out_of_image (in_y3_of wide_store 1 1 0 0) 1 = false /\
  out_of_image (in_x3_of wide_store 3 1 0 0) 3 = false /\
  out_of_image (in_z3_of wide_store 1 1 0 0) 1 = false /\
  ceilf (in_x3_of wide_store 3 1 0 0) = 2 /\
  in_range (dims (image wide_store)) [0; 0; 2; 2; 0] = false /\
  CropAndResize3D 0%Q wide_store = None /\
  CropAndResizeBackpropImage3D wide_store = None.
Proof.
  split; [repeat split; try reflexivity; lia |].
  do 2 (split; [reflexivity |]).
  split; [intros b Hb; assert (b = 0) as -> by lia;
           vm_compute; split; [discriminate | reflexivity] |].
  repeat split; vm_compute; reflexivity.
Qed.

(** C9 (the 3D forward kernel departs from it).  On [wide_store] the
    shapes are consistent and the box index is valid, and the 3D
    forward kernel reads [image(0, 0, 2, 2, 0)], because line 517 takes
    the back z index from [in_x]: the row-major position of that index
    tuple is 4, past the 3 elements of the image, so that what the
    kernel reads there is none of its inputs.  The run stops at that
    read from every store that holds these inputs, whatever the other
    tensors hold and whatever the extrapolation value is. *)
Theorem CropAndResize3D_reads_past_image :
  shapes3 wide_store 1 1 3 1 1 1 1 1 1 /\
  box_indices_valid wide_store 1 1 /\
  NumElements (image wide_store) = 3 /\
  ceilf (in_x3_of wide_store 3 1 0 0) = 2 /\
  flat_index (dims (image wide_store)) [0; 0; 2; 2; 0] 0 = 4 /\
  (forall (e : Q) (s : Store Q Q),
     agree_forward wide_store s -> CropAndResize3D e s = None).
Proof.
  split; [repeat split; try reflexivity; lia |].
  split; [intros b Hb; assert (b = 0) as -> by lia;
           vm_compute; split; [discriminate | reflexivity] |].
  do 3 (split; [reflexivity |]).
  intros e s Ha.
  assert (E : CropAndResize3D e wide_store = None).
  { unfold CropAndResize3D, bind, get_dim, dimension.
    cbn [wide_store image boxes box_index crops tensor_of_list dims nth].
    vm_compute. reflexivity. }
  eapply respects_None;
    [apply (CropAndResize3D_respects e) | exact Ha | exact E].
Qed.

(* ================================================================== *)
(** * Properties of the kernels in single precision *)

(** C4 (the kernels depart from it when the coordinate is a NaN).  On
    [nan_row_store] the shapes are consistent, the box index is valid
    and the box is (0, 0, +inf, 1): the coordinate of row 1 is [+inf],
    which the test of line 361 finds out of the image, but the
    coordinate of row 0 is [0 * 1 + 0 * inf], a NaN, which is not in
    [0, 1] and which neither [in_y < 0] nor [in_y > image_height - 1]
    finds out of the image.  The forward kernel does not store the
    extrapolation value in the cells of row 0 and the backward kernels
    do not skip them: all three go on to index the image or the image
    gradient with [floorf(in_y)] converted to [int], which is out of
    range, and stop there.  The same happens on [overflow_row_store],
    whose box (-FLT_MAX, 0, FLT_MAX, 1) is finite: [y2 - y1] overflows
    to [+inf]. *)
Theorem nan_coordinate_not_out_of_image :
  (shapes2 nan_row_store 1 2 2 1 1 2 2 /\
   shapes_grad_image2 1 2 2 1 1 2 2 nan_row_store /\
   shapes_grad_boxes2 1 2 2 1 1 2 2 nan_row_store /\
   box_indices_valid nan_row_store 1 1 /\
   in_y_of nan_row_store 2 2 0 1 = S754_infinity false /\
   out_of_image (in_y_of nan_row_store 2 2 0 1) 2 = true /\
   in_y_of nan_row_store 2 2 0 0 = S754_nan /\
   out_of_image (in_y_of nan_row_store 2 2 0 0) 2 = false /\
   floorf (in_y_of nan_row_store 2 2 0 0) = - 2147483648 /\
   in_range (dims (image nan_row_store)) [0; - 2147483648; 0; 0] = false /\
   CropAndResize (f32 0) nan_row_store = None /\
   CropAndResizeBackpropImage nan_row_store = None /\
   CropAndResizeBackpropBoxes nan_row_store = None) /\
  (shapes2 overflow_row_store 1 2 2 1 1 2 2 /\
   shapes_grad_image2 1 2 2 1 1 2 2 overflow_row_store /\
   shapes_grad_boxes2 1 2 2 1 1 2 2 overflow_row_store /\
   box_indices_valid overflow_row_store 1 1 /\
   elt (boxes overflow_row_store) [0; 0] = SFopp Binary32.FLT_MAX /\
   elt (boxes overflow_row_store) [0; 2] = Binary32.FLT_MAX /\
   in_y_of overflow_row_store 2 2 0 0 = S754_nan /\
   out_of_image (in_y_of overflow_row_store 2 2 0 0) 2 = false /\
   CropAndResize (f32 0) overflow_row_store = None /\
   CropAndResizeBackpropImage overflow_row_store = None /\
   CropAndResizeBackpropBoxes overflow_row_store = None).
Proof.
  split.
  - split; [repeat split; try reflexivity; lia |].
    do 2 (split; [repeat split; reflexivity |]).
    split; [intros b Hb; assert (b = 0) as -> by lia;
             vm_compute; split; [discriminate | reflexivity] |].
    repeat split; vm_compute; reflexivity.
  - split; [repeat split; try reflexivity; lia |].
    do 2 (split; [repeat split; reflexivity |]).
    split; [intros b Hb; assert (b = 0) as -> by lia;
             vm_compute; split; [discriminate | reflexivity] |].
    repeat split; vm_compute; reflexivity.
Qed.

(** C7 as the claim words it fails: on [rounded_pixel_store], an
    [int32] image whose pixel (1, 1) is 16777217 = 2^24 + 1, with the
    box (0, 0, 1, 1), a valid index and the crop size of the image, the
    2D forward kernel returns and the cell (1, 1) of the output is
    16777216: line 387 converts the pixel to [float], and no [float] is
    16777217. *)
Lemma identity_resampling_rounds_pixel :
  shapes2 rounded_pixel_store 1 2 2 1 1 2 2 /\
  0 <= elt (box_index rounded_pixel_store) [0] < 1 /\
  map (fun k => elt (boxes rounded_pixel_store) [0; k]) [0; 1; 2; 3]
  = map f32 [0; 0; 1; 1] /\
  elt (image rounded_pixel_store) [0; 1; 1; 0] = 16777217 /\
  exists s', CropAndResize (f32 0) rounded_pixel_store = Some (tt, s') /\
    Binary32.value (elt (crops s') [0; 1; 1; 0])
    = Some (inject_Z 16777216) /\
    Binary32.value (elt (crops s') [0; 1; 1; 0])
    <> Some (inject_Z (elt (image rounded_pixel_store) [0; 1; 1; 0])).
Proof.
  split; [repeat split; try reflexivity; lia |].
  split; [vm_compute; split; [discriminate | reflexivity] |].
  do 2 (split; [reflexivity |]).
  eexists. split; [vm_compute; reflexivity |].
  split; [vm_compute; reflexivity |].
  vm_compute. discriminate.
Qed.


(* ================================================================== *)
(** * The theorems at concrete stores *)


Lemma store2_shapes indices fill :
  shapes2 (store2 indices fill) 1 2 2 1 3 2 2.
Proof. repeat split; try reflexivity; lia. Qed.

Lemma store3_shapes indices fill :
  shapes3 (store3 indices fill) 1 2 2 2 1 3 2 2 2.
Proof. repeat split; try reflexivity; lia. Qed.


Lemma identity_resampling_witness :
  (exists s', CropAndResize 0%Q identity_store = Some (tt, s') /\
     forall y x d, 0 <= y < 2 -> 0 <= x < 2 -> 0 <= d < 1 ->
       Qeq (elt (crops s') [0; y; x; d])
           (elt (image identity_store)
              [elt (box_index identity_store) [0]; y; x; d])) /\
  (exists s', CropAndResize (f32 0) rounded_pixel_store = Some (tt, s') /\
     Binary32.value (elt (crops s') [0; 1; 1; 0])
     = Binary32.value (Binary32.of_Z 16777217)).
Proof.
  split.
  - apply (proj1 identity_resampling identity_store 0%Q 1 2 2 1 1 0).
    + repeat split; try reflexivity; lia.
    + lia.
    + vm_compute. split; [discriminate | reflexivity].
    + reflexivity.
    + reflexivity.
    + reflexivity.
    + reflexivity.
  - assert (Hs : shapes2 rounded_pixel_store 1 2 2 1 1 2 2)
      by (repeat split; try reflexivity; lia).
    assert (Hfull : forall b, 0 <= b < 1 ->
              0 <= elt (box_index rounded_pixel_store) [b] < 1 ->
              full_box (boxes rounded_pixel_store) b).
    { intros b Hb _. assert (b = 0) as -> by lia.
      repeat split; reflexivity. }
    destruct (proj2 (proj2 (proj2 identity_resampling))
                Z Int32_ElemOps rounded_pixel_store (f32 0) 1 2 2 1 1 Hs
                ltac:(lia) ltac:(lia)) as [Hcell Hrun].
    destruct (Hrun Hfull) as [s' Hs'].
    exists s'. split; [exact Hs' |].
    apply (Hcell s' Hs' 0 1 1 0); try lia.
    + vm_compute. split; [discriminate | reflexivity].
    + apply Hfull; [lia |]. vm_compute. split; [discriminate | reflexivity].
    + vm_compute. discriminate.
Defined.

Lemma box_gradient_endpoints_witness :
  exists s', CropAndResizeBackpropBoxes ratio_store = Some (tt, s') /\
    grads_boxes s' = box_gradient2 ratio_store.
Proof.
  destruct (CropAndResizeBackpropBoxes ratio_store) as [[[] s']|] eqn:E.
  - exists s'. split; [reflexivity |].
    exact (proj1 (proj1 box_gradient_endpoints _ _ _ _) ratio_store s' E).
  - vm_compute in E. discriminate.
Defined.

Lemma invalid_box_index_skipped_witness :
  CropAndResize_box 1 2 2 2 2 1 0%Q 2 (store2 [0; 0; 5] 9%Q)
  = Some (tt, store2 [0; 0; 5] 9%Q) /\
  BackpropImage_box 1 2 2 2 2 1 2 (store2 [0; 0; 5] 9%Q)
  = Some (tt, store2 [0; 0; 5] 9%Q) /\
  BackpropBoxes_box 1 2 2 2 2 1 2 (store2 [0; 0; 5] 9%Q)
  = Some (tt, store2 [0; 0; 5] 9%Q).
Proof.
  apply (proj1 (@invalid_box_index_skipped Q Q _ _)
           (store2 [0; 0; 5] 9%Q) 0%Q 1 2 2 2 2 1 3 2).
  - reflexivity.
  - reflexivity.
  - lia.
  - vm_compute. intros [_ Hc]. discriminate.
Defined.

Lemma image_never_modified_witness :
  match CropAndResize 0%Q (store2 [0; 0; 5] 9%Q) with
  | Some (_, s') => image s' = image (store2 [0; 0; 5] 9%Q)
  | None => False
  end.
Proof.
  destruct (CropAndResize 0%Q (store2 [0; 0; 5] 9%Q)) as [[[] s']|] eqn:E.
  - exact (proj1 (image_never_modified 0%Q (store2 [0; 0; 5] 9%Q) s') E).
  - vm_compute in E. discriminate.
Defined.

Local Open Scope string_scope.

(* ================================================================== *)
(** * Further rules of the program logic *)

Section MoreLogic.

Context {F T : Type} {FO : FloatOps F} {EO : ElemOps T F}.

Lemma wp_for_loop_inv fail (I : Store F T -> Prop) body n : forall i s,
  I s ->
  (forall j s', i <= j < i + Z.of_nat n -> I s' ->
     wp fail (body j) (fun _ => I) s') ->
  wp fail (for_loop n i body) (fun _ => I) s.
Proof.
  induction n as [|n IH]; intros i s Hs Hbody.
  - apply wp_ret. exact Hs.
  - simpl for_loop. apply wp_bind.
    eapply wp_conseq. { apply Hbody; [lia | exact Hs]. }
    intros u s' Hs'. cbv beta in Hs' |- *.
    apply IH; [exact Hs' |]. intros j s'' Hj. apply Hbody. lia.
Qed.

(** The rule for a loop whose invariant does not depend on the
    counter. *)
Lemma wp_for_inv fail (I : Store F T -> Prop) lo hi body s :
  I s ->
  (forall j s', lo <= j < hi -> I s' -> wp fail (body j) (fun _ => I) s') ->
  wp fail (for_range lo hi body) (fun _ => I) s.
Proof.
  intros Hs Hbody. unfold for_range. apply wp_for_loop_inv; [exact Hs |].
  intros j s' Hj. apply Hbody. lia.
Qed.

Lemma wp_add_grads_image fail ix v (Q : unit -> Store F T -> Prop) s :
  (in_range (dims (grads_image s)) ix = false -> fail) ->
  (in_range (dims (grads_image s)) ix = true ->
   Q tt (set_grads_image s (tadd_elem_at (grads_image s) ix v))) ->
  wp fail (add_grads_image ix v) Q s.
Proof. unfold wp, add_grads_image. destruct (in_range _ _); auto. Qed.

Lemma wp_add_grads_boxes fail ix v (Q : unit -> Store F T -> Prop) s :
  (in_range (dims (grads_boxes s)) ix = false -> fail) ->
  (in_range (dims (grads_boxes s)) ix = true ->
   Q tt (set_grads_boxes s (tadd_at (grads_boxes s) ix v))) ->
  wp fail (add_grads_boxes ix v) Q s.
Proof. unfold wp, add_grads_boxes. destruct (in_range _ _); auto. Qed.

Lemma wp_setZero_grads_image fail (Q : unit -> Store F T -> Prop) s :
  Q tt (set_grads_image s (tfill (grads_image s) tzero)) ->
  wp fail setZero_grads_image Q s.
Proof. intros HQ; exact HQ. Qed.

Lemma wp_setZero_grads_boxes fail (Q : unit -> Store F T -> Prop) s :
  Q tt (set_grads_boxes s (tfill (grads_boxes s) (of_int 0))) ->
  wp fail setZero_grads_boxes Q s.
Proof. intros HQ; exact HQ. Qed.

(** What [wp True] says of a run that returns. *)
Lemma wp_run {A} (m : M F T A) Q s a s' :
  wp True m Q s -> m s = Some (a, s') -> Q a s'.
Proof. unfold wp. intros H E. now rewrite E in H. Qed.

End MoreLogic.

(* One step through a kernel body under [wp True]; a loop is entered
   with the postcondition as its invariant. *)
Ltac pwp_step :=
  cbv beta;
  lazymatch goal with
  | |- wp _ (bind _ _) _ _ => apply wp_bind
  | |- wp _ (ret _) _ _ => apply wp_ret
  | |- wp _ (get_dim _ _) _ _ => apply wp_get_dim
  | |- wp True (read _ _) _ _ => apply wp_read_partial
  | |- wp True (write_crops _ _) _ _ =>
      apply wp_write_crops; [auto | intros ?]
  | |- wp True (add_grads_image _ _) _ _ =>
      apply wp_add_grads_image; [auto | intros ?]
  | |- wp True (add_grads_boxes _ _) _ _ =>
      apply wp_add_grads_boxes; [auto | intros ?]
  | |- wp _ setZero_grads_image _ _ => apply wp_setZero_grads_image
  | |- wp _ setZero_grads_boxes _ _ => apply wp_setZero_grads_boxes
  | |- wp _ (for_range _ _ _) _ _ =>
      apply wp_for_inv; [| intros ? ? ? ?]
  | |- wp _ (if ?c then _ else _) _ _ => destruct c eqn:?
  | |- wp _ (let x := _ in _) _ _ => cbv zeta
  end.

(* The same for properties in which the values added do not matter:
   they are abstracted, which keeps the goals small. *)
Ltac pwp_abs_step :=
  cbv beta;
  lazymatch goal with
  | |- wp True (bind (add_grads_image _ ?v) _) _ _ =>
      generalize v; intros ?; apply wp_bind;
      apply wp_add_grads_image; [auto | intros _]
  | |- wp True (bind (add_grads_boxes _ ?v) _) _ _ =>
      generalize v; intros ?; apply wp_bind;
      apply wp_add_grads_boxes; [auto | intros _]
  | |- wp True (add_grads_image _ ?v) _ _ =>
      generalize v; intros ?;
      apply wp_add_grads_image; [auto | intros _]
  | |- wp True (add_grads_boxes _ ?v) _ _ =>
      generalize v; intros ?;
      apply wp_add_grads_boxes; [auto | intros _]
  | |- _ => pwp_step
  end.

Ltac inv_walk := autounfold with kernel_bodies;
                 repeat first [ pwp_abs_step | assumption ].

(* ================================================================== *)
(** * The backward kernels touch nothing but their output *)

Section Frames.

Context {F T : Type} {FO : FloatOps F} {EO : ElemOps T F}.

Lemma grads_image_frame_refl (s : Store F T) : grads_image_frame s s.
Proof. repeat split. Qed.

Lemma grads_boxes_frame_refl (s : Store F T) : grads_boxes_frame s s.
Proof. repeat split. Qed.

Lemma grads_image_frame_set (s0 s : Store F T) t :
  grads_image_frame s0 s -> dims t = dims (grads_image s) ->
  grads_image_frame s0 (set_grads_image s t).
Proof.
  intros (H1 & H2 & H3 & H4 & H5 & H6 & H7) Hd.
  repeat split; cbn [image boxes box_index grads crops grads_boxes
                     grads_image set_grads_image]; congruence.
Qed.

Lemma grads_boxes_frame_set (s0 s : Store F T) t :
  grads_boxes_frame s0 s -> dims t = dims (grads_boxes s) ->
  grads_boxes_frame s0 (set_grads_boxes s t).
Proof.
  intros (H1 & H2 & H3 & H4 & H5 & H6 & H7) Hd.
  repeat split; cbn [image boxes box_index grads crops grads_boxes
                     grads_image set_grads_boxes]; congruence.
Qed.

End Frames.

Ltac frame_leaf :=
  lazymatch goal with
  | |- grads_image_frame _ (set_grads_image _ _) =>
      apply grads_image_frame_set; [| reflexivity]
  | |- grads_boxes_frame _ (set_grads_boxes _ _) =>
      apply grads_boxes_frame_set; [| reflexivity]
  | |- grads_image_frame ?s ?s => apply grads_image_frame_refl
  | |- grads_boxes_frame ?s ?s => apply grads_boxes_frame_refl
  | |- grads_image_frame _ _ => assumption
  | |- grads_boxes_frame _ _ => assumption
  end.

Ltac frame_tac :=
  autounfold with kernel_bodies;
  repeat first [ pwp_abs_step | frame_leaf ].

Section FrameKernels.

Context {F T : Type} {FO : FloatOps F} {EO : ElemOps T F}.

Lemma CropAndResizeBackpropImage_frame (s s' : Store F T) :
  CropAndResizeBackpropImage s = Some (tt, s') -> grads_image_frame s s'.
Proof.
  apply (wp_run CropAndResizeBackpropImage (fun _ => grads_image_frame s)).
  frame_tac.
Qed.

Lemma CropAndResizeBackpropImage3D_frame (s s' : Store F T) :
  CropAndResizeBackpropImage3D s = Some (tt, s') -> grads_image_frame s s'.
Proof.
  apply (wp_run CropAndResizeBackpropImage3D (fun _ => grads_image_frame s)).
  frame_tac.
Qed.

Lemma CropAndResizeBackpropBoxes_frame (s s' : Store F T) :
  CropAndResizeBackpropBoxes s = Some (tt, s') -> grads_boxes_frame s s'.
Proof.
  apply (wp_run CropAndResizeBackpropBoxes (fun _ => grads_boxes_frame s)).
  frame_tac.
Qed.

Lemma CropAndResizeBackpropBoxes3D_frame (s s' : Store F T) :
  CropAndResizeBackpropBoxes3D s = Some (tt, s') -> grads_boxes_frame s s'.
Proof.
  apply (wp_run CropAndResizeBackpropBoxes3D (fun _ => grads_boxes_frame s)).
  frame_tac.
Qed.

End FrameKernels.

(* ================================================================== *)
(** * Shapes that a frame keeps *)

Section ShapesFrame.

Context {F T : Type} {FO : FloatOps F} {EO : ElemOps T F}.

Lemma shapes2_frame (s s' : Store F T) B H W C N CH CW :
  shapes2 s B H W C N CH CW -> crops_frame s s' ->
  shapes2 s' B H W C N CH CW.
Proof.
  intros (H1 & H2 & H3 & H4 & H5) (F1 & F2 & F3 & F4 & F5 & F6 & F7).
  repeat split; try congruence; lia.
Qed.

End ShapesFrame.

(* ================================================================== *)
(** * Memory safety and frames of the kernels *)

Section KernelSafety.

Context {F T : Type} {FO : FloatOps F} {EO : ElemOps T F}.

(** X1.  On tensors of consistent extents whose box coordinates are
    indexable (every mapped coordinate that passes the bounds test of
    lines 361 and 377 has its floor and its ceiling within the extent
    of its axis) the 2D forward kernel returns whatever the box indices
    are: none of its accesses is out of range; and it changes nothing
    but the elements of [crops]. *)
Theorem CropAndResize_memory_safe (s : Store F T) (e : F)
    (B H W C N CH CW : Z) :
  shapes2 s B H W C N CH CW ->
  boxes_indexable2 axis_scale (boxes s) (box_index s) B H W N CH CW ->
  exists s', CropAndResize e s = Some (tt, s') /\ crops_frame s s'.
Proof.
  intros Hs Hc.
  destruct (CropAndResize_correct e Hs Hc) as (s' & Hrun & Hf & _).
  exists s'. split; assumption.
Qed.

(** X2.  On tensors of consistent extents whose box coordinates are
    indexable (every mapped coordinate that passes the bounds test of
    lines 789 and 800 has its floor and its ceiling within the extent
    of its axis) the 2D image-gradient kernel returns whatever the box
    indices are, and it changes nothing but the elements of
    [grads_image]. *)
Theorem CropAndResizeBackpropImage_memory_safe (s : Store F T)
    (B H W C N CH CW : Z) :
  shapes_grad_image2 B H W C N CH CW s ->
  boxes_indexable2 axis_scale (boxes s) (box_index s) B H W N CH CW ->
  exists s', CropAndResizeBackpropImage s = Some (tt, s') /\
    grads_image_frame s s'.
Proof.
  intros Hs Hc.
  destruct (CropAndResizeBackpropImage_safe Hs Hc) as (s' & Hrun).
  exists s'. split; [exact Hrun |].
  now apply CropAndResizeBackpropImage_frame.
Qed.

(** X3.  On tensors of consistent extents whose box coordinates, mapped
    with the scale of the box-gradient kernel, are indexable (every
    mapped coordinate that passes the bounds test of lines 1153 and 1164
    has its floor and its ceiling within the extent of its axis) the 2D
    box-gradient kernel returns whatever the box indices are, and it
    changes nothing but the elements of [grads_boxes]. *)
Theorem CropAndResizeBackpropBoxes_memory_safe (s : Store F T)
    (B H W C N CH CW : Z) :
  shapes_grad_boxes2 B H W C N CH CW s ->
  boxes_indexable2 axis_scale_boxes (boxes s) (box_index s) B H W N CH CW ->
  exists s', CropAndResizeBackpropBoxes s = Some (tt, s') /\
    grads_boxes_frame s s'.
Proof.
  intros Hs Hc.
  destruct (CropAndResizeBackpropBoxes_safe Hs Hc) as (s' & Hrun).
  exists s'. split; [exact Hrun |].
  now apply CropAndResizeBackpropBoxes_frame.
Qed.

(** X4.  On tensors of consistent extents whose box coordinates are
    indexable (every mapped coordinate that passes the bounds test of
    lines 1274, 1285 and 1296 has its floor and its ceiling within the
    extent of its axis) the 3D box-gradient kernel, which takes the
    corner indices of every axis from the coordinate of that axis,
    returns whatever the box indices are, and it changes nothing but
    the elements of [grads_boxes]. *)
Theorem CropAndResizeBackpropBoxes3D_memory_safe (s : Store F T)
    (B H W D C N CH CW CD : Z) :
  shapes_grad_boxes3 B H W D C N CH CW CD s ->
  boxes_indexable3 axis_scale_boxes (boxes s) (box_index s)
    B H W D N CH CW CD ->
  exists s', CropAndResizeBackpropBoxes3D s = Some (tt, s') /\
    grads_boxes_frame s s'.
Proof.
  intros Hs Hc.
  destruct (CropAndResizeBackpropBoxes3D_safe Hs Hc) as (s' & Hrun).
  exists s'. split; [exact Hrun |].
  now apply CropAndResizeBackpropBoxes3D_frame.
Qed.

(** X5.  When the image is at least as deep as it is wide and the box
    coordinates are indexable, the z index that line 517 takes from the
    x coordinate is within the depth: the 3D forward kernel returns,
    changes nothing but the elements of [crops], and leaves in every
    cell the value of lines 450-535. *)
Theorem CropAndResize3D_safe_when_deep (s : Store F T) (e : F)
    (B H W D C N CH CW CD : Z) :
  shapes3 s B H W D C N CH CW CD ->
  boxes_indexable3 axis_scale (boxes s) (box_index s) B H W D N CH CW CD ->
  W <= D ->
  exists s', CropAndResize3D e s = Some (tt, s') /\
    crops_frame s s' /\
    forall b y x z d,
      0 <= b < N -> 0 <= y < CH -> 0 <= x < CW -> 0 <= z < CD ->
      0 <= d < C ->
      elt (crops s') [b; y; x; z; d]
      = crop_cell3D s e B H W D CH CW CD b y x z d.
Proof.
  intros Hs Hc HWD.
  destruct (CropAndResize3D_returns e Hs Hc HWD) as (s' & Hrun).
  exists s'. split; [exact Hrun |].
  eapply CropAndResize3D_correct; eassumption.
Qed.

(** X6.  When the image is at least as deep as it is wide and the box
    coordinates are indexable, the 3D image-gradient kernel returns
    (the z indices of lines 902-903 are within the depth) and changes
    nothing but the elements of [grads_image]. *)
Theorem CropAndResizeBackpropImage3D_safe_when_deep (s : Store F T)
    (B H W D C N CH CW CD : Z) :
  shapes_grad_image3 B H W D C N CH CW CD s ->
  boxes_indexable3 axis_scale (boxes s) (box_index s) B H W D N CH CW CD ->
  W <= D ->
  exists s', CropAndResizeBackpropImage3D s = Some (tt, s') /\
    grads_image_frame s s'.
Proof.
  intros HP Hc HWD.
  destruct (CropAndResizeBackpropImage3D_returns HP Hc HWD) as (s' & Hrun).
  exists s'. split; [exact Hrun |].
  now apply CropAndResizeBackpropImage3D_frame.
Qed.

(** X7.  Running the 2D forward kernel a second time, on the store
    that a first run on tensors of consistent extents has left, changes
    nothing: the second run returns, as the first did, with the same
    [crops]. *)
Theorem CropAndResize_idempotent (s s1 : Store F T) (e : F)
    (B H W C N CH CW : Z) :
  shapes2 s B H W C N CH CW ->
  CropAndResize e s = Some (tt, s1) ->
  exists s2,
    CropAndResize e s1 = Some (tt, s2) /\
    same_tensor (crops s1) (crops s2).
Proof.
  intros Hs Hrun1.
  destruct (CropAndResize_cells e Hs Hrun1) as (Hf1 & Hc1).
  pose proof (shapes2_frame Hs Hf1) as Hs1.
  assert (Ha : agree_forward s s1).
  { destruct Hf1 as (I1 & X1 & BI1 & _ & _ & _ & D1).
    repeat split; congruence. }
  pose proof (CropAndResize_respects e Ha) as Hr. rewrite Hrun1 in Hr.
  destruct (CropAndResize e s1) as [[[] s2]|] eqn:Hrun2; [| contradiction].
  exists s2. split; [reflexivity |].
  destruct (CropAndResize_cells e Hs1 Hrun2) as (Hf2 & Hc2).
  destruct Hf1 as (I1 & X1 & BI1 & _ & _ & _ & D1).
  destruct Hf2 as (_ & _ & _ & _ & _ & _ & D2).
  split; [congruence |].
  intros ix Hin. destruct Hs1 as (_ & _ & _ & Hd & _). rewrite Hd in Hin.
  destruct (in_range4_inv _ _ _ _ _ Hin)
    as (b & y & x & d & -> & Hb & Hy & Hx & Hd').
  rewrite (Hc2 b y x d Hb Hy Hx Hd'), (Hc1 b y x d Hb Hy Hx Hd').
  unfold crop_cell at 2. rewrite I1, X1, BI1.
  destruct (negb (FastBoundsCheck (elt (box_index s) [b]) B)) eqn:E.
  - rewrite (Hc1 b y x d Hb Hy Hx Hd'). unfold crop_cell. now rewrite E.
  - unfold crop_cell. now rewrite E.
Qed.

End KernelSafety.

(* ================================================================== *)
(** * The 2D forward kernel in exact arithmetic *)

(** The coordinate of grid index [i] on an axis whose box endpoints map
    to the pixels [a] and [a + k * (crop - 1)] is the pixel
    [a + k * i]. *)
Lemma in_coord_aligned (p1 p2 : Q) (ext crop a k i : Z) :
  (p1 * inject_Z (ext - 1) == inject_Z a)%Q ->
  (p2 * inject_Z (ext - 1) == inject_Z (a + k * (crop - 1)))%Q ->
  0 <= i < crop ->
  (in_coord p1 p2 ext crop (axis_scale p1 p2 ext crop) i
   == inject_Z (a + k * i))%Q.
Proof.
  intros H1 H2 Hi. unfold in_coord, axis_scale.
  cbn [fadd fsub fmul fdiv of_int fhalf Q_FloatOps].
  rewrite !inject_Z_plus, !inject_Z_mult in *.
  destruct (Z.ltb_spec 1 crop) as [Hlt | Hge].
  - assert (Hnz : ~ (inject_Z (crop - 1) == 0)%Q)
      by (apply inject_Z_nonzero; lia).
    setoid_replace ((p2 - p1) * inject_Z (ext - 1))%Q
      with (inject_Z k * inject_Z (crop - 1))%Q
      by (rewrite <- H1 in H2; lra).
    rewrite H1. field. exact Hnz.
  - assert (crop = 1) by lia. assert (i = 0) by lia. subst.
    change (inject_Z (1 - 1)) with 0%Q in H2.
    setoid_replace ((1 # 2) * (p1 + p2) * inject_Z (ext - 1))%Q
      with ((1 # 2) * (p1 * inject_Z (ext - 1) + p2 * inject_Z (ext - 1)))%Q
      by ring.
    rewrite H1, H2. change (inject_Z 0) with 0%Q. ring.
Qed.

Lemma bilinear_at_pixel (img : Tensor Q) (b_in : Z) (in_y in_x : Q)
    (py px d : Z) :
  (in_y == inject_Z py)%Q -> (in_x == inject_Z px)%Q ->
  Qeq (bilinear img b_in in_y in_x d) (elt img [b_in; py; px; d]).
Proof.
  intros Ey Ex. unfold bilinear, lerp.
  cbn [fadd fsub fmul fdiv of_int floorf ceilf to_float Q_FloatOps Q_ElemOps].
  rewrite (Qfloor_comp _ _ Ey), (Qceiling_comp _ _ Ey).
  rewrite (Qfloor_comp _ _ Ex), (Qceiling_comp _ _ Ex).
  rewrite !Qfloor_Z, !Qceiling_Z. rewrite Ey, Ex. ring.
Qed.

Lemma aligned_in_image (ext crop a k i : Z) :
  0 <= a <= ext - 1 -> 0 <= a + k * (crop - 1) <= ext - 1 ->
  0 <= i < crop -> 0 <= a + k * i <= ext - 1.
Proof.
  intros Ha Hb Hi. destruct (Z_le_gt_dec 0 k) as [Hk | Hk].
  - assert (0 <= k * i) by (apply Z.mul_nonneg_nonneg; lia).
    assert (k * i <= k * (crop - 1)) by (apply Z.mul_le_mono_nonneg_l; lia).
    lia.
  - assert (k * i <= 0) by (apply Z.mul_nonpos_nonneg; lia).
    assert (k * (crop - 1) <= k * i)
      by (apply Z.mul_le_mono_nonpos_l; lia).
    lia.
Qed.

(** X8.  A box whose endpoints map to the pixels [a] and
    [a + k * (crop - 1)] on each axis, for integers [a] and [k], is
    sampled without interpolation: cell [(y, x)] of the crop is the
    pixel [(ay + ky * y, ax + kx * x)] of the image.  This covers the
    identity ([a = 0], [k = 1]), the extraction of a pixel-aligned
    window, subsampling with an integer stride and flips ([k = -1]). *)
Theorem CropAndResize_pixel_aligned (s : Store Q Q) (e : Q)
    (B H W C N CH CW b : Z) (ay ky ax kx : Z) :
  shapes2 s B H W C N CH CW ->
  0 <= b < N ->
  0 <= elt (box_index s) [b] < B ->
  Qeq (Qmult (elt (boxes s) [b; 0]) (inject_Z (H - 1))) (inject_Z ay) ->
  Qeq (Qmult (elt (boxes s) [b; 2]) (inject_Z (H - 1)))
      (inject_Z (ay + ky * (CH - 1))) ->
  Qeq (Qmult (elt (boxes s) [b; 1]) (inject_Z (W - 1))) (inject_Z ax) ->
  Qeq (Qmult (elt (boxes s) [b; 3]) (inject_Z (W - 1)))
      (inject_Z (ax + kx * (CW - 1))) ->
  0 <= ay <= H - 1 -> 0 <= ay + ky * (CH - 1) <= H - 1 ->
  0 <= ax <= W - 1 -> 0 <= ax + kx * (CW - 1) <= W - 1 ->
  exists s', CropAndResize e s = Some (tt, s') /\
    forall y x d, 0 <= y < CH -> 0 <= x < CW -> 0 <= d < C ->
      Qeq (elt (crops s') [b; y; x; d])
          (elt (image s)
             [elt (box_index s) [b]; ay + ky * y; ax + kx * x; d]).
Proof.
  intros Hs Hb Hv Hy1 Hy2 Hx1 Hx2 Hay Hay2 Hax Hax2.
  destruct (CropAndResize_correct e Hs
              (@Q_boxes_indexable2 _ _ _ _ _ _ _ _ _))
    as (s' & Hrun & _ & Hcell).
  exists s'. split; [exact Hrun |]. intros y x d Hy Hx Hd.
  rewrite (Hcell b y x d Hb Hy Hx Hd).
  pose proof (@in_coord_aligned _ _ H CH ay ky y Hy1 Hy2 Hy) as Ey.
  pose proof (@in_coord_aligned _ _ W CW ax kx x Hx1 Hx2 Hx) as Ex.
  pose proof (@aligned_in_image H CH ay ky y Hay Hay2 Hy) as Ry.
  pose proof (@aligned_in_image W CW ax kx x Hax Hax2 Hx) as Rx.
  unfold crop_cell.
  apply FastBoundsCheck_true in Hv. rewrite Hv. cbn [negb].
  set (in_y := in_coord _ _ H CH _ y) in *.
  set (in_x := in_coord _ _ W CW _ x) in *.
  rewrite (@out_of_image_Q_false in_y H), (@out_of_image_Q_false in_x W).
  - now apply bilinear_at_pixel.
  - rewrite Ex. change 0%Q with (inject_Z 0). rewrite <- Zle_Qle. lia.
  - rewrite Ex. rewrite <- Zle_Qle. lia.
  - rewrite Ey. change 0%Q with (inject_Z 0). rewrite <- Zle_Qle. lia.
  - rewrite Ey. rewrite <- Zle_Qle. lia.
Qed.

(** ** The output stays within the range of the image *)

Lemma lerp_between (a b t m M : Q) :
  (m <= a <= M)%Q -> (m <= b <= M)%Q -> (0 <= t <= 1)%Q ->
  (m <= lerp a b t <= M)%Q.
Proof.
  intros [Ha1 Ha2] [Hb1 Hb2] [Ht1 Ht2]. unfold lerp.
  cbn [fadd fsub fmul Q_FloatOps]. split; nra.
Qed.

Lemma frac_range (x : Q) : (0 <= x - inject_Z (Qfloor x) <= 1)%Q.
Proof.
  pose proof (Qfloor_le x) as H1. pose proof (Qlt_floor x) as H2.
  rewrite inject_Z_plus in H2. change (inject_Z 1) with 1%Q in H2.
  split; lra.
Qed.

Lemma bilinear_between (img : Tensor Q) (b_in : Z) (in_y in_x : Q) (d : Z)
    (m M : Q) :
  (forall y x, (y = Qfloor in_y \/ y = Qceiling in_y) ->
               (x = Qfloor in_x \/ x = Qceiling in_x) ->
     (m <= elt img (b_in :: y :: x :: d :: nil) <= M)%Q) ->
  (m <= bilinear img b_in in_y in_x d <= M)%Q.
Proof.
  intros Hc. unfold bilinear.
  cbn [fsub of_int floorf ceilf to_float Q_FloatOps Q_ElemOps].
  apply lerp_between; [apply lerp_between | apply lerp_between |];
    try apply frac_range; apply Hc; auto.
Qed.

(** X9.  Interpolation does not overshoot: when the elements of the
    image and the extrapolation value lie in [[m, M]], so does every
    cell that the 2D forward kernel writes for a box with a valid
    index. *)
Theorem CropAndResize_within_range (s : Store Q Q) (e : Q)
    (B H W C N CH CW : Z) (m M : Q) :
  shapes2 s B H W C N CH CW ->
  (forall ix, in_range (dims (image s)) ix = true ->
     (m <= elt (image s) ix <= M)%Q) ->
  (m <= e <= M)%Q ->
  exists s', CropAndResize e s = Some (tt, s') /\
    forall b y x d,
      0 <= b < N -> 0 <= y < CH -> 0 <= x < CW -> 0 <= d < C ->
      0 <= elt (box_index s) [b] < B ->
      (m <= elt (crops s') (b :: y :: x :: d :: nil) <= M)%Q.
Proof.
  intros Hs Himg He.
  destruct (CropAndResize_correct e Hs
              (@Q_boxes_indexable2 _ _ _ _ _ _ _ _ _))
    as (s' & Hrun & _ & Hcell).
  exists s'. split; [exact Hrun |]. intros b y x d Hb Hy Hx Hd Hv.
  rewrite (Hcell b y x d Hb Hy Hx Hd). unfold crop_cell.
  pose proof Hv as Hv'.
  apply FastBoundsCheck_true in Hv'. rewrite Hv'. cbn [negb].
  destruct (out_of_image _ H) eqn:Ey; [exact He |].
  destruct (out_of_image _ W) eqn:Ex; [exact He |].
  apply (indexable_range _ _ (Q_indexable _ _)) in Ey.
  apply (indexable_range _ _ (Q_indexable _ _)) in Ex.
  apply bilinear_between. intros py px Hpy Hpx. apply Himg.
  destruct Hs as (Hd0 & _). rewrite Hd0. apply in_range4.
  cbn [floorf ceilf Q_FloatOps] in Ey, Ex.
  destruct Hpy as [-> | ->], Hpx as [-> | ->]; lia.
Qed.

(* ================================================================== *)
(** * Gradients that stay zero *)

Section Untouched.

Context {F T : Type} {FO : FloatOps F} {EO : ElemOps T F}.

Lemma tadd_elem_at_other (t : Tensor T) b rest i rest' v :
  i <> b ->
  elt (tadd_elem_at t (b :: rest) v) (i :: rest') = elt t (i :: rest').
Proof.
  intros Hne. unfold tadd_elem_at, tupdate. cbn [elt idx_eqb].
  replace (i =? b) with false by (symmetry; apply Z.eqb_neq; exact Hne).
  reflexivity.
Qed.

Lemma tadd_at_other (t : Tensor F) b rest i rest' v :
  i <> b ->
  elt (tadd_at t (b :: rest) v) (i :: rest') = elt t (i :: rest').
Proof.
  intros Hne. unfold tadd_at, tupdate. cbn [elt idx_eqb].
  replace (i =? b) with false by (symmetry; apply Z.eqb_neq; exact Hne).
  reflexivity.
Qed.

End Untouched.

(* The invariant at the end of a branch of a loop body. *)
Ltac untouched_leaf :=
  lazymatch goal with
  | Hi : image_untouched _ _ ?s1 |- image_untouched _ _ ?s2 =>
      let Hbi := fresh in let Hz := fresh in
      destruct Hi as [Hbi Hz];
      split;
      [ cbn [box_index set_grads_image]; assumption
      | intros ?; cbn [grads_image set_grads_image];
        rewrite ?tadd_elem_at_other by congruence; apply Hz ]
  | Hi : row_untouched _ _ _ ?s1 |- row_untouched _ _ _ ?s2 =>
      let Hbx := fresh in let Hbi := fresh in let Hz := fresh in
      destruct Hi as (Hbx & Hbi & Hz);
      split; [| split];
      [ cbn [boxes set_grads_boxes]; assumption
      | cbn [box_index set_grads_boxes]; assumption
      | intros ?; cbn [grads_boxes set_grads_boxes];
        rewrite ?tadd_at_other by congruence; apply Hz ]
  end.

Section UntouchedKernels.

Context {F T : Type} {FO : FloatOps F} {EO : ElemOps T F}.

Lemma BackpropImage_box_untouched (bi : Tensor Z) i B H W CH CW C b s :
  elt bi [b] <> i ->
  image_untouched bi i s ->
  wp True (BackpropImage_box B H W CH CW C b)
    (fun _ => image_untouched (F:=F) (T:=T) bi i) s.
Proof.
  intros Hne HI. destruct HI as [Hbi Hz0]. rewrite <- Hbi in Hne.
  assert (HI : image_untouched bi i s) by (split; assumption).
  clear Hz0. inv_walk. all: untouched_leaf.
Qed.

Lemma BackpropImage3D_box_untouched (bi : Tensor Z) i
    B H W D CH CW CD C b s :
  elt bi [b] <> i ->
  image_untouched bi i s ->
  wp True (BackpropImage3D_box B H W D CH CW CD C b)
    (fun _ => image_untouched (F:=F) (T:=T) bi i) s.
Proof.
  intros Hne HI. destruct HI as [Hbi Hz0]. rewrite <- Hbi in Hne.
  assert (HI : image_untouched bi i s) by (split; assumption).
  clear Hz0. inv_walk. all: untouched_leaf.
Qed.

Lemma BackpropBoxes_box_other (bx : Tensor F) (bi : Tensor Z) b0
    B H W CH CW C b s :
  b0 <> b ->
  row_untouched bx bi b0 s ->
  wp True (BackpropBoxes_box B H W CH CW C b)
    (fun _ => row_untouched (T:=T) bx bi b0) s.
Proof. intros Hne HI. inv_walk. all: untouched_leaf. Qed.

Lemma BackpropBoxes3D_box_other (bx : Tensor F) (bi : Tensor Z) b0
    B H W D CH CW CD C b s :
  b0 <> b ->
  row_untouched bx bi b0 s ->
  wp True (BackpropBoxes3D_box B H W D CH CW CD C b)
    (fun _ => row_untouched (T:=T) bx bi b0) s.
Proof. intros Hne HI. inv_walk. all: untouched_leaf. Qed.

(* A box without a used cell: every iteration ends before the channel
   loop. *)
Lemma BackpropBoxes_box_unused (bx : Tensor F) (bi : Tensor Z)
    B H W CH CW C b s :
  (forall y x, 0 <= y < CH -> 0 <= x < CW ->
     ~ cell_used2 axis_scale_boxes bx bi B H W CH CW b y x) ->
  row_untouched bx bi b s ->
  wp True (BackpropBoxes_box B H W CH CW C b)
    (fun _ => row_untouched (T:=T) bx bi b) s.
Proof.
  intros Hun HI. pose proof HI as (Hbx & Hbi & _).
  autounfold with kernel_bodies.
  do 5 (apply wp_bind; apply wp_read_partial). cbv beta zeta.
  rewrite Hbx, Hbi.
  destruct (negb (FastBoundsCheck (elt bi [b]) B)) eqn:Ev;
    [apply wp_ret; exact HI |].
  apply negb_false_iff, FastBoundsCheck_true in Ev.
  apply wp_for_inv; [exact HI |]. intros y s1 Hy HI1.
  destruct (out_of_image _ H) eqn:Ey; [apply wp_ret; exact HI1 |].
  apply wp_for_inv; [exact HI1 |]. intros x s2 Hx HI2.
  destruct (out_of_image _ W) eqn:Ex; [apply wp_ret; exact HI2 |].
  exfalso. apply (Hun y x Hy Hx).
  split; [exact Ev | split; [exact Ey | exact Ex]].
Qed.

Lemma BackpropBoxes3D_box_unused (bx : Tensor F) (bi : Tensor Z)
    B H W D CH CW CD C b s :
  (forall y x z, 0 <= y < CH -> 0 <= x < CW -> 0 <= z < CD ->
     ~ cell_used3 axis_scale_boxes bx bi B H W D CH CW CD b y x z) ->
  row_untouched bx bi b s ->
  wp True (BackpropBoxes3D_box B H W D CH CW CD C b)
    (fun _ => row_untouched (T:=T) bx bi b) s.
Proof.
  intros Hun HI. pose proof HI as (Hbx & Hbi & _).
  autounfold with kernel_bodies.
  do 7 (apply wp_bind; apply wp_read_partial). cbv beta zeta.
  rewrite Hbx, Hbi.
  destruct (negb (FastBoundsCheck (elt bi [b]) B)) eqn:Ev;
    [apply wp_ret; exact HI |].
  apply negb_false_iff, FastBoundsCheck_true in Ev.
  apply wp_for_inv; [exact HI |]. intros y s1 Hy HI1.
  destruct (out_of_image _ H) eqn:Ey; [apply wp_ret; exact HI1 |].
  apply wp_for_inv; [exact HI1 |]. intros x s2 Hx HI2.
  destruct (out_of_image _ W) eqn:Ex; [apply wp_ret; exact HI2 |].
  apply wp_for_inv; [exact HI2 |]. intros z s3 Hz HI3.
  destruct (out_of_image _ D) eqn:Ez; [apply wp_ret; exact HI3 |].
  exfalso. apply (Hun y x z Hy Hx Hz).
  split; [exact Ev | split; [exact Ey | split; [exact Ex | exact Ez]]].
Qed.

End UntouchedKernels.

Section LocalityTheorems.

Context {F T : Type} {FO : FloatOps F} {EO : ElemOps T F}.

Lemma CropAndResizeBackpropImage_untouched (s s' : Store F T) (N i : Z) :
  dimension (grads s) 0 = N ->
  (forall b, 0 <= b < N -> elt (box_index s) [b] <> i) ->
  CropAndResizeBackpropImage s = Some (tt, s') ->
  image_untouched (box_index s) i s'.
Proof.
  intros HN Hne.
  apply (wp_run CropAndResizeBackpropImage
           (fun _ => image_untouched (box_index s) i)).
  unfold CropAndResizeBackpropImage. do 8 pwp_step. cbv beta.
  apply wp_for_inv.
  - split; [reflexivity | intros rest; reflexivity].
  - intros b s1 Hb HI. apply BackpropImage_box_untouched; [| exact HI].
    apply Hne. rewrite <- HN. exact Hb.
Qed.

Lemma CropAndResizeBackpropImage3D_untouched (s s' : Store F T) (N i : Z) :
  dimension (grads s) 0 = N ->
  (forall b, 0 <= b < N -> elt (box_index s) [b] <> i) ->
  CropAndResizeBackpropImage3D s = Some (tt, s') ->
  image_untouched (box_index s) i s'.
Proof.
  intros HN Hne.
  apply (wp_run CropAndResizeBackpropImage3D
           (fun _ => image_untouched (box_index s) i)).
  unfold CropAndResizeBackpropImage3D. do 10 pwp_step. cbv beta.
  apply wp_for_inv.
  - split; [reflexivity | intros rest; reflexivity].
  - intros b s1 Hb HI. apply BackpropImage3D_box_untouched; [| exact HI].
    apply Hne. rewrite <- HN. exact Hb.
Qed.

Lemma CropAndResizeBackpropBoxes_row_untouched (s s' : Store F T)
    (B H W C N CH CW b : Z) :
  shapes_grad_boxes2 B H W C N CH CW s ->
  0 <= b < N ->
  (forall y x, 0 <= y < CH -> 0 <= x < CW ->
     ~ cell_used2 axis_scale_boxes (boxes s) (box_index s)
         B H W CH CW b y x) ->
  CropAndResizeBackpropBoxes s = Some (tt, s') ->
  row_untouched (boxes s) (box_index s) b s'.
Proof.
  intros Hs Hb Hun Hrun.
  destruct Hs as (Hd & _ & _ & Hi & _).
  unfold CropAndResizeBackpropBoxes, bind, get_dim, setZero_grads_boxes,
    dimension in Hrun.
  rewrite Hd, Hi in Hrun. cbn [nth] in Hrun. revert Hrun.
  apply (wp_run (for_range 0 N (BackpropBoxes_box B H W CH CW C))
           (fun _ => row_untouched (boxes s) (box_index s) b)).
  apply wp_for_inv; [repeat split |].
  intros j s1 Hj HI. destruct (Z.eq_dec b j) as [<- | Hne].
  - now apply BackpropBoxes_box_unused.
  - now apply BackpropBoxes_box_other.
Qed.

Lemma CropAndResizeBackpropBoxes3D_row_untouched (s s' : Store F T)
    (B H W D C N CH CW CD b : Z) :
  shapes_grad_boxes3 B H W D C N CH CW CD s ->
  0 <= b < N ->
  (forall y x z, 0 <= y < CH -> 0 <= x < CW -> 0 <= z < CD ->
     ~ cell_used3 axis_scale_boxes (boxes s) (box_index s)
         B H W D CH CW CD b y x z) ->
  CropAndResizeBackpropBoxes3D s = Some (tt, s') ->
  row_untouched (boxes s) (box_index s) b s'.
Proof.
  intros Hs Hb Hun Hrun.
  destruct Hs as (Hd & _ & _ & Hi & _).
  unfold CropAndResizeBackpropBoxes3D, bind, get_dim, setZero_grads_boxes,
    dimension in Hrun.
  rewrite Hd, Hi in Hrun. cbn [nth] in Hrun. revert Hrun.
  apply (wp_run
           (for_range 0 N (BackpropBoxes3D_box B H W D CH CW CD C))
           (fun _ => row_untouched (boxes s) (box_index s) b)).
  apply wp_for_inv; [repeat split |].
  intros j s1 Hj HI. destruct (Z.eq_dec b j) as [<- | Hne].
  - now apply BackpropBoxes3D_box_unused.
  - now apply BackpropBoxes3D_box_other.
Qed.

(** X10.  The 2D image-gradient kernel leaves an exact zero in every
    element of the gradient of an image that no box refers to, in every
    run on tensors of consistent extents in which no access is out of
    range: the output is set to zero and then only the images that
    boxes refer to are added to.  Such is every run on box coordinates
    that are indexable. *)
Theorem unreferenced_image_gradient_zero (s : Store F T)
    (B H W C N CH CW i : Z) :
  shapes_grad_image2 B H W C N CH CW s ->
  (forall b, 0 <= b < N -> elt (box_index s) [b] <> i) ->
  (forall s', CropAndResizeBackpropImage s = Some (tt, s') ->
     forall y x d, elt (grads_image s') [i; y; x; d] = tzero) /\
  (boxes_indexable2 axis_scale (boxes s) (box_index s) B H W N CH CW ->
   exists s', CropAndResizeBackpropImage s = Some (tt, s')).
Proof.
  intros Hs Hne. split.
  - intros s' Hrun.
    assert (HI : image_untouched (box_index s) i s').
    { apply CropAndResizeBackpropImage_untouched with (N := N);
        try assumption.
      destruct Hs as (Hd & _). unfold dimension. now rewrite Hd. }
    intros y x d. apply HI.
  - intros Hc. exact (CropAndResizeBackpropImage_safe Hs Hc).
Qed.

(** X11.  When the image is at least as deep as it is wide and the box
    coordinates are indexable, the 3D image-gradient kernel returns and
    leaves an exact zero in every element of the gradient of an image
    that no box refers to. *)
Theorem unreferenced_image_gradient_zero_3D (s : Store F T)
    (B H W D C N CH CW CD i : Z) :
  shapes_grad_image3 B H W D C N CH CW CD s ->
  boxes_indexable3 axis_scale (boxes s) (box_index s) B H W D N CH CW CD ->
  W <= D ->
  (forall b, 0 <= b < N -> elt (box_index s) [b] <> i) ->
  exists s', CropAndResizeBackpropImage3D s = Some (tt, s') /\
    forall y x z d, elt (grads_image s') [i; y; x; z; d] = tzero.
Proof.
  intros Hs Hc HWD Hne.
  destruct (CropAndResizeBackpropImage3D_returns Hs Hc HWD) as (s' & Hrun).
  exists s'. split; [exact Hrun |].
  assert (HI : image_untouched (box_index s) i s').
  { apply CropAndResizeBackpropImage3D_untouched with (N := N);
      try assumption.
    destruct Hs as (Hd & _). unfold dimension. now rewrite Hd. }
  intros y x z d. apply HI.
Qed.

(** X12.  In the 2D box-gradient kernel a box none of whose cells is
    used, because its image index is invalid or because every cell is
    mapped out of the image, gets an exact zero in every entry of its
    row of the box gradient, in every run on tensors of consistent
    extents in which no access is out of range.  Such is every run on
    box coordinates that are indexable. *)
Theorem unused_box_gradient_zero (s : Store F T)
    (B H W C N CH CW b : Z) :
  shapes_grad_boxes2 B H W C N CH CW s ->
  0 <= b < N ->
  (forall y x, 0 <= y < CH -> 0 <= x < CW ->
     ~ cell_used2 axis_scale_boxes (boxes s) (box_index s)
         B H W CH CW b y x) ->
  (forall s', CropAndResizeBackpropBoxes s = Some (tt, s') ->
     forall k, elt (grads_boxes s') [b; k] = of_int 0) /\
  (boxes_indexable2 axis_scale_boxes (boxes s) (box_index s)
     B H W N CH CW ->
   exists s', CropAndResizeBackpropBoxes s = Some (tt, s')).
Proof.
  intros Hs Hb Hun. split.
  - intros s' Hrun k.
    apply (CropAndResizeBackpropBoxes_row_untouched Hs Hb Hun Hrun).
  - intros Hc. exact (CropAndResizeBackpropBoxes_safe Hs Hc).
Qed.

(** X13.  In the 3D box-gradient kernel a box none of whose cells is
    used, because its image index is invalid or because every cell is
    mapped out of the image, gets an exact zero in every entry of its
    row of the box gradient, in every run on tensors of consistent
    extents in which no access is out of range.  Such is every run on
    box coordinates that are indexable. *)
Theorem unused_box_gradient_zero_3D (s : Store F T)
    (B H W D C N CH CW CD b : Z) :
  shapes_grad_boxes3 B H W D C N CH CW CD s ->
  0 <= b < N ->
  (forall y x z, 0 <= y < CH -> 0 <= x < CW -> 0 <= z < CD ->
     ~ cell_used3 axis_scale_boxes (boxes s) (box_index s)
         B H W D CH CW CD b y x z) ->
  (forall s', CropAndResizeBackpropBoxes3D s = Some (tt, s') ->
     forall k, elt (grads_boxes s') [b; k] = of_int 0) /\
  (boxes_indexable3 axis_scale_boxes (boxes s) (box_index s)
     B H W D N CH CW CD ->
   exists s', CropAndResizeBackpropBoxes3D s = Some (tt, s')).
Proof.
  intros Hs Hb Hun. split.
  - intros s' Hrun k.
    apply (CropAndResizeBackpropBoxes3D_row_untouched Hs Hb Hun Hrun).
  - intros Hc. exact (CropAndResizeBackpropBoxes3D_safe Hs Hc).
Qed.

End LocalityTheorems.

(* ================================================================== *)
(** * The image gradient is the transpose of the resampling *)

Lemma Qsum_from_ext n : forall lo f g,
  (forall k, lo <= k < lo + Z.of_nat n -> (f k == g k)%Q) ->
  (Qsum_from n lo f == Qsum_from n lo g)%Q.
Proof.
  induction n as [|n IH]; intros lo f g Hfg; simpl Qsum_from.
  - reflexivity.
  - rewrite (Hfg lo) by lia. rewrite (IH (lo + 1) f g); [reflexivity |].
    intros k Hk. apply Hfg. lia.
Qed.

Lemma Qsum_ext lo hi f g :
  (forall k, lo <= k < hi -> (f k == g k)%Q) ->
  (Qsum lo hi f == Qsum lo hi g)%Q.
Proof. intros Hfg. apply Qsum_from_ext. intros k Hk. apply Hfg. lia. Qed.

Lemma Qsum_from_zero n : forall lo,
  (Qsum_from n lo (fun _ => 0) == 0)%Q.
Proof.
  induction n as [|n IH]; intros lo; simpl; [reflexivity |].
  rewrite IH. reflexivity.
Qed.

Lemma Qsum_zero lo hi f :
  (forall k, lo <= k < hi -> (f k == 0)%Q) -> (Qsum lo hi f == 0)%Q.
Proof.
  intros Hf. rewrite (Qsum_ext _ (fun _ => 0%Q) Hf). apply Qsum_from_zero.
Qed.

Lemma Qsum_from_update n : forall lo f f' p delta,
  lo <= p < lo + Z.of_nat n ->
  (forall k, lo <= k < lo + Z.of_nat n -> k <> p -> (f' k == f k)%Q) ->
  (f' p == f p + delta)%Q ->
  (Qsum_from n lo f' == Qsum_from n lo f + delta)%Q.
Proof.
  induction n as [|n IH]; intros lo f f' p delta Hp Hne Hat.
  - lia.
  - simpl Qsum_from. destruct (Z.eq_dec lo p) as [-> | Hlo].
    + rewrite Hat.
      rewrite (@Qsum_from_ext n (p + 1) f' f).
      * ring.
      * intros k Hk. apply Hne; lia.
    + rewrite (Hne lo) by lia.
      rewrite (IH (lo + 1) f f' p delta); [ring | lia | | exact Hat].
      intros k Hk. apply Hne. lia.
Qed.

Lemma Qsum_update lo hi f f' p delta :
  lo <= p < hi ->
  (forall k, lo <= k < hi -> k <> p -> (f' k == f k)%Q) ->
  (f' p == f p + delta)%Q ->
  (Qsum lo hi f' == Qsum lo hi f + delta)%Q.
Proof.
  intros Hp Hne Hat. unfold Qsum.
  apply Qsum_from_update with (p := p); [lia | | exact Hat].
  intros k Hk. apply Hne. lia.
Qed.

Lemma tadd_elem_at_same (t : Tensor Q) ix v :
  elt (tadd_elem_at t ix v) ix = (elt t ix + v)%Q.
Proof.
  unfold tadd_elem_at, tupdate. cbn [elt tadd Q_ElemOps].
  replace (idx_eqb ix ix) with true; [reflexivity |].
  symmetry. now apply idx_eqb_eq.
Qed.

Lemma tadd_elem_at_diff (t : Tensor Q) ix jx v :
  jx <> ix -> elt (tadd_elem_at t ix v) jx = elt t jx.
Proof.
  intros Hne. unfold tadd_elem_at, tupdate. cbn [elt].
  destruct (idx_eqb jx ix) eqn:E; [| reflexivity].
  apply idx_eqb_eq in E. contradiction.
Qed.

(** Adding [v] at an index in range raises the inner product with [u]
    by [u(ix) * v]. *)
Lemma dot4_update n0 n1 n2 n3 (u t : Tensor Q) i0 i1 i2 i3 v :
  in_range [n0; n1; n2; n3] [i0; i1; i2; i3] = true ->
  Qeq (dot4 n0 n1 n2 n3 u (tadd_elem_at t [i0; i1; i2; i3] v))
      (Qplus (dot4 n0 n1 n2 n3 u t) (Qmult (elt u [i0; i1; i2; i3]) v)).
Proof.
  intros Hin. apply in_range4 in Hin. destruct Hin as (R0 & R1 & R2 & R3).
  unfold dot4.
  apply Qsum_update with (p := i0); [exact R0 | |].
  { intros k0 _ Hne. apply Qsum_ext; intros k1 _. apply Qsum_ext; intros k2 _.
    apply Qsum_ext; intros k3 _.
    rewrite tadd_elem_at_diff by congruence. reflexivity. }
  apply Qsum_update with (p := i1); [exact R1 | |].
  { intros k1 _ Hne. apply Qsum_ext; intros k2 _. apply Qsum_ext; intros k3 _.
    rewrite tadd_elem_at_diff by congruence. reflexivity. }
  apply Qsum_update with (p := i2); [exact R2 | |].
  { intros k2 _ Hne. apply Qsum_ext; intros k3 _.
    rewrite tadd_elem_at_diff by congruence. reflexivity. }
  apply Qsum_update with (p := i3); [exact R3 | |].
  { intros k3 _ Hne.
    rewrite tadd_elem_at_diff by congruence. reflexivity. }
  rewrite tadd_elem_at_same. ring.
Qed.

Lemma dot4_zero n0 n1 n2 n3 (u t : Tensor Q) :
  (dot4 n0 n1 n2 n3 u (tfill t 0) == 0)%Q.
Proof.
  unfold dot4. apply Qsum_zero; intros k0 _. apply Qsum_zero; intros k1 _.
  apply Qsum_zero; intros k2 _. apply Qsum_zero; intros k3 _.
  cbn [tfill elt]. ring.
Qed.

Section Gains.

Variable Pin : Store Q Q -> Prop.
Variable phi : Store Q Q -> Q.

Lemma gains_ret : gains Pin phi 0%Q (ret tt).
Proof. intros s HP. apply wp_ret. split; [exact HP | ring]. Qed.

Lemma gains_eq c c' m :
  (c == c')%Q -> gains Pin phi c m -> gains Pin phi c' m.
Proof.
  intros Hc Hm s HP. eapply wp_conseq; [apply Hm; exact HP |].
  intros [] s' [HP' E]. split; [exact HP' |]. now rewrite <- Hc.
Qed.

Lemma gains_seq c1 c2 m k :
  gains Pin phi c1 m -> gains Pin phi c2 k ->
  gains Pin phi (c1 + c2)%Q (bind m (fun _ => k)).
Proof.
  intros Hm Hk s HP. apply wp_bind.
  eapply wp_conseq; [apply Hm; exact HP |].
  intros [] s1 [HP1 E1]. cbv beta.
  eapply wp_conseq; [apply Hk; exact HP1 |].
  intros [] s2 [HP2 E2]. split; [exact HP2 |]. rewrite E2, E1. ring.
Qed.

Lemma gains_read {A} (sel : Store Q Q -> Tensor A) (t : Tensor A) ix c
    (k : A -> M Q Q unit) :
  (forall s, Pin s -> sel s = t) ->
  gains Pin phi c (k (elt t ix)) ->
  gains Pin phi c (bind (read sel ix) k).
Proof.
  intros Hsel Hk s HP. apply wp_bind. apply wp_read_partial.
  rewrite (Hsel s HP). apply Hk. exact HP.
Qed.

Lemma gains_for_loop body f n : forall lo,
  (forall j, lo <= j < lo + Z.of_nat n -> gains Pin phi (f j) (body j)) ->
  gains Pin phi (Qsum_from n lo f) (for_loop n lo body).
Proof.
  induction n as [|n IH]; intros lo Hb.
  - apply gains_ret.
  - cbn [Qsum_from for_loop]. apply gains_seq; [apply Hb; lia |].
    apply IH. intros j Hj. apply Hb. lia.
Qed.

Lemma gains_for lo hi body f :
  (forall j, lo <= j < hi -> gains Pin phi (f j) (body j)) ->
  gains Pin phi (Qsum lo hi f) (for_range lo hi body).
Proof.
  intros Hb. apply gains_for_loop. intros j Hj. apply Hb. lia.
Qed.

End Gains.

Section Adjoint.

Variable s0 : Store Q Q.
Variables B H W C N CH CW : Z.

Let Pin := grad_image_pinned s0 B H W C.
Let phi := image_pairing s0 B H W C.
Let cell := crop_cell s0 0%Q B H W CH CW.
Let g (b y x d : Z) : Q := elt (grads s0) [b; y; x; d].

Lemma gains_add_grads_image ix v :
  gains Pin phi (Qmult (elt (image s0) ix) v) (add_grads_image ix v).
Proof.
  intros s HP. apply wp_add_grads_image; [auto |]. intros Hin.
  destruct HP as (H1 & H2 & H3 & H4).
  split; [repeat split; assumption |].
  unfold phi, image_pairing. cbn [grads_image set_grads_image].
  rewrite H4 in Hin.
  destruct (in_range4_inv _ _ _ _ _ Hin) as (i0 & i1 & i2 & i3 & -> & _).
  now apply dot4_update.
Qed.

Lemma gains_channel b b_in y x top bottom y_lerp left right x_lerp d :
  gains Pin phi
    (Qmult
       (lerp (lerp (elt (image s0) [b_in; top; left; d])
                   (elt (image s0) [b_in; top; right; d]) x_lerp)
             (lerp (elt (image s0) [b_in; bottom; left; d])
                   (elt (image s0) [b_in; bottom; right; d]) x_lerp)
             y_lerp)
       (g b y x d))
    (BackpropImage_channel b b_in y x top bottom y_lerp left right x_lerp d).
Proof.
  unfold BackpropImage_channel.
  apply gains_read with (t := grads s0); [intros s HP; apply HP |].
  cbv zeta.
  eapply gains_eq;
    [| apply gains_seq; [apply gains_add_grads_image |];
       apply gains_seq; [apply gains_add_grads_image |];
       apply gains_read with (t := grads s0); [intros s HP; apply HP |];
       cbv zeta;
       apply gains_seq; [apply gains_add_grads_image |];
       apply gains_add_grads_image ].
  unfold lerp, g.
  cbn [fadd fsub fmul of_int of_float Q_FloatOps Q_ElemOps inject_Z].
  ring.
Qed.

Lemma cell_valid b y x d :
  FastBoundsCheck (elt (box_index s0) [b]) B = true ->
  cell b y x d
  = (if out_of_image (in_y_of s0 H CH b y) H then 0%Q
     else if out_of_image (in_x_of s0 W CW b x) W then 0%Q
     else bilinear (image s0) (elt (box_index s0) [b])
            (in_y_of s0 H CH b y) (in_x_of s0 W CW b x) d).
Proof. intros Hv. unfold cell, crop_cell. rewrite Hv. reflexivity. Qed.

Lemma gains_box b :
  0 <= elt (box_index s0) [b] < B ->
  gains Pin phi
    (Qsum 0 CH (fun y => Qsum 0 CW (fun x => Qsum 0 C (fun d =>
       Qmult (cell b y x d) (g b y x d)))))
    (BackpropImage_box B H W CH CW C b).
Proof.
  intros Hv. apply FastBoundsCheck_true in Hv.
  unfold BackpropImage_box.
  do 4 (apply gains_read with (t := boxes s0); [intros s HP; apply HP |]).
  apply gains_read with (t := box_index s0); [intros s HP; apply HP |].
  rewrite Hv. cbn [negb]. cbv zeta.
  apply gains_for. intros y Hy. unfold BackpropImage_row. cbv zeta.
  fold (in_y_of s0 H CH b y).
  destruct (out_of_image (in_y_of s0 H CH b y) H) eqn:Ey.
  { eapply gains_eq; [| apply gains_ret]. symmetry.
    apply Qsum_zero; intros x _. apply Qsum_zero; intros d _.
    rewrite (cell_valid _ _ _ _ Hv), Ey. ring. }
  apply gains_for. intros x Hx. unfold BackpropImage_col. cbv zeta.
  fold (in_x_of s0 W CW b x).
  destruct (out_of_image (in_x_of s0 W CW b x) W) eqn:Ex.
  { eapply gains_eq; [| apply gains_ret]. symmetry.
    apply Qsum_zero; intros d _.
    rewrite (cell_valid _ _ _ _ Hv), Ey, Ex. ring. }
  apply gains_for. intros d Hd.
  eapply gains_eq; [| apply gains_channel].
  rewrite (cell_valid _ _ _ _ Hv), Ey, Ex. reflexivity.
Qed.

End Adjoint.

(** X14.  The 2D image-gradient kernel is the transpose of the 2D
    forward kernel with extrapolation value 0.  For boxes with valid
    indices, the inner product of the crops of an image with an incoming
    gradient equals the inner product of the image with the image
    gradient computed from that incoming gradient. *)
Theorem image_gradient_is_adjoint (s : Store Q Q) (B H W C N CH CW : Z) :
  shapes2 s B H W C N CH CW ->
  dims (grads s) = [N; CH; CW; C] ->
  dims (grads_image s) = [B; H; W; C] ->
  box_indices_valid s N B ->
  exists s1 s2,
    CropAndResize 0%Q s = Some (tt, s1) /\
    CropAndResizeBackpropImage s = Some (tt, s2) /\
    Qeq (dot4 N CH CW C (crops s1) (grads s))
        (dot4 B H W C (image s) (grads_image s2)).
Proof.
  intros Hs Hg Hgi Hv.
  destruct (CropAndResize_correct 0%Q Hs (@Q_boxes_indexable2 _ _ _ _ _ _ _ _ _))
    as (s1 & Hrun1 & _ & Hcell).
  pose proof Hs as (_ & Hbx & Hbi & _).
  assert (Hsg : shapes_grad_image2 B H W C N CH CW s)
    by (repeat split; assumption).
  destruct (CropAndResizeBackpropImage_safe Hsg (@Q_boxes_indexable2 _ _ _ _ _ _ _ _ _))
    as (s2 & Hrun2).
  exists s1, s2. split; [exact Hrun1 |]. split; [exact Hrun2 |].
  (* the forward side *)
  transitivity
    (Qsum 0 N (fun b => Qsum 0 CH (fun y => Qsum 0 CW (fun x =>
       Qsum 0 C (fun d =>
         Qmult (crop_cell s 0%Q B H W CH CW b y x d)
               (elt (grads s) [b; y; x; d])))))).
  { unfold dot4. apply Qsum_ext; intros b Hb. apply Qsum_ext; intros y Hy.
    apply Qsum_ext; intros x Hx. apply Qsum_ext; intros d Hd.
    rewrite (Hcell b y x d Hb Hy Hx Hd). reflexivity. }
  (* the backward side *)
  assert (Hloop : gains (grad_image_pinned s B H W C)
                    (image_pairing s B H W C)
                    (Qsum 0 N (fun b => Qsum 0 CH (fun y => Qsum 0 CW
                       (fun x => Qsum 0 C (fun d =>
                          Qmult (crop_cell s 0%Q B H W CH CW b y x d)
                                (elt (grads s) [b; y; x; d]))))))
                    (for_range 0 N (BackpropImage_box B H W CH CW C))).
  { apply gains_for. intros b Hb. apply gains_box. apply Hv. exact Hb. }
  unfold CropAndResizeBackpropImage, bind, get_dim, setZero_grads_image,
    dimension in Hrun2.
  rewrite Hg, Hgi in Hrun2. cbn [nth] in Hrun2.
  specialize (Hloop (set_grads_image s (tfill (grads_image s) tzero))).
  unfold wp in Hloop. rewrite Hrun2 in Hloop.
  destruct Hloop as [_ E]; [repeat split; assumption |].
  unfold image_pairing in E. cbn [grads_image set_grads_image] in E.
  rewrite E. cbn [tzero Q_ElemOps]. rewrite dot4_zero. ring.
Qed.

(* ================================================================== *)
(** * Validation of the boxes *)

Lemma rank_2 {A} (t : Tensor A) :
  rank t = 2 <-> exists n m, dims t = [n; m].
Proof.
  unfold rank. split.
  - destruct (dims t) as [|n [|m [|? ?]]]; simpl; try lia.
    intros _. now exists n, m.
  - intros (n & m & ->). reflexivity.
Qed.

Lemma rank_1 {A} (t : Tensor A) :
  rank t = 1 <-> exists n, dims t = [n].
Proof.
  unfold rank. split.
  - destruct (dims t) as [|n [|? ?]]; simpl; try lia.
    intros _. now exists n.
  - intros (n & ->). reflexivity.
Qed.

(** X15.  [ParseAndCheckBoxSizes] accepts exactly two kinds of input:
    two tensors without elements, whatever their ranks, for which it
    reports no box; and boxes of shape [n, 4] with a box index of shape
    [n], for which it reports [n] boxes. *)
Theorem ParseAndCheckBoxSizes_accepts {F} (boxes : Tensor F)
    (box_index : Tensor Z) (n0 n : Z) :
  ParseAndCheckBoxSizes boxes box_index n0 = (Status_OK, n) <->
  (NumElements boxes = 0 /\ NumElements box_index = 0 /\ n = 0) \/
  (~ (NumElements boxes = 0 /\ NumElements box_index = 0) /\
   dims boxes = [n; 4] /\ dims box_index = [n]).
Proof.
  unfold ParseAndCheckBoxSizes.
  destruct ((NumElements boxes =? 0) && (NumElements box_index =? 0)) eqn:E.
  - apply andb_true_iff in E. rewrite !Z.eqb_eq in E. split.
    + intros Heq. injection Heq as <-. left. tauto.
    + intros [(_ & _ & ->) | (Hn & _)]; [reflexivity | tauto].
  - assert (Hne : ~ (NumElements boxes = 0 /\ NumElements box_index = 0)).
    { intros [H1 H2]. rewrite H1, H2 in E. discriminate. }
    destruct (Z.eqb_spec (rank boxes) 2) as [R2 | R2]; cbn [negb].
    2:{ split; [discriminate |].
        intros [(H1 & H2 & _) | (_ & Hd & _)]; [tauto |].
        exfalso. apply R2. apply rank_2. eauto. }
    apply rank_2 in R2. destruct R2 as (nb & m & Hd).
    unfold dim_size. rewrite Hd. cbn [nth].
    destruct (Z.eqb_spec m 4) as [-> | M4]; cbn [negb].
    2:{ split; [discriminate |].
        intros [(H1 & H2 & _) | (_ & Hd' & _)]; [tauto | congruence]. }
    destruct (Z.eqb_spec (rank box_index) 1) as [R1 | R1]; cbn [negb].
    2:{ split; [discriminate |].
        intros [(H1 & H2 & _) | (_ & _ & Hd')]; [tauto |].
        exfalso. apply R1. apply rank_1. eauto. }
    apply rank_1 in R1. destruct R1 as (ni & Hi). rewrite Hi. cbn [nth].
    destruct (Z.eqb_spec ni nb) as [-> | NI]; cbn [negb].
    2:{ split; [discriminate |].
        intros [(H1 & H2 & _) | (_ & Hd' & Hi')]; [tauto | congruence]. }
    split.
    + intros Heq. injection Heq as <-. right. tauto.
    + intros [(H1 & H2 & _) | (_ & Hd' & Hi')]; [tauto |]. congruence.
Qed.

(** X16.  [ParseAndCheckBoxSizes3D] accepts two tensors without
    elements, whatever their ranks, with no box, and boxes of shape
    [n, 6] with a box index of shape [n], with [n] boxes; nothing
    else. *)
Theorem ParseAndCheckBoxSizes3D_accepts {F} (boxes : Tensor F)
    (box_index : Tensor Z) (n0 n : Z) :
  ParseAndCheckBoxSizes3D boxes box_index n0 = (Status_OK, n) <->
  (NumElements boxes = 0 /\ NumElements box_index = 0 /\ n = 0) \/
  (~ (NumElements boxes = 0 /\ NumElements box_index = 0) /\
   dims boxes = [n; 6] /\ dims box_index = [n]).
Proof.
  unfold ParseAndCheckBoxSizes3D.
  destruct ((NumElements boxes =? 0) && (NumElements box_index =? 0)) eqn:E.
  - apply andb_true_iff in E. rewrite !Z.eqb_eq in E. split.
    + intros Heq. injection Heq as <-. left. tauto.
    + intros [(_ & _ & ->) | (Hn & _)]; [reflexivity | tauto].
  - assert (Hne : ~ (NumElements boxes = 0 /\ NumElements box_index = 0)).
    { intros [H1 H2]. rewrite H1, H2 in E. discriminate. }
    destruct (Z.eqb_spec (rank boxes) 2) as [R2 | R2]; cbn [negb].
    2:{ split; [discriminate |].
        intros [(H1 & H2 & _) | (_ & Hd & _)]; [tauto |].
        exfalso. apply R2. apply rank_2. eauto. }
    apply rank_2 in R2. destruct R2 as (nb & m & Hd).
    unfold dim_size. rewrite Hd. cbn [nth].
    destruct (Z.eqb_spec m 6) as [-> | M6]; cbn [negb].
    2:{ split; [discriminate |].
        intros [(H1 & H2 & _) | (_ & Hd' & _)]; [tauto | congruence]. }
    destruct (Z.eqb_spec (rank box_index) 1) as [R1 | R1]; cbn [negb].
    2:{ split; [discriminate |].
        intros [(H1 & H2 & _) | (_ & _ & Hd')]; [tauto |].
        exfalso. apply R1. apply rank_1. eauto. }
    apply rank_1 in R1. destruct R1 as (ni & Hi). rewrite Hi. cbn [nth].
    destruct (Z.eqb_spec ni nb) as [-> | NI]; cbn [negb].
    2:{ split; [discriminate |].
        intros [(H1 & H2 & _) | (_ & Hd' & Hi')]; [tauto | congruence]. }
    split.
    + intros Heq. injection Heq as <-. right. tauto.
    + intros [(H1 & H2 & _) | (_ & Hd' & Hi')]; [tauto |]. congruence.
Qed.

(* ================================================================== *)
(** * Dispatch on the box indices *)

Section RunIfValid.

Context {F T : Type} {FO : FloatOps F} {EO : ElemOps T F}.

Lemma RunIfBoxIndexIsValid_loop_valid (bi : Tensor Z) B done n0 rest
    (context : OpKernelContext F T) n : forall b,
  dims bi = [n0] -> 0 <= b -> b + Z.of_nat n <= n0 ->
  (forall k, b <= k < b + Z.of_nat n -> 0 <= elt bi [k] < B) ->
  RunIfBoxIndexIsValid_loop bi B done n b rest context = rest context.
Proof.
  induction n as [|n IH]; intros b Hd Hb Hn Hv; [reflexivity |].
  cbn [RunIfBoxIndexIsValid_loop]. rewrite Hd.
  replace (in_range [n0] [b]) with true
    by (symmetry; apply in_range1; lia).
  unfold OP_REQUIRES_ASYNC.
  replace (FastBoundsCheck (elt bi [b]) B) with true
    by (symmetry; apply FastBoundsCheck_true; apply Hv; lia).
  apply IH; [exact Hd | lia | lia |]. intros k Hk. apply Hv. lia.
Qed.

Lemma RunIfBoxIndexIsValid_loop_invalid (bi : Tensor Z) B done n0 rest
    (context : OpKernelContext F T) n : forall b k,
  dims bi = [n0] -> 0 <= b -> b + Z.of_nat n <= n0 ->
  b <= k < b + Z.of_nat n -> ~ (0 <= elt bi [k] < B) ->
  RunIfBoxIndexIsValid_loop bi B done n b rest context
  = call done
      (SetStatus
         (OutOfRange [Str "box_index has values outside [0, batch_size)"])
         context).
Proof.
  induction n as [|n IH]; intros b k Hd Hb Hn Hk Hinv; [lia |].
  cbn [RunIfBoxIndexIsValid_loop]. rewrite Hd.
  replace (in_range [n0] [b]) with true
    by (symmetry; apply in_range1; lia).
  unfold OP_REQUIRES_ASYNC.
  destruct (FastBoundsCheck (elt bi [b]) B) eqn:E; [| reflexivity].
  apply FastBoundsCheck_true in E.
  apply IH with (k := k); try assumption; try lia.
  assert (k <> b) by (intros ->; contradiction). lia.
Qed.

(** X17.  [RunIfBoxIndexIsValid] runs [compute] and then [done] when
    every box index is in [0, batch_size); otherwise it records the
    error OUT_OF_RANGE and runs [done] alone: [compute] does not run. *)
Theorem RunIfBoxIndexIsValid_runs (bi : Tensor Z) (B n : Z)
    (compute done : Callback F T) (context : OpKernelContext F T) :
  dims bi = [n] -> 0 <= n ->
  ((forall b, 0 <= b < n -> 0 <= elt bi [b] < B) ->
   RunIfBoxIndexIsValid bi B compute done context
   = match call_if_set compute context with
     | Some context' => call_if_set done context'
     | None => None
     end) /\
  ((exists b, 0 <= b < n /\ ~ (0 <= elt bi [b] < B)) ->
   RunIfBoxIndexIsValid bi B compute done context
   = call done
       (SetStatus
          (OutOfRange [Str "box_index has values outside [0, batch_size)"])
          context)).
Proof.
  intros Hd Hn. unfold RunIfBoxIndexIsValid, dimension.
  rewrite Hd. cbn [nth]. split.
  - intros Hv.
    rewrite (@RunIfBoxIndexIsValid_loop_valid bi B done n); try assumption;
      try lia; [reflexivity |].
    intros k Hk. apply Hv. lia.
  - intros (b & Hb & Hinv).
    apply (@RunIfBoxIndexIsValid_loop_invalid bi B done n) with (k := b);
      try assumption; lia.
Qed.

End RunIfValid.


(* ================================================================== *)
(** * The forward op *)

Section BoxSizesLemmas.

Context {F : Type}.

Lemma ParseAndCheckBoxSizes_ok (boxes_ : Tensor F) (box_index_ : Tensor Z)
    (n0 n : Z) :
  dims boxes_ = [n; 4] -> dims box_index_ = [n] ->
  ParseAndCheckBoxSizes boxes_ box_index_ n0 = (Status_OK, n).
Proof.
  intros Hb Hi. unfold ParseAndCheckBoxSizes, NumElements, rank, dim_size.
  rewrite Hb, Hi. cbn [fold_right List.length nth Z.of_nat].
  destruct (Z.eqb_spec (n * (4 * 1)) 0) as [E | E];
    destruct (Z.eqb_spec (n * 1) 0) as [E' | E']; cbn [andb];
    try (assert (n = 0) as -> by lia; reflexivity); try lia;
    cbn [Pos.of_succ_nat Pos.succ Z.eqb Pos.eqb negb];
    rewrite Z.eqb_refl; reflexivity.
Qed.

End BoxSizesLemmas.

Section ForwardOpTheorems.

Context {F T : Type} {FO : FloatOps F} {EO : ElemOps T F}.

Lemma SetStatus_tensors st (context : OpKernelContext F T) :
  tensors (SetStatus st context) = tensors context.
Proof. unfold SetStatus. now destruct (ok (status context)). Qed.

(** X18.  On inputs of consistent shapes, positive image and crop sizes
    and a successful allocation, [CropAndResizeOp::ComputeAsync] ends
    with one call of [done] in these two cases.  When every box index
    is in the batch and the box coordinates are indexable, the status
    is untouched and every cell of the output holds the extrapolation
    value or the bilinear sample: nothing of what the allocated buffer
    held is left.  When some box index is not in the batch, the status
    is OUT_OF_RANGE and the kernel has not run. *)
Theorem CropAndResizeOp_computes (e : F) (alloc : Allocator F)
    (done : OpKernelContext F T -> option (OpKernelContext F T))
    (context : OpKernelContext F T) (B H W C N CH CW : Z) :
  dims (image (tensors context)) = [B; H; W; C] ->
  0 < H -> 0 < W -> 0 <= C ->
  dims (boxes (tensors context)) = [N; 4] ->
  dims (box_index (tensors context)) = [N] -> 0 <= N ->
  dims (size_input context) = [2] ->
  elt (size_input context) [0] = CH -> elt (size_input context) [1] = CW ->
  0 < CH -> 0 < CW ->
  ok (allocate_status alloc [N; CH; CW; C]) = true ->
  let s := tensors context in
  (box_indices_valid s N B ->
   boxes_indexable2 axis_scale (boxes s) (box_index s) B H W N CH CW ->
   exists s',
     CropAndResizeOp_ComputeAsync e alloc (Some done) context
     = done (with_tensors s' context) /\
     image s' = image s /\ boxes s' = boxes s /\
     box_index s' = box_index s /\
     dims (crops s') = [N; CH; CW; C] /\
     forall b y x d,
       0 <= b < N -> 0 <= y < CH -> 0 <= x < CW -> 0 <= d < C ->
       elt (crops s') [b; y; x; d]
       = if out_of_image (in_y_of s H CH b y) H then e
         else if out_of_image (in_x_of s W CW b x) W then e
         else bilinear (image s) (elt (box_index s) [b])
                (in_y_of s H CH b y) (in_x_of s W CW b x) d) /\
  ((exists b, 0 <= b < N /\ ~ (0 <= elt (box_index s) [b] < B)) ->
   CropAndResizeOp_ComputeAsync e alloc (Some done) context
   = done (SetStatus
             (OutOfRange
                [Str "box_index has values outside [0, batch_size)"])
             (with_tensors
                (set_crops s (allocated alloc [N; CH; CW; C])) context))).
Proof.
  intros Himg HH HW HC Hbx Hbi HN Hcs HCH HCW HCH0 HCW0 Halloc s.
  assert (Hrun : CropAndResizeOp_ComputeAsync e alloc (Some done) context
                 = RunIfBoxIndexIsValid (box_index s) B
                     (Some (CropAndResizeOp_compute_callback e)) (Some done)
                     (with_tensors
                        (set_crops s (allocated alloc [N; CH; CW; C]))
                        context)).
  { unfold CropAndResizeOp_ComputeAsync, OP_REQUIRES_ASYNC,
      OP_REQUIRES_OK_ASYNC, rank, dim_size, tensor_view, TensorShape.
    subst s. cbv beta zeta. rewrite Himg, Hcs.
    rewrite (ParseAndCheckBoxSizes_ok _ _ 0 Hbx Hbi).
    rewrite HCH, HCW.
    cbn [List.length Z.of_nat Pos.of_succ_nat Pos.succ Z.eqb Pos.eqb nth
         fst snd ok code Status_OK forallb].
    replace (0 <? H) with true by (symmetry; apply Z.ltb_lt; lia).
    replace (0 <? W) with true by (symmetry; apply Z.ltb_lt; lia).
    replace (0 <? CH) with true by (symmetry; apply Z.ltb_lt; lia).
    replace (0 <? CW) with true by (symmetry; apply Z.ltb_lt; lia).
    replace (0 <=? N) with true by (symmetry; apply Z.leb_le; lia).
    replace (0 <=? CH) with true by (symmetry; apply Z.leb_le; lia).
    replace (0 <=? CW) with true by (symmetry; apply Z.leb_le; lia).
    replace (0 <=? C) with true by (symmetry; apply Z.leb_le; lia).
    cbn [andb]. rewrite Halloc. unfold rank. rewrite Hbi. reflexivity. }
  rewrite Hrun. clear Hrun.
  set (context1 := with_tensors _ context).
  fold s in Himg, Hbx, Hbi.
  unfold RunIfBoxIndexIsValid, dimension. rewrite Hbi. cbn [nth].
  split.
  - intros Hv Hc.
    rewrite RunIfBoxIndexIsValid_loop_valid with (n0 := N);
      [| exact Hbi | lia | lia | intros k Hk; apply Hv; lia].
    cbn [call_if_set]. unfold CropAndResizeOp_compute_callback, tensor_view,
      rank.
    cbn [tensors context1 with_tensors image boxes box_index crops set_crops
         allocated dims].
    rewrite Himg, Hbx, Hbi.
    cbn [List.length Z.of_nat Pos.of_succ_nat Pos.succ Z.eqb Pos.eqb].
    assert (Hs : shapes2 (set_crops s (allocated alloc [N; CH; CW; C]))
                   B H W C N CH CW).
    { repeat split; try assumption; lia. }
    destruct (CropAndResize_correct e Hs Hc) as (s' & Hk & Hf & Hcell).
    rewrite Hk. unfold report_launch. cbn [negb]. exists s'.
    destruct Hf as (F1 & F2 & F3 & _ & _ & _ & F7).
    split; [reflexivity |]. repeat split; try assumption.
    intros b y x d Hb Hy Hx Hd. rewrite (Hcell b y x d Hb Hy Hx Hd).
    unfold crop_cell.
    cbn [boxes box_index image set_crops].
    replace (FastBoundsCheck (elt (box_index s) [b]) B) with true
      by (symmetry; apply FastBoundsCheck_true; apply Hv; exact Hb).
    reflexivity.
  - intros (b & Hb & Hinv).
    rewrite RunIfBoxIndexIsValid_loop_invalid with (n0 := N) (k := b);
      [reflexivity | exact Hbi | lia | lia | lia | exact Hinv].
Qed.

End ForwardOpTheorems.

Lemma rank_4 {A} (t : Tensor A) :
  rank t = 4 <-> exists n0 n1 n2 n3, dims t = [n0; n1; n2; n3].
Proof.
  unfold rank. split.
  - destruct (dims t) as [|n0 [|n1 [|n2 [|n3 [|? ?]]]]]; simpl; try lia.
    intros _. now exists n0, n1, n2, n3.
  - intros (n0 & n1 & n2 & n3 & ->). reflexivity.
Qed.

Lemma ParseAndCheckBoxSizes_inv {F} (boxes_ : Tensor F)
    (box_index_ : Tensor Z) (n0 : Z) :
  ok (fst (ParseAndCheckBoxSizes boxes_ box_index_ n0)) = true ->
  let n := snd (ParseAndCheckBoxSizes boxes_ box_index_ n0) in
  (NumElements boxes_ = 0 /\ NumElements box_index_ = 0 /\ n = 0) \/
  (dims boxes_ = [n; 4] /\ dims box_index_ = [n]).
Proof.
  unfold ParseAndCheckBoxSizes.
  destruct ((NumElements boxes_ =? 0) && (NumElements box_index_ =? 0)) eqn:E.
  - apply andb_true_iff in E. rewrite !Z.eqb_eq in E. cbn. tauto.
  - destruct (Z.eqb_spec (rank boxes_) 2) as [R2 | R2]; cbn [negb];
      [| discriminate].
    apply rank_2 in R2. destruct R2 as (nb & m & Hd).
    unfold dim_size. rewrite Hd. cbn [nth].
    destruct (Z.eqb_spec m 4) as [-> | M4]; cbn [negb]; [| discriminate].
    destruct (Z.eqb_spec (rank box_index_) 1) as [R1 | R1]; cbn [negb];
      [| discriminate].
    apply rank_1 in R1. destruct R1 as (ni & Hi). rewrite Hi. cbn [nth].
    destruct (Z.eqb_spec ni nb) as [-> | NI]; cbn [negb]; [| discriminate].
    intros _. cbn. right. tauto.
Qed.

Section ForwardOpTotal.

Context {F T : Type} {FO : FloatOps F} {EO : ElemOps T F}.

Lemma RunIfBoxIndexIsValid_loop_cases (bi : Tensor Z) B done n0 rest
    (context : OpKernelContext F T) n : forall b,
  dims bi = [n0] -> 0 <= b -> b + Z.of_nat n <= n0 ->
  RunIfBoxIndexIsValid_loop bi B done n b rest context = rest context \/
  RunIfBoxIndexIsValid_loop bi B done n b rest context
  = call done
      (SetStatus
         (OutOfRange [Str "box_index has values outside [0, batch_size)"])
         context).
Proof.
  induction n as [|n IH]; intros b Hd Hb Hn; [left; reflexivity |].
  cbn [RunIfBoxIndexIsValid_loop]. rewrite Hd.
  replace (in_range [n0] [b]) with true
    by (symmetry; apply in_range1; lia).
  unfold OP_REQUIRES_ASYNC.
  destruct (FastBoundsCheck (elt bi [b]) B); [| right; reflexivity].
  apply IH; [exact Hd | lia | lia].
Qed.

Lemma CropAndResize_no_boxes (e : F) (s : Store F T) :
  dimension (crops s) 0 = 0 -> CropAndResize e s = Some (tt, s).
Proof.
  intros H0. unfold CropAndResize, Shard, CropAndResizePerBox, bind, get_dim.
  rewrite H0. reflexivity.
Qed.

(** X19.  [CropAndResizeOp::ComputeAsync] ends in a context on every
    input in which [boxes] has rank 2, [box_index] has rank 1, no
    extent is negative and the box coordinates are indexable for the
    extents of the image and the crop size, whatever the other extents
    and the values are, when [done] returns: it rejects the input with
    a status or runs the kernel, and no access of it or of the kernel
    is out of range. *)
Theorem CropAndResizeOp_never_undefined (e : F) (alloc : Allocator F)
    (done : OpKernelContext F T -> OpKernelContext F T)
    (context : OpKernelContext F T) :
  Forall (Z.le 0) (dims (image (tensors context))) ->
  Forall (Z.le 0) (dims (boxes (tensors context))) ->
  rank (boxes (tensors context)) = 2 ->
  rank (box_index (tensors context)) = 1 ->
  boxes_indexable2 axis_scale
    (boxes (tensors context)) (box_index (tensors context))
    (dim_size (image (tensors context)) 0)
    (dim_size (image (tensors context)) 1)
    (dim_size (image (tensors context)) 2)
    (dim_size (boxes (tensors context)) 0)
    (elt (size_input context) [0]) (elt (size_input context) [1]) ->
  exists context',
    CropAndResizeOp_ComputeAsync e alloc (Some (fun c => Some (done c)))
      context = Some context'.
Proof.
  intros Hpi Hpb Rb Ri Hidx.
  unfold CropAndResizeOp_ComputeAsync, OP_REQUIRES_ASYNC,
    OP_REQUIRES_OK_ASYNC. cbv beta zeta.
  destruct (Z.eqb_spec (rank (image (tensors context))) 4) as [R4 | R4];
    [| eexists; reflexivity].
  apply rank_4 in R4. destruct R4 as (B & H & W & C & Himg).
  unfold dim_size at 1 2. rewrite Himg. cbn [nth].
  destruct ((0 <? H) && (0 <? W)) eqn:E2; [| eexists; reflexivity].
  apply andb_true_iff in E2. rewrite !Z.ltb_lt in E2.
  pose proof (@ParseAndCheckBoxSizes_inv F (boxes (tensors context))
                (box_index (tensors context)) 0) as Hinv.
  destruct (ok (fst (ParseAndCheckBoxSizes _ _ 0))) eqn:E3;
    [| eexists; reflexivity].
  specialize (Hinv eq_refl). cbv zeta in Hinv.
  set (N := snd (ParseAndCheckBoxSizes _ _ 0)) in *.
  destruct (rank (size_input context) =? 1); [| eexists; reflexivity].
  destruct (dim_size (size_input context) 0 =? 2); [| eexists; reflexivity].
  set (CH := elt (size_input context) [0]).
  set (CW := elt (size_input context) [1]).
  destruct ((0 <? CH) && (0 <? CW)) eqn:E4; [| eexists; reflexivity].
  apply andb_true_iff in E4. rewrite !Z.ltb_lt in E4.
  assert (HC : 0 <= C).
  { rewrite Himg in Hpi. inversion Hpi as [|? ? _ Hp1]; subst.
    inversion Hp1 as [|? ? _ Hp2]; subst.
    inversion Hp2 as [|? ? _ Hp3]; subst.
    inversion Hp3 as [|? ? Hc _]; subst. exact Hc. }
  assert (HN : 0 <= N).
  { destruct Hinv as [(_ & _ & ->) | (Hd & _)]; [lia |].
    rewrite Hd in Hpb. inversion Hpb; subst. assumption. }
  unfold TensorShape, dim_size. rewrite Himg. cbn [nth forallb].
  replace (0 <=? N) with true by (symmetry; apply Z.leb_le; lia).
  replace (0 <=? CH) with true by (symmetry; apply Z.leb_le; lia).
  replace (0 <=? CW) with true by (symmetry; apply Z.leb_le; lia).
  replace (0 <=? C) with true by (symmetry; apply Z.leb_le; lia).
  cbn [andb].
  destruct (ok (allocate_status alloc [N; CH; CW; C]));
    [| eexists; reflexivity].
  unfold tensor_view at 1. rewrite Ri. cbn [Z.eqb Pos.eqb].
  apply rank_1 in Ri. destruct Ri as (n & Hbi).
  apply rank_2 in Rb. destruct Rb as (nb & m & Hbx).
  assert (Hn : 0 <= n).
  { destruct Hinv as [(_ & Hz & _) | (_ & Hd)].
    - unfold NumElements in Hz. rewrite Hbi in Hz. cbn in Hz. lia.
    - rewrite Hbi in Hd. injection Hd as ->. exact HN. }
  unfold RunIfBoxIndexIsValid, dimension. rewrite Hbi. cbn [nth].
  set (context1 := with_tensors _ context).
  match goal with
  | |- exists _, RunIfBoxIndexIsValid_loop _ _ _ _ _ ?rest _ = _ =>
      destruct (@RunIfBoxIndexIsValid_loop_cases
                  (box_index (tensors context)) B
                  (Some (fun c => Some (done c))) n rest context1
                  (Z.to_nat n) 0 Hbi) as [-> | ->]; try lia;
        [| eexists; reflexivity]
  end.
  cbv beta. cbn [call_if_set].
  unfold CropAndResizeOp_compute_callback, tensor_view, rank.
  cbn [tensors context1 with_tensors image boxes box_index crops set_crops
       allocated dims].
  rewrite Himg, Hbx, Hbi.
  cbn [List.length Z.of_nat Pos.of_succ_nat Pos.succ Z.eqb Pos.eqb].
  assert (Hk : exists s', CropAndResize e
                 (set_crops (tensors context) (allocated alloc [N; CH; CW; C]))
               = Some (tt, s')).
  { destruct Hinv as [(_ & _ & HN0) | (Hd1 & Hd2)].
    - eexists. apply CropAndResize_no_boxes. rewrite HN0. reflexivity.
    - assert (Hs : shapes2
                     (set_crops (tensors context)
                        (allocated alloc [N; CH; CW; C])) B H W C N CH CW).
      { repeat split; try assumption; lia. }
      assert (Hc : boxes_indexable2 axis_scale
                     (boxes (tensors context)) (box_index (tensors context))
                     B H W N CH CW).
      { unfold dim_size in Hidx. rewrite Himg, Hd1 in Hidx. exact Hidx. }
      destruct (CropAndResize_correct e Hs Hc) as (s' & Hk & _).
      exists s'. exact Hk. }
  destruct Hk as (s' & ->). unfold report_launch. cbn [negb].
  eexists. reflexivity.
Qed.

End ForwardOpTotal.

(* ================================================================== *)
(** * The ops never run into an access out of range *)

Lemma rank_5 {A} (t : Tensor A) :
  rank t = 5 <-> exists n0 n1 n2 n3 n4, dims t = [n0; n1; n2; n3; n4].
Proof.
  unfold rank. split.
  - destruct (dims t) as [|n0 [|n1 [|n2 [|n3 [|n4 [|? ?]]]]]]; simpl;
      try lia.
    intros _. now exists n0, n1, n2, n3, n4.
  - intros (n0 & n1 & n2 & n3 & n4 & ->). reflexivity.
Qed.

Lemma ParseAndCheckBoxSizes3D_inv {F} (boxes_ : Tensor F)
    (box_index_ : Tensor Z) (n0 : Z) :
  ok (fst (ParseAndCheckBoxSizes3D boxes_ box_index_ n0)) = true ->
  let n := snd (ParseAndCheckBoxSizes3D boxes_ box_index_ n0) in
  (NumElements boxes_ = 0 /\ NumElements box_index_ = 0 /\ n = 0) \/
  (dims boxes_ = [n; 6] /\ dims box_index_ = [n]).
Proof.
  unfold ParseAndCheckBoxSizes3D.
  destruct ((NumElements boxes_ =? 0) && (NumElements box_index_ =? 0)) eqn:E.
  - apply andb_true_iff in E. rewrite !Z.eqb_eq in E. cbn. tauto.
  - destruct (Z.eqb_spec (rank boxes_) 2) as [R2 | R2]; cbn [negb];
      [| discriminate].
    apply rank_2 in R2. destruct R2 as (nb & m & Hd).
    unfold dim_size. rewrite Hd. cbn [nth].
    destruct (Z.eqb_spec m 6) as [-> | M6]; cbn [negb]; [| discriminate].
    destruct (Z.eqb_spec (rank box_index_) 1) as [R1 | R1]; cbn [negb];
      [| discriminate].
    apply rank_1 in R1. destruct R1 as (ni & Hi). rewrite Hi. cbn [nth].
    destruct (Z.eqb_spec ni nb) as [-> | NI]; cbn [negb]; [| discriminate].
    intros _. cbn. right. tauto.
Qed.

Lemma Forall_nonneg_nth (ds : list Z) k :
  Forall (Z.le 0) ds -> 0 <= nth k ds 0.
Proof.
  intros Hf. revert k. induction Hf as [|d ds Hd _ IH]; intros [|k]; simpl;
    try lia; auto.
Qed.

Section NoBoxes.

Context {F T : Type} {FO : FloatOps F} {EO : ElemOps T F}.

Lemma CropAndResize3D_no_boxes (e : F) (s : Store F T) :
  dimension (crops s) 0 = 0 -> CropAndResize3D e s = Some (tt, s).
Proof.
  intros H0.
  unfold CropAndResize3D, Shard, CropAndResizePerBox3D, bind, get_dim.
  rewrite H0. reflexivity.
Qed.

Lemma CropAndResizeBackpropImage_no_boxes (s : Store F T) :
  dimension (grads s) 0 = 0 ->
  exists s', CropAndResizeBackpropImage s = Some (tt, s').
Proof.
  intros H0.
  unfold CropAndResizeBackpropImage, bind, get_dim, setZero_grads_image.
  rewrite H0. eexists. reflexivity.
Qed.

Lemma CropAndResizeBackpropImage3D_no_boxes (s : Store F T) :
  dimension (grads s) 0 = 0 ->
  exists s', CropAndResizeBackpropImage3D s = Some (tt, s').
Proof.
  intros H0.
  unfold CropAndResizeBackpropImage3D, bind, get_dim, setZero_grads_image.
  rewrite H0. eexists. reflexivity.
Qed.

Lemma CropAndResizeBackpropBoxes_no_boxes (s : Store F T) :
  dimension (grads s) 0 = 0 ->
  exists s', CropAndResizeBackpropBoxes s = Some (tt, s').
Proof.
  intros H0.
  unfold CropAndResizeBackpropBoxes, bind, get_dim, setZero_grads_boxes.
  rewrite H0. eexists. reflexivity.
Qed.

Lemma CropAndResizeBackpropBoxes3D_no_boxes (s : Store F T) :
  dimension (grads s) 0 = 0 ->
  exists s', CropAndResizeBackpropBoxes3D s = Some (tt, s').
Proof.
  intros H0.
  unfold CropAndResizeBackpropBoxes3D, bind, get_dim, setZero_grads_boxes.
  rewrite H0. eexists. reflexivity.
Qed.

(** Once the box index is a vector, [RunIfBoxIndexIsValid] ends in a
    context as soon as [compute] does on the context at hand. *)
Lemma RunIfBoxIndexIsValid_returns (bi : Tensor Z) (B : Z)
    (compute : OpKernelContext F T -> option (OpKernelContext F T))
    (done : OpKernelContext F T -> OpKernelContext F T)
    (context : OpKernelContext F T) :
  rank bi = 1 -> Forall (Z.le 0) (dims bi) ->
  (exists c, compute context = Some c) ->
  exists context',
    RunIfBoxIndexIsValid bi B (Some compute) (Some (fun c => Some (done c)))
      context = Some context'.
Proof.
  intros Ri Hp (c & Hc). apply rank_1 in Ri. destruct Ri as (n & Hbi).
  assert (Hn : 0 <= n)
    by (rewrite Hbi in Hp; inversion Hp; subst; assumption).
  unfold RunIfBoxIndexIsValid, dimension. rewrite Hbi. cbn [nth].
  match goal with
  | |- exists _, RunIfBoxIndexIsValid_loop _ _ _ _ _ ?rest _ = _ =>
      destruct (@RunIfBoxIndexIsValid_loop_cases F T bi B
                  (Some (fun c => Some (done c))) n rest context
                  (Z.to_nat n) 0 Hbi) as [-> | ->]; try lia
  end.
  - cbv beta. cbn [call_if_set]. rewrite Hc. eexists. reflexivity.
  - eexists. reflexivity.
Qed.

End NoBoxes.

(* A check of the op that fails ends the op: the status is set and
   [done] runs. *)
Ltac op_rejects := eexists; reflexivity.

Ltac leb_true :=
  repeat match goal with
         | |- context [0 <=? ?n] =>
             replace (0 <=? n) with true by (symmetry; apply Z.leb_le; lia)
         end.

Section GradImageOpTheorems.

Context {F T : Type} {FO : FloatOps F} {EO : ElemOps T F}.

(** X20.  [CropAndResizeGradImageOp::ComputeAsync] ends in a context on
    every input in which [boxes] has rank 2, [box_index] has rank 1, no
    extent is negative, the batch size in [image_size] is not negative
    and the box coordinates are indexable for the extents in
    [image_size] and the crop size of [grads], whatever the other
    extents and the values are, when [done] returns: it rejects the
    input with a status or runs the kernel, and no access of it or of
    the kernel is out of range. *)
Theorem CropAndResizeGradImageOp_never_undefined (alloc : Allocator T)
    (done : OpKernelContext F T -> OpKernelContext F T)
    (context : OpKernelContext F T) :
  Forall (Z.le 0) (dims (grads (tensors context))) ->
  Forall (Z.le 0) (dims (box_index (tensors context))) ->
  rank (boxes (tensors context)) = 2 ->
  rank (box_index (tensors context)) = 1 ->
  0 <= elt (size_input context) [0] ->
  boxes_indexable2 axis_scale
    (boxes (tensors context)) (box_index (tensors context))
    (elt (size_input context) [0]) (elt (size_input context) [1])
    (elt (size_input context) [2])
    (dim_size (boxes (tensors context)) 0)
    (dim_size (grads (tensors context)) 1)
    (dim_size (grads (tensors context)) 2) ->
  exists context',
    CropAndResizeGradImageOp_ComputeAsync alloc
      (Some (fun c => Some (done c))) context = Some context'.
Proof.
  intros Hpg Hpi Rb Ri HB Hidx.
  unfold CropAndResizeGradImageOp_ComputeAsync, OP_REQUIRES_ASYNC,
    OP_REQUIRES_OK_ASYNC. cbv beta zeta.
  destruct (Z.eqb_spec (rank (grads (tensors context))) 4) as [R4 | R4];
    [| op_rejects].
  apply rank_4 in R4. destruct R4 as (G & CH & CW & C & Hg).
  assert (HC : 0 <= C) by (apply (Forall_nonneg_nth 3) in Hpg;
                           rewrite Hg in Hpg; exact Hpg).
  unfold dim_size. rewrite Hg. cbn [nth].
  destruct ((0 <? CH) && (0 <? CW)) eqn:E2; [| op_rejects].
  apply andb_true_iff in E2. rewrite !Z.ltb_lt in E2.
  pose proof (@ParseAndCheckBoxSizes_inv F (boxes (tensors context))
                (box_index (tensors context)) 0) as Hinv.
  destruct (ok (fst (ParseAndCheckBoxSizes _ _ 0))); [| op_rejects].
  specialize (Hinv eq_refl). cbv zeta in Hinv.
  set (N := snd (ParseAndCheckBoxSizes _ _ 0)) in *.
  destruct (Z.eqb_spec G N) as [-> | HGN]; [| op_rejects].
  destruct (rank (size_input context) =? 1); [| op_rejects].
  destruct (nth 0 (dims (size_input context)) 0 =? 4); [| op_rejects].
  set (B := elt (size_input context) [0]) in *.
  set (H := elt (size_input context) [1]).
  set (W := elt (size_input context) [2]).
  set (depth := elt (size_input context) [3]).
  destruct ((0 <? H) && (0 <? W)) eqn:E4; [| op_rejects].
  apply andb_true_iff in E4. rewrite !Z.ltb_lt in E4.
  destruct (Z.eqb_spec C depth) as [<- | HCd]; [| op_rejects].
  unfold TensorShape. cbn [forallb]. leb_true. cbn [andb].
  destruct (ok (allocate_status alloc [B; H; W; C])); [| op_rejects].
  unfold tensor_view at 1. rewrite Ri. cbn [Z.eqb Pos.eqb].
  apply RunIfBoxIndexIsValid_returns; [exact Ri | exact Hpi |].
  unfold CropAndResizeGradImageOp_compute_callback, tensor_view, rank.
  cbn [tensors with_grads_image with_tensors grads boxes box_index
       grads_image set_grads_image allocated dims].
  apply rank_1 in Ri. destruct Ri as (n & Hbi).
  apply rank_2 in Rb. destruct Rb as (nb & m & Hbx).
  rewrite Hg, Hbx, Hbi.
  cbn [List.length Z.of_nat Pos.of_succ_nat Pos.succ Z.eqb Pos.eqb].
  assert (Hk : exists s', CropAndResizeBackpropImage
                 (set_grads_image (tensors context)
                    (allocated alloc [B; H; W; C])) = Some (tt, s')).
  { destruct Hinv as [(_ & _ & HN0) | (Hd1 & Hd2)].
    - apply CropAndResizeBackpropImage_no_boxes.
      unfold dimension. cbn [grads set_grads_image]. rewrite Hg.
      exact HN0.
    - apply CropAndResizeBackpropImage_safe with
        (B := B) (H := H) (W := W) (C := C) (N := N) (CH := CH) (CW := CW).
      + repeat split; assumption.
      + unfold dim_size in Hidx. rewrite Hg, Hd1 in Hidx. exact Hidx. }
  destruct Hk as (s' & ->). eexists. reflexivity.
Qed.

End GradImageOpTheorems.

Section GradBoxesOpTheorems.

Context {F T : Type} {FO : FloatOps F} {EO : ElemOps T F}.

(** X21.  [CropAndResizeGradBoxesOp::ComputeAsync] ends in a context on
    every input in which [boxes] has rank 2, [box_index] has rank 1, no
    extent is negative and the box coordinates, mapped with the scale
    of the box-gradient kernel, are indexable for the extents of the
    image and the crop size of [grads], whatever the other extents and
    the values are, when [done] returns: it rejects the input with a
    status or runs the kernel, and no access of it or of the kernel is
    out of range. *)
Theorem CropAndResizeGradBoxesOp_never_undefined (alloc : Allocator F)
    (done : OpKernelContext F T -> OpKernelContext F T)
    (context : OpKernelContext F T) :
  Forall (Z.le 0) (dims (boxes (tensors context))) ->
  Forall (Z.le 0) (dims (box_index (tensors context))) ->
  rank (boxes (tensors context)) = 2 ->
  rank (box_index (tensors context)) = 1 ->
  boxes_indexable2 axis_scale_boxes
    (boxes (tensors context)) (box_index (tensors context))
    (dim_size (image (tensors context)) 0)
    (dim_size (image (tensors context)) 1)
    (dim_size (image (tensors context)) 2)
    (dim_size (boxes (tensors context)) 0)
    (dim_size (grads (tensors context)) 1)
    (dim_size (grads (tensors context)) 2) ->
  exists context',
    CropAndResizeGradBoxesOp_ComputeAsync alloc
      (Some (fun c => Some (done c))) context = Some context'.
Proof.
  intros Hpb Hpi Rb Ri Hidx.
  unfold CropAndResizeGradBoxesOp_ComputeAsync, OP_REQUIRES_ASYNC,
    OP_REQUIRES_OK_ASYNC. cbv beta zeta.
  destruct (Z.eqb_spec (rank (grads (tensors context))) 4) as [R4 | R4];
    [| op_rejects].
  apply rank_4 in R4. destruct R4 as (G & CH & CW & C & Hg).
  unfold dim_size. rewrite Hg. cbn [nth].
  destruct ((0 <? CH) && (0 <? CW)); [| op_rejects].
  destruct (Z.eqb_spec (rank (image (tensors context))) 4) as [I4 | I4];
    [| op_rejects].
  apply rank_4 in I4. destruct I4 as (B & H & W & C' & Himg).
  rewrite Himg. cbn [nth].
  destruct ((0 <? H) && (0 <? W)); [| op_rejects].
  destruct (Z.eqb_spec C' C) as [-> | HCC]; [| op_rejects].
  pose proof (@ParseAndCheckBoxSizes_inv F (boxes (tensors context))
                (box_index (tensors context)) 0) as Hinv.
  destruct (ok (fst (ParseAndCheckBoxSizes _ _ 0))); [| op_rejects].
  specialize (Hinv eq_refl). cbv zeta in Hinv.
  set (N := snd (ParseAndCheckBoxSizes _ _ 0)) in *.
  destruct (Z.eqb_spec G N) as [-> | HGN]; [| op_rejects].
  assert (HN : 0 <= N).
  { destruct Hinv as [(_ & _ & ->) | (Hd & _)]; [lia |].
    apply (Forall_nonneg_nth 0) in Hpb. rewrite Hd in Hpb. exact Hpb. }
  unfold TensorShape. cbn [forallb]. leb_true. cbn [andb].
  destruct (ok (allocate_status alloc [N; 4])); [| op_rejects].
  unfold tensor_view at 1. rewrite Ri. cbn [Z.eqb Pos.eqb].
  apply RunIfBoxIndexIsValid_returns; [exact Ri | exact Hpi |].
  unfold CropAndResizeGradBoxesOp_compute_callback, tensor_view, rank.
  cbn [tensors with_grads_boxes with_tensors grads image boxes box_index
       grads_boxes set_grads_boxes allocated dims].
  apply rank_1 in Ri. destruct Ri as (n & Hbi).
  apply rank_2 in Rb. destruct Rb as (nb & m & Hbx).
  rewrite Hg, Himg, Hbx, Hbi.
  cbn [List.length Z.of_nat Pos.of_succ_nat Pos.succ Z.eqb Pos.eqb].
  assert (Hk : exists s', CropAndResizeBackpropBoxes
                 (set_grads_boxes (tensors context)
                    (allocated alloc [N; 4])) = Some (tt, s')).
  { destruct Hinv as [(_ & _ & HN0) | (Hd1 & Hd2)].
    - apply CropAndResizeBackpropBoxes_no_boxes.
      unfold dimension. cbn [grads set_grads_boxes]. rewrite Hg.
      exact HN0.
    - apply CropAndResizeBackpropBoxes_safe with
        (B := B) (H := H) (W := W) (C := C) (N := N) (CH := CH) (CW := CW).
      + repeat split; assumption.
      + unfold dim_size in Hidx. rewrite Hg, Himg, Hd1 in Hidx. exact Hidx. }
  destruct Hk as (s' & ->). eexists. reflexivity.
Qed.

(** X22.  [CropAndResizeGradBoxesOp3D::ComputeAsync] ends in a context
    on every input in which [boxes] has rank 2, [box_index] has rank 1,
    no extent is negative and the box coordinates, mapped with the
    scale of the box-gradient kernel, are indexable for the extents of
    the image and the crop size of [grads], whatever the other extents
    and the values are, when [done] returns, although its check of the
    crop sizes (line 1049) leaves the crop depth unchecked. *)
Theorem CropAndResizeGradBoxesOp3D_never_undefined (alloc : Allocator F)
    (done : OpKernelContext F T -> OpKernelContext F T)
    (context : OpKernelContext F T) :
  Forall (Z.le 0) (dims (boxes (tensors context))) ->
  Forall (Z.le 0) (dims (box_index (tensors context))) ->
  rank (boxes (tensors context)) = 2 ->
  rank (box_index (tensors context)) = 1 ->
  boxes_indexable3 axis_scale_boxes
    (boxes (tensors context)) (box_index (tensors context))
    (dim_size (image (tensors context)) 0)
    (dim_size (image (tensors context)) 1)
    (dim_size (image (tensors context)) 2)
    (dim_size (image (tensors context)) 3)
    (dim_size (boxes (tensors context)) 0)
    (dim_size (grads (tensors context)) 1)
    (dim_size (grads (tensors context)) 2)
    (dim_size (grads (tensors context)) 3) ->
  exists context',
    CropAndResizeGradBoxesOp3D_ComputeAsync alloc
      (Some (fun c => Some (done c))) context = Some context'.
Proof.
  intros Hpb Hpi Rb Ri Hidx.
  unfold CropAndResizeGradBoxesOp3D_ComputeAsync, OP_REQUIRES_ASYNC,
    OP_REQUIRES_OK_ASYNC. cbv beta zeta.
  destruct (Z.eqb_spec (rank (grads (tensors context))) 5) as [R5 | R5];
    [| op_rejects].
  apply rank_5 in R5. destruct R5 as (G & CH & CW & CD & C & Hg).
  unfold dim_size. rewrite Hg. cbn [nth].
  destruct ((0 <? CH) && (0 <? CW) && (0 <? CH)); [| op_rejects].
  destruct (Z.eqb_spec (rank (image (tensors context))) 5) as [I5 | I5];
    [| op_rejects].
  apply rank_5 in I5. destruct I5 as (B & H & W & D & C' & Himg).
  rewrite Himg. cbn [nth].
  destruct ((0 <? H) && (0 <? W) && (0 <? D)); [| op_rejects].
  destruct (Z.eqb_spec C' C) as [-> | HCC]; [| op_rejects].
  pose proof (@ParseAndCheckBoxSizes3D_inv F (boxes (tensors context))
                (box_index (tensors context)) 0) as Hinv.
  destruct (ok (fst (ParseAndCheckBoxSizes3D _ _ 0))); [| op_rejects].
  specialize (Hinv eq_refl). cbv zeta in Hinv.
  set (N := snd (ParseAndCheckBoxSizes3D _ _ 0)) in *.
  destruct (Z.eqb_spec G N) as [-> | HGN]; [| op_rejects].
  assert (HN : 0 <= N).
  { destruct Hinv as [(_ & _ & ->) | (Hd & _)]; [lia |].
    apply (Forall_nonneg_nth 0) in Hpb. rewrite Hd in Hpb. exact Hpb. }
  unfold TensorShape. cbn [forallb]. leb_true. cbn [andb].
  destruct (ok (allocate_status alloc [N; 6])); [| op_rejects].
  unfold tensor_view at 1. rewrite Ri. cbn [Z.eqb Pos.eqb].
  apply RunIfBoxIndexIsValid_returns; [exact Ri | exact Hpi |].
  unfold CropAndResizeGradBoxesOp3D_compute_callback, tensor_view, rank.
  cbn [tensors with_grads_boxes with_tensors grads image boxes box_index
       grads_boxes set_grads_boxes allocated dims].
  apply rank_1 in Ri. destruct Ri as (n & Hbi).
  apply rank_2 in Rb. destruct Rb as (nb & m & Hbx).
  rewrite Hg, Himg, Hbx, Hbi.
  cbn [List.length Z.of_nat Pos.of_succ_nat Pos.succ Z.eqb Pos.eqb].
  assert (Hk : exists s', CropAndResizeBackpropBoxes3D
                 (set_grads_boxes (tensors context)
                    (allocated alloc [N; 6])) = Some (tt, s')).
  { destruct Hinv as [(_ & _ & HN0) | (Hd1 & Hd2)].
    - apply CropAndResizeBackpropBoxes3D_no_boxes.
      unfold dimension. cbn [grads set_grads_boxes]. rewrite Hg.
      exact HN0.
    - apply CropAndResizeBackpropBoxes3D_safe with
        (B := B) (H := H) (W := W) (D := D) (C := C) (N := N)
        (CH := CH) (CW := CW) (CD := CD).
      + repeat split; assumption.
      + unfold dim_size in Hidx. rewrite Hg, Himg, Hd1 in Hidx. exact Hidx. }
  destruct Hk as (s' & ->). eexists. reflexivity.
Qed.

End GradBoxesOpTheorems.

Section Ops3DTheorems.

Context {F T : Type} {FO : FloatOps F} {EO : ElemOps T F}.

(** X23.  On an image that is at least as deep as it is wide,
    [CropAndResizeOp3D::ComputeAsync] ends in a context on every input
    in which [boxes] has rank 2, [box_index] has rank 1, no extent is
    negative and the box coordinates are indexable for the extents of
    the image and the crop size, whatever the other extents and the
    values are, when [done] returns. *)
Theorem CropAndResizeOp3D_never_undefined (e : F) (alloc : Allocator F)
    (done : OpKernelContext F T -> OpKernelContext F T)
    (context : OpKernelContext F T) :
  Forall (Z.le 0) (dims (image (tensors context))) ->
  Forall (Z.le 0) (dims (boxes (tensors context))) ->
  Forall (Z.le 0) (dims (box_index (tensors context))) ->
  rank (boxes (tensors context)) = 2 ->
  rank (box_index (tensors context)) = 1 ->
  dim_size (image (tensors context)) 2
  <= dim_size (image (tensors context)) 3 ->
  boxes_indexable3 axis_scale
    (boxes (tensors context)) (box_index (tensors context))
    (dim_size (image (tensors context)) 0)
    (dim_size (image (tensors context)) 1)
    (dim_size (image (tensors context)) 2)
    (dim_size (image (tensors context)) 3)
    (dim_size (boxes (tensors context)) 0)
    (elt (size_input context) [0]) (elt (size_input context) [1])
    (elt (size_input context) [2]) ->
  exists context',
    CropAndResizeOp3D_ComputeAsync e alloc (Some (fun c => Some (done c)))
      context = Some context'.
Proof.
  intros Hpim Hpb Hpi Rb Ri HWD Hidx.
  unfold CropAndResizeOp3D_ComputeAsync, OP_REQUIRES_ASYNC,
    OP_REQUIRES_OK_ASYNC. cbv beta zeta.
  destruct (Z.eqb_spec (rank (image (tensors context))) 5) as [I5 | I5];
    [| op_rejects].
  apply rank_5 in I5. destruct I5 as (B & H & W & D & C & Himg).
  assert (HC : 0 <= C) by (apply (Forall_nonneg_nth 4) in Hpim;
                           rewrite Himg in Hpim; exact Hpim).
  unfold dim_size in *. rewrite Himg in *. cbn [nth] in *.
  destruct ((0 <? H) && (0 <? W) && (0 <? D)); [| op_rejects].
  pose proof (@ParseAndCheckBoxSizes3D_inv F (boxes (tensors context))
                (box_index (tensors context)) 0) as Hinv.
  destruct (ok (fst (ParseAndCheckBoxSizes3D _ _ 0))); [| op_rejects].
  specialize (Hinv eq_refl). cbv zeta in Hinv.
  set (N := snd (ParseAndCheckBoxSizes3D _ _ 0)) in *.
  destruct (rank (size_input context) =? 1); [| op_rejects].
  destruct (nth 0 (dims (size_input context)) 0 =? 3); [| op_rejects].
  set (CH := elt (size_input context) [0]).
  set (CW := elt (size_input context) [1]).
  set (CD := elt (size_input context) [2]).
  destruct ((0 <? CH) && (0 <? CW) && (0 <? CD)) eqn:E4; [| op_rejects].
  apply andb_true_iff in E4. destruct E4 as [E4 E4c].
  apply andb_true_iff in E4. rewrite !Z.ltb_lt in E4, E4c.
  assert (HN : 0 <= N).
  { destruct Hinv as [(_ & _ & ->) | (Hd & _)]; [lia |].
    apply (Forall_nonneg_nth 0) in Hpb. rewrite Hd in Hpb. exact Hpb. }
  unfold TensorShape. cbn [forallb]. leb_true. cbn [andb].
  destruct (ok (allocate_status alloc [N; CH; CW; CD; C])); [| op_rejects].
  unfold tensor_view at 1. rewrite Ri. cbn [Z.eqb Pos.eqb].
  apply RunIfBoxIndexIsValid_returns; [exact Ri | exact Hpi |].
  unfold CropAndResizeOp3D_compute_callback, tensor_view, rank.
  cbn [tensors with_tensors image boxes box_index crops set_crops
       allocated dims].
  apply rank_1 in Ri. destruct Ri as (n & Hbi).
  apply rank_2 in Rb. destruct Rb as (nb & m & Hbx).
  rewrite Himg, Hbx, Hbi.
  cbn [List.length Z.of_nat Pos.of_succ_nat Pos.succ Z.eqb Pos.eqb].
  assert (Hk : exists s', CropAndResize3D e
                 (set_crops (tensors context)
                    (allocated alloc [N; CH; CW; CD; C])) = Some (tt, s')).
  { destruct Hinv as [(_ & _ & HN0) | (Hd1 & Hd2)].
    - eexists. apply CropAndResize3D_no_boxes. rewrite HN0. reflexivity.
    - apply CropAndResize3D_returns with
        (B := B) (H := H) (W := W) (D := D) (C := C) (N := N)
        (CH := CH) (CW := CW) (CD := CD); [| | exact HWD].
      + repeat split; try assumption; lia.
      + rewrite Hd1 in Hidx. exact Hidx. }
  destruct Hk as (s' & ->). eexists. reflexivity.
Qed.

(** X24.  When the image size it is given is at least as deep as it is
    wide and its batch size is not negative,
    [CropAndResizeGradImageOp3D::ComputeAsync] ends in a context on
    every input in which [boxes] has rank 2, [box_index] has rank 1, no
    extent is negative and the box coordinates are indexable for the
    extents in [image_size] and the crop size of [grads], whatever the
    other extents and the values are, when [done] returns. *)
Theorem CropAndResizeGradImageOp3D_never_undefined (alloc : Allocator T)
    (done : OpKernelContext F T -> OpKernelContext F T)
    (context : OpKernelContext F T) :
  Forall (Z.le 0) (dims (grads (tensors context))) ->
  Forall (Z.le 0) (dims (box_index (tensors context))) ->
  rank (boxes (tensors context)) = 2 ->
  rank (box_index (tensors context)) = 1 ->
  0 <= elt (size_input context) [0] ->
  elt (size_input context) [2] <= elt (size_input context) [3] ->
  boxes_indexable3 axis_scale
    (boxes (tensors context)) (box_index (tensors context))
    (elt (size_input context) [0]) (elt (size_input context) [1])
    (elt (size_input context) [2]) (elt (size_input context) [3])
    (dim_size (boxes (tensors context)) 0)
    (dim_size (grads (tensors context)) 1)
    (dim_size (grads (tensors context)) 2)
    (dim_size (grads (tensors context)) 3) ->
  exists context',
    CropAndResizeGradImageOp3D_ComputeAsync alloc
      (Some (fun c => Some (done c))) context = Some context'.
Proof.
  intros Hpg Hpi Rb Ri HB HWD Hidx.
  unfold CropAndResizeGradImageOp3D_ComputeAsync, OP_REQUIRES_ASYNC,
    OP_REQUIRES_OK_ASYNC. cbv beta zeta.
  destruct (Z.eqb_spec (rank (grads (tensors context))) 5) as [R5 | R5];
    [| op_rejects].
  apply rank_5 in R5. destruct R5 as (G & CH & CW & CD & C & Hg).
  assert (HC : 0 <= C) by (apply (Forall_nonneg_nth 4) in Hpg;
                           rewrite Hg in Hpg; exact Hpg).
  unfold dim_size. rewrite Hg. cbn [nth].
  destruct ((0 <? CH) && (0 <? CW) && (0 <? CD)); [| op_rejects].
  pose proof (@ParseAndCheckBoxSizes3D_inv F (boxes (tensors context))
                (box_index (tensors context)) 0) as Hinv.
  destruct (ok (fst (ParseAndCheckBoxSizes3D _ _ 0))); [| op_rejects].
  specialize (Hinv eq_refl). cbv zeta in Hinv.
  set (N := snd (ParseAndCheckBoxSizes3D _ _ 0)) in *.
  destruct (Z.eqb_spec G N) as [-> | HGN]; [| op_rejects].
  destruct (rank (size_input context) =? 1); [| op_rejects].
  destruct (nth 0 (dims (size_input context)) 0 =? 5); [| op_rejects].
  set (B := elt (size_input context) [0]) in *.
  set (H := elt (size_input context) [1]).
  set (W := elt (size_input context) [2]) in *.
  set (D := elt (size_input context) [3]) in *.
  set (depth := elt (size_input context) [4]).
  destruct ((0 <? H) && (0 <? W) && (0 <? D)) eqn:E4; [| op_rejects].
  apply andb_true_iff in E4. destruct E4 as [E4 E4c].
  apply andb_true_iff in E4. rewrite !Z.ltb_lt in E4, E4c.
  destruct (Z.eqb_spec C depth) as [<- | HCd]; [| op_rejects].
  unfold TensorShape. cbn [forallb]. leb_true. cbn [andb].
  destruct (ok (allocate_status alloc [B; H; W; D; C])); [| op_rejects].
  unfold tensor_view at 1. rewrite Ri. cbn [Z.eqb Pos.eqb].
  apply RunIfBoxIndexIsValid_returns; [exact Ri | exact Hpi |].
  unfold CropAndResizeGradImageOp3D_compute_callback, tensor_view, rank.
  cbn [tensors with_grads_image with_tensors grads boxes box_index
       grads_image set_grads_image allocated dims].
  apply rank_1 in Ri. destruct Ri as (n & Hbi).
  apply rank_2 in Rb. destruct Rb as (nb & m & Hbx).
  rewrite Hg, Hbx, Hbi.
  cbn [List.length Z.of_nat Pos.of_succ_nat Pos.succ Z.eqb Pos.eqb].
  assert (Hk : exists s', CropAndResizeBackpropImage3D
                 (set_grads_image (tensors context)
                    (allocated alloc [B; H; W; D; C])) = Some (tt, s')).
  { destruct Hinv as [(_ & _ & HN0) | (Hd1 & Hd2)].
    - apply CropAndResizeBackpropImage3D_no_boxes.
      unfold dimension. cbn [grads set_grads_image]. rewrite Hg.
      exact HN0.
    - apply CropAndResizeBackpropImage3D_returns with
        (B := B) (H := H) (W := W) (D := D) (C := C) (N := N)
        (CH := CH) (CW := CW) (CD := CD); [| | exact HWD].
      + repeat split; assumption.
      + unfold dim_size in Hidx. rewrite Hg, Hd1 in Hidx. exact Hidx. }
  destruct Hk as (s' & ->). eexists. reflexivity.
Qed.

End Ops3DTheorems.

(* ================================================================== *)
(** * The image gradient adds up to the incoming gradient *)

Lemma bilinear_unit ds b_in in_y in_x d :
  Qeq (bilinear (F:=Q) {| dims := ds; elt := fun _ => 1%Q |}
         b_in in_y in_x d) 1%Q.
Proof.
  unfold bilinear, lerp.
  cbn [elt fadd fsub fmul of_int to_float Q_FloatOps Q_ElemOps].
  ring.
Qed.

(** X25.  The corner weights of a cell add up to 1: for boxes with valid
    indices, the elements of the image gradient that the 2D kernel
    computes add up to the incoming gradient summed over the cells that
    are mapped into the image. *)
Theorem image_gradient_conserved (s : Store Q Q) (B H W C N CH CW : Z) :
  shapes_grad_image2 B H W C N CH CW s ->
  box_indices_valid s N B ->
  exists s', CropAndResizeBackpropImage s = Some (tt, s') /\
    Qeq (total4 B H W C (grads_image s'))
        (Qsum 0 N (fun b => Qsum 0 CH (fun y => Qsum 0 CW (fun x =>
           Qsum 0 C (fun d => used_grad s H W CH CW b y x d))))).
Proof.
  intros Hsg Hv.
  destruct (CropAndResizeBackpropImage_safe Hsg (@Q_boxes_indexable2 _ _ _ _ _ _ _ _ _))
    as (s' & Hrun).
  exists s'. split; [exact Hrun |].
  destruct Hsg as (Hg & Hbx & Hbi & Hgi).
  set (s0 := with_unit_image s [B; H; W; C]).
  assert (Hloop : gains (grad_image_pinned s0 B H W C)
                    (image_pairing s0 B H W C)
                    (Qsum 0 N (fun b => Qsum 0 CH (fun y => Qsum 0 CW
                       (fun x => Qsum 0 C (fun d =>
                          Qmult (crop_cell s0 0%Q B H W CH CW b y x d)
                                (elt (grads s0) [b; y; x; d]))))))
                    (for_range 0 N (BackpropImage_box B H W CH CW C))).
  { apply gains_for. intros b Hb. apply gains_box. apply (Hv b Hb). }
  unfold CropAndResizeBackpropImage, bind, get_dim, setZero_grads_image,
    dimension in Hrun.
  rewrite Hg, Hgi in Hrun. cbn [nth] in Hrun.
  specialize (Hloop (set_grads_image s (tfill (grads_image s) tzero))).
  unfold wp in Hloop. rewrite Hrun in Hloop.
  destruct Hloop as [_ E]; [repeat split; assumption |].
  unfold image_pairing in E. cbn [grads_image set_grads_image] in E.
  transitivity (dot4 B H W C (image s0) (grads_image s')).
  { unfold total4, dot4. apply Qsum_ext; intros i0 _.
    apply Qsum_ext; intros i1 _. apply Qsum_ext; intros i2 _.
    apply Qsum_ext; intros i3 _. cbn [image s0 with_unit_image elt]. ring. }
  rewrite E. cbn [tzero Q_ElemOps]. rewrite dot4_zero.
  rewrite Qplus_0_l.
  apply Qsum_ext; intros b Hb. apply Qsum_ext; intros y _.
  apply Qsum_ext; intros x _. apply Qsum_ext; intros d _.
  pose proof (Hv b Hb) as Hvb. apply FastBoundsCheck_true in Hvb.
  unfold crop_cell, used_grad, in_y_of, in_x_of.
  cbn [boxes box_index grads image s0 with_unit_image].
  rewrite Hvb. cbn [negb].
  destruct (out_of_image _ H); [ring |].
  destruct (out_of_image _ W); [ring |].
  rewrite bilinear_unit. ring.
Qed.

(* ================================================================== *)
(** * An image without slope has no box gradient *)

Section Keeps.

Context {F T : Type} {FO : FloatOps F} {EO : ElemOps T F}.

Variable I : Store F T -> Prop.

Lemma keeps_ret {A} (a : A) : keeps I (ret a).
Proof. intros s Hs. apply wp_ret. exact Hs. Qed.

Lemma keeps_bind {A B} (m : M F T A) (k : A -> M F T B) :
  keeps I m -> (forall a, keeps I (k a)) -> keeps I (bind m k).
Proof.
  intros Hm Hk s Hs. apply wp_bind. eapply wp_conseq; [apply Hm, Hs |].
  intros a s' Hs'. apply Hk. exact Hs'.
Qed.

(** A read hands on what the invariant says of the element read. *)
Lemma keeps_read {A B} (sel : Store F T -> Tensor A) ix (P : A -> Prop)
    (k : A -> M F T B) :
  (forall s, I s -> in_range (dims (sel s)) ix = true ->
     P (elt (sel s) ix)) ->
  (forall a, P a -> keeps I (k a)) ->
  keeps I (bind (read sel ix) k).
Proof.
  intros HP Hk s Hs. apply wp_bind. apply wp_read; [auto |].
  intros Hin. apply Hk; [apply HP; assumption | exact Hs].
Qed.

Lemma keeps_for lo hi body :
  (forall j, lo <= j < hi -> keeps I (body j)) ->
  keeps I (for_range lo hi body).
Proof.
  intros Hb s Hs. apply wp_for_inv; [exact Hs |].
  intros j s' Hj Hs'. apply Hb; assumption.
Qed.

End Keeps.

Section NoSlope.

Variable img : Tensor Q.
Variables B H W C : Z.

Hypothesis img_dims : dims img = [B; H; W; C].

Hypothesis no_slope : forall i y x y' x' d,
  0 <= i < B -> 0 <= y < H -> 0 <= x < W -> 0 <= y' < H -> 0 <= x' < W ->
  0 <= d < C ->
  Qeq (elt img [i; y; x; d]) (elt img [i; y'; x'; d]).

Let I := box_gradient_null img.

(** What a read of the image hands on: the element is that of the pixel
    and the pixel is in the image. *)
Let pixel (i y x d : Z) (a : Q) : Prop :=
  a = elt img [i; y; x; d] /\
  (0 <= i < B /\ 0 <= y < H /\ 0 <= x < W /\ 0 <= d < C).

Lemma keeps_read_pixel {A} i y x d (k : Q -> M Q Q A) :
  (forall a, pixel i y x d a -> keeps I (k a)) ->
  keeps I (bind (read image [i; y; x; d]) k).
Proof.
  apply keeps_read. intros s [Himg _] Hin. rewrite Himg in *.
  split; [reflexivity |]. rewrite img_dims in Hin.
  now apply in_range4 in Hin.
Qed.

Lemma keeps_add_null ix v :
  Qeq v 0%Q -> keeps I (add_grads_boxes ix v).
Proof.
  intros Hv s [Himg Hz]. apply wp_add_grads_boxes; [auto |]. intros _.
  split; [exact Himg |]. intros jx.
  cbn [grads_boxes set_grads_boxes]. unfold tadd_at, tupdate. cbn [elt].
  destruct (idx_eqb jx ix); [| apply Hz].
  cbn [fadd Q_FloatOps]. rewrite (Hz ix), Hv. reflexivity.
Qed.

Lemma keeps_seq_null {A} ix v (k : unit -> M Q Q A) :
  Qeq v 0%Q -> keeps I (k tt) -> keeps I (bind (add_grads_boxes ix v) k).
Proof.
  intros Hv Hk. apply keeps_bind; [now apply keeps_add_null |].
  intros []. exact Hk.
Qed.

Lemma BackpropBoxes_channel_null CH CW b b_in hr wr y x top bottom y_lerp
    left right x_lerp d :
  keeps I
    (BackpropBoxes_channel H W CH CW b b_in hr wr y x top bottom y_lerp
       left right x_lerp d).
Proof.
  unfold BackpropBoxes_channel.
  apply keeps_read_pixel. intros tl (-> & Hi & Ht & Hl & Hd).
  apply keeps_read_pixel. intros tr (-> & _ & _ & Hr & _).
  apply keeps_read_pixel. intros bl (-> & _ & Hb & _ & _).
  apply keeps_read_pixel. intros br (-> & _).
  pose proof (no_slope Hi Ht Hr Ht Hl Hd) as Etr.
  pose proof (no_slope Hi Hb Hl Ht Hl Hd) as Ebl.
  pose proof (no_slope Hi Hb Hr Ht Hl Hd) as Ebr.
  cbv zeta.
  apply keeps_read with (P := fun _ => True); [auto |].
  intros top_grad _. cbv zeta.
  cbn [fadd fsub fmul of_int to_float fhalf Q_FloatOps Q_ElemOps].
  destruct (1 <? CH); destruct (1 <? CW);
    (apply keeps_bind;
     [ apply keeps_seq_null; [| apply keeps_add_null]
     | intros []; apply keeps_seq_null; [| apply keeps_add_null] ]);
    rewrite ?Etr, ?Ebl, ?Ebr; ring.
Qed.

Lemma BackpropBoxes_box_null batch_size CH CW b :
  keeps I (BackpropBoxes_box batch_size H W CH CW C b).
Proof.
  unfold BackpropBoxes_box.
  do 4 (apply keeps_read with (P := fun _ => True); [auto |];
        intros ? _).
  apply keeps_read with (P := fun _ => True); [auto |]. intros b_in _.
  destruct (negb _); [apply keeps_ret |]. cbv zeta.
  apply keeps_for. intros y _. unfold BackpropBoxes_row. cbv zeta.
  destruct (out_of_image _ H); [apply keeps_ret |].
  apply keeps_for. intros x _. unfold BackpropBoxes_col. cbv zeta.
  destruct (out_of_image _ W); [apply keeps_ret |].
  apply keeps_for. intros d _. apply BackpropBoxes_channel_null.
Qed.

End NoSlope.

(** X26.  An image without slope has no box gradient: when every
    channel of every image of the batch is constant over the pixels, a
    move of a box does not change its crop, and every entry of the box
    gradient that the 2D kernel computes is 0, whatever the incoming
    gradient is. *)
Theorem constant_image_box_gradient_zero (s : Store Q Q)
    (B H W C N CH CW : Z) :
  shapes_grad_boxes2 B H W C N CH CW s ->
  (forall i y x y' x' d,
     0 <= i < B -> 0 <= y < H -> 0 <= x < W -> 0 <= y' < H ->
     0 <= x' < W -> 0 <= d < C ->
     Qeq (elt (image s) [i; y; x; d]) (elt (image s) [i; y'; x'; d])) ->
  exists s', CropAndResizeBackpropBoxes s = Some (tt, s') /\
    forall b k, Qeq (elt (grads_boxes s') [b; k]) 0%Q.
Proof.
  intros Hsg Hflat.
  destruct (CropAndResizeBackpropBoxes_safe Hsg (@Q_boxes_indexable2 _ _ _ _ _ _ _ _ _))
    as (s' & Hrun).
  exists s'. split; [exact Hrun |].
  destruct Hsg as (Hg & Hbx & Hbi & Him & Hgb).
  unfold CropAndResizeBackpropBoxes, bind, get_dim, setZero_grads_boxes,
    dimension in Hrun.
  rewrite Hg, Him in Hrun. cbn [nth] in Hrun.
  pose proof (@keeps_for Q Q (box_gradient_null (image s)) 0 N
                (BackpropBoxes_box B H W CH CW C)
                (fun b _ =>
                   @BackpropBoxes_box_null (image s) B H W C Him Hflat
                     B CH CW b))
    as Hloop.
  specialize (Hloop (set_grads_boxes s (tfill (grads_boxes s) (of_int 0)))).
  unfold wp in Hloop. rewrite Hrun in Hloop.
  destruct Hloop as [_ Hz].
  - split; [reflexivity |]. intros ix. reflexivity.
  - intros b k. apply Hz.
Qed.

(* ================================================================== *)
(** * What an OK status of the forward op means *)

Lemma box_index_cases (bi : Tensor Z) (B n : Z) :
  (forall b, 0 <= b < n -> 0 <= elt bi [b] < B) \/
  (exists b, 0 <= b < n /\ ~ (0 <= elt bi [b] < B)).
Proof.
  destruct (Z_lt_le_dec n 0) as [Hneg | Hn]; [left; intros b Hb; lia |].
  pattern n. apply natlike_ind; [left; intros b Hb; lia | | exact Hn].
  intros k Hk [IH | (b & Hb & Hbad)].
  - destruct (FastBoundsCheck (elt bi [k]) B) eqn:E.
    + left. intros b Hb. destruct (Z.eq_dec b k) as [-> | Hne].
      * now apply FastBoundsCheck_true.
      * apply IH. lia.
    + right. exists k. split; [lia |]. intros Hc.
      apply FastBoundsCheck_true in Hc. congruence.
  - right. exists b. split; [lia | exact Hbad].
Qed.

Lemma SetStatus_not_ok {F T} st (context : OpKernelContext F T) :
  ok (status context) = true -> ok st = false ->
  ok (status (SetStatus st context)) = false.
Proof. intros H1 H2. unfold SetStatus. rewrite H1. exact H2. Qed.

(* A check of the op that fails leaves a status that is not OK. *)
Ltac op_rejected Hrun Hok Hok' :=
  exfalso; cbn [call] in Hrun; injection Hrun as Hrun; subst;
  rewrite SetStatus_not_ok in Hok';
  [ discriminate | exact Hok | first [ reflexivity | assumption ] ].

Section ForwardOpStatus.

Context {F T : Type} {FO : FloatOps F} {EO : ElemOps T F}.

(** X27.  [CropAndResizeOp::ComputeAsync] leaves an OK status only when
    it has computed the crops: if the status is OK before and after the
    op, then every box index is in the batch and every cell of the
    output holds the extrapolation value or the bilinear sample. *)
Theorem CropAndResizeOp_ok_means_computed (e : F) (alloc : Allocator F)
    (context context' : OpKernelContext F T) :
  ok (status context) = true ->
  CropAndResizeOp_ComputeAsync e alloc (Some (fun c => Some c)) context
  = Some context' ->
  ok (status context') = true ->
  let s := tensors context in
  let s' := tensors context' in
  exists B H W C N CH CW,
    dims (image s) = [B; H; W; C] /\
    dims (box_index s) = [N] /\
    dims (crops s') = [N; CH; CW; C] /\
    box_indices_valid s N B /\
    forall b y x d,
      0 <= b < N -> 0 <= y < CH -> 0 <= x < CW -> 0 <= d < C ->
      elt (crops s') [b; y; x; d]
      = if out_of_image (in_y_of s H CH b y) H then e
        else if out_of_image (in_x_of s W CW b x) W then e
        else bilinear (image s) (elt (box_index s) [b])
               (in_y_of s H CH b y) (in_x_of s W CW b x) d.
Proof.
  intros Hok Hrun Hok' s s'.
  unfold CropAndResizeOp_ComputeAsync, OP_REQUIRES_ASYNC,
    OP_REQUIRES_OK_ASYNC in Hrun. cbv beta zeta in Hrun.
  destruct (Z.eqb_spec (rank (image (tensors context))) 4) as [R4 | R4];
    [| op_rejected Hrun Hok Hok'].
  apply rank_4 in R4. destruct R4 as (B & H & W & C & Himg).
  unfold dim_size in Hrun. rewrite Himg in Hrun. cbn [nth] in Hrun.
  destruct ((0 <? H) && (0 <? W)); [| op_rejected Hrun Hok Hok'].
  pose proof (@ParseAndCheckBoxSizes_inv F (boxes (tensors context))
                (box_index (tensors context)) 0) as Hinv.
  destruct (ok (fst (ParseAndCheckBoxSizes _ _ 0))) eqn:E3;
    [| op_rejected Hrun Hok Hok'].
  specialize (Hinv eq_refl). cbv zeta in Hinv.
  set (N := snd (ParseAndCheckBoxSizes _ _ 0)) in *.
  destruct (rank (size_input context) =? 1);
    [| op_rejected Hrun Hok Hok'].
  destruct (nth 0 (dims (size_input context)) 0 =? 2);
    [| op_rejected Hrun Hok Hok'].
  set (CH := elt (size_input context) [0]) in *.
  set (CW := elt (size_input context) [1]) in *.
  destruct ((0 <? CH) && (0 <? CW)); [| op_rejected Hrun Hok Hok'].
  unfold TensorShape in Hrun.
  destruct (forallb (Z.leb 0) [N; CH; CW; C]) eqn:Epos; [| discriminate].
  cbn [forallb] in Epos. rewrite !andb_true_iff, !Z.leb_le in Epos.
  destruct Epos as (HN & HCH & HCW & HC & _).
  destruct (ok (allocate_status alloc [N; CH; CW; C])) eqn:Ealloc;
    [| op_rejected Hrun Hok Hok'].
  unfold tensor_view at 1 in Hrun.
  destruct (Z.eqb_spec (rank (box_index (tensors context))) 1)
    as [R1 | R1]; [| discriminate].
  apply rank_1 in R1. destruct R1 as (n & Hbi).
  assert (n = N) as ->.
  { destruct Hinv as [(_ & Hz & HN0) | (_ & Hd)].
    - unfold NumElements in Hz. rewrite Hbi in Hz. cbn in Hz. lia.
    - rewrite Hbi in Hd. now injection Hd. }
  exists B, H, W, C, N, CH, CW.
  split; [exact Himg |]. split; [exact Hbi |].
  unfold RunIfBoxIndexIsValid, dimension in Hrun. rewrite Hbi in Hrun.
  cbn [nth] in Hrun.
  set (context1 := with_tensors _ context) in Hrun.
  destruct (box_index_cases (box_index s) B N) as [Hv | (b & Hb & Hbad)].
  2:{ rewrite RunIfBoxIndexIsValid_loop_invalid with (n0 := N) (k := b)
        in Hrun; [| exact Hbi | lia | lia | lia | exact Hbad].
      op_rejected Hrun Hok Hok'. }
  rewrite RunIfBoxIndexIsValid_loop_valid with (n0 := N) in Hrun;
    [| exact Hbi | lia | lia | intros k Hk; apply Hv; lia].
  cbn [call_if_set] in Hrun.
  unfold CropAndResizeOp_compute_callback, tensor_view in Hrun.
  destruct (rank (image (tensors context1)) =? 4); [| discriminate].
  destruct (rank (boxes (tensors context1)) =? 2) eqn:R2; [| discriminate].
  destruct (rank (box_index (tensors context1)) =? 1); [| discriminate].
  destruct (rank (crops (tensors context1)) =? 4); [| discriminate].
  destruct (CropAndResize e (tensors context1)) as [[[] s1] |] eqn:Hk;
    [| discriminate].
  unfold report_launch in Hrun. cbn [negb] in Hrun.
  injection Hrun as Hrun. subst context'. subst s'.
  cbn [tensors with_tensors]. cbn [tensors context1 with_tensors] in Hk.
  destruct Hinv as [(_ & _ & HN0) | (Hd1 & Hd2)].
  - rewrite CropAndResize_no_boxes in Hk
      by (unfold dimension; cbn [crops set_crops allocated dims nth];
          exact HN0).
    injection Hk as <-. cbn [crops set_crops allocated dims].
    split; [reflexivity |]. split; [exact Hv |].
    intros b y x d Hb. lia.
  - assert (Hs : shapes2 (set_crops s (allocated alloc [N; CH; CW; C]))
                   B H W C N CH CW).
    { repeat split; assumption. }
    destruct (CropAndResize_cells e Hs Hk) as (Hf & Hcell).
    destruct Hf as (_ & _ & _ & _ & _ & _ & F7).
    split; [exact F7 |]. split; [exact Hv |].
    intros b y x d Hb Hy Hx Hd. rewrite (Hcell b y x d Hb Hy Hx Hd).
    unfold crop_cell. cbn [boxes box_index image set_crops].
    replace (FastBoundsCheck (elt (box_index s) [b]) B) with true
      by (symmetry; apply FastBoundsCheck_true; apply Hv; exact Hb).
    reflexivity.
Qed.

End ForwardOpStatus.

(* ================================================================== *)
(** * The shards of the forward kernel *)

Section RowsRespected.

Context {F T : Type} {FO : FloatOps F} {EO : ElemOps T F}.

Lemma respects_write_crops_rows lo ix (v : F) :
  respects (T:=T) (agree_rows_from lo) (write_crops ix v).
Proof.
  intros s1 s2 (H1 & H2 & H3 & H4 & H5 & H6 & Hd & Hrows).
  unfold write_crops. rewrite Hd.
  destruct (in_range _ _); [| exact I].
  split; [reflexivity |]. unfold agree_rows_from.
  cbn [image boxes box_index grads grads_image grads_boxes crops set_crops
       tupdate dims elt].
  repeat split; try assumption.
  intros b rest Hb. rewrite (Hrows b rest Hb). reflexivity.
Qed.

Lemma keeps_write_other (s0 : Store F T) b' b y x d (v : F) :
  b <> b' -> keeps (row_kept s0 b') (write_crops [b; y; x; d] v).
Proof.
  intros Hne s Hs. apply wp_write_crops; [auto |]. intros _ rest.
  cbn [crops set_crops tupdate elt].
  destruct (idx_eqb (b' :: rest) [b; y; x; d]) eqn:E; [| apply Hs].
  apply idx_eqb_eq in E. injection E as -> _. contradiction.
Qed.

End RowsRespected.

Ltac rows_side :=
  let H := fresh in
  intros ? ? H; cbv [agree_rows_from] in H; intuition congruence.

Ltac rows_step :=
  lazymatch goal with
  | |- respects _ (bind _ _) => apply respects_bind; [| intros ?]
  | |- respects _ (ret _) => apply respects_ret
  | |- respects _ (for_range _ _ _) => apply respects_for; intros ?
  | |- respects _ (read _ _) => apply respects_read; rows_side
  | |- respects _ (write_crops _ _) => apply respects_write_crops_rows
  | |- respects _ (if ?c then _ else _) => destruct c
  | |- respects _ (let x := _ in _) => cbv zeta
  end.

Ltac keeps_reads :=
  repeat (apply keeps_read with (P := fun _ => True); [auto |];
          intros ? _).

Section Shards.

Context {F T : Type} {FO : FloatOps F} {EO : ElemOps T F}.

Lemma CropAndResizePerBox_respects_rows B H W CH CW C (e : F) lo a b :
  respects (T:=T) (agree_rows_from lo)
    (CropAndResizePerBox B H W CH CW C e a b).
Proof. autounfold with kernel_bodies. repeat rows_step. Qed.

Lemma CropAndResize_box_row_kept (s0 : Store F T) B H W CH CW C e b b' :
  b <> b' ->
  keeps (row_kept s0 b') (CropAndResize_box B H W CH CW C e b).
Proof.
  intros Hne. unfold CropAndResize_box. keeps_reads.
  destruct (negb _); [apply keeps_ret |]. cbv zeta.
  apply keeps_for. intros y _. unfold CropAndResize_row. cbv zeta.
  destruct (out_of_image _ H).
  { apply keeps_for. intros x _. apply keeps_for. intros d _.
    now apply keeps_write_other. }
  apply keeps_for. intros x _. unfold CropAndResize_col. cbv zeta.
  destruct (out_of_image _ W).
  { apply keeps_for. intros d _. now apply keeps_write_other. }
  apply keeps_for. intros d _. unfold CropAndResize_channel.
  keeps_reads. cbv zeta. now apply keeps_write_other.
Qed.

Lemma crop_cell_done_below (s : Store F T) e B H W CH CW lo b y x d :
  crop_cell (set_crops s (crops_done_below s e B H W CH CW lo))
    e B H W CH CW b y x d
  = crop_cell s e B H W CH CW b y x d.
Proof.
  unfold crop_cell.
  cbn [boxes box_index image crops set_crops crops_done_below elt].
  unfold crop_cell.
  destruct (negb _); [| reflexivity].
  destruct (b <? lo); reflexivity.
Qed.

(** What a shard does: [CropAndResizePerBox] on the range [lo, hi)
    writes the cells of the boxes of the range and nothing else. *)
Lemma CropAndResizePerBox_range (s : Store F T) (e : F)
    (B H W C N CH CW lo hi : Z) :
  shapes2 s B H W C N CH CW ->
  boxes_indexable2 axis_scale (boxes s) (box_index s) B H W N CH CW ->
  0 <= lo <= hi -> hi <= N ->
  exists s',
    CropAndResizePerBox B H W CH CW C e lo hi s = Some (tt, s') /\
    crops_frame s s' /\
    forall b y x d,
      0 <= b < N -> 0 <= y < CH -> 0 <= x < CW -> 0 <= d < C ->
      elt (crops s') [b; y; x; d]
      = if (lo <=? b) && (b <? hi)
        then crop_cell s e B H W CH CW b y x d
        else elt (crops s) [b; y; x; d].
Proof.
  intros Hs Hc Hlo Hhi.
  set (s1 := set_crops s (crops_done_below s e B H W CH CW lo)).
  assert (Hs1 : shapes2 s1 B H W C N CH CW).
  { destruct Hs as (H1 & H2 & H3 & H4 & H5). repeat split; try assumption;
      lia. }
  (* the shard from the store in which the boxes below are done *)
  assert (Hwp : wp False (CropAndResizePerBox B H W CH CW C e lo hi)
                  (fun _ => Inv4 s1 (crop_cell s1 e B H W CH CW)
                              N CH CW C hi 0 0 0) s1).
  { unfold CropAndResizePerBox.
    apply wp_for with
      (I := fun b => Inv4 s1 (crop_cell s1 e B H W CH CW) N CH CW C b 0 0 0);
      [lia | |].
    - split; [repeat split |]. intros b y x d Hb Hy Hx Hd.
      split; [| reflexivity]. intros Hbf.
      assert (Hlt : (b <? lo) = true)
        by (apply Z.ltb_lt; unfold before4 in Hbf; lia).
      unfold s1 at 1. cbn [crops set_crops crops_done_below elt].
      rewrite Hlt. symmetry. apply crop_cell_done_below.
    - intros b s' Hb HI.
      apply Inv4_box; [exact Hs1 | right; exact Hc | lia | exact HI]. }
  unfold wp in Hwp.
  destruct (CropAndResizePerBox B H W CH CW C e lo hi s1)
    as [[[] s1'] |] eqn:E1; [| contradiction].
  destruct Hwp as [Hf1 Hc1].
  (* the same shard from [s] *)
  assert (HR : agree_rows_from lo s s1).
  { unfold agree_rows_from, s1.
    cbn [image boxes box_index grads grads_image grads_boxes crops
         set_crops crops_done_below dims elt].
    repeat split. intros b rest Hb.
    destruct rest as [|y [|x [|d [|? ?]]]]; try reflexivity.
    replace (b <? lo) with false by (symmetry; apply Z.ltb_ge; lia).
    reflexivity. }
  pose proof (@CropAndResizePerBox_respects_rows B H W CH CW C e lo lo hi
                s s1 HR) as Hres.
  rewrite E1 in Hres.
  destruct (CropAndResizePerBox B H W CH CW C e lo hi s)
    as [[[] s'] |] eqn:E; [| contradiction].
  destruct Hres as [_ (R1 & R2 & R3 & R4 & R5 & R6 & R7 & Rrows)].
  destruct Hf1 as (F1 & F2 & F3 & F4 & F5 & F6 & F7).
  exists s'. split; [reflexivity |]. split.
  { unfold s1 in *.
    cbn [image boxes box_index grads grads_image grads_boxes crops
         set_crops crops_done_below dims] in *.
    repeat split; congruence. }
  intros b y x d Hb Hy Hx Hd.
  destruct (Z.leb_spec lo b) as [Hge | Hlt]; cbn [andb].
  - rewrite (Rrows b [y; x; d] Hge).
    destruct (Hc1 b y x d Hb Hy Hx Hd) as [Hin Hout].
    destruct (Z.ltb_spec b hi) as [Hb2 | Hb2].
    + rewrite Hin by (unfold before4; lia). apply crop_cell_done_below.
    + rewrite Hout by (unfold before4; lia).
      unfold s1. cbn [crops set_crops crops_done_below elt].
      replace (b <? lo) with false by (symmetry; apply Z.ltb_ge; lia).
      reflexivity.
  - assert (Hk : keeps (row_kept s b)
                   (CropAndResizePerBox B H W CH CW C e lo hi)).
    { unfold CropAndResizePerBox. apply keeps_for. intros j Hj.
      apply CropAndResize_box_row_kept. lia. }
    specialize (Hk s (fun rest => eq_refl)). unfold wp in Hk.
    rewrite E in Hk. apply Hk.
Qed.

Lemma covered_cons lo hi l b :
  covered ((lo, hi) :: l) b = ((lo <=? b) && (b <? hi)) || covered l b.
Proof. reflexivity. Qed.

Lemma crop_cell_stable (s s' : Store F T) e B H W CH CW b y x d :
  crops_frame s s' ->
  (elt (crops s') [b; y; x; d] = crop_cell s e B H W CH CW b y x d \/
   elt (crops s') [b; y; x; d] = elt (crops s) [b; y; x; d]) ->
  crop_cell s' e B H W CH CW b y x d = crop_cell s e B H W CH CW b y x d.
Proof.
  intros (F1 & F2 & F3 & _) Hc. unfold crop_cell in *.
  rewrite F1, F2, F3 in *.
  destruct (negb _); [| reflexivity]. destruct Hc; assumption.
Qed.

Lemma crops_frame_trans (s1 s2 s3 : Store F T) :
  crops_frame s1 s2 -> crops_frame s2 s3 -> crops_frame s1 s3.
Proof. unfold crops_frame. intuition congruence. Qed.

Lemma run_shards_cells (e : F) (B H W C N CH CW : Z) (l : list (Z * Z)) :
  forall s : Store F T,
  shapes2 s B H W C N CH CW ->
  boxes_indexable2 axis_scale (boxes s) (box_index s) B H W N CH CW ->
  Forall (fun r => 0 <= fst r <= snd r /\ snd r <= N) l ->
  exists s',
    run_shards (CropAndResizePerBox B H W CH CW C e) l s = Some (tt, s') /\
    crops_frame s s' /\
    forall b y x d,
      0 <= b < N -> 0 <= y < CH -> 0 <= x < CW -> 0 <= d < C ->
      elt (crops s') [b; y; x; d]
      = if covered l b then crop_cell s e B H W CH CW b y x d
        else elt (crops s) [b; y; x; d].
Proof.
  induction l as [| [lo hi] l IH]; intros s Hs Hidx Hl.
  - exists s. split; [reflexivity |]. split; [repeat split |].
    intros; reflexivity.
  - inversion Hl as [| ? ? [Hr1 Hr2] Hl']; subst. cbn [fst snd] in *.
    destruct (CropAndResizePerBox_range e Hs Hidx Hr1 Hr2)
      as (s1 & E1 & Hf1 & Hc1).
    assert (Hc' : boxes_indexable2 axis_scale (boxes s1) (box_index s1)
                    B H W N CH CW).
    { destruct Hf1 as (_ & -> & -> & _). exact Hidx. }
    destruct (IH s1 (shapes2_frame Hs Hf1) Hc' Hl')
      as (s2 & E2 & Hf2 & Hc2).
    exists s2. split.
    { cbn [run_shards]. unfold bind. rewrite E1. exact E2. }
    split; [exact (crops_frame_trans Hf1 Hf2) |].
    intros b y x d Hb Hy Hx Hd.
    rewrite (Hc2 b y x d Hb Hy Hx Hd), covered_cons.
    pose proof (Hc1 b y x d Hb Hy Hx Hd) as Hc.
    assert (Hst : crop_cell s1 e B H W CH CW b y x d
                  = crop_cell s e B H W CH CW b y x d).
    { apply crop_cell_stable; [exact Hf1 |].
      destruct ((lo <=? b) && (b <? hi)); [left | right]; exact Hc. }
    destruct (covered l b); [rewrite Hst, orb_true_r; reflexivity |].
    rewrite orb_false_r. exact Hc.
Qed.

(** X28.  The shards of the 2D forward kernel may run in any order: on
    tensors of consistent extents whose box coordinates are indexable,
    a sequence of calls of [CropAndResizePerBox] on ranges that
    together contain every box, sorted or not, overlapping or not,
    returns and leaves the crops that the kernel leaves. *)
Theorem shards_in_any_order (s : Store F T) (e : F)
    (B H W C N CH CW : Z) (l : list (Z * Z)) :
  shapes2 s B H W C N CH CW ->
  boxes_indexable2 axis_scale (boxes s) (box_index s) B H W N CH CW ->
  Forall (fun r => 0 <= fst r <= snd r /\ snd r <= N) l ->
  (forall b, 0 <= b < N -> covered l b = true) ->
  exists s1 s2,
    CropAndResize e s = Some (tt, s1) /\
    run_shards (CropAndResizePerBox B H W CH CW C e) l s = Some (tt, s2) /\
    same_tensor (crops s1) (crops s2).
Proof.
  intros Hs Hc Hl Hcov.
  destruct (CropAndResize_correct e Hs Hc) as (s1 & E1 & Hf1 & Hc1).
  destruct (@run_shards_cells e B H W C N CH CW l s Hs Hc Hl)
    as (s2 & E2 & Hf2 & Hc2).
  exists s1, s2. split; [exact E1 |]. split; [exact E2 |].
  destruct Hf1 as (_ & _ & _ & _ & _ & _ & D1).
  destruct Hf2 as (_ & _ & _ & _ & _ & _ & D2).
  split; [congruence |]. intros ix Hin.
  rewrite D1 in Hin. destruct Hs as (_ & _ & _ & Hd & _).
  rewrite Hd in Hin.
  destruct (in_range4_inv _ _ _ _ _ Hin)
    as (b & y & x & d & -> & Hb & Hy & Hx & Hd').
  rewrite (Hc1 b y x d Hb Hy Hx Hd'), (Hc2 b y x d Hb Hy Hx Hd').
  now rewrite (Hcov b Hb).
Qed.

End Shards.

(* ================================================================== *)
(** * The box gradient in closed form *)

Lemma Qsum_from_scale n c : forall lo f,
  (c * Qsum_from n lo f == Qsum_from n lo (fun k => c * f k))%Q.
Proof.
  induction n as [|n IH]; intros lo f; simpl Qsum_from; [ring |].
  rewrite <- IH. ring.
Qed.

Lemma Qsum_scale lo hi c f :
  (c * Qsum lo hi f == Qsum lo hi (fun k => c * f k))%Q.
Proof. apply Qsum_from_scale. Qed.

Lemma Qsum_from_minus n : forall lo f g,
  (Qsum_from n lo f - Qsum_from n lo g
   == Qsum_from n lo (fun k => f k - g k))%Q.
Proof.
  induction n as [|n IH]; intros lo f g; simpl Qsum_from; [ring |].
  rewrite <- IH. ring.
Qed.

Lemma Qsum_minus lo hi f g :
  (Qsum lo hi f - Qsum lo hi g == Qsum lo hi (fun k => f k - g k))%Q.
Proof. apply Qsum_from_minus. Qed.

Section BoxGains.

Variable s0 : Store Q Q.
Variables B H W C N CH CW : Z.
Variable ix0 : list Z.

Let Pin := grad_boxes_pinned s0 N.
Let phi (s : Store Q Q) : Q := elt (grads_boxes s) ix0.
Let term := box_gradient_term s0 B H W CH CW ix0.

Lemma gains_add_grads_boxes ix v :
  gains Pin phi (hit ix0 ix v) (add_grads_boxes ix v).
Proof.
  intros s HP. apply wp_add_grads_boxes; [auto |]. intros _.
  destruct HP as (H1 & H2 & H3 & H4 & H5).
  split; [repeat split; assumption |].
  unfold phi, hit. cbn [grads_boxes set_grads_boxes].
  unfold tadd_at, tupdate. cbn [elt].
  destruct (idx_eqb ix0 ix) eqn:E; [| ring].
  apply idx_eqb_eq in E. subst ix. reflexivity.
Qed.

Lemma gains_boxes_channel b b_in y x top bottom y_lerp left right x_lerp d :
  let tl := to_float (elt (image s0) [b_in; top; left; d]) in
  let tr := to_float (elt (image s0) [b_in; top; right; d]) in
  let bl := to_float (elt (image s0) [b_in; bottom; left; d]) in
  let br := to_float (elt (image s0) [b_in; bottom; right; d]) in
  let g := elt (grads s0) [b; y; x; d] in
  let gy := image_grad_y2 tl tr bl br x_lerp g in
  let gx := image_grad_x2 tl tr bl br y_lerp g in
  gains Pin phi
    (Qplus
       (Qplus (hit ix0 [b; 0] (endpoint1_term gy H CH (axis_ratio H CH) y))
              (hit ix0 [b; 2] (endpoint2_term gy H CH (axis_ratio H CH) y)))
       (Qplus (hit ix0 [b; 1] (endpoint1_term gx W CW (axis_ratio W CW) x))
              (hit ix0 [b; 3] (endpoint2_term gx W CW (axis_ratio W CW) x))))
    (BackpropBoxes_channel H W CH CW b b_in
       (axis_ratio H CH) (axis_ratio W CW) y x top bottom y_lerp
       left right x_lerp d).
Proof.
  cbv zeta. unfold BackpropBoxes_channel.
  do 4 (apply gains_read with (t := image s0); [intros s HP; apply HP |]).
  cbv zeta.
  apply gains_read with (t := grads s0); [intros s HP; apply HP |].
  cbv zeta.
  unfold endpoint1_term, endpoint2_term, image_grad_y2, image_grad_x2.
  destruct (1 <? CH); destruct (1 <? CW);
    (apply gains_seq;
     [ apply gains_seq; apply gains_add_grads_boxes
     | apply gains_seq; apply gains_add_grads_boxes ]).
Qed.

Lemma gains_boxes_box b :
  gains Pin phi
    (Qsum 0 CH (fun y => Qsum 0 CW (fun x => Qsum 0 C (fun d =>
       term b y x d))))
    (BackpropBoxes_box B H W CH CW C b).
Proof.
  unfold BackpropBoxes_box.
  do 4 (apply gains_read with (t := boxes s0); [intros s HP; apply HP |]).
  apply gains_read with (t := box_index s0); [intros s HP; apply HP |].
  unfold term, box_gradient_term.
  destruct (negb (FastBoundsCheck (elt (box_index s0) [b]) B)).
  { eapply gains_eq; [| apply gains_ret]. symmetry.
    apply Qsum_zero; intros y _. apply Qsum_zero; intros x _.
    apply Qsum_zero; intros d _. reflexivity. }
  cbv zeta.
  apply gains_for. intros y Hy. unfold BackpropBoxes_row. cbv zeta.
  destruct (out_of_image _ H).
  { eapply gains_eq; [| apply gains_ret]. symmetry.
    apply Qsum_zero; intros x _. apply Qsum_zero; intros d _.
    reflexivity. }
  apply gains_for. intros x Hx. unfold BackpropBoxes_col. cbv zeta.
  destruct (out_of_image _ W).
  { eapply gains_eq; [| apply gains_ret]. symmetry.
    apply Qsum_zero; intros d _. reflexivity. }
  apply gains_for. intros d Hd.
  apply gains_boxes_channel.
Qed.

End BoxGains.

(** In exact arithmetic every entry of the box gradient is the sum of
    the terms of the cells and channels. *)
Lemma box_gradient_closed_form (s : Store Q Q) (B H W C N CH CW : Z)
    (ix0 : list Z) :
  shapes_grad_boxes2 B H W C N CH CW s ->
  exists s', CropAndResizeBackpropBoxes s = Some (tt, s') /\
    Qeq (elt (grads_boxes s') ix0)
        (Qsum 0 N (fun b => Qsum 0 CH (fun y => Qsum 0 CW (fun x =>
           Qsum 0 C (fun d =>
             box_gradient_term s B H W CH CW ix0 b y x d))))).
Proof.
  intros Hsg.
  destruct (CropAndResizeBackpropBoxes_safe Hsg (@Q_boxes_indexable2 _ _ _ _ _ _ _ _ _))
    as (s' & Hrun).
  exists s'. split; [exact Hrun |].
  destruct Hsg as (Hg & Hbx & Hbi & Him & Hgb).
  unfold CropAndResizeBackpropBoxes, bind, get_dim, setZero_grads_boxes,
    dimension in Hrun.
  rewrite Hg, Him in Hrun. cbn [nth] in Hrun.
  pose proof (@gains_for (grad_boxes_pinned s N)
                (fun st => elt (grads_boxes st) ix0) 0 N
                (BackpropBoxes_box B H W CH CW C) _
                (fun b _ => @gains_boxes_box s B H W C N CH CW ix0 b))
    as Hloop.
  specialize (Hloop (set_grads_boxes s (tfill (grads_boxes s) (of_int 0)))).
  unfold wp in Hloop. rewrite Hrun in Hloop.
  destruct Hloop as [_ E]; [repeat split; assumption |].
  rewrite E. cbn [grads_boxes set_grads_boxes tfill elt of_int Q_FloatOps].
  ring.
Qed.

(* ================================================================== *)
(** * The box gradient is the derivative of the crops *)

Lemma Qltb_Qeq a a' b b' :
  (a == a')%Q -> (b == b')%Q -> Qltb a b = Qltb a' b'.
Proof. intros Ha Hb. unfold Qltb. now rewrite Ha, Hb. Qed.

Lemma out_of_image_Qeq (c c' : Q) ext :
  (c == c')%Q -> out_of_image c ext = out_of_image c' ext.
Proof.
  intros Hc. unfold out_of_image. cbn [flt of_int Q_FloatOps].
  rewrite (@Qltb_Qeq c c' (inject_Z 0) (inject_Z 0) Hc (Qeq_refl _)).
  rewrite (@Qltb_Qeq (inject_Z (ext - 1)) (inject_Z (ext - 1)) c c'
             (Qeq_refl _) Hc).
  reflexivity.
Qed.

(** The box-gradient kernel computes the coordinates of the forward
    kernel. *)
Lemma in_coord_ratio_Qeq (p1 p2 : Q) ext crop i :
  (in_coord p1 p2 ext crop
     (ratio_scale p1 p2 (axis_ratio ext crop) crop) i
   == in_coord p1 p2 ext crop (axis_scale p1 p2 ext crop) i)%Q.
Proof.
  unfold in_coord, ratio_scale, axis_ratio, axis_scale.
  destruct (Z.ltb_spec 1 crop); [| reflexivity].
  cbn [fadd fsub fmul fdiv of_int Q_FloatOps].
  field. apply inject_Z_nonzero. lia.
Qed.

(** A move of the first endpoint of an axis by [eps] moves the
    coordinate by what the kernel multiplies the derivative with. *)
Lemma in_coord_nudge1 (p1 p2 eps : Q) ext crop i :
  (in_coord (p1 + eps) p2 ext crop (axis_scale (p1 + eps) p2 ext crop) i
   == in_coord p1 p2 ext crop (axis_scale p1 p2 ext crop) i
      + endpoint1_term eps ext crop (axis_ratio ext crop) i)%Q.
Proof.
  unfold in_coord, axis_scale, endpoint1_term, axis_ratio.
  destruct (Z.ltb_spec 1 crop);
    cbn [fadd fsub fmul fdiv of_int fhalf Q_FloatOps].
  - field. apply inject_Z_nonzero. lia.
  - ring.
Qed.

Lemma in_coord_nudge2 (p1 p2 eps : Q) ext crop i :
  (in_coord p1 (p2 + eps) ext crop (axis_scale p1 (p2 + eps) ext crop) i
   == in_coord p1 p2 ext crop (axis_scale p1 p2 ext crop) i
      + endpoint2_term eps ext crop (axis_ratio ext crop) i)%Q.
Proof.
  unfold in_coord, axis_scale, endpoint2_term, axis_ratio.
  destruct (Z.ltb_spec 1 crop);
    cbn [fadd fsub fmul fdiv of_int fhalf Q_FloatOps].
  - field. apply inject_Z_nonzero. lia.
  - ring.
Qed.

Lemma nudge_box_at (s : Store Q Q) b k eps :
  elt (boxes (nudge_box s b k eps)) [b; k]
  = (elt (boxes s) [b; k] + eps)%Q.
Proof.
  cbn [boxes nudge_box]. unfold tadd_at, tupdate. cbn [elt].
  rewrite (proj2 (idx_eqb_eq _ _) eq_refl). reflexivity.
Qed.

Lemma nudge_box_other (s : Store Q Q) b k eps b' j :
  b' <> b \/ j <> k ->
  elt (boxes (nudge_box s b k eps)) [b'; j] = elt (boxes s) [b'; j].
Proof.
  intros Hne. cbn [boxes nudge_box]. unfold tadd_at, tupdate. cbn [elt].
  destruct (idx_eqb [b'; j] [b; k]) eqn:E; [| reflexivity].
  apply idx_eqb_eq in E. injection E as -> ->. tauto.
Qed.

Lemma hit_same b k v : hit [b; k] [b; k] v = v.
Proof. unfold hit. now rewrite (proj2 (idx_eqb_eq _ _) eq_refl). Qed.

Lemma hit_other b k b' j v :
  b' <> b \/ j <> k -> hit [b; k] [b'; j] v = 0%Q.
Proof.
  intros Hne. unfold hit.
  destruct (idx_eqb [b; k] [b'; j]) eqn:E; [| reflexivity].
  apply idx_eqb_eq in E. injection E as -> ->. tauto.
Qed.

(** Within a cell the bilinear sample is linear along each axis. *)
Lemma bilinear_move_y (img : Tensor Q) b_in (c c' cx dlt : Q) d :
  Qfloor c' = Qfloor c -> Qceiling c' = Qceiling c ->
  (c' == c + dlt)%Q ->
  (bilinear img b_in c' cx d - bilinear img b_in c cx d
   == image_grad_y2
        (elt img [b_in; Qfloor c; Qfloor cx; d])
        (elt img [b_in; Qfloor c; Qceiling cx; d])
        (elt img [b_in; Qceiling c; Qfloor cx; d])
        (elt img [b_in; Qceiling c; Qceiling cx; d])
        (cx - inject_Z (Qfloor cx)) dlt)%Q.
Proof.
  intros F1 F2 E. unfold bilinear, lerp, image_grad_y2.
  cbn [fadd fsub fmul of_int to_float floorf ceilf Q_FloatOps Q_ElemOps].
  rewrite F1, F2, E. ring.
Qed.

Lemma bilinear_move_x (img : Tensor Q) b_in (cy c c' dlt : Q) d :
  Qfloor c' = Qfloor c -> Qceiling c' = Qceiling c ->
  (c' == c + dlt)%Q ->
  (bilinear img b_in cy c' d - bilinear img b_in cy c d
   == image_grad_x2
        (elt img [b_in; Qfloor cy; Qfloor c; d])
        (elt img [b_in; Qfloor cy; Qceiling c; d])
        (elt img [b_in; Qceiling cy; Qfloor c; d])
        (elt img [b_in; Qceiling cy; Qceiling c; d])
        (cy - inject_Z (Qfloor cy)) dlt)%Q.
Proof.
  intros F1 F2 E. unfold bilinear, lerp, image_grad_x2.
  cbn [fadd fsub fmul of_int to_float floorf ceilf Q_FloatOps Q_ElemOps].
  rewrite F1, F2, E. ring.
Qed.

Lemma crop_cell_other_box (s : Store Q Q) e eps B H W CH CW b0 k b y x d :
  b <> b0 ->
  crop_cell (nudge_box s b0 k eps) e B H W CH CW b y x d
  = crop_cell s e B H W CH CW b y x d.
Proof.
  intros Hne. unfold crop_cell.
  change (box_index (nudge_box s b0 k eps)) with (box_index s).
  change (image (nudge_box s b0 k eps)) with (image s).
  change (crops (nudge_box s b0 k eps)) with (crops s).
  rewrite !nudge_box_other by (left; exact Hne). reflexivity.
Qed.

Lemma box_gradient_term_other_box (s : Store Q Q) B H W CH CW b0 k b y x d :
  b <> b0 ->
  Qeq (box_gradient_term s B H W CH CW [b0; k] b y x d) 0%Q.
Proof.
  intros Hne. unfold box_gradient_term.
  rewrite !hit_other by (left; exact Hne).
  destruct (negb _); [reflexivity |]. cbv zeta.
  destruct (out_of_image _ H); [reflexivity |].
  destruct (out_of_image _ W); [reflexivity |]. ring.
Qed.

(* The last step of the four cases below. *)
Ltac derivative_algebra Eyb Exb :=
  unfold image_grad_y2, image_grad_x2, endpoint1_term, endpoint2_term;
  cbn [fadd fsub fmul of_int to_float fhalf Q_FloatOps Q_ElemOps];
  repeat match goal with
         | |- context [1 <? ?c] => destruct (1 <? c)
         end;
  try rewrite Eyb; try rewrite Exb;
  ring.

(** For the box that is moved: the change of a cell, times the incoming
    gradient, is [eps] times what the cell adds to the entry of the box
    gradient. *)
Lemma cell_derivative (s : Store Q Q) (e eps : Q)
    (B H W CH CW b0 k y x d : Z) :
  0 <= k < 4 ->
  same_cell H (in_y_of s H CH b0 y)
    (in_y_of (nudge_box s b0 k eps) H CH b0 y) ->
  same_cell W (in_x_of s W CW b0 x)
    (in_x_of (nudge_box s b0 k eps) W CW b0 x) ->
  ((crop_cell (nudge_box s b0 k eps) e B H W CH CW b0 y x d
    - crop_cell s e B H W CH CW b0 y x d) * elt (grads s) [b0; y; x; d]
   == eps * box_gradient_term s B H W CH CW [b0; k] b0 y x d)%Q.
Proof.
  intros Hk (Fy & Cy & Oy) (Fx & Cx & Ox).
  unfold crop_cell, box_gradient_term.
  change (box_index (nudge_box s b0 k eps)) with (box_index s).
  change (image (nudge_box s b0 k eps)) with (image s).
  change (crops (nudge_box s b0 k eps)) with (crops s).
  destruct (negb (FastBoundsCheck (elt (box_index s) [b0]) B)); [ring |].
  cbv zeta.
  fold (in_y_of (nudge_box s b0 k eps) H CH b0 y).
  fold (in_x_of (nudge_box s b0 k eps) W CW b0 x).
  fold (in_y_of s H CH b0 y). fold (in_x_of s W CW b0 x).
  set (cy := in_y_of s H CH b0 y) in *.
  set (cy' := in_y_of (nudge_box s b0 k eps) H CH b0 y) in *.
  set (cx := in_x_of s W CW b0 x) in *.
  set (cx' := in_x_of (nudge_box s b0 k eps) W CW b0 x) in *.
  set (cyb := in_coord (elt (boxes s) [b0; 0]) (elt (boxes s) [b0; 2]) H CH
                (ratio_scale (elt (boxes s) [b0; 0]) (elt (boxes s) [b0; 2])
                   (axis_ratio H CH) CH) y).
  set (cxb := in_coord (elt (boxes s) [b0; 1]) (elt (boxes s) [b0; 3]) W CW
                (ratio_scale (elt (boxes s) [b0; 1]) (elt (boxes s) [b0; 3])
                   (axis_ratio W CW) CW) x).
  assert (Eyb : (cyb == cy)%Q) by apply in_coord_ratio_Qeq.
  assert (Exb : (cxb == cx)%Q) by apply in_coord_ratio_Qeq.
  rewrite (out_of_image_Qeq H Eyb), (out_of_image_Qeq W Exb).
  rewrite <- Oy, <- Ox.
  destruct (out_of_image cy H); [ring |].
  destruct (out_of_image cx W); [ring |].
  cbn [floorf ceilf Q_FloatOps].
  assert (Fyb : Qfloor cyb = Qfloor cy) by (apply Qfloor_comp; exact Eyb).
  assert (Cyb : Qceiling cyb = Qceiling cy)
    by (apply Qceiling_comp; exact Eyb).
  assert (Fxb : Qfloor cxb = Qfloor cx) by (apply Qfloor_comp; exact Exb).
  assert (Cxb : Qceiling cxb = Qceiling cx)
    by (apply Qceiling_comp; exact Exb).
  rewrite Fyb, Cyb, Fxb, Cxb.
  clearbody cyb cxb.
  assert (Hc : k = 0 \/ k = 1 \/ k = 2 \/ k = 3) by lia.
  destruct Hc as [-> | [-> | [-> | ->]]].
  - (* y1 *)
    assert (Ey : (cy' == cy + endpoint1_term eps H CH (axis_ratio H CH) y)%Q).
    { unfold cy', cy, in_y_of. rewrite nudge_box_at.
      rewrite nudge_box_other by (right; lia). apply in_coord_nudge1. }
    assert (Ex : cx' = cx).
    { unfold cx', cx, in_x_of. rewrite !nudge_box_other by (right; lia).
      reflexivity. }
    rewrite Ex, hit_same, !hit_other by (right; lia).
    rewrite (@bilinear_move_y (image s) (elt (box_index s) [b0])
               cy cy' cx _ d (eq_sym Fy) (eq_sym Cy) Ey).
    clearbody cy cy' cx cx'. derivative_algebra Eyb Exb.
  - (* x1 *)
    assert (Ex : (cx' == cx + endpoint1_term eps W CW (axis_ratio W CW) x)%Q).
    { unfold cx', cx, in_x_of. rewrite nudge_box_at.
      rewrite nudge_box_other by (right; lia). apply in_coord_nudge1. }
    assert (Ey : cy' = cy).
    { unfold cy', cy, in_y_of. rewrite !nudge_box_other by (right; lia).
      reflexivity. }
    rewrite Ey, hit_same, !hit_other by (right; lia).
    rewrite (@bilinear_move_x (image s) (elt (box_index s) [b0])
               cy cx cx' _ d (eq_sym Fx) (eq_sym Cx) Ex).
    clearbody cy cy' cx cx'. derivative_algebra Eyb Exb.
  - (* y2 *)
    assert (Ey : (cy' == cy + endpoint2_term eps H CH (axis_ratio H CH) y)%Q).
    { unfold cy', cy, in_y_of. rewrite nudge_box_at.
      rewrite nudge_box_other by (right; lia). apply in_coord_nudge2. }
    assert (Ex : cx' = cx).
    { unfold cx', cx, in_x_of. rewrite !nudge_box_other by (right; lia).
      reflexivity. }
    rewrite Ex, hit_same, !hit_other by (right; lia).
    rewrite (@bilinear_move_y (image s) (elt (box_index s) [b0])
               cy cy' cx _ d (eq_sym Fy) (eq_sym Cy) Ey).
    clearbody cy cy' cx cx'. derivative_algebra Eyb Exb.
  - (* x2 *)
    assert (Ex : (cx' == cx + endpoint2_term eps W CW (axis_ratio W CW) x)%Q).
    { unfold cx', cx, in_x_of. rewrite nudge_box_at.
      rewrite nudge_box_other by (right; lia). apply in_coord_nudge2. }
    assert (Ey : cy' = cy).
    { unfold cy', cy, in_y_of. rewrite !nudge_box_other by (right; lia).
      reflexivity. }
    rewrite Ey, hit_same, !hit_other by (right; lia).
    rewrite (@bilinear_move_x (image s) (elt (box_index s) [b0])
               cy cx cx' _ d (eq_sym Fx) (eq_sym Cx) Ex).
    clearbody cy cy' cx cx'. derivative_algebra Eyb Exb.
Qed.

(** X29.  The box gradient is the derivative of the crops.  In exact
    arithmetic, move one coordinate of one box by [eps], so little that
    every cell of the box keeps its corner indices and stays in or out
    of the image.  Then the inner product of the crops with the
    incoming gradient changes by [eps] times the entry of that
    coordinate in the box gradient that the 2D kernel computes. *)
Theorem box_gradient_is_derivative (s : Store Q Q) (e eps : Q)
    (B H W C N CH CW b0 k : Z) :
  shapes2 s B H W C N CH CW ->
  dims (grads s) = [N; CH; CW; C] ->
  dims (grads_boxes s) = [N; 4] ->
  0 <= b0 < N -> 0 <= k < 4 ->
  (forall y, 0 <= y < CH ->
     same_cell H (in_y_of s H CH b0 y)
       (in_y_of (nudge_box s b0 k eps) H CH b0 y)) ->
  (forall x, 0 <= x < CW ->
     same_cell W (in_x_of s W CW b0 x)
       (in_x_of (nudge_box s b0 k eps) W CW b0 x)) ->
  exists s1 s2 s3,
    CropAndResize e s = Some (tt, s1) /\
    CropAndResize e (nudge_box s b0 k eps) = Some (tt, s2) /\
    CropAndResizeBackpropBoxes s = Some (tt, s3) /\
    Qeq (dot4 N CH CW C (crops s2) (grads s)
         - dot4 N CH CW C (crops s1) (grads s))
        (eps * elt (grads_boxes s3) [b0; k]).
Proof.
  intros Hs Hg Hgb Hb0 Hk Hy Hx.
  destruct (CropAndResize_correct e Hs (@Q_boxes_indexable2 _ _ _ _ _ _ _ _ _))
    as (s1 & E1 & _ & Hc1).
  assert (Hs' : shapes2 (nudge_box s b0 k eps) B H W C N CH CW).
  { destruct Hs as (H1 & H2 & H3 & H4 & H5).
    repeat split; try assumption; lia. }
  destruct (CropAndResize_correct e Hs' (@Q_boxes_indexable2 _ _ _ _ _ _ _ _ _))
    as (s2 & E2 & _ & Hc2).
  assert (Hsg : shapes_grad_boxes2 B H W C N CH CW s).
  { destruct Hs as (H1 & H2 & H3 & _). repeat split; assumption. }
  destruct (@box_gradient_closed_form s B H W C N CH CW [b0; k] Hsg)
    as (s3 & E3 & Hsum).
  exists s1, s2, s3.
  split; [exact E1 |]. split; [exact E2 |]. split; [exact E3 |].
  rewrite Hsum. unfold dot4.
  rewrite Qsum_minus, Qsum_scale. apply Qsum_ext; intros b Hb.
  rewrite Qsum_minus, Qsum_scale. apply Qsum_ext; intros y Hy'.
  rewrite Qsum_minus, Qsum_scale. apply Qsum_ext; intros x Hx'.
  rewrite Qsum_minus, Qsum_scale. apply Qsum_ext; intros d Hd.
  rewrite (Hc1 b y x d Hb Hy' Hx' Hd), (Hc2 b y x d Hb Hy' Hx' Hd).
  destruct (Z.eq_dec b b0) as [-> | Hne].
  - rewrite <- (@cell_derivative s e eps B H W CH CW b0 k y x d Hk
                  (Hy y Hy') (Hx x Hx')).
    ring.
  - rewrite crop_cell_other_box by exact Hne.
    rewrite box_gradient_term_other_box by exact Hne. ring.
Qed.

(* ================================================================== *)
(** * A volume without slope has no box gradient *)

Section NoSlope3D.

Variable img : Tensor Q.
Variables B H W D C : Z.

Hypothesis img_dims : dims img = [B; H; W; D; C].

Hypothesis no_slope : forall i y x z y' x' z' d,
  0 <= i < B -> 0 <= y < H -> 0 <= x < W -> 0 <= z < D ->
  0 <= y' < H -> 0 <= x' < W -> 0 <= z' < D -> 0 <= d < C ->
  Qeq (elt img [i; y; x; z; d]) (elt img [i; y'; x'; z'; d]).

Let I := box_gradient_null img.

Let voxel (i y x z d : Z) (a : Q) : Prop :=
  a = elt img [i; y; x; z; d] /\
  (0 <= i < B /\ 0 <= y < H /\ 0 <= x < W /\ 0 <= z < D /\ 0 <= d < C).

Lemma keeps_read_voxel {A} i y x z d (k : Q -> M Q Q A) :
  (forall a, voxel i y x z d a -> keeps I (k a)) ->
  keeps I (bind (read image [i; y; x; z; d]) k).
Proof.
  apply keeps_read. intros s [Himg _] Hin. rewrite Himg in *.
  split; [reflexivity |]. rewrite img_dims in Hin.
  now apply in_range5 in Hin.
Qed.

Lemma BackpropBoxes3D_channel_null CH CW CD b b_in hr wr dr y x z
    top bottom y_lerp left right x_lerp front back z_lerp d :
  keeps I
    (BackpropBoxes3D_channel H W D CH CW CD b b_in hr wr dr y x z
       top bottom y_lerp left right x_lerp front back z_lerp d).
Proof.
  unfold BackpropBoxes3D_channel.
  apply keeps_read_voxel. intros tlf (-> & Hi & Ht & Hl & Hf & Hd).
  apply keeps_read_voxel. intros trf (-> & _ & _ & Hr & _).
  apply keeps_read_voxel. intros blf (-> & _ & Hb & _).
  apply keeps_read_voxel. intros brf (-> & _).
  apply keeps_read_voxel. intros tlb (-> & _ & _ & _ & Hk & _).
  apply keeps_read_voxel. intros trb (-> & _).
  apply keeps_read_voxel. intros blb (-> & _).
  apply keeps_read_voxel. intros brb (-> & _).
  pose proof (no_slope Hi Ht Hr Hf Ht Hl Hf Hd) as E1.
  pose proof (no_slope Hi Hb Hl Hf Ht Hl Hf Hd) as E2.
  pose proof (no_slope Hi Hb Hr Hf Ht Hl Hf Hd) as E3.
  pose proof (no_slope Hi Ht Hl Hk Ht Hl Hf Hd) as E4.
  pose proof (no_slope Hi Ht Hr Hk Ht Hl Hf Hd) as E5.
  pose proof (no_slope Hi Hb Hl Hk Ht Hl Hf Hd) as E6.
  pose proof (no_slope Hi Hb Hr Hk Ht Hl Hf Hd) as E7.
  cbv zeta.
  apply keeps_read with (P := fun _ => True); [auto |].
  intros top_grad _. cbv zeta.
  cbn [fadd fsub fmul of_int to_float fhalf Q_FloatOps Q_ElemOps].
  destruct (1 <? CH); destruct (1 <? CW); destruct (1 <? CD);
    (apply keeps_bind;
     [ apply keeps_seq_null; [| apply keeps_add_null]
     | intros []; apply keeps_bind;
       [ apply keeps_seq_null; [| apply keeps_add_null]
       | intros []; apply keeps_seq_null; [| apply keeps_add_null] ] ]);
    rewrite ?E1, ?E2, ?E3, ?E4, ?E5, ?E6, ?E7; ring.
Qed.

Lemma BackpropBoxes3D_box_null batch_size CH CW CD b :
  keeps I (BackpropBoxes3D_box batch_size H W D CH CW CD C b).
Proof.
  unfold BackpropBoxes3D_box.
  do 7 (apply keeps_read with (P := fun _ => True); [auto |];
        intros ? _).
  destruct (negb _); [apply keeps_ret |]. cbv zeta.
  apply keeps_for. intros y _. unfold BackpropBoxes3D_row. cbv zeta.
  destruct (out_of_image _ H); [apply keeps_ret |].
  apply keeps_for. intros x _. unfold BackpropBoxes3D_col. cbv zeta.
  destruct (out_of_image _ W); [apply keeps_ret |].
  apply keeps_for. intros z _. unfold BackpropBoxes3D_slice. cbv zeta.
  destruct (out_of_image _ D); [apply keeps_ret |].
  apply keeps_for. intros d _. apply BackpropBoxes3D_channel_null.
Qed.

End NoSlope3D.

(** X30.  A volume without slope has no box gradient: when every
    channel of every volume of the batch is constant over the voxels,
    every entry of the box gradient that the 3D kernel computes is 0,
    whatever the boxes and the incoming gradient are. *)
Theorem constant_volume_box_gradient_zero (s : Store Q Q)
    (B H W D C N CH CW CD : Z) :
  shapes_grad_boxes3 B H W D C N CH CW CD s ->
  (forall i y x z y' x' z' d,
     0 <= i < B -> 0 <= y < H -> 0 <= x < W -> 0 <= z < D ->
     0 <= y' < H -> 0 <= x' < W -> 0 <= z' < D -> 0 <= d < C ->
     Qeq (elt (image s) [i; y; x; z; d])
         (elt (image s) [i; y'; x'; z'; d])) ->
  exists s', CropAndResizeBackpropBoxes3D s = Some (tt, s') /\
    forall b k, Qeq (elt (grads_boxes s') [b; k]) 0%Q.
Proof.
  intros Hsg Hflat.
  destruct (CropAndResizeBackpropBoxes3D_safe Hsg (@Q_boxes_indexable3 _ _ _ _ _ _ _ _ _ _ _))
    as (s' & Hrun).
  exists s'. split; [exact Hrun |].
  destruct Hsg as (Hg & Hbx & Hbi & Him & Hgb).
  unfold CropAndResizeBackpropBoxes3D, bind, get_dim,
    setZero_grads_boxes, dimension in Hrun.
  rewrite Hg, Him in Hrun. cbn [nth] in Hrun.
  pose proof (@keeps_for Q Q (box_gradient_null (image s)) 0 N
                (BackpropBoxes3D_box B H W D CH CW CD C)
                (fun b _ =>
                   @BackpropBoxes3D_box_null (image s) B H W D C Him Hflat
                     B CH CW CD b))
    as Hloop.
  specialize (Hloop (set_grads_boxes s (tfill (grads_boxes s) (of_int 0)))).
  unfold wp in Hloop. rewrite Hrun in Hloop.
  destruct Hloop as [_ Hz].
  - split; [reflexivity |]. intros ix. reflexivity.
  - intros b k. apply Hz.
Qed.

(* ================================================================== *)
(** * The further theorems at concrete stores and contexts *)

Lemma store2_shapes_grad_image indices fill :
  shapes_grad_image2 1 2 2 1 3 2 2 (store2 indices fill).
Proof. repeat split; reflexivity. Qed.

Lemma store2_shapes_grad_boxes indices fill :
  shapes_grad_boxes2 1 2 2 1 3 2 2 (store2 indices fill).
Proof. repeat split; reflexivity. Qed.

Lemma store3_shapes_grad_image indices fill :
  shapes_grad_image3 1 2 2 2 1 3 2 2 2 (store3 indices fill).
Proof. repeat split; reflexivity. Qed.

Lemma store3_shapes_grad_boxes indices fill :
  shapes_grad_boxes3 1 2 2 2 1 3 2 2 2 (store3 indices fill).
Proof. repeat split; reflexivity. Qed.

Lemma store2_indices_valid fill :
  box_indices_valid (store2 [0; 0; 0] fill) 3 1.
Proof.
  intros b Hb. assert (Hc : b = 0 \/ b = 1 \/ b = 2) by lia.
  destruct Hc as [-> | [-> | ->]];
    vm_compute; (split; [discriminate | reflexivity]).
Qed.

(** The coordinates of the scenario in single precision are
    indexable, with the scale of either kind of kernel. *)
Lemma identity_store32_indexable :
  boxes_indexable2 axis_scale
    (boxes identity_store32) (box_index identity_store32) 1 2 2 1 2 2.
Proof.
  intros b Hb _. assert (b = 0) as -> by lia.
  split; intros i Hi; assert (Hc : i = 0 \/ i = 1) by lia;
    destruct Hc as [-> | ->]; vm_compute; reflexivity.
Qed.

Lemma identity_store32_indexable_boxes :
  boxes_indexable2 axis_scale_boxes
    (boxes identity_store32) (box_index identity_store32) 1 2 2 1 2 2.
Proof.
  intros b Hb _. assert (b = 0) as -> by lia.
  split; intros i Hi; assert (Hc : i = 0 \/ i = 1) by lia;
    destruct Hc as [-> | ->]; vm_compute; reflexivity.
Qed.

Lemma CropAndResize_memory_safe_witness :
  exists s', CropAndResize (f32 0) identity_store32 = Some (tt, s') /\
    crops_frame identity_store32 s'.
Proof.
  apply (@CropAndResize_memory_safe _ _ _ _
           identity_store32 (f32 0) 1 2 2 1 1 2 2).
  - repeat split; try reflexivity; lia.
  - apply identity_store32_indexable.
Defined.

Lemma CropAndResizeBackpropImage_memory_safe_witness :
  exists s',
    CropAndResizeBackpropImage identity_store32 = Some (tt, s') /\
    grads_image_frame identity_store32 s'.
Proof.
  apply (@CropAndResizeBackpropImage_memory_safe _ _ _ _
           identity_store32 1 2 2 1 1 2 2).
  - repeat split; reflexivity.
  - apply identity_store32_indexable.
Defined.

Lemma CropAndResizeBackpropBoxes_memory_safe_witness :
  exists s',
    CropAndResizeBackpropBoxes identity_store32 = Some (tt, s') /\
    grads_boxes_frame identity_store32 s'.
Proof.
  apply (@CropAndResizeBackpropBoxes_memory_safe _ _ _ _
           identity_store32 1 2 2 1 1 2 2).
  - repeat split; reflexivity.
  - apply identity_store32_indexable_boxes.
Defined.

Lemma CropAndResizeBackpropBoxes3D_memory_safe_witness :
  exists s',
    CropAndResizeBackpropBoxes3D (store3 [0; 0; 5] 9%Q) = Some (tt, s') /\
    grads_boxes_frame (store3 [0; 0; 5] 9%Q) s'.
Proof.
  apply (@CropAndResizeBackpropBoxes3D_memory_safe Q Q _ _
           (store3 [0; 0; 5] 9%Q) 1 2 2 2 1 3 2 2 2).
  - apply store3_shapes_grad_boxes.
  - apply Q_boxes_indexable3.
Defined.

Lemma CropAndResize3D_safe_when_deep_witness :
  exists s', CropAndResize3D 0%Q (store3 [0; 0; 5] 9%Q) = Some (tt, s') /\
    crops_frame (store3 [0; 0; 5] 9%Q) s'.
Proof.
  destruct (@CropAndResize3D_safe_when_deep Q Q _ _
              (store3 [0; 0; 5] 9%Q) 0%Q 1 2 2 2 1 3 2 2 2)
    as (s' & Hrun & Hframe & _).
  - apply store3_shapes.
  - apply Q_boxes_indexable3.
  - lia.
  - exists s'. split; [exact Hrun | exact Hframe].
Defined.

Lemma CropAndResizeBackpropImage3D_safe_when_deep_witness :
  exists s',
    CropAndResizeBackpropImage3D (store3 [0; 0; 5] 9%Q) = Some (tt, s') /\
    grads_image_frame (store3 [0; 0; 5] 9%Q) s'.
Proof.
  apply (@CropAndResizeBackpropImage3D_safe_when_deep Q Q _ _
           (store3 [0; 0; 5] 9%Q) 1 2 2 2 1 3 2 2 2).
  - apply store3_shapes_grad_image.
  - apply Q_boxes_indexable3.
  - lia.
Defined.

Lemma CropAndResize_idempotent_witness :
  exists s1 s2,
    CropAndResize (f32 0) identity_store32 = Some (tt, s1) /\
    CropAndResize (f32 0) s1 = Some (tt, s2) /\
    same_tensor (crops s1) (crops s2).
Proof.
  destruct (CropAndResize (f32 0) identity_store32) as [[[] s1]|] eqn:E.
  - destruct (@CropAndResize_idempotent _ _ _ _
                identity_store32 s1 (f32 0) 1 2 2 1 1 2 2)
      as (s2 & E2 & Hsame).
    + repeat split; try reflexivity; lia.
    + exact E.
    + exists s1, s2. split; [reflexivity |]. split; assumption.
  - vm_compute in E. discriminate.
Defined.

Lemma CropAndResize_pixel_aligned_witness :
  exists s', CropAndResize 0%Q identity_store = Some (tt, s') /\
    forall y x d, 0 <= y < 2 -> 0 <= x < 2 -> 0 <= d < 1 ->
      Qeq (elt (crops s') [0; y; x; d])
          (elt (image identity_store)
             [elt (box_index identity_store) [0]; 0 + 1 * y; 0 + 1 * x; d]).
Proof.
  apply (@CropAndResize_pixel_aligned identity_store 0%Q
           1 2 2 1 1 2 2 0 0 1 0 1);
    try (vm_compute; reflexivity); try lia.
  - repeat split; try reflexivity; lia.
  - vm_compute. split; [discriminate | reflexivity].
Defined.

Lemma CropAndResize_within_range_witness :
  exists s', CropAndResize 0%Q (store2 [0; 0; 5] 9%Q) = Some (tt, s') /\
    forall b y x d,
      0 <= b < 3 -> 0 <= y < 2 -> 0 <= x < 2 -> 0 <= d < 1 ->
      0 <= elt (box_index (store2 [0; 0; 5] 9%Q)) [b] < 1 ->
      (0 <= elt (crops s') (b :: y :: x :: d :: nil) <= 3)%Q.
Proof.
  apply (@CropAndResize_within_range (store2 [0; 0; 5] 9%Q) 0%Q
           1 2 2 1 3 2 2 0%Q 3%Q).
  - apply store2_shapes.
  - intros ix Hin.
    destruct (in_range4_inv _ _ _ _ _ Hin)
      as (b & y & x & d & -> & Hb & Hy & Hx & Hd).
    assert (b = 0) as -> by lia. assert (d = 0) as -> by lia.
    assert (Hyc : y = 0 \/ y = 1) by lia.
    assert (Hxc : x = 0 \/ x = 1) by lia.
    destruct Hyc as [-> | ->]; destruct Hxc as [-> | ->];
      vm_compute; (split; discriminate).
  - vm_compute. split; discriminate.
Defined.

Lemma unreferenced_image_gradient_zero_witness :
  exists s',
    CropAndResizeBackpropImage (store2 [5; 5; 5] 9%Q) = Some (tt, s') /\
    forall y x d, elt (grads_image s') [0; y; x; d] = 0%Q.
Proof.
  assert (Hno : forall b, 0 <= b < 3 ->
                 elt (box_index (store2 [5; 5; 5] 9%Q)) [b] <> 0).
  { intros b Hb. assert (Hc : b = 0 \/ b = 1 \/ b = 2) by lia.
    destruct Hc as [-> | [-> | ->]]; vm_compute; discriminate. }
  destruct (@unreferenced_image_gradient_zero Q Q _ _
              (store2 [5; 5; 5] 9%Q) 1 2 2 1 3 2 2 0
              (store2_shapes_grad_image [5; 5; 5] 9%Q) Hno)
    as [Hzero Hreturns].
  destruct (Hreturns (@Q_boxes_indexable2 _ _ _ _ _ _ _ _ _)) as (s' & E).
  exists s'. split; [exact E | exact (Hzero s' E)].
Defined.

Lemma unreferenced_image_gradient_zero_3D_witness :
  exists s',
    CropAndResizeBackpropImage3D (store3 [5; 5; 5] 9%Q) = Some (tt, s') /\
    forall y x z d, elt (grads_image s') [0; y; x; z; d] = 0%Q.
Proof.
  refine (@unreferenced_image_gradient_zero_3D Q Q _ _
            (store3 [5; 5; 5] 9%Q) 1 2 2 2 1 3 2 2 2 0 _ _ _ _).
  - apply store3_shapes_grad_image.
  - apply Q_boxes_indexable3.
  - lia.
  - intros b Hb. assert (Hc : b = 0 \/ b = 1 \/ b = 2) by lia.
    destruct Hc as [-> | [-> | ->]]; vm_compute; discriminate.
Defined.

Lemma unused_box_gradient_zero_witness :
  exists s',
    CropAndResizeBackpropBoxes (store2 [0; 0; 5] 9%Q) = Some (tt, s') /\
    forall k, elt (grads_boxes s') [2; k] = 0%Q.
Proof.
  destruct (@unused_box_gradient_zero Q Q _ _
              (store2 [0; 0; 5] 9%Q) 1 2 2 1 3 2 2 2
              (store2_shapes_grad_boxes [0; 0; 5] 9%Q))
    as [Hzero Hreturns].
  - lia.
  - intros y x _ _ [Hv _]. vm_compute in Hv. destruct Hv as [_ Hc].
    discriminate.
  - destruct (Hreturns (@Q_boxes_indexable2 _ _ _ _ _ _ _ _ _))
      as (s' & E).
    exists s'. split; [exact E | exact (Hzero s' E)].
Defined.

Lemma unused_box_gradient_zero_3D_witness :
  exists s',
    CropAndResizeBackpropBoxes3D (store3 [0; 0; 5] 9%Q) = Some (tt, s') /\
    forall k, elt (grads_boxes s') [2; k] = 0%Q.
Proof.
  destruct (@unused_box_gradient_zero_3D Q Q _ _
              (store3 [0; 0; 5] 9%Q) 1 2 2 2 1 3 2 2 2 2
              (store3_shapes_grad_boxes [0; 0; 5] 9%Q))
    as [Hzero Hreturns].
  - lia.
  - intros y x z _ _ _ [Hv _]. vm_compute in Hv. destruct Hv as [_ Hc].
    discriminate.
  - destruct (Hreturns (@Q_boxes_indexable3 _ _ _ _ _ _ _ _ _ _ _))
      as (s' & E).
    exists s'. split; [exact E | exact (Hzero s' E)].
Defined.

Lemma image_gradient_is_adjoint_witness :
  exists s1 s2,
    CropAndResize 0%Q (store2 [0; 0; 0] 9%Q) = Some (tt, s1) /\
    CropAndResizeBackpropImage (store2 [0; 0; 0] 9%Q) = Some (tt, s2) /\
    Qeq (dot4 3 2 2 1 (crops s1) (grads (store2 [0; 0; 0] 9%Q)))
        (dot4 1 2 2 1 (image (store2 [0; 0; 0] 9%Q)) (grads_image s2)).
Proof.
  apply (@image_gradient_is_adjoint (store2 [0; 0; 0] 9%Q) 1 2 2 1 3 2 2).
  - apply store2_shapes.
  - reflexivity.
  - reflexivity.
  - apply store2_indices_valid.
Defined.

Lemma RunIfBoxIndexIsValid_runs_witness :
  RunIfBoxIndexIsValid (tensor_of_list [3] 0 [0; 0; 5]) 1 None
    (Some (fun c => Some c)) (context_of (store2 [0; 0; 5] 9%Q) [2; 2])
  = Some (SetStatus
            (OutOfRange [Str "box_index has values outside [0, batch_size)"])
            (context_of (store2 [0; 0; 5] 9%Q) [2; 2])).
Proof.
  apply (proj2 (@RunIfBoxIndexIsValid_runs Q Q
                  (tensor_of_list [3] 0 [0; 0; 5]) 1 3 None
                  (Some (fun c => Some c))
                  (context_of (store2 [0; 0; 5] 9%Q) [2; 2])
                  eq_refl ltac:(lia))).
  exists 2. split; [lia |]. vm_compute. intros [_ Hc]. discriminate.
Defined.

Lemma CropAndResizeOp_computes_witness :
  exists s',
    CropAndResizeOp_ComputeAsync 0%Q (filled_allocator 7%Q)
      (Some (fun c => Some c)) (context_of (store2 [0; 0; 0] 9%Q) [2; 2])
    = Some (with_tensors s' (context_of (store2 [0; 0; 0] 9%Q) [2; 2])) /\
    dims (crops s') = [3; 2; 2; 1].
Proof.
  destruct (proj1 (@CropAndResizeOp_computes Q Q _ _ 0%Q
                     (filled_allocator 7%Q) (fun c => Some c)
                     (context_of (store2 [0; 0; 0] 9%Q) [2; 2])
                     1 2 2 1 3 2 2
                     eq_refl ltac:(lia) ltac:(lia) ltac:(lia) eq_refl
                     eq_refl ltac:(lia) eq_refl eq_refl eq_refl
                     ltac:(lia) ltac:(lia) eq_refl)
              (store2_indices_valid 9%Q)
              (@Q_boxes_indexable2 _ _ _ _ _ _ _ _ _))
    as (s' & Hrun & _ & _ & _ & Hd & _).
  exists s'. split; [exact Hrun | exact Hd].
Defined.

Lemma CropAndResizeOp_never_undefined_witness :
  exists context',
    CropAndResizeOp_ComputeAsync 0%Q (filled_allocator 7%Q)
      (Some (fun c => Some c)) (context_of (store2 [0; 0; 5] 9%Q) [2; 2])
    = Some context'.
Proof.
  apply (@CropAndResizeOp_never_undefined Q Q _ _ 0%Q
           (filled_allocator 7%Q) (fun c => c)
           (context_of (store2 [0; 0; 5] 9%Q) [2; 2]));
    try apply Q_boxes_indexable2;
    try reflexivity; repeat constructor; cbn; lia.
Defined.

Lemma CropAndResizeOp3D_never_undefined_witness :
  exists context',
    CropAndResizeOp3D_ComputeAsync 0%Q (filled_allocator 7%Q)
      (Some (fun c => Some c))
      (context_of (store3 [0; 0; 5] 9%Q) [2; 2; 2])
    = Some context'.
Proof.
  apply (@CropAndResizeOp3D_never_undefined Q Q _ _ 0%Q
           (filled_allocator 7%Q) (fun c => c)
           (context_of (store3 [0; 0; 5] 9%Q) [2; 2; 2]));
    try apply Q_boxes_indexable3;
    try reflexivity; try (cbn; lia); repeat constructor; cbn; lia.
Defined.

Lemma CropAndResizeGradImageOp_never_undefined_witness :
  exists context',
    CropAndResizeGradImageOp_ComputeAsync (filled_allocator 7%Q)
      (Some (fun c => Some c))
      (context_of (store2 [0; 0; 5] 9%Q) [1; 2; 2; 1])
    = Some context'.
Proof.
  apply (@CropAndResizeGradImageOp_never_undefined Q Q _ _
           (filled_allocator 7%Q) (fun c => c)
           (context_of (store2 [0; 0; 5] 9%Q) [1; 2; 2; 1]));
    try apply Q_boxes_indexable2;
    try reflexivity; try (cbn; lia); repeat constructor; cbn; lia.
Defined.

Lemma CropAndResizeGradImageOp3D_never_undefined_witness :
  exists context',
    CropAndResizeGradImageOp3D_ComputeAsync (filled_allocator 7%Q)
      (Some (fun c => Some c))
      (context_of (store3 [0; 0; 5] 9%Q) [1; 2; 2; 2; 1])
    = Some context'.
Proof.
  apply (@CropAndResizeGradImageOp3D_never_undefined Q Q _ _
           (filled_allocator 7%Q) (fun c => c)
           (context_of (store3 [0; 0; 5] 9%Q) [1; 2; 2; 2; 1]));
    try apply Q_boxes_indexable3;
    try reflexivity; try (cbn; lia); repeat constructor; cbn; lia.
Defined.

Lemma CropAndResizeGradBoxesOp_never_undefined_witness :
  exists context',
    CropAndResizeGradBoxesOp_ComputeAsync (filled_allocator 7%Q)
      (Some (fun c => Some c)) (context_of (store2 [0; 0; 5] 9%Q) [])
    = Some context'.
Proof.
  apply (@CropAndResizeGradBoxesOp_never_undefined Q Q _ _
           (filled_allocator 7%Q) (fun c => c)
           (context_of (store2 [0; 0; 5] 9%Q) []));
    try apply Q_boxes_indexable2;
    try reflexivity; repeat constructor; cbn; lia.
Defined.

Lemma CropAndResizeGradBoxesOp3D_never_undefined_witness :
  exists context',
    CropAndResizeGradBoxesOp3D_ComputeAsync (filled_allocator 7%Q)
      (Some (fun c => Some c)) (context_of (store3 [0; 0; 5] 9%Q) [])
    = Some context'.
Proof.
  apply (@CropAndResizeGradBoxesOp3D_never_undefined Q Q _ _
           (filled_allocator 7%Q) (fun c => c)
           (context_of (store3 [0; 0; 5] 9%Q) []));
    try apply Q_boxes_indexable3;
    try reflexivity; repeat constructor; cbn; lia.
Defined.

Lemma image_gradient_conserved_witness :
  exists s',
    CropAndResizeBackpropImage (store2 [0; 0; 0] 9%Q) = Some (tt, s') /\
    Qeq (total4 1 2 2 1 (grads_image s'))
        (Qsum 0 3 (fun b => Qsum 0 2 (fun y => Qsum 0 2 (fun x =>
           Qsum 0 1 (fun d =>
             used_grad (store2 [0; 0; 0] 9%Q) 2 2 2 2 b y x d))))).
Proof.
  apply (@image_gradient_conserved (store2 [0; 0; 0] 9%Q) 1 2 2 1 3 2 2).
  - apply store2_shapes_grad_image.
  - apply store2_indices_valid.
Defined.

Lemma constant_image_box_gradient_zero_witness :
  exists s', CropAndResizeBackpropBoxes flat_store = Some (tt, s') /\
    forall b k, Qeq (elt (grads_boxes s') [b; k]) 0%Q.
Proof.
  apply (@constant_image_box_gradient_zero flat_store 1 2 2 1 1 2 2).
  - repeat split; reflexivity.
  - intros i y x y' x' d _ _ _ _ _ _.
    unfold flat_store, tensor_of_list. cbn [image elt].
    destruct (Z.to_nat _); destruct (Z.to_nat _); reflexivity.
Defined.

Lemma CropAndResizeOp_ok_means_computed_witness :
  match CropAndResizeOp_ComputeAsync 0%Q (filled_allocator 7%Q)
          (Some (fun c => Some c))
          (context_of (store2 [0; 0; 0] 9%Q) [2; 2]) with
  | Some context' =>
      box_indices_valid (store2 [0; 0; 0] 9%Q) 3 1 /\
      dims (crops (tensors context')) = [3; 2; 2; 1]
  | None => False
  end.
Proof.
  destruct (CropAndResizeOp_ComputeAsync 0%Q (filled_allocator 7%Q)
              (Some (fun c => Some c))
              (context_of (store2 [0; 0; 0] 9%Q) [2; 2]))
    as [context' |] eqn:E.
  - assert (Hok' : ok (status context') = true).
    { vm_compute in E. injection E as <-. reflexivity. }
    destruct (@CropAndResizeOp_ok_means_computed Q Q _ _ 0%Q
                (filled_allocator 7%Q)
                (context_of (store2 [0; 0; 0] 9%Q) [2; 2]) context'
                eq_refl E Hok')
      as (B & H & W & C & N & CH & CW & Himg & Hbi & Hd & Hv & _).
    injection Himg as <- _ _ _. injection Hbi as <-.
    split; [exact Hv |]. rewrite Hd.
    vm_compute in E. injection E as <-. cbn in Hd.
    injection Hd as <- <- <-. reflexivity.
  - vm_compute in E. discriminate.
Defined.

Lemma shards_in_any_order_witness :
  exists s1 s2,
    CropAndResize 0%Q (store2 [0; 0; 5] 9%Q) = Some (tt, s1) /\
    run_shards (CropAndResizePerBox 1 2 2 2 2 1 0%Q) [(1, 3); (0, 2)]
      (store2 [0; 0; 5] 9%Q) = Some (tt, s2) /\
    same_tensor (crops s1) (crops s2).
Proof.
  apply (@shards_in_any_order Q Q _ _
           (store2 [0; 0; 5] 9%Q) 0%Q 1 2 2 1 3 2 2 [(1, 3); (0, 2)]).
  - apply store2_shapes.
  - apply Q_boxes_indexable2.
  - repeat constructor; cbn; lia.
  - intros b Hb. assert (Hc : b = 0 \/ b = 1 \/ b = 2) by lia.
    destruct Hc as [-> | [-> | ->]]; reflexivity.
Defined.

Lemma box_gradient_is_derivative_witness :
  exists s1 s2 s3,
    CropAndResize 0%Q inner_store = Some (tt, s1) /\
    CropAndResize 0%Q (nudge_box inner_store 0 0 (1 # 8)) = Some (tt, s2) /\
    CropAndResizeBackpropBoxes inner_store = Some (tt, s3) /\
    Qeq (dot4 1 2 2 1 (crops s2) (grads inner_store)
         - dot4 1 2 2 1 (crops s1) (grads inner_store))
        ((1 # 8) * elt (grads_boxes s3) [0; 0]).
Proof.
  apply (@box_gradient_is_derivative inner_store 0%Q (1 # 8)
           1 2 2 1 1 2 2 0 0).
  - repeat split; try reflexivity; lia.
  - reflexivity.
  - reflexivity.
  - lia.
  - lia.
  - intros y Hy. assert (Hc : y = 0 \/ y = 1) by lia.
    destruct Hc as [-> | ->]; vm_compute; repeat split; reflexivity.
  - intros x Hx. assert (Hc : x = 0 \/ x = 1) by lia.
    destruct Hc as [-> | ->]; vm_compute; repeat split; reflexivity.
Defined.

Lemma constant_volume_box_gradient_zero_witness :
  exists s', CropAndResizeBackpropBoxes3D flat_store3 = Some (tt, s') /\
    forall b k, Qeq (elt (grads_boxes s') [b; k]) 0%Q.
Proof.
  apply (@constant_volume_box_gradient_zero flat_store3
           1 2 2 2 1 1 2 2 2).
  - repeat split; reflexivity.
  - intros i y x z y' x' z' d _ _ _ _ _ _ _ _.
    unfold flat_store3, tensor_of_list. cbn [image elt].
    destruct (Z.to_nat _); destruct (Z.to_nat _); reflexivity.
Defined.
